(* ===== verification/_CoqProject ===== *)
-Q . S2P
Prelude.v
GoStrings.v
GoJson.v
GoJsonFacts.v
GoRaw.v
GoBase64.v
GoTime.v
Signing.v
SigningFacts.v
SigningTheorems.v
Regex.v
Errors.v
Registry.v
RegistryFacts.v
NetIP.v
NetPrefix.v
GoAny.v
GoDecode.v
GoUrl.v
GoUrlFacts.v
Ssh.v
SshFacts.v
SshCleanup.v
Secrets.v
Providers.v
SshAccess.v
When.v
WhenFacts.v
Pack.v
PackFacts.v
Sweep.v
SweepFacts.v
Arp.v
Inventory.v
Ldap.v
LdapFacts.v
Discovery.v
DiscoveryFacts.v
DiscoveryWitness.v
Handler.v
HandlerFacts.v
HandlerWitness.v
Client.v
Session.v
Redis.v
RedisFacts.v
GoFold.v
Http.v
ServiceMap.v
HttpFacts.v
ServiceMapFacts.v
Db.v
DbFacts.v
Mcp.v
McpFacts.v
McpProcess.v
McpProcessFacts.v
McpRemoval.v
Kafka.v
KafkaFacts.v
Scram.v
Accounting.v
Mongo.v
MongoFacts.v
DbPools.v
Flags.v
Commands.v
CommandsFacts.v
App.v
AppFacts.v
Main.v
Service.v
