(* ===== verification/Prelude.v ===== *)
(** * Forager: a verification development

    Forager is an agent that runs inside a private network. It keeps one outgoing
    websocket connection to a relay, receives signed messages over it, and answers
    them by talking to datasources (HTTP and SQL servers, Redis, MongoDB, Kafka, SSH
    hosts, MCP servers, whole networks to discover) with credentials that never leave
    it. Its commands run discovery without a relay.

    ** The program and its model

    A message is authenticated and dispatched by the handler (src/pkg/ws/handler.go),
    which keeps the registry of datasource proxies (src/pkg/proxy/registry.go) in
    step with the configuration the relay pushes, resolves credentials through the
    secrets manager (src/pkg/secrets), and sends an action to a proxy. A proxy
    (src/pkg/proxy/<kind>) is a state that Configure builds, HandleRequest and
    HealthCheck read, and Close ends. Each file below models a part; its operations
    are functions on an explicit state, failures are values of [result], panics of
    [outcome]; what the network, a driver, a clock or a random source answers is an
    argument, as a function or a record. Where goroutines share a state under a lock,
    each locked part is one function and interleavings are the reflexive transitive
    closure of a step relation.

    - [Prelude]: 64-bit integers, errors with their wrapped tags, the result and
      outcome monads, shared lemmas; the order in which Go visits a map is the class
      [MapOrder], an arbitrary permutation.
    - The Go library as far as the program uses it: [GoStrings] (strings, strconv,
      UTF-8), [GoJson] and [GoJsonFacts] (encoding/json on trees that keep the text of
      numbers, with parse-print round trips), [GoRaw] (json.RawMessage: members as text,
      compaction, and that compacted text keeps its value), [GoFold] (strings.EqualFold
      with Unicode's case folding), [GoAny] (values of type any, float64 by
      [SpecFloat]), [GoDecode] (a map decoded into a structure), [Flags] (the flag
      package and the numbers it reads), [GoBase64], [GoTime], [GoUrl] and [GoUrlFacts] (net/url), [NetIP]
      and [NetPrefix] (net, net/netip), [Regex] (a backtracking matcher for the
      expressions of the program).
    - [Signing], [SigningFacts], [SigningTheorems]: src/pkg/signing. Ed25519 is the
      class [Ed25519] with its laws.
    - [Errors]: src/pkg/proxy/errors.go, classification and redaction of errors.
    - [Registry], [RegistryFacts]: src/pkg/proxy/registry.go, and an abstract registry
      with one slot per datasource that it refines.
    - [Ssh], [SshFacts]: src/pkg/proxy/ssh, with its allowlist and connection pool;
      [SshCleanup]: the goroutines that clean the pool up.
    - [Secrets]: src/pkg/secrets/manager.go and cloud_push.go. AES-GCM is a class with
      its round trip as law; the file system is an argument. [Providers]: aws_sm.go,
      gcp_sm.go, azure_kv.go as instances of the class [SecretProvider] (provider.go),
      their lazy initialisation by the laws of [LazyProvider].
    - [SshAccess], [When], [WhenFacts], [Pack], [PackFacts], [Sweep], [SweepFacts], [Arp],
      [Inventory], [Ldap], [LdapFacts], [Discovery], [DiscoveryFacts],
      [DiscoveryWitness]: src/pkg/proxy/discovery: guards and signed packs, network
      sweeps, inventory over SSH, directories, and the proxy over them.
    - [Handler], [HandlerFacts], [HandlerWitness]: src/pkg/ws/handler.go.
    - [Client]: src/pkg/ws/client.go: back-off, send queue, health trigger and the
      messages it composes. [Session]: the goroutines of its sessions, in steps that
      let calls on the connection overlap.
    - [Http], [HttpFacts]: src/pkg/proxy/http/proxy.go. [ServiceMap],
      [ServiceMapFacts]: src/pkg/proxy/http/vmservicemap.go.
    - [Db], [DbFacts]: src/pkg/proxy/db. [Redis], [RedisFacts]: src/pkg/proxy/redis.
    - [Mcp], [McpFacts]: src/pkg/proxy/mcp: sessions, tokens, event streams.
      [McpProcess], [McpProcessFacts]: stdio.go, stdio_unix.go and stdio_windows.go: the
      requests that share a process, step by step, its start, health and end, with
      os/exec as far as they use it. [McpRemoval]: such a datasource in the registry.
    - [Kafka], [KafkaFacts]: src/pkg/proxy/kafka/proxy.go over the library's class
      [Sarama], and its documented contract [SaramaDocs]; [Scram]: scram.go over the
      class [ScramLib]. [Mongo], [MongoFacts]:
      src/pkg/proxy/mongodb. [Accounting]: the interface [ClientHolder] of a proxy that
      holds one client, which [MongoFacts] and [DbPools] implement.
    - [App], [AppFacts]: src/pkg/config/config.go and src/cmd/app.go: the configuration
      file, credentials in files, and the agent put together; viper is a class.
      [Commands], [CommandsFacts]: src/cmd/standalone.go and src/cmd/pack.go, from
      argument lists to what is printed and contacted. [Main]: src/cmd/main.go and
      service_unix.go. [Service]: service_windows.go.

    ** What the theorems show

    - Only authentic work is done: a message is accepted exactly under the documented
      conditions and not twice ([Verify_accepts_iff], [Verify_no_replay],
      [Verify_Sign]), a rejected message changes nothing
      ([HandleMessage_rejects]), the commands that discovery runs on hosts come from
      packs signed by the configured key, apart from two scripts of its own
      ([commands_signed], [ParseAndVerify_cmdPackSign],
      [Select_sound], [parseWhen_print]).
    - Work stays where it may: HTTP requests at the configured server
      ([http_stays_on_origin]), SSH connections at allowed hosts
      ([HandleRequest_dials_allowed], [SSHAccessSibling_restricted]), discovery in its
      scope, but for the configured directory server ([HandleRequest_in_scope], [expandCIDRs_exact]) and standalone runs in that
      of their arguments ([standalone_in_scope]), Redis commands on the list
      ([redis_commands_listed]), metadata queries fixed ([db_metadata_fixed]); an agent
      starts with its listed datasources only, and with shells only if they are
      guarded ([newApp_registrations]).
    - Resources are accounted for in every interleaving: SSH connections
      ([ssh_pool_safe]), clients of Redis, MongoDB and SQL servers
      ([redis_clients_accounted], [mongo_clients_accounted], [db_pools_accounted]), MCP
      sessions, of which two conversations never share one ([mcp_sessions_accounted],
      [mcp_conversations_apart]), the calls that share an MCP process and the lines it
      writes ([mcp_calls_accounted]), and the messages of the relay
      ([client_messages_accounted], [session_can_end]).
    - State is what it should be: the registry refines its specification
      ([Registry_refines]), health reports are truthful
      ([HealthReport_last_success]), configuration pushes take effect
      ([handleConfigSync_matches]), stored credentials survive restarts
      ([CloudPushStore_recovers]) unless a write was cut off, cached ones are fresh ([Resolve_fresh]), those in
      files are read as they are ([resolveKeyFiles_exact]) and those in a secret store
      returned as they are ([provider_secret_roundtrip]); a block of the configuration
      file is well typed for its proxy ([local_discovery_typed]).
    - Answers are right: every decoded request is answered ([handleRequest_answers]), an MCP
      process shared by requests answers as one that serves them one at a time, if no
      call is given up and each line is answered by one ([mcp_replies_sequential]), all
      calls return once its pipes are let go of ([mcp_dead_process_releases]) and one process serves requests that come one after
      the other ([mcp_one_process]); a Windows service answers its manager and ends when
      asked ([service_ends]); the
      service map counts requests and bytes once ([service_map_requests],
      [service_map_bytes_once]), sweeps report what answered ([runSweep_report]),
      replies are whole ([http_response_whole], [mcp_sse_payload]), quoted queries
      arrive unchanged ([sanitizeQuery_psql]), arguments may come in any order
      ([splitPositional_any_order]), consumer lag is exact ([kafka_lag_exact]),
      reported errors are short and printable ([RedactError_safe]), GUIDs have their documented form
      ([formatObjectGUID_reference]).
    - Some theorems establish weaknesses of the code: an unsigned nonce and timestamp
      ([Verify_envelope_malleable]), keys that differ in case
      ([HandleMessage_action_confusion]), a deadlock ([ssh_close_deadlock]), a panic on
      some texts ([sanitizeQuery_panics], [redis_panics_iff]), a secret store that one
      failure disables for good ([provider_init_final]), writes to the relay that
      overlap ([session_writes_overlap]) and a session that no longer answers
      ([session_goes_mute]), a Kafka datasource that has to be removed twice
      ([kafka_removed_twice]), a sort whose keys change places
      ([mongo_sort_order_lost]), an MCP datasource that cannot be removed
      ([mcp_never_removed]), a close that a child of the server blocks
      ([mcp_close_returns]), a reply that goes to the wrong request
      ([mcp_reply_misdelivered], [mcp_notification_starves]), a dead process that is
      reported healthy ([mcp_dead_process_healthy]), one whose child keeps a call waiting
      ([mcp_orphan_hangs]), a signature that invalid bytes break ([Sign_invalid_utf8]), two processes where one is meant
      ([mcp_start_race]), a cleanup goroutine that is never ended
      ([ssh_cleanup_leaks]).

    ** Bounds and fuel

    Recursion that is not structural has fuel, and a lemma that the fuel used is
    enough or that more does not change the result: [Split] takes the length of its
    text ([split_go_fuel]), [json_parse] one more than it ([parse_value]'s round trip),
    [Do] twelve rounds, the redirect policy stopping after ten ([do_loop_fuel]),
    [quoted_loop] one more than the length ([quoted_loop_total]), [ParseDuration] the
    length of its text ([duration_parts_fuel]), the shortest decimal
    of a float64 seventeen digits. Integers wrap as int64 ([wrap64]) wherever the code
    computes with values it does not bound.

    ** Not modelled

    Deadlines and the wire format of the websocket connection, which are the library's;
    that two goroutines read from one buffered reader at once, which is a data race: each
    read of a line from an MCP process and each write of a request is one step; the default paths of systems other
    than Linux; the usage text and the indentation of printed JSON; logging. The parts of
    a request that a proxy serves between two lock operations are atomic in the models
    of the registry and the pools; the handlers of several messages interleave in
    [Session] by what they send, not by the steps they take. *)

From Stdlib Require Export ZArith Lia.
From stdpp Require Export base tactics option list gmap strings pretty sorting numbers relations.
From stdpp Require Export list.

#[global] Set Default Goal Selector "!".

Declare Scope go_scope.
Delimit Scope go_scope with go.

(** ** Machine integers

    Go's [int] and [int64] are 64-bit two's complement on every platform the
    agent ships for; [time.Duration] is an [int64] of nanoseconds. *)

Definition maxInt64 : Z := 9223372036854775807.
Definition minInt64 : Z := -9223372036854775808.

(** Two's complement wrap-around of a mathematical integer to 64 bits. *)
Definition wrap64 (z : Z) : Z := (z - minInt64) `mod` 18446744073709551616 + minInt64.

Definition in_int64 (z : Z) : Prop := (minInt64 ≤ z ≤ maxInt64)%Z.

#[global] Instance in_int64_dec z : Decision (in_int64 z).
Proof. unfold in_int64. apply _. Defined.

Lemma wrap64_id z : in_int64 z → wrap64 z = z.
Proof.
  unfold in_int64, wrap64, minInt64, maxInt64. intros.
  rewrite Z.mod_small; lia.
Qed.

Lemma wrap64_range z : in_int64 (wrap64 z).
Proof.
  unfold in_int64, wrap64, minInt64, maxInt64.
  pose proof (Z.mod_pos_bound (z - -9223372036854775808) 18446744073709551616). lia.
Qed.

(** Negation of the most negative value overflows to itself. *)
Lemma wrap64_neg_min : wrap64 (- minInt64) = minInt64.
Proof. reflexivity. Qed.

(** ** Errors

    A Go [error] is a message and the chain of sentinel or typed errors it
    wraps, which [errors.Is] and [errors.As] look through. *)

Inductive errtag :=
  | TagNetError                 (* something satisfying net.Error *)
  | TagEOF                      (* io.EOF *)
  | TagUnexpectedEOF            (* io.ErrUnexpectedEOF *)
  | TagUpstreamUnreachable      (* proxy.ErrUpstreamUnreachable *)
  | TagProxyClosed.             (* mcp.errProxyClosed *)

#[global] Instance errtag_eq_dec : EqDecision errtag.
Proof. solve_decision. Defined.

Record error := MkError { err_msg : string; err_tags : list errtag }.

#[global] Instance error_eq_dec : EqDecision error.
Proof. solve_decision. Defined.

(** [fmt.Errorf] without a wrapped error, and with one under [%w]. *)
Definition errorf (msg : string) : error := MkError msg [].
Definition wrapf (pre : string) (e : error) : error :=
  MkError (pre +:+ err_msg e) (err_tags e).

(** [errors.Is] / [errors.As]. *)
Definition err_is (t : errtag) (e : error) : bool := bool_decide (t ∈ err_tags e).

(** Errors of the standard library appear by name; their texts are not modelled. *)
Definition json_error : error := errorf "json".
Definition time_error : error := errorf "time".
Definition base64_error : error := errorf "base64".

(** ** Fallible computations: Go's [(T, error)] results. *)

Inductive result (A : Type) : Type :=
  | Ok (a : A)
  | Err (e : error).
Arguments Ok {A} a.
Arguments Err {A} e.

#[global] Instance result_ret : MRet result := λ A, @Ok A.
#[global] Instance result_bind : MBind result := λ A B f m,
  match m with Ok a => f a | Err e => Err e end.
#[global] Instance result_fmap : FMap result := λ A B f m,
  match m with Ok a => Ok (f a) | Err e => Err e end.

#[global] Instance result_eq_dec {A} `{EqDecision A} : EqDecision (result A).
Proof. solve_decision. Defined.

(** What a call does that may also fail at run time: an index out of range, say. A
    panic is not recovered anywhere on the way of a request and ends the agent. *)
Inductive outcome (A : Type) : Type :=
  | Return (a : A)
  | Panic.
Arguments Return {A} a.
Arguments Panic {A}.

#[global] Instance outcome_ret : MRet outcome := λ A, @Return A.
#[global] Instance outcome_bind : MBind outcome := λ A B f m,
  match m with Return a => f a | Panic => Panic end.
#[global] Instance outcome_fmap : FMap outcome := λ A B f m,
  match m with Return a => Return (f a) | Panic => Panic end.

(** [if cond { return err }]. *)
Definition fail_if (cond : bool) (e : error) : result unit :=
  if cond then Err e else Ok tt.

(** Wrap the error of a failing call: [fmt.Errorf("pre%w", err)]. *)
Definition wrap_err {A} (pre : string) (m : result A) : result A :=
  match m with Ok a => Ok a | Err e => Err (wrapf pre e) end.

Definition is_ok {A} (m : result A) : bool := match m with Ok _ => true | Err _ => false end.

Lemma bind_Ok {A B} (f : A → result B) (m : result A) b :
  m ≫= f = Ok b ↔ ∃ a, m = Ok a ∧ f a = Ok b.
Proof. destruct m; naive_solver. Qed.

Lemma fail_if_Ok c e u : fail_if c e = Ok u ↔ c = false.
Proof. destruct c, u; naive_solver. Qed.

Lemma wrap_err_Ok {A} pre (m : result A) a : wrap_err pre m = Ok a ↔ m = Ok a.
Proof. destruct m; naive_solver. Qed.

Lemma is_ok_true {A} (m : result A) : is_ok m = true ↔ ∃ a, m = Ok a.
Proof. destruct m; naive_solver. Qed.

(** Step through the guards of a handler whose result is known. *)
Ltac inv_ok :=
  repeat match goal with
  | H : (_ ≫= _) = Ok _ |- _ => apply bind_Ok in H as (? & ? & ?)
  | H : fail_if _ _ = Ok _ |- _ => apply fail_if_Ok in H
  | H : wrap_err _ _ = Ok _ |- _ => apply wrap_err_Ok in H
  | H : Ok _ = Ok _ |- _ => injection H as H
  | H : Err _ = Ok _ |- _ => discriminate H
  | H : Ok _ = Err _ |- _ => discriminate H
  end; subst.

(** Split every [match]/[if] on the way. *)
Ltac case_all := repeat (case_match; simplify_eq/=).

(** ** Booleans *)

Create Rewrite HintDb go_bool.
#[export] Hint Rewrite andb_true_iff orb_true_iff negb_true_iff negb_false_iff
  andb_false_iff orb_false_iff bool_decide_eq_true bool_decide_eq_false
  Z.ltb_lt Z.ltb_ge Z.leb_le Z.leb_gt Z.eqb_eq Z.eqb_neq
  Nat.ltb_lt Nat.ltb_ge Nat.leb_le Nat.leb_gt Nat.eqb_eq Nat.eqb_neq : go_bool.

Ltac bool_to_prop := autorewrite with go_bool in *.

(** ** Lists and maps *)

Definition last_match {A} (P : A → bool) (l : list A) : option A :=
  foldl (λ acc x, if P x then Some x else acc) None l.

(** Finite maps as Go iterates over them: in some order that the language does
    not fix. [go_range m l] says that [l] is one possible iteration. *)
Definition go_range {A} (m : gmap string A) (l : list (string * A)) : Prop :=
  l ≡ₚ map_to_list m.

Lemma go_range_map_to_list {A} (m : gmap string A) : go_range m (map_to_list m).
Proof. unfold go_range. reflexivity. Qed.

(** The order in which the n-th loop over a map visits its entries. *)
Class MapOrder := {
  visit : nat → ∀ {A}, list A → list A;
  visit_perm : ∀ n A (l : list A), visit n l ≡ₚ l;
}.

(** [creds[k]] of a [map[string]string]. *)
Definition cred (creds : gmap string string) (k : string) : string := default "" (creds !! k).

Lemma size_insert_le {A} (m : gmap string A) k v : size (<[k:=v]> m) ≤ S (size m).
Proof.
  destruct (m !! k) eqn:E.
  - rewrite map_size_insert_Some by eauto. lia.
  - rewrite map_size_insert_None by done. lia.
Qed.

Lemma size_delete_lt {A} (m : gmap string A) k :
  is_Some (m !! k) → size (delete k m) < size m.
Proof.
  intros [v Hv]. rewrite map_size_delete_Some by eauto.
  assert (size m ≠ 0).
  { intros Hz%map_size_empty_iff. subst. by rewrite lookup_empty in Hv. }
  lia.
Qed.

Lemma NoDup_map_inj {A B} (f : A → B) l x y :
  NoDup (map f l) → x ∈ l → y ∈ l → f x = f y → x = y.
Proof.
  induction l as [|z l IH]; simpl; [by intros ? ?%not_elem_of_nil|].
  intros [Hz Hn]%NoDup_cons [-> |Hx]%elem_of_cons [-> |Hy]%elem_of_cons E; [done|..].
  - destruct Hz. rewrite E. by apply list_elem_of_fmap_2.
  - destruct Hz. rewrite <- E. by apply list_elem_of_fmap_2.
  - by apply IH.
Qed.

Lemma filter_sublist {A} (f : A → bool) l : List.filter f l `sublist_of` l.
Proof. induction l as [|x l IH]; simpl; [constructor|]. case_match; by constructor. Qed.

Lemma filter_none {A} (f : A → bool) l : Forall (λ x, f x = false) l → List.filter f l = [].
Proof. induction 1 as [|x l Hx _ IH]; simpl; [done|]. by rewrite Hx. Qed.

Lemma filter_all {A} (f : A → bool) l : Forall (λ x, f x = true) l → List.filter f l = l.
Proof. induction 1 as [|x l Hx _ IH]; simpl; [done|]. by rewrite Hx, IH. Qed.

(** An invariant of the steps holds of all that is reached. *)
Lemma rtc_invariant {A} (R : relation A) (P : A → Prop) x y :
  (∀ a b, R a b → P a → P b) → rtc R x y → P x → P y.
Proof. intros HP. induction 1; eauto. Qed.
