(* ===== verification/GoStrings.v ===== *)
(** * The parts of Go's [strings], [strconv] and [unicode/utf8] the agent uses

    A Go string is a sequence of bytes, as is Rocq's [string]. Functions that
    Go defines on runes split the string into UTF-8 sequences first
    ([runes]); an invalid byte is a rune of its own, as in Go. *)

From S2P Require Import Prelude.

Abbreviation ascii := Ascii.ascii.
Infix "=?c" := Ascii.eqb (at level 70).

(** The byte value of a character. *)
Definition code (c : ascii) : Z := Z.of_N (Ascii.N_of_ascii c).
Definition chr (z : Z) : ascii := Ascii.ascii_of_N (Z.to_N z).

(** Double quote, which cannot be written inside a literal. *)
Definition dq : ascii := Ascii.ascii_of_nat 34.
Definition newline : string := String (Ascii.ascii_of_nat 10) "".

Definition in_range (lo hi x : Z) : bool := (lo <=? x)%Z && (x <=? hi)%Z.

(** ** Basic lemmas *)

Lemma app_cons c s t : String c s +:+ t = String c (s +:+ t).
Proof. reflexivity. Qed.
Lemma app_nil_l s : "" +:+ s = s.
Proof. reflexivity. Qed.
Lemma app_nil_r s : s +:+ "" = s.
Proof. induction s as [|c s IH]; [done|]. by rewrite app_cons, IH. Qed.
Lemma app_assoc s t u : (s +:+ t) +:+ u = s +:+ (t +:+ u).
Proof. induction s as [|c s IH]; [done|]. by rewrite !app_cons, IH. Qed.

Create Rewrite HintDb go_str.
#[export] Hint Rewrite app_cons app_nil_l app_nil_r app_assoc : go_str.

Lemma length_app_str s t : String.length (s +:+ t) = String.length s + String.length t.
Proof. induction s as [|c s IH]; [done|]. rewrite app_cons. simpl. by rewrite IH. Qed.

Lemma app_inj_r s t u : s +:+ t = s +:+ u → t = u.
Proof. induction s; [done|]. rewrite !app_cons. naive_solver. Qed.

(** ** Prefixes, substrings, splitting *)

Fixpoint strip_prefix (p s : string) : option string :=
  match p, s with
  | "", _ => Some s
  | String a p', String b s' => if a =?c b then strip_prefix p' s' else None
  | String _ _, "" => None
  end.

(** [strings.HasPrefix(s, p)]. *)
Definition HasPrefix (s p : string) : bool :=
  match strip_prefix p s with Some _ => true | None => false end.

(** [strings.Cut(s, sep)]; [None] when [sep] does not occur. *)
Fixpoint cut (s sep : string) : option (string * string) :=
  match strip_prefix sep s with
  | Some rest => Some ("", rest)
  | None =>
      match s with
      | "" => None
      | String c s' =>
          match cut s' sep with
          | Some (a, b) => Some (String c a, b)
          | None => None
          end
      end
  end.

(** Go's total version: the whole string and "" when the separator is absent. *)
Definition Cut (s sep : string) : string * string * bool :=
  match cut s sep with Some (a, b) => (a, b, true) | None => (s, "", false) end.

Definition Contains (s sub : string) : bool :=
  match cut s sub with Some _ => true | None => false end.

(** [strings.Index]; [None] stands for -1. *)
Definition Index (s sub : string) : option nat :=
  match cut s sub with Some (a, _) => Some (String.length a) | None => None end.

Fixpoint split_go (fuel : nat) (s sep : string) : list string :=
  match fuel with
  | O => [s]
  | S fuel =>
      match cut s sep with
      | Some (a, b) => a :: split_go fuel b sep
      | None => [s]
      end
  end.

(** [strings.Split(s, sep)] for a non-empty [sep]. *)
Definition Split (s sep : string) : list string := split_go (String.length s) s sep.

(** [strings.SplitN(s, sep, 2)]. *)
Definition SplitN2 (s sep : string) : list string :=
  match cut s sep with Some (a, b) => [a; b] | None => [s] end.

Fixpoint Join (l : list string) (sep : string) : string :=
  match l with
  | [] => ""
  | [x] => x
  | x :: l => x +:+ sep +:+ Join l sep
  end.

(** [strings.ReplaceAll(s, old, new)] for a non-empty [old]. *)
Definition ReplaceAll (s old new : string) : string := Join (Split s old) new.

(** Last byte of a string, and the string without it. *)
Fixpoint unsnoc (s : string) : option (string * ascii) :=
  match s with
  | "" => None
  | String c s' =>
      match unsnoc s' with
      | None => Some ("", c)
      | Some (i, l) => Some (String c i, l)
      end
  end.

Definition HasSuffixChar (s : string) (c : ascii) : bool :=
  match unsnoc s with Some (_, l) => l =?c c | None => false end.

(** The text before and after the last occurrence of a separator. *)
Fixpoint cut_last (s sep : string) : option (string * string) :=
  match s with
  | "" => match strip_prefix sep "" with Some r => Some ("", r) | None => None end
  | String c s' =>
      match cut_last s' sep with
      | Some (a, b) => Some (String c a, b)
      | None => match strip_prefix sep s with Some r => Some ("", r) | None => None end
      end
  end.

(** [strings.LastIndex]; [None] stands for -1. *)
Definition LastIndex (s sub : string) : option nat :=
  match cut_last s sub with Some (a, _) => Some (String.length a) | None => None end.

Definition HasSuffix (s p : string) : bool :=
  match cut_last s p with Some (_, "") => true | _ => false end.
Definition TrimSuffix (s p : string) : string :=
  match cut_last s p with Some (a, "") => a | _ => s end.

(** [s[:n]] and [s[n:]] for n up to the length. *)
Fixpoint str_take (n : nat) (s : string) : string :=
  match n, s with S n, String c s => String c (str_take n s) | _, _ => "" end.
Fixpoint str_drop (n : nat) (s : string) : string :=
  match n, s with S n, String _ s => str_drop n s | _, _ => s end.

(** [s[n:]]: a bound past the end is a run-time error. *)
Definition slice_from (n : nat) (s : string) : outcome string :=
  if (n <=? String.length s)%nat then Return (str_drop n s) else Panic.
(** [s[lo:hi]]. *)
Definition slice (lo hi : nat) (s : string) : outcome string :=
  if (lo <=? hi)%nat && (hi <=? String.length s)%nat
  then Return (str_take (hi - lo) (str_drop lo s)) else Panic.

Fixpoint all_chars (P : ascii → bool) (s : string) : bool :=
  match s with "" => true | String c s' => P c && all_chars P s' end.

(** [strings.ContainsAny(s, chars)]. *)
Definition ContainsAny (s chars : string) : bool :=
  negb (all_chars (λ c, negb (Contains chars (String c ""))) s).

(** ** UTF-8 *)

Definition cont (c : ascii) : bool := in_range 128 191 (code c).
Definition utf8_2 (a b : ascii) : bool := in_range 194 223 (code a) && cont b.
Definition utf8_3 (a b c : ascii) : bool :=
  cont c &&
  ((code a =? 224)%Z && in_range 160 191 (code b)
   || in_range 225 236 (code a) && cont b
   || (code a =? 237)%Z && in_range 128 159 (code b)
   || in_range 238 239 (code a) && cont b).
Definition utf8_4 (a b c d : ascii) : bool :=
  cont c && cont d &&
  ((code a =? 240)%Z && in_range 144 191 (code b)
   || in_range 241 243 (code a) && cont b
   || (code a =? 244)%Z && in_range 128 143 (code b)).

Definition str1 (a : ascii) : string := String a "".

(** The UTF-8 sequences of a string, in order. *)
Fixpoint runes (s : string) : list string :=
  match s with
  | "" => []
  | String a s1 =>
      if (code a <? 128)%Z then str1 a :: runes s1 else
      match s1 with
      | "" => [str1 a]
      | String b s2 =>
          if utf8_2 a b then String a (str1 b) :: runes s2 else
          match s2 with
          | "" => str1 a :: runes s1
          | String c s3 =>
              if utf8_3 a b c then String a (String b (str1 c)) :: runes s3 else
              match s3 with
              | "" => str1 a :: runes s1
              | String d s4 =>
                  if utf8_4 a b c d
                  then String a (String b (String c (str1 d))) :: runes s4
                  else str1 a :: runes s1
              end
          end
      end
  end.

Definition concat_str (l : list string) : string := Join l "".

(** A rune chunk is an invalid byte when it is a lone byte above 127. *)
Definition invalid_rune (r : string) : bool :=
  match r with String a "" => (128 <=? code a)%Z | _ => false end.

Definition valid_utf8 (s : string) : bool := forallb (λ r, negb (invalid_rune r)) (runes s).

Definition bytes (l : list Z) : string := foldr (λ z s, String (chr z) s) "" l.

(** U+FFFD in UTF-8. *)
Definition replacement : string := bytes [239; 191; 189]%Z.

(** [strings.ToValidUTF8(s, rep)] one invalid byte at a time, which is how the
    JSON codec replaces them. *)
Definition to_valid_utf8 (rep s : string) : string :=
  concat_str (map (λ r, if invalid_rune r then rep else r) (runes s)).

(** [unicode.IsSpace]. *)
Definition is_space (r : string) : bool :=
  match r with
  | String a "" => in_range 9 13 (code a) || (code a =? 32)%Z
  | _ =>
      existsb (String.eqb r)
        [bytes [194; 133]; bytes [194; 160]; bytes [225; 154; 128];
         bytes [226; 128; 128]; bytes [226; 128; 129]; bytes [226; 128; 130];
         bytes [226; 128; 131]; bytes [226; 128; 132]; bytes [226; 128; 133];
         bytes [226; 128; 134]; bytes [226; 128; 135]; bytes [226; 128; 136];
         bytes [226; 128; 137]; bytes [226; 128; 138]; bytes [226; 128; 168];
         bytes [226; 128; 169]; bytes [226; 128; 175]; bytes [226; 129; 159];
         bytes [227; 128; 128]]%Z
  end.

Fixpoint drop_while {A} (P : A → bool) (l : list A) : list A :=
  match l with [] => [] | x :: l' => if P x then drop_while P l' else l end.

Definition drop_while_end {A} (P : A → bool) (l : list A) : list A :=
  reverse (drop_while P (reverse l)).

(** [strings.TrimSpace]. *)
Definition TrimSpace (s : string) : string :=
  concat_str (drop_while_end is_space (drop_while is_space (runes s))).

(** [strings.TrimRight(s, cutset)] for an ASCII cutset, which goes by bytes. *)
Fixpoint trim_right (P : ascii → bool) (s : string) : string :=
  match s with
  | "" => ""
  | String c s' =>
      match trim_right P s' with
      | "" => if P c then "" else String c ""
      | r => String c r
      end
  end.
Definition TrimRight (s cutset : string) : string :=
  trim_right (λ c, Contains cutset (str1 c)) s.

(** [strings.Trim(s, cutset)] for an ASCII cutset. *)
Definition Trim (s cutset : string) : string :=
  concat_str (drop_while_end (Contains cutset) (drop_while (Contains cutset) (runes s))).

(** [strings.Fields]. *)
Fixpoint fields_go (acc : string) (l : list string) : list string :=
  match l with
  | [] => if String.eqb acc "" then [] else [acc]
  | r :: l' =>
      if is_space r
      then if String.eqb acc "" then fields_go "" l' else acc :: fields_go "" l'
      else fields_go (acc +:+ r) l'
  end.
Definition Fields (s : string) : list string := fields_go "" (runes s).

Definition lower_char (c : ascii) : ascii :=
  if in_range 65 90 (code c) then chr (code c + 32) else c.

(** UTF-8 encoding of a code point. *)
Definition utf8_encode (u : Z) : string :=
  if (u <? 128)%Z then bytes [u]
  else if (u <? 2048)%Z then bytes [192 + u / 64; 128 + u `mod` 64]%Z
  else if (u <? 65536)%Z
  then bytes [224 + u / 4096; 128 + (u / 64) `mod` 64; 128 + u `mod` 64]%Z
  else bytes [240 + u / 262144; 128 + (u / 4096) `mod` 64; 128 + (u / 64) `mod` 64;
              128 + u `mod` 64]%Z.

(** The non-ASCII code points whose lower (upper) case takes a different number of
    bytes in UTF-8, with that lower (upper) case. *)
Definition lower_table : list (Z * Z) := (
  [
    (304, 105); (570, 11365); (574, 11366); (7838, 223); (8486, 969); (8490, 107);
    (8491, 229); (11362, 619); (11364, 637); (11373, 593); (11374, 625); (11375, 592);
    (11376, 594); (11390, 575); (11391, 576); (42893, 613); (42922, 614); (42923, 604);
    (42924, 609); (42925, 620); (42926, 618); (42928, 670); (42929, 647); (42930, 669);
    (42949, 642)])%Z.
Definition upper_table : list (Z * Z) := (
  [
    (305, 73); (383, 83); (575, 11390); (576, 11391); (592, 11375); (593, 11373);
    (594, 11376); (604, 42923); (609, 42924); (613, 42893); (614, 42922); (618, 42926);
    (619, 11362); (620, 42925); (625, 11374); (637, 11364); (642, 42949); (647, 42929);
    (669, 42930); (670, 42928); (7296, 1042); (7297, 1044); (7298, 1054); (7299, 1057);
    (7300, 1058); (7301, 1058); (7302, 1066); (7303, 1122); (8126, 921); (11365, 570);
    (11366, 574)])%Z.

Definition map_rune (table : list (Z * Z)) (r : string) : string :=
  match list_find (λ '(u, _), r = utf8_encode u) table with
  | Some (_, (_, v)) => utf8_encode v
  | None => r
  end.

(** [unicode.ToLower] on one rune of [strings.ToLower], which writes U+FFFD for an
    invalid byte. A non-ASCII rune that is not in the table has a lower case of as
    many bytes; it is left alone, so that positions are right and only the case of
    such letters is not. *)
Definition lower_rune (r : string) : string :=
  match r with
  | String a "" => if (code a <? 128)%Z then str1 (lower_char a) else replacement
  | _ => map_rune lower_table r
  end.
(** [strings.ToLower]: ASCII strings have a loop of their own with the same result. *)
Definition ToLower (s : string) : string := concat_str (map lower_rune (runes s)).

Definition upper_char (c : ascii) : ascii :=
  if in_range 97 122 (code c) then chr (code c - 32) else c.
Definition upper_rune (r : string) : string :=
  match r with
  | String a "" => if (code a <? 128)%Z then str1 (upper_char a) else replacement
  | _ => map_rune upper_table r
  end.
(** [strings.ToUpper]. *)
Definition ToUpper (s : string) : string := concat_str (map upper_rune (runes s)).

(** ** Numbers *)

Definition is_digit (c : ascii) : bool := in_range 48 57 (code c).
Definition digit_val (c : ascii) : Z := (code c - 48)%Z.

Fixpoint digits_val (acc : Z) (s : string) : option Z :=
  match s with
  | "" => Some acc
  | String c s' => if is_digit c then digits_val (acc * 10 + digit_val c) s' else None
  end.

(** [strconv.Atoi] and [strconv.ParseInt(s, 10, 64)]; [None] on any error. *)
Definition Atoi (s : string) : option Z :=
  let '(neg, ds) :=
    match s with
    | String c s' =>
        if (code c =? 45)%Z then (true, s')
        else if (code c =? 43)%Z then (false, s') else (false, s)
    | "" => (false, "")
    end in
  match ds with
  | "" => None
  | _ =>
      match digits_val 0 ds with
      | Some n =>
          let z := if (neg : bool) then (- n)%Z else n in
          if bool_decide (in_int64 z) then Some z else None
      | None => None
      end
  end.

(** [strconv.Itoa] / [%d]. *)
Definition Itoa (z : Z) : string := pretty z.

(** [%q] of a string: Go's double-quoted, backslash-escaped form. Bytes that are
    not valid UTF-8 and control characters are written in hexadecimal; the
    other multi-byte runes are kept. *)
Definition hex_digit (z : Z) : ascii := if (z <? 10)%Z then chr (z + 48) else chr (z + 87).

Definition quote_rune (r : string) : string :=
  match r with
  | String a "" =>
      let c := code a in
      let esc (x : string) := String (chr 92) x in
      if (c =? 34)%Z then esc (str1 dq)
      else if (c =? 92)%Z then esc (str1 (chr 92))
      else if (c =? 7)%Z then esc "a" else if (c =? 8)%Z then esc "b"
      else if (c =? 12)%Z then esc "f" else if (c =? 10)%Z then esc "n"
      else if (c =? 13)%Z then esc "r" else if (c =? 9)%Z then esc "t"
      else if (c =? 11)%Z then esc "v"
      else if (c <? 32)%Z || (127 <=? c)%Z
      then esc (String (chr 120) (String (hex_digit (c / 16)) (str1 (hex_digit (c `mod` 16)))))
      else r
  | _ => r
  end.

Definition Quote (s : string) : string :=
  String dq (concat_str (map quote_rune (runes s)) +:+ str1 dq).

(** ** Lemmas *)

Lemma eqb_ascii_true (a b : ascii) : (a =?c b) = true ↔ a = b.
Proof. apply Ascii.eqb_eq. Qed.

Lemma strip_prefix_Some p s r : strip_prefix p s = Some r ↔ s = p +:+ r.
Proof.
  revert s. induction p as [|a p IH]; intros [|b s]; simpl.
  - rewrite app_nil_l. naive_solver.
  - rewrite app_nil_l. naive_solver.
  - rewrite app_cons. naive_solver.
  - rewrite app_cons. destruct (a =?c b) eqn:E.
    + apply eqb_ascii_true in E as ->. rewrite IH. naive_solver.
    + split; [done|]. intros [= -> ->]. by rewrite Ascii.eqb_refl in E.
Qed.

Lemma HasPrefix_true s p : HasPrefix s p = true ↔ ∃ r, s = p +:+ r.
Proof.
  unfold HasPrefix. destruct (strip_prefix p s) as [r|] eqn:E.
  - apply strip_prefix_Some in E. naive_solver.
  - split; [done|]. intros [r Hr%strip_prefix_Some]. congruence.
Qed.

Lemma cut_Some s sep a b : cut s sep = Some (a, b) → s = a +:+ sep +:+ b.
Proof.
  revert a b. induction s as [|c s IH]; intros a b; simpl.
  - destruct (strip_prefix sep "") as [r|] eqn:E; [|done].
    apply strip_prefix_Some in E. intros. simplify_eq. by rewrite app_nil_l.
  - destruct (strip_prefix sep (String c s)) as [r|] eqn:E.
    + apply strip_prefix_Some in E. intros. simplify_eq. by rewrite app_nil_l.
    + destruct (cut s sep) as [[a' b']|]; [|done].
      intros [= <- <-]. rewrite app_cons. f_equal. by apply IH.
Qed.

Lemma cut_None s sep a b : cut s sep = None → s ≠ a +:+ sep +:+ b.
Proof.
  revert a. induction s as [|c s IH]; intros a; simpl.
  - destruct (strip_prefix sep "") eqn:E; [done|]. intros _.
    destruct a; [|by rewrite app_cons]. rewrite app_nil_l. intros H%strip_prefix_Some. congruence.
  - destruct (strip_prefix sep (String c s)) eqn:E; [done|].
    destruct (cut s sep) as [[]|]; [done|]. intros _.
    destruct a as [|c' a].
    + rewrite app_nil_l. intros H%strip_prefix_Some. congruence.
    + rewrite app_cons. intros [= _ H]. by eapply IH.
Qed.

Lemma Contains_true s sub : Contains s sub = true ↔ ∃ a b, s = a +:+ sub +:+ b.
Proof.
  unfold Contains. destruct (cut s sub) as [[a b]|] eqn:E.
  - apply cut_Some in E. naive_solver.
  - split; [done|]. intros (a & b & H). by apply (cut_None _ _ a b) in E.
Qed.

Lemma cut_length s sep a b :
  cut s sep = Some (a, b) → sep ≠ "" → String.length b < String.length s.
Proof.
  intros ->%cut_Some Hs. rewrite !length_app_str.
  destruct sep; [done|]. simpl. lia.
Qed.

Lemma split_go_fuel sep n m s :
  sep ≠ "" → String.length s ≤ n → String.length s ≤ m → split_go n s sep = split_go m s sep.
Proof.
  intros Hs. revert m s. induction n as [|n IH]; intros [|m] s Hn Hm; simpl; try done.
  - destruct s; [|simpl in *; lia]. by destruct sep.
  - destruct s; [|simpl in *; lia]. by destruct sep.
  - destruct (cut s sep) as [[a b]|] eqn:E; [|done].
    pose proof (cut_length _ _ _ _ E Hs). f_equal. apply IH; lia.
Qed.

(** The loop of [Split] unfolds without reference to its fuel. *)
Lemma Split_unfold s sep :
  sep ≠ "" →
  Split s sep = match cut s sep with Some (a, b) => a :: Split b sep | None => [s] end.
Proof.
  intros Hs. unfold Split.
  destruct s as [|c s].
  - simpl. by destruct sep.
  - cbn [String.length split_go]. destruct (cut (String c s) sep) as [[a b]|] eqn:E; [|done].
    pose proof (cut_length _ _ _ _ E Hs) as Hl. simpl in Hl.
    f_equal. apply split_go_fuel; [done|lia|lia].
Qed.

Lemma Split_not_nil s sep : sep ≠ "" → Split s sep ≠ [].
Proof. intros H. rewrite Split_unfold by done. by case_all. Qed.

Lemma Join_cons x l sep : l ≠ [] → Join (x :: l) sep = x +:+ sep +:+ Join l sep.
Proof. by destruct l. Qed.

Lemma Join_Split s sep : sep ≠ "" → Join (Split s sep) sep = s.
Proof.
  intros Hs. remember (String.length s) as n eqn:Hn. revert s Hn.
  induction (lt_wf n) as [n _ IH]. intros s ->. rewrite Split_unfold by done.
  destruct (cut s sep) as [[a b]|] eqn:E; [|done].
  rewrite Join_cons by (by apply Split_not_nil).
  rewrite (IH (String.length b)) by (done || by eapply cut_length).
  symmetry. by apply cut_Some.
Qed.

Lemma concat_str_cons x l : concat_str (x :: l) = x +:+ concat_str l.
Proof. destruct l; unfold concat_str; simpl; by rewrite ?app_nil_l, ?app_nil_r. Qed.
Lemma concat_str_app l k : concat_str (l ++ k) = concat_str l +:+ concat_str k.
Proof.
  induction l as [|x l IH]; [done|]. simpl. rewrite !concat_str_cons, IH. by rewrite app_assoc.
Qed.

(** Splitting into runes loses nothing. *)
Lemma concat_runes s : concat_str (runes s) = s.
Proof.
  remember (String.length s) as n eqn:Hn. revert s Hn.
  induction (lt_wf n) as [n _ IH]. intros s ->.
  assert (∀ t, String.length t < String.length s → concat_str (runes t) = t) as IH'.
  { intros t Ht. by eapply IH. }
  destruct s as [|a [|b [|c [|d s]]]]; simpl in *; [done|..];
    repeat case_match; rewrite ?concat_str_cons, ?IH' by (simpl; lia); done.
Qed.

Lemma all_chars_app P s t : all_chars P (s +:+ t) = all_chars P s && all_chars P t.
Proof.
  induction s as [|c s IH]; [done|]. rewrite app_cons. simpl. rewrite IH. by rewrite andb_assoc.
Qed.

(** Converting between bytes and their codes. *)
Lemma all_chars_impl (P Q : ascii → bool) s :
  (∀ c, P c = true → Q c = true) → all_chars P s = true → all_chars Q s = true.
Proof.
  intros HPQ. induction s as [|c s IH]; [done|]. simpl. rewrite !andb_true_iff. naive_solver.
Qed.

Lemma code_range c : (0 ≤ code c < 256)%Z.
Proof.
  unfold code. pose proof (Ascii.N_ascii_bounded c). lia.
Qed.

Lemma chr_code c : chr (code c) = c.
Proof. unfold chr, code. rewrite N2Z.id. apply Ascii.ascii_N_embedding. Qed.

Lemma code_chr z : (0 ≤ z < 256)%Z → code (chr z) = z.
Proof.
  intros Hz. unfold chr, code. rewrite Ascii.N_ascii_embedding by lia. lia.
Qed.

Lemma code_inj a b : code a = code b → a = b.
Proof. intros H. by rewrite <- (chr_code a), <- (chr_code b), H. Qed.

(** ** Trimming on the right *)

Lemma trim_right_spec P s : ∃ w, s = trim_right P s +:+ w ∧ all_chars P w = true.
Proof.
  induction s as [|c s (w & E & Hw)]; [by exists ""|]. simpl.
  destruct (trim_right P s) as [|d r].
  - destruct (P c) eqn:Ec; [|by exists w; rewrite E, app_cons].
    exists (String c s). split; [done|]. rewrite E, app_nil_l. simpl. by rewrite Ec, Hw.
  - exists w. split; [|done]. by rewrite E, !app_cons.
Qed.

Lemma trim_right_all P w : all_chars P w = true → trim_right P w = "".
Proof.
  induction w as [|c w IH]; [done|]. simpl. intros [Hc Hw]%andb_true_iff. by rewrite IH, Hc.
Qed.

Lemma trim_right_app P s w : all_chars P w = true → trim_right P (s +:+ w) = trim_right P s.
Proof.
  intros Hw. induction s as [|c s IH]; [by apply trim_right_all|]. rewrite app_cons. simpl.
  by rewrite IH.
Qed.

Lemma trim_right_idem P s : trim_right P (trim_right P s) = trim_right P s.
Proof.
  destruct (trim_right_spec P s) as (w & E & Hw). rewrite E at 2. by rewrite trim_right_app.
Qed.

(** ** Slices and last occurrences *)

Lemma str_drop_app s t : str_drop (String.length s) (s +:+ t) = t.
Proof. induction s as [|c s IH]; [done|]. by rewrite app_cons. Qed.

Lemma str_take_app s t : str_take (String.length s) (s +:+ t) = s.
Proof. induction s as [|c s IH]; [by destruct t|]. rewrite app_cons. simpl. by rewrite IH. Qed.

Lemma slice_from_app s t : slice_from (String.length s) (s +:+ t) = Return t.
Proof.
  unfold slice_from. rewrite length_app_str, str_drop_app.
  by destruct (Nat.leb_spec (String.length s) (String.length s + String.length t)); [|lia].
Qed.

Lemma cut_last_Some s sep a b : cut_last s sep = Some (a, b) → s = a +:+ sep +:+ b.
Proof.
  revert a b. induction s as [|c s IH]; intros a b; cbn [cut_last].
  - destruct (strip_prefix sep "") eqn:E; [|done]. intros [= <- <-].
    apply strip_prefix_Some in E. by rewrite app_nil_l.
  - destruct (cut_last s sep) as [[a' b']|].
    + intros [= <- <-]. rewrite app_cons. f_equal. by apply IH.
    + destruct (strip_prefix sep (String c s)) eqn:E; [|done]. intros [= <- <-].
      apply strip_prefix_Some in E. by rewrite app_nil_l.
Qed.

(** ** Cutting at one character *)

(** The character does not occur. *)
Definition lacks (c : ascii) (s : string) : Prop := all_chars (λ x, negb (x =?c c)) s = true.

Lemma lacks_app c s t : lacks c (s +:+ t) ↔ lacks c s ∧ lacks c t.
Proof. unfold lacks. by rewrite all_chars_app, andb_true_iff. Qed.

Lemma lacks_cons c x s : lacks c (String x s) ↔ x ≠ c ∧ lacks c s.
Proof.
  unfold lacks. simpl. rewrite andb_true_iff, negb_true_iff.
  destruct (Ascii.eqb_spec x c); naive_solver.
Qed.

Lemma cut_char_None s c : lacks c s → cut s (str1 c) = None.
Proof.
  induction s as [|x s IH]; [done|]. intros [Hx Hs]%lacks_cons. cbn [cut strip_prefix str1].
  destruct (Ascii.eqb_spec c x); [by subst|]. by rewrite IH.
Qed.

Lemma cut_char a c b : lacks c a → cut (a +:+ String c b) (str1 c) = Some (a, b).
Proof.
  induction a as [|x a IH].
  - intros _. rewrite app_nil_l. cbn [cut strip_prefix str1]. by rewrite Ascii.eqb_refl.
  - intros [Hx Ha]%lacks_cons. rewrite app_cons. cbn [cut strip_prefix str1].
    destruct (Ascii.eqb_spec c x); [by subst|]. by rewrite IH.
Qed.

Lemma cut_last_char_None s c : lacks c s → cut_last s (str1 c) = None.
Proof.
  induction s as [|x s IH]; [done|]. intros [Hx Hs]%lacks_cons. cbn [cut_last strip_prefix str1].
  rewrite IH by done. by destruct (Ascii.eqb_spec c x); [subst|].
Qed.

Lemma cut_last_char a c b : lacks c b → cut_last (a +:+ String c b) (str1 c) = Some (a, b).
Proof.
  intros Hb. induction a as [|x a IH].
  - rewrite app_nil_l. cbn [cut_last]. rewrite cut_last_char_None by done.
    cbn [strip_prefix str1]. by rewrite Ascii.eqb_refl.
  - rewrite app_cons. cbn [cut_last]. by rewrite IH.
Qed.

(** A text is cut at the first occurrence, or lacks the character. *)
Lemma cut_char_cases s c :
  lacks c s ∧ cut s (str1 c) = None ∨
  ∃ a b, s = a +:+ String c b ∧ lacks c a ∧ cut s (str1 c) = Some (a, b).
Proof.
  induction s as [|x s IH]; [by left|]. destruct (decide (x = c)) as [-> |Hx].
  - right. exists "", s. split; [done|]. split; [done|]. by apply (cut_char "").
  - destruct IH as [[Hs E]|(a & b & -> & Ha & E)].
    + left. assert (lacks c (String x s)) by (by apply lacks_cons). split; [done|].
      by apply cut_char_None.
    + right. exists (String x a), b. rewrite app_cons. split; [done|].
      assert (lacks c (String x a)) by (by apply lacks_cons). split; [done|].
      rewrite <- app_cons. by apply cut_char.
Qed.
