(* ===== verification/GoJson.v ===== *)
(** * The parts of Go's [encoding/json] the agent uses

    Texts are strings of bytes; [Unmarshal] and [Marshal] are the executable
    functions [json_parse] and [json_print] on syntax trees that keep number
    literals as written and object members in document order, duplicates
    included. Decoding into a struct, into a map and into [any] are defined on
    the trees. The scanner's nesting limit (10000) is not modelled. Where only its
    value matters, a [json.RawMessage] is the tree of its text; its text is kept where
    bytes are signed (GoRaw). *)

From Stdlib Require Import Floats.SpecFloat.
From S2P Require Import Prelude GoStrings.

Inductive json :=
  | JNull
  | JBool (b : bool)
  | JNum (lit : string)
  | JStr (s : string)
  | JArr (l : list json)
  | JObj (kvs : list (string * json)).

(** ** Lexical elements *)

Definition is_ws (c : ascii) : bool :=
  (code c =? 32)%Z || (code c =? 9)%Z || (code c =? 10)%Z || (code c =? 13)%Z.

Fixpoint skip_ws (s : string) : string :=
  match s with String c r => if is_ws c then skip_ws r else s | "" => "" end.

Definition is_num_char (c : ascii) : bool :=
  is_digit c || existsb (Z.eqb (code c)) [43; 45; 46; 69; 101]%Z.

Fixpoint span (P : ascii → bool) (s : string) : string * string :=
  match s with
  | "" => ("", "")
  | String c r =>
      if P c then let '(a, b) := span P r in (String c a, b) else ("", s)
  end.

Definition opt_char (z : list Z) (s : string) : string :=
  match s with
  | String c r => if existsb (Z.eqb (code c)) z then r else s
  | "" => ""
  end.

Definition starts_with (z : list Z) (s : string) : bool :=
  match s with String c _ => existsb (Z.eqb (code c)) z | "" => false end.

(** The three parts of a number literal: sign and integer part, fraction,
    exponent; [None] if the literal is not a JSON number. *)
Definition number_parts (lit : string) : option (bool * string * string * Z) :=
  let neg := starts_with [45]%Z lit in
  let '(int, s1) := span is_digit (opt_char [45]%Z lit) in
  if String.eqb int "" || (starts_with [48]%Z int && negb (String.eqb int "0")) then None else
  let frac := if starts_with [46]%Z s1 then Some (span is_digit (opt_char [46]%Z s1)) else None in
  match frac with
  | Some ("", _) => None
  | _ =>
      let '(fr, s2) := default ("", s1) frac in
      if starts_with [69; 101]%Z s2 then
        let s3 := opt_char [69; 101]%Z s2 in
        let eneg := starts_with [45]%Z s3 in
        match span is_digit (opt_char [43; 45]%Z s3) with
        | ("", _) => None
        | (ex, "") =>
            e ← digits_val 0 ex;
            Some (neg, int, fr, if (eneg : bool) then (- e)%Z else e)
        | _ => None
        end
      else if String.eqb s2 "" then Some (neg, int, fr, 0%Z) else None
  end.

Definition valid_number (lit : string) : bool :=
  match number_parts lit with Some _ => true | None => false end.

(** The float64 nearest to a literal, ties to even; [None] when out of range. *)
Definition parse_float (lit : string) : option spec_float :=
  '(neg, int, fr, e) ← number_parts lit;
  m ← digits_val 0 (int +:+ fr);
  let e := (e - Z.of_nat (String.length fr))%Z in
  let f :=
    match m with
    | Z.pos p =>
        if (0 <=? e)%Z then binary_normalize 53 1024 (m * 10 ^ e) 0 false
        else match (10 ^ (- e))%Z with
             | Z.pos q => SFdiv 53 1024 (S754_finite false p 0) (S754_finite false q 0)
             | _ => S754_nan
             end
    | _ => S754_zero false
    end in
  match f with
  | S754_zero _ => Some (S754_zero neg)
  | S754_finite _ m e => Some (S754_finite neg m e)
  | _ => None
  end.

Definition hex_val (c : ascii) : option Z :=
  let z := code c in
  if is_digit c then Some (z - 48)%Z
  else if in_range 97 102 z then Some (z - 87)%Z
  else if in_range 65 70 z then Some (z - 55)%Z
  else None.

Definition hex4 (a b c d : ascii) : option Z :=
  a ← hex_val a; b ← hex_val b; c ← hex_val c; d ← hex_val d;
  Some (((a * 16 + b) * 16 + c) * 16 + d)%Z.

Definition is_surrogate (u : Z) : bool := in_range 55296 57343 u.
Definition prepend (a : string) (x : option (string * string)) : option (string * string) :=
  match x with Some (s, r) => Some (a +:+ s, r) | None => None end.

Definition backslash : ascii := chr 92.

(** The body of a string literal, after its opening quote: the decoded bytes
    and what follows the closing quote. *)
Fixpoint parse_str (s : string) : option (string * string) :=
  match s with
  | "" => None
  | String c r =>
      if c =?c dq then Some ("", r)
      else if (code c <? 32)%Z then None
      else if c =?c backslash then
        match r with
        | "" => None
        | String e r1 =>
            let z := code e in
            if (z =? 34)%Z || (z =? 92)%Z || (z =? 47)%Z then prepend (str1 e) (parse_str r1)
            else if (z =? 98)%Z then prepend (bytes [8]%Z) (parse_str r1)
            else if (z =? 102)%Z then prepend (bytes [12]%Z) (parse_str r1)
            else if (z =? 110)%Z then prepend (bytes [10]%Z) (parse_str r1)
            else if (z =? 114)%Z then prepend (bytes [13]%Z) (parse_str r1)
            else if (z =? 116)%Z then prepend (bytes [9]%Z) (parse_str r1)
            else if (z =? 117)%Z then
              match r1 with
              | String h1 (String h2 (String h3 (String h4 r2))) =>
                  match hex4 h1 h2 h3 h4 with
                  | None => None
                  | Some u =>
                      if negb (is_surrogate u) then prepend (utf8_encode u) (parse_str r2)
                      else
                        match r2 with
                        | String b (String x (String l1 (String l2 (String l3 (String l4 r3))))) =>
                            match hex4 l1 l2 l3 l4 with
                            | Some lo =>
                                if (b =?c backslash) && (code x =? 117)%Z
                                   && in_range 55296 56319 u && in_range 56320 57343 lo
                                then prepend
                                       (utf8_encode (65536 + (u - 55296) * 1024 + (lo - 56320)))
                                       (parse_str r3)
                                else prepend replacement (parse_str r2)
                            | None => prepend replacement (parse_str r2)
                            end
                        | _ => prepend replacement (parse_str r2)
                        end
                  end
              | _ => None
              end
            else None
        end
      else prepend (str1 c) (parse_str r)
  end.

Definition parse_string_lit (s : string) : option (string * string) :=
  match parse_str s with Some (x, r) => Some (to_valid_utf8 replacement x, r) | None => None end.

(** ** Values *)

Fixpoint parse_value (n : nat) (s : string) : option (json * string) :=
  match n with
  | O => None
  | S n =>
      match skip_ws s with
      | "" => None
      | String c r =>
          if c =?c dq then
            match parse_string_lit r with Some (x, r) => Some (JStr x, r) | None => None end
          else if (code c =? 91)%Z then
            match skip_ws r with
            | "" => None
            | String d r' =>
                if (code d =? 93)%Z then Some (JArr [], r')
                else match parse_elems n r with Some (l, r) => Some (JArr l, r) | None => None end
            end
          else if (code c =? 123)%Z then
            match skip_ws r with
            | "" => None
            | String d r' =>
                if (code d =? 125)%Z then Some (JObj [], r')
                else match parse_members n r with Some (l, r) => Some (JObj l, r) | None => None end
            end
          else if is_num_char c then
            let '(lit, r') := span is_num_char (String c r) in
            if valid_number lit then Some (JNum lit, r') else None
          else
            match strip_prefix "true" (String c r) with
            | Some r => Some (JBool true, r)
            | None =>
                match strip_prefix "false" (String c r) with
                | Some r => Some (JBool false, r)
                | None =>
                    match strip_prefix "null" (String c r) with
                    | Some r => Some (JNull, r)
                    | None => None
                    end
                end
            end
      end
  end
with parse_elems (n : nat) (s : string) : option (list json * string) :=
  match n with
  | O => None
  | S n =>
      match parse_value n s with
      | None => None
      | Some (v, r) =>
          match skip_ws r with
          | "" => None
          | String c r =>
              if (code c =? 93)%Z then Some ([v], r)
              else if (code c =? 44)%Z then
                match parse_elems n r with Some (l, r) => Some (v :: l, r) | None => None end
              else None
          end
      end
  end
with parse_members (n : nat) (s : string) : option (list (string * json) * string) :=
  match n with
  | O => None
  | S n =>
      match skip_ws s with
      | "" => None
      | String q r =>
          if q =?c dq then
            match parse_string_lit r with
            | None => None
            | Some (k, r) =>
                match skip_ws r with
                | "" => None
                | String c r =>
                    if (code c =? 58)%Z then
                      match parse_value n r with
                      | None => None
                      | Some (v, r) =>
                          match skip_ws r with
                          | "" => None
                          | String c r =>
                              if (code c =? 125)%Z then Some ([(k, v)], r)
                              else if (code c =? 44)%Z then
                                match parse_members n r with
                                | Some (l, r) => Some ((k, v) :: l, r)
                                | None => None
                                end
                              else None
                          end
                      end
                    else None
                end
            end
          else None
      end
  end.

(** The tree of a JSON text; [None] is a syntax error. *)
Definition json_parse (s : string) : option json :=
  match parse_value (S (String.length s)) s with
  | Some (j, r) => if String.eqb (skip_ws r) "" then Some j else None
  | None => None
  end.

(** ** [Marshal] *)

Definition hex2 (z : Z) : string := String (hex_digit (z / 16)) (str1 (hex_digit (z `mod` 16))).
Definition esc_u (hi : string) (z : Z) : string :=
  String backslash (String (chr 117) (hi +:+ hex2 z)).

Definition print_rune (r : string) : string :=
  match r with
  | String a "" =>
      let z := code a in
      let esc (c : Z) := String backslash (str1 (chr c)) in
      if (128 <=? z)%Z then esc_u "ff" 253
      else if (z =? 34)%Z || (z =? 92)%Z then esc z
      else if (z =? 8)%Z then esc 98%Z else if (z =? 12)%Z then esc 102%Z
      else if (z =? 10)%Z then esc 110%Z else if (z =? 13)%Z then esc 114%Z
      else if (z =? 9)%Z then esc 116%Z
      else if (z <? 32)%Z || (z =? 60)%Z || (z =? 62)%Z || (z =? 38)%Z then esc_u "00" z
      else r
  | _ =>
      if String.eqb r (utf8_encode 8232) then esc_u "20" 40
      else if String.eqb r (utf8_encode 8233) then esc_u "20" 41
      else r
  end.

Definition print_str (s : string) : string :=
  String dq (concat_str (map print_rune (runes s)) +:+ str1 dq).

Fixpoint json_print (j : json) : string :=
  match j with
  | JNull => "null"
  | JBool true => "true"
  | JBool false => "false"
  | JNum lit => lit
  | JStr s => print_str s
  | JArr l => "[" +:+ Join (map json_print l) "," +:+ "]"
  | JObj kvs => "{" +:+ Join (map (λ '(k, v), print_str k +:+ ":" +:+ json_print v) kvs) ","
                +:+ "}"
  end.

(** ** Decoding into Go values *)

(** Values of type [any] as the agent meets them: what [Unmarshal] produces
    ([float64] numbers, [[]any], [map[string]any]), and the native [int] and
    [[]string] that configuration code stores. Maps are key-sorted association
    lists without duplicates, so that equality of values is equality of maps. *)
Inductive any :=
  | ANil
  | ABool (b : bool)
  | AFloat (f : spec_float)
  | AInt (z : Z)
  | AStr (s : string)
  | AStrs (l : list string)
  | AList (l : list any)
  | AMap (kvs : list (string * any)).

#[global] Instance spec_float_eq_dec : EqDecision spec_float.
Proof. solve_decision. Defined.

#[global] Instance any_eq_dec : EqDecision any.
Proof.
  refine (fix go x y :=
    match x, y with
    | ANil, ANil => left _
    | ABool a, ABool b => cast_if (decide (a = b))
    | AFloat a, AFloat b => cast_if (decide (a = b))
    | AInt a, AInt b => cast_if (decide (a = b))
    | AStr a, AStr b => cast_if (decide (a = b))
    | AStrs a, AStrs b => cast_if (decide (a = b))
    | AList a, AList b => cast_if (@list_eq_dec _ go a b)
    | AMap a, AMap b => cast_if (@list_eq_dec _ (@prod_eq_dec _ _ _ go) a b)
    | _, _ => right _
    end); clear go; abstract congruence.
Defined.

(** Insertion into a sorted association list, replacing an equal key. *)
Fixpoint assoc_insert {A} (k : string) (v : A) (l : list (string * A)) : list (string * A) :=
  match l with
  | [] => [(k, v)]
  | (k', v') :: l' =>
      match String.compare k k' with
      | Eq => (k, v) :: l'
      | Lt => (k, v) :: l
      | Gt => (k', v') :: assoc_insert k v l'
      end
  end.

(** [Unmarshal] into [any]: numbers become float64 (an error when out of
    range), a repeated key keeps its last value. *)
Fixpoint to_any (j : json) : option any :=
  match j with
  | JNull => Some ANil
  | JBool b => Some (ABool b)
  | JNum lit => AFloat <$> parse_float lit
  | JStr s => Some (AStr s)
  | JArr l =>
      AList <$> foldr (λ x acc, v ← to_any x; l ← acc; Some (v :: l)) (Some []) l
  | JObj kvs =>
      AMap <$> foldl (λ acc '(k, x), l ← acc; v ← to_any x; Some (assoc_insert k v l))
                 (Some []) kvs
  end.

(** [Unmarshal] into [map[string]json.RawMessage]: [null] leaves the map nil,
    the last of repeated keys wins, anything but an object is an error. *)
Definition members_map (kvs : list (string * json)) : gmap string json :=
  foldl (λ m '(k, v), <[k:=v]> m) ∅ kvs.

Definition unmarshal_raw_map (j : json) : option (gmap string json) :=
  match j with
  | JObj kvs => Some (members_map kvs)
  | JNull => Some ∅
  | _ => None
  end.

(** [Marshal] of a [map[string]json.RawMessage]: keys in increasing order. *)
Definition marshal_raw_map (m : gmap string json) : json :=
  JObj (foldr (λ '(k, v) l, assoc_insert k v l) [] (map_to_list m)).

(** A struct field is matched by its exact name or, failing that, by a name
    equal under case folding. The agent's field names are lower-case ASCII, so
    both mean that the folded key is the field's name. Two non-ASCII runes fold
    to ASCII letters: the Kelvin sign and the long s. *)
Definition fold_rune (r : string) : string :=
  match r with
  | String a "" => str1 (lower_char a)
  | _ =>
      if String.eqb r (bytes [226; 132; 170]%Z) then "k"
      else if String.eqb r (bytes [197; 191]%Z) then "s"
      else r
  end.
Definition fold_name (s : string) : string := concat_str (map fold_rune (runes s)).
Definition key_is (name k : string) : bool := String.eqb (fold_name k) name.

(** Decoding one value into a field that holds [old]: the new content, and
    whether the value had a suitable type. A mismatch leaves the field alone,
    decoding goes on, and [Unmarshal] reports the error at the end. *)
Definition dec_string (old : string) (v : json) : string * bool :=
  match v with JStr s => (s, true) | JNull => (old, true) | _ => (old, false) end.

(** Fold a decoder over the members of an object. [null] is accepted and
    changes nothing; any other value is a type error. *)
Definition dec_struct {A} (field : A → string → json → A * bool) (old : A) (v : json)
  : A * bool :=
  match v with
  | JObj kvs =>
      foldl (λ '(a, ok) '(k, x), let '(a', ok') := field a k x in (a', ok && ok'))
        (old, true) kvs
  | JNull => (old, true)
  | _ => (old, false)
  end.

(** [map[string]any]; a nil map is [None]. *)
Definition dec_any_map (old : option (gmap string any)) (v : json)
  : option (gmap string any) * bool :=
  match v with
  | JObj kvs =>
      let '(m, ok) :=
        foldl (λ '(m, ok) '(k, x),
                 match to_any x with
                 | Some a => (<[k:=a]> m, ok)
                 | None => (<[k:=ANil]> m, false)
                 end) (default ∅ old, true) kvs in
      (Some m, ok)
  | JNull => (None, true)
  | _ => (old, false)
  end.

(** [map[string]string]. *)
Definition dec_string_map (old : option (gmap string string)) (v : json)
  : option (gmap string string) * bool :=
  match v with
  | JObj kvs =>
      let '(m, ok) :=
        foldl (λ '(m, ok) '(k, x),
                 let '(s, ok') := dec_string "" x in (<[k:=s]> m, ok && ok'))
          (default ∅ old, true) kvs in
      (Some m, ok)
  | JNull => (None, true)
  | _ => (old, false)
  end.

(** [[]string]. *)
Definition dec_string_list (old : list string) (v : json) : list string * bool :=
  match v with
  | JArr l =>
      (map (λ x, (dec_string "" x).1) l, forallb (λ x, (dec_string "" x).2) l)
  | JNull => ([], true)
  | _ => (old, false)
  end.

(** [map[string][]string]. *)
Definition dec_header (old : option (gmap string (list string))) (v : json)
  : option (gmap string (list string)) * bool :=
  match v with
  | JObj kvs =>
      let '(m, ok) :=
        foldl (λ '(m, ok) '(k, x),
                 let '(s, ok') := dec_string_list [] x in (<[k:=s]> m, ok && ok'))
          (default ∅ old, true) kvs in
      (Some m, ok)
  | JNull => (None, true)
  | _ => (old, false)
  end.

(** ** Type assertions on [any] *)

(** [v, _ := x.(string)] and [v, ok := x.(bool)]. *)
Definition as_string (x : option any) : string :=
  match x with Some (AStr s) => s | _ => "" end.
Definition as_bool (x : option any) : option bool :=
  match x with Some (ABool b) => Some b | _ => None end.
Definition as_float (x : option any) : option spec_float :=
  match x with Some (AFloat f) => Some f | _ => None end.

(** [int(v)] of a float64: truncation towards zero. Out of range the result is
    the "integer indefinite" value of amd64. *)
Definition float_trunc (f : spec_float) : Z :=
  match f with
  | S754_finite s m e =>
      let a := if (0 <=? e)%Z then (Z.pos m * 2 ^ e)%Z else (Z.pos m / 2 ^ (- e))%Z in
      if s then (- a)%Z else a
  | _ => 0%Z
  end.
Definition float_to_int (f : spec_float) : Z :=
  match f with
  | S754_zero _ => 0%Z
  | S754_finite _ _ _ =>
      if bool_decide (in_int64 (float_trunc f)) then float_trunc f else minInt64
  | _ => minInt64
  end.

(** [v > 0]. *)
Definition float_pos (f : spec_float) : bool :=
  match f with S754_finite s _ _ | S754_infinity s => negb s | _ => false end.
