(* ===== verification/GoJsonFacts.v ===== *)
(** * Facts about the JSON codec: parsing inverts printing *)

From S2P Require Import Prelude GoStrings GoJson.

(** ** Structural induction over trees *)

Section json_induction.
Context (P : json → Prop).
Hypothesis HNull : P JNull.
Hypothesis HBool : ∀ b, P (JBool b).
Hypothesis HNum : ∀ s, P (JNum s).
Hypothesis HStr : ∀ s, P (JStr s).
Hypothesis HArr : ∀ l, Forall P l → P (JArr l).
Hypothesis HObj : ∀ kvs, Forall (λ kv, P kv.2) kvs → P (JObj kvs).

Fixpoint json_induction (j : json) : P j :=
  match j with
  | JNull => HNull
  | JBool b => HBool b
  | JNum s => HNum s
  | JStr s => HStr s
  | JArr l =>
      HArr l ((fix go l : Forall P l :=
                 match l with
                 | [] => Forall_nil_2 P
                 | x :: l => Forall_cons_2 P x l (json_induction x) (go l)
                 end) l)
  | JObj kvs =>
      HObj kvs ((fix go l : Forall (λ kv, P kv.2) l :=
                   match l with
                   | [] => Forall_nil_2 _
                   | x :: l => Forall_cons_2 _ x l (json_induction x.2) (go l)
                   end) kvs)
  end.
End json_induction.

(** Trees that a decoder can produce: strings in valid UTF-8, numbers well formed. *)
Fixpoint wf_json (j : json) : bool :=
  match j with
  | JNull | JBool _ => true
  | JNum lit => valid_number lit
  | JStr s => valid_utf8 s
  | JArr l => forallb wf_json l
  | JObj kvs => forallb (λ kv, valid_utf8 kv.1 && wf_json kv.2) kvs
  end.

(** The encoder writes any string, with U+FFFD for each invalid byte: [clean] is the
    tree that is read back. *)
Definition clean_str (s : string) : string := to_valid_utf8 replacement s.
Fixpoint clean (j : json) : json :=
  match j with
  | JStr s => JStr (clean_str s)
  | JArr l => JArr (map clean l)
  | JObj kvs => JObj (map (λ kv, (clean_str kv.1, clean kv.2)) kvs)
  | _ => j
  end.
Fixpoint numbers_ok (j : json) : bool :=
  match j with
  | JNum lit => valid_number lit
  | JArr l => forallb numbers_ok l
  | JObj kvs => forallb (λ kv, numbers_ok kv.2) kvs
  | _ => true
  end.

(** ** Valid UTF-8 *)

Definition valid_chunk (r : string) : bool :=
  match r with
  | String a "" => (code a <? 128)%Z
  | String a (String b "") => utf8_2 a b
  | String a (String b (String c "")) => utf8_3 a b c
  | String a (String b (String c (String d ""))) => utf8_4 a b c d
  | _ => false
  end.

Lemma utf8_2_lead a b : utf8_2 a b = true → (194 ≤ code a ≤ 223)%Z.
Proof. unfold utf8_2, in_range. bool_to_prop. lia. Qed.
Lemma utf8_3_lead a b c : utf8_3 a b c = true → (224 ≤ code a ≤ 239)%Z.
Proof. unfold utf8_3, cont, in_range. bool_to_prop. lia. Qed.
Lemma utf8_4_lead a b c d : utf8_4 a b c d = true → (240 ≤ code a ≤ 244)%Z.
Proof. unfold utf8_4, cont, in_range. bool_to_prop. lia. Qed.

Lemma runes_chunk r t : valid_chunk r = true → runes (r +:+ t) = r :: runes t.
Proof.
  destruct r as [|a [|b [|c [|d [|]]]]]; intros H; try discriminate H; cbn [valid_chunk] in H;
    rewrite !app_cons, app_nil_l; cbn [runes]; unfold str1.
  - by rewrite H.
  - pose proof (utf8_2_lead _ _ H). rewrite (proj2 (Z.ltb_ge _ _)) by lia. by rewrite H.
  - pose proof (utf8_3_lead _ _ _ H). rewrite (proj2 (Z.ltb_ge _ _)) by lia.
    destruct (utf8_2 a b) eqn:E; [apply utf8_2_lead in E; lia|]. by rewrite H.
  - pose proof (utf8_4_lead _ _ _ _ H). rewrite (proj2 (Z.ltb_ge _ _)) by lia.
    destruct (utf8_2 a b) eqn:E; [apply utf8_2_lead in E; lia|].
    destruct (utf8_3 a b c) eqn:E'; [apply utf8_3_lead in E'; lia|]. by rewrite H.
Qed.

Lemma runes_concat l : Forall (λ r, valid_chunk r = true) l → runes (concat_str l) = l.
Proof.
  induction 1 as [|r l Hr _ IH]; [done|]. rewrite concat_str_cons, runes_chunk, IH by done. done.
Qed.

Lemma valid_chunk_not_invalid r : valid_chunk r = true → invalid_rune r = false.
Proof. destruct r as [|a [|]]; simpl; try done. rewrite Z.ltb_lt, Z.leb_gt. done. Qed.

Lemma valid_utf8_concat l : Forall (λ r, valid_chunk r = true) l → valid_utf8 (concat_str l) = true.
Proof.
  intros Hl. unfold valid_utf8. rewrite runes_concat by done.
  apply forallb_forall. intros r Hr. rewrite List.Forall_forall in Hl.
  apply negb_true_iff, valid_chunk_not_invalid. auto.
Qed.

(** Every chunk of [runes] is a valid sequence or a lone invalid byte. *)
Lemma runes_chunks s : Forall (λ r, valid_chunk r = true ∨ invalid_rune r = true) (runes s).
Proof.
  remember (String.length s) as n eqn:Hn. revert s Hn.
  induction (lt_wf n) as [n _ IH]. intros s ->.
  assert (∀ t, String.length t < String.length s →
    Forall (λ r, valid_chunk r = true ∨ invalid_rune r = true) (runes t)) as IH'.
  { intros t Ht. by eapply IH. }
  clear IH. destruct s as [|a s1]; [by constructor|]. cbn [runes].
  destruct (code a <? 128)%Z eqn:Ea.
  { constructor; [by left|]. apply IH'. simpl. lia. }
  assert (invalid_rune (str1 a) = true) as Ha
    by (simpl; apply Z.leb_le; apply Z.ltb_ge in Ea; lia).
  destruct s1 as [|b s2]; [constructor; [by right|constructor]|].
  destruct (utf8_2 a b) eqn:E2; [constructor; [by left|]; apply IH'; simpl; lia|].
  destruct s2 as [|c s3]; [constructor; [by right|]; apply IH'; simpl; lia|].
  destruct (utf8_3 a b c) eqn:E3; [constructor; [by left|]; apply IH'; simpl; lia|].
  destruct s3 as [|d s4]; [constructor; [by right|]; apply IH'; simpl; lia|].
  destruct (utf8_4 a b c d) eqn:E4.
  - constructor; [by left|]. apply IH'. simpl. lia.
  - constructor; [by right|]. apply IH'. simpl. lia.
Qed.

Lemma valid_utf8_chunks s : valid_utf8 s = true → Forall (λ r, valid_chunk r = true) (runes s).
Proof.
  unfold valid_utf8. intros H. pose proof (runes_chunks s) as Hc.
  rewrite forallb_forall in H. rewrite List.Forall_forall in *. intros r Hr.
  destruct (Hc r Hr) as [|Hi]; [done|].
  apply H in Hr. by rewrite Hi in Hr.
Qed.

Lemma runes_app s t : valid_utf8 s = true → runes (s +:+ t) = runes s ++ runes t.
Proof.
  intros Hs%valid_utf8_chunks. rewrite <- (concat_runes s) at 1.
  induction Hs as [|r l Hr _ IH]; [done|].
  rewrite concat_str_cons, app_assoc, runes_chunk, IH by done. done.
Qed.

Lemma valid_utf8_app s t :
  valid_utf8 s = true → valid_utf8 t = true → valid_utf8 (s +:+ t) = true.
Proof.
  intros Hs%valid_utf8_chunks Ht%valid_utf8_chunks.
  rewrite <- (concat_runes s), <- (concat_runes t), <- concat_str_app.
  apply valid_utf8_concat. by apply Forall_app_2.
Qed.

Lemma valid_utf8_ascii s : all_chars (λ c, (code c <? 128)%Z) s = true → valid_utf8 s = true.
Proof.
  intros H. induction s as [|c s IH]; [done|].
  simpl in H. apply andb_true_iff in H as [Hc Hs].
  change (String c s) with (str1 c +:+ s). apply valid_utf8_app; [|auto].
  unfold valid_utf8, str1. cbn [runes]. rewrite Hc. cbn.
  by rewrite (proj2 (Z.leb_gt _ _)) by (by apply Z.ltb_lt).
Qed.

Lemma to_valid_utf8_valid_chunks s : valid_utf8 (to_valid_utf8 replacement s) = true.
Proof.
  apply valid_utf8_concat. apply Forall_fmap. eapply Forall_impl; [apply runes_chunks|].
  intros r [Hr|Hr]; simpl.
  - by rewrite valid_chunk_not_invalid.
  - by rewrite Hr.
Qed.

Lemma valid_utf8_concat_list l :
  Forall (λ s, valid_utf8 s = true) l → valid_utf8 (concat_str l) = true.
Proof.
  induction 1 as [|s l Hs _ IH]; [done|]. rewrite concat_str_cons. by apply valid_utf8_app.
Qed.

Lemma valid_utf8_chunk r : valid_chunk r = true → valid_utf8 r = true.
Proof.
  intros H. rewrite <- (app_nil_r r). change "" with (concat_str []).
  rewrite <- concat_str_cons. apply valid_utf8_concat. by repeat constructor.
Qed.

(** ** Strings *)

Lemma prepend_app a b x : prepend a (prepend b x) = prepend (a +:+ b) x.
Proof. destruct x as [[]|]; simpl; [|done]. by rewrite app_assoc. Qed.

Lemma prepend_nil x : prepend "" x = x.
Proof. by destruct x as [[]|]. Qed.

(** A byte above 127 stands for itself inside a literal. *)
Lemma parse_str_high c t :
  (128 ≤ code c)%Z → parse_str (String c t) = prepend (str1 c) (parse_str t).
Proof.
  intros H. simpl.
  destruct (c =?c dq) eqn:E1; [apply eqb_ascii_true in E1; subst; by vm_compute in H|].
  replace (code c <? 32)%Z with false by (symmetry; apply Z.ltb_ge; lia).
  destruct (c =?c backslash) eqn:E2; [apply eqb_ascii_true in E2; subst; by vm_compute in H|].
  done.
Qed.

Lemma parse_str_ascii c t :
  (code c < 128)%Z → parse_str (print_rune (str1 c) +:+ t) = prepend (str1 c) (parse_str t).
Proof.
  intros H. destruct c as [[] [] [] [] [] [] [] []];
    first [by vm_compute in H | reflexivity].
Qed.

(** Multi-byte chunks consist of bytes above 127. *)
Definition high_bytes (s : string) : bool := all_chars (λ c, (128 <=? code c)%Z) s.

Lemma parse_str_high_bytes r t :
  high_bytes r = true → parse_str (r +:+ t) = prepend r (parse_str t).
Proof.
  induction r as [|c r IH]; intros H.
  - by rewrite app_nil_l, prepend_nil.
  - apply andb_true_iff in H as [Hc Hr]. apply Z.leb_le in Hc.
    rewrite app_cons, parse_str_high, IH, prepend_app by done. done.
Qed.

Inductive rune_shape : string → Prop :=
  | shape_ascii c : (code c < 128)%Z → rune_shape (str1 c)
  | shape_invalid c : (128 ≤ code c)%Z → rune_shape (str1 c)
  | shape_multi a b r : high_bytes (String a (String b r)) = true →
      rune_shape (String a (String b r)).

Lemma utf8_2_high a b : utf8_2 a b = true → high_bytes (String a (str1 b)) = true.
Proof. unfold utf8_2, cont, in_range, high_bytes. simpl. bool_to_prop. lia. Qed.
Lemma utf8_3_high a b c :
  utf8_3 a b c = true → high_bytes (String a (String b (str1 c))) = true.
Proof. unfold utf8_3, cont, in_range, high_bytes. simpl. bool_to_prop. lia. Qed.
Lemma utf8_4_high a b c d :
  utf8_4 a b c d = true → high_bytes (String a (String b (String c (str1 d)))) = true.
Proof. unfold utf8_4, cont, in_range, high_bytes. simpl. bool_to_prop. lia. Qed.

(** Induction following the recursion of [runes]. *)
Lemma runes_cases a s1 :
  ∃ r t, runes (String a s1) = r :: runes t ∧ rune_shape r
         ∧ String.length t ≤ String.length s1.
Proof.
  cbn [runes]. destruct (code a <? 128)%Z eqn:Ea.
  { apply Z.ltb_lt in Ea. eexists _, s1. split; [done|]. split; [by constructor|done]. }
  apply Z.ltb_ge in Ea.
  assert (rune_shape (str1 a)) as Ha by (by apply shape_invalid).
  destruct s1 as [|b s2]; [by exists (str1 a), ""|].
  destruct (utf8_2 a b) eqn:E2.
  { eexists _, s2. split; [done|]. split; [by constructor; apply utf8_2_high|simpl; lia]. }
  destruct s2 as [|c s3]; [by eexists _, (str1 b)|].
  destruct (utf8_3 a b c) eqn:E3.
  { eexists _, s3. split; [done|]. split; [by constructor; apply utf8_3_high|simpl; lia]. }
  destruct s3 as [|d s4]; [by eexists _, (String b (str1 c))|].
  destruct (utf8_4 a b c d) eqn:E4.
  - eexists _, s4. split; [done|]. split; [by constructor; apply utf8_4_high|simpl; lia].
  - by eexists _, (String b (String c (String d s4))).
Qed.

Lemma runes_shape s : Forall rune_shape (runes s).
Proof.
  remember (String.length s) as n eqn:Hn. revert s Hn.
  induction (lt_wf n) as [n _ IH]. intros [|a s] ->; [by constructor|].
  destruct (runes_cases a s) as (r & t & -> & Hr & Hl).
  constructor; [done|]. eapply IH; [|done]. simpl. lia.
Qed.

Lemma print_rune_multi a b r t :
  high_bytes (String a (String b r)) = true →
  parse_str (print_rune (String a (String b r)) +:+ t)
  = prepend (String a (String b r)) (parse_str t).
Proof.
  intros H. unfold print_rune.
  destruct (String.eqb _ (utf8_encode 8232)) eqn:E1.
  { apply String.eqb_eq in E1. rewrite E1. reflexivity. }
  destruct (String.eqb _ (utf8_encode 8233)) eqn:E2.
  { apply String.eqb_eq in E2. rewrite E2. reflexivity. }
  by apply parse_str_high_bytes.
Qed.

(** What is read back of one rune. *)
Definition clean_rune (r : string) : string := if invalid_rune r then replacement else r.

Lemma clean_rune_byte c : clean_rune (str1 c) = if (128 <=? code c)%Z then replacement else str1 c.
Proof. done. Qed.

Lemma parse_str_runes l t :
  Forall rune_shape l →
  parse_str (concat_str (map print_rune l) +:+ String dq t) = Some (concat_str (map clean_rune l), t).
Proof.
  induction 1 as [|r l Hr Hl IH]; [reflexivity|].
  rewrite !map_cons, !concat_str_cons, app_assoc.
  destruct Hr as [c Hc|c Hc|a b r Hh].
  - rewrite parse_str_ascii, IH, clean_rune_byte by done. by rewrite (proj2 (Z.leb_gt _ _)) by done.
  - assert (print_rune (str1 c) = esc_u "ff" 253) as ->.
    { unfold print_rune, str1. by rewrite (proj2 (Z.leb_le _ _)) by done. }
    rewrite clean_rune_byte, (proj2 (Z.leb_le _ _)) by done.
    change (parse_str (esc_u "ff" 253 +:+ ?x)) with (prepend replacement (parse_str x)). by rewrite IH.
  - rewrite print_rune_multi, IH by done. done.
Qed.

Lemma to_valid_utf8_valid s : valid_utf8 s = true → to_valid_utf8 replacement s = s.
Proof.
  unfold valid_utf8, to_valid_utf8. intros H.
  transitivity (concat_str (runes s)); [|apply concat_runes]. f_equal.
  induction (runes s) as [|r l IH]; [done|]. simpl in *.
  apply andb_true_iff in H as [Hr H]. apply negb_true_iff in Hr. by rewrite Hr, IH.
Qed.

Lemma clean_str_twice s : clean_str (clean_str s) = clean_str s.
Proof. apply to_valid_utf8_valid, to_valid_utf8_valid_chunks. Qed.

Lemma parse_print_str s t :
  parse_string_lit (concat_str (map print_rune (runes s)) +:+ String dq t) = Some (clean_str s, t).
Proof.
  unfold parse_string_lit. rewrite parse_str_runes by apply runes_shape.
  change (concat_str (map clean_rune (runes s))) with (clean_str s).
  by rewrite (clean_str_twice s : to_valid_utf8 _ _ = _).
Qed.

Lemma clean_wf j : wf_json j = true → clean j = j.
Proof.
  induction j as [|b|lit|s|l IH|kvs IH] using json_induction; intros Hwf; cbn [clean]; try done.
  - f_equal. by apply to_valid_utf8_valid.
  - f_equal. induction IH as [|x l Hx _ IH]; [done|]. simpl in *.
    apply andb_true_iff in Hwf as [Hw Hws]. by rewrite Hx, IH.
  - f_equal. induction IH as [|[k x] l Hx _ IH]; [done|]. simpl in *.
    apply andb_true_iff in Hwf as [[Hk Hw]%andb_true_iff Hws]. rewrite Hx, IH by done.
    unfold clean_str. by rewrite to_valid_utf8_valid.
Qed.

Lemma wf_numbers j : wf_json j = true → numbers_ok j = true.
Proof.
  induction j as [|b|lit|s|l IH|kvs IH] using json_induction; intros Hwf; cbn [numbers_ok]; try done.
  - induction IH as [|x l Hx _ IH]; [done|]. simpl in *.
    apply andb_true_iff in Hwf as [Hw Hws]. by rewrite Hx, IH.
  - induction IH as [|[k x] l Hx _ IH]; [done|]. simpl in *.
    apply andb_true_iff in Hwf as [[Hk Hw]%andb_true_iff Hws]. by rewrite Hx, IH.
Qed.

(** ** Numbers *)

(** What may follow a value: not another number character. *)
Definition stops (t : string) : Prop :=
  match t with "" => True | String c _ => is_num_char c = false end.

Lemma span_app P s t :
  all_chars P s = true → match t with "" => True | String c _ => P c = false end →
  span P (s +:+ t) = (s, t).
Proof.
  induction s as [|c s IH].
  - rewrite app_nil_l. destruct t; simpl; [done|]. by intros _ ->.
  - intros [Hc Hs]%andb_true_iff Ht. rewrite app_cons. simpl. by rewrite Hc, IH.
Qed.

Lemma span_spec P s : s = (span P s).1 +:+ (span P s).2 ∧ all_chars P (span P s).1 = true.
Proof.
  induction s as [|c s [IH1 IH2]]; simpl; [done|].
  destruct (P c) eqn:E; [|done]. destruct (span P s) as [a b]; simpl in *.
  rewrite app_cons, <- IH1, E, IH2. done.
Qed.

Lemma span_chars Q P s a b :
  span P s = (a, b) → (∀ c, P c = true → Q c = true) → all_chars Q b = true →
  all_chars Q s = true.
Proof.
  intros Hs HPQ Hb. destruct (span_spec P s) as [Heq Ha].
  rewrite Hs in Heq, Ha. simpl in *. rewrite Heq, all_chars_app, Hb, andb_true_r.
  clear -Ha HPQ. induction a as [|c a IH]; simpl in *; [done|].
  apply andb_true_iff in Ha as [??]. by rewrite HPQ, IH.
Qed.

Lemma opt_char_chars Q z s :
  (∀ c, existsb (Z.eqb (code c)) z = true → Q c = true) →
  all_chars Q (opt_char z s) = true → all_chars Q s = true.
Proof.
  intros Hz. destruct s as [|c s]; simpl; [done|].
  destruct (existsb _ z) eqn:E; [|done]. intros ->. by rewrite Hz.
Qed.

Lemma digit_num c : is_digit c = true → is_num_char c = true.
Proof. unfold is_num_char. by intros ->. Qed.

Lemma sign_num z c :
  incl z [43; 45; 46; 69; 101]%Z → existsb (Z.eqb (code c)) z = true → is_num_char c = true.
Proof.
  intros Hz (x & Hx & Heq)%existsb_exists. unfold is_num_char.
  apply orb_true_iff. right. apply existsb_exists. exists x. split; [by apply Hz|done].
Qed.

Ltac solve_incl := intros ?; simpl; tauto.

Lemma number_parts_exponent s2 ex :
  starts_with [69; 101]%Z s2 = true →
  span is_digit (opt_char [43; 45]%Z (opt_char [69; 101]%Z s2)) = (ex, "") →
  all_chars is_num_char s2 = true.
Proof.
  intros _ Hs. apply (opt_char_chars _ [69; 101]%Z); [intros ?; apply sign_num; solve_incl|].
  apply (opt_char_chars _ [43; 45]%Z); [intros ?; apply sign_num; solve_incl|].
  eapply span_chars; [done|apply digit_num|done].
Qed.

(** A number literal has only number characters. *)
Lemma valid_number_chars lit : valid_number lit = true → all_chars is_num_char lit = true.
Proof.
  unfold valid_number, number_parts. intros H.
  destruct (span is_digit (opt_char [45]%Z lit)) as [int s1] eqn:E1.
  apply (opt_char_chars _ [45]%Z); [intros ?; apply sign_num; solve_incl|].
  eapply span_chars; [done|apply digit_num|].
  destruct (_ || _); [done|].
  assert (∀ s2 : string,
    (if starts_with [69; 101]%Z s2 then all_chars is_num_char s2 = true
     else s2 = "") → all_chars is_num_char s2 = true) as Hs2.
  { intros s2. destruct (starts_with _ s2); [done|]. by intros ->. }
  destruct (starts_with [46]%Z s1) eqn:E2.
  - apply (opt_char_chars _ [46]%Z); [intros ?; apply sign_num; solve_incl|].
    destruct (span is_digit (opt_char [46]%Z s1)) as [fr s2] eqn:E3.
    eapply span_chars; [done|apply digit_num|]. apply Hs2.
    destruct fr as [|? fr]; [done|]. simpl in H.
    destruct (starts_with [69; 101]%Z s2) eqn:E4.
    + destruct (span is_digit _) as [[|? ex] [|]] eqn:E5 in H; try done.
      by eapply number_parts_exponent.
    + destruct (String.eqb_spec s2 ""); [done|]. by destruct (String.eqb s2 "").
  - apply Hs2. simpl in H. destruct (starts_with [69; 101]%Z s1) eqn:E4.
    + destruct (span is_digit _) as [[|? ex] [|]] eqn:E5 in H; try done.
      by eapply number_parts_exponent.
    + destruct (String.eqb_spec s1 ""); [done|]. by destruct (String.eqb s1 "").
Qed.

(** ** Values *)

Lemma skip_ws_nonws c r : is_ws c = false → skip_ws (String c r) = String c r.
Proof. simpl. by intros ->. Qed.

Lemma num_char_cases c :
  is_num_char c = true →
  is_ws c = false ∧ (c =?c dq) = false ∧ (code c =? 91)%Z = false ∧ (code c =? 123)%Z = false
  ∧ (code c =? 93)%Z = false ∧ (code c =? 125)%Z = false.
Proof. intros H. destruct c as [[] [] [] [] [] [] [] []]; (by vm_compute in H) || done. Qed.

(** A value starts with a character that is neither white space nor a closing
    bracket. *)
Definition head_ok (t : string) : Prop :=
  ∃ c r, t = String c r ∧ is_ws c = false ∧ (code c =? 93)%Z = false ∧ (code c =? 125)%Z = false.

Lemma print_head j : numbers_ok j = true → head_ok (json_print j).
Proof.
  destruct j as [|[]|lit|s|l|kvs]; intros Hwf; simpl;
    try (eexists _, _; split; [reflexivity|done]).
  simpl in Hwf. pose proof (valid_number_chars _ Hwf) as Hc.
  destruct lit as [|c lit]; [done|]. simpl in Hc. apply andb_true_iff in Hc as [Hc _].
  eexists _, _. split; [reflexivity|]. apply num_char_cases in Hc. tauto.
Qed.

(** The text [t] is that of the value [j], whatever follows it. *)
Definition reads (t : string) (j : json) : Prop := ∀ n rest,
  String.length t ≤ n → stops rest → parse_value n (t +:+ rest) = Some (j, rest).

Lemma reads_number lit : valid_number lit = true → reads lit (JNum lit).
Proof.
  intros Hwf n rest Hn Hr. simpl in *. pose proof (valid_number_chars _ Hwf) as Hc.
  destruct lit as [|c lit]; [done|]. destruct n as [|n]; [simpl in Hn; lia|].
  pose proof Hc as Hc'. simpl in Hc'. apply andb_true_iff in Hc' as [Hcc _].
  destruct (num_char_cases _ Hcc) as (Hws & Hdq & H91 & H123 & _).
  pose proof (span_app is_num_char (String c lit) rest Hc Hr) as Hsp.
  rewrite app_cons in *. cbn [parse_value].
  rewrite skip_ws_nonws by done. by rewrite Hdq, H91, H123, Hcc, Hsp, Hwf.
Qed.

(** A string literal, given by its body and its closing quote. *)
Lemma reads_literal b s :
  (∀ rest, parse_string_lit (b +:+ String dq rest) = Some (s, rest)) →
  reads (String dq (b +:+ str1 dq)) (JStr s).
Proof.
  intros Hb n rest Hn _. destruct n as [|n]; [simpl in Hn; lia|].
  rewrite app_cons, app_assoc. cbn [parse_value].
  change (skip_ws (String dq ?r)) with (String dq r). cbn beta iota.
  rewrite Ascii.eqb_refl. unfold str1. rewrite app_cons, app_nil_l. by rewrite Hb.
Qed.

(** Advance the parser over a known punctuation character. *)
Ltac lex_char z :=
  repeat change (skip_ws (String (chr z) ?r)) with (String (chr z) r);
  cbn beta iota;
  repeat match goal with
  | |- context [(code (chr z) =? ?k)%Z] =>
      let b := eval vm_compute in (code (chr z) =? k)%Z in
      change (code (chr z) =? k)%Z with b
  | |- context [Ascii.eqb (chr z) ?k] =>
      let b := eval vm_compute in (Ascii.eqb (chr z) k) in
      change (Ascii.eqb (chr z) k) with b
  end; cbn beta iota.

(** A text and its value. *)
Definition text_of (x : string * json) : Prop := head_ok x.1 ∧ reads x.1 x.2.

Lemma parse_elems_texts (l : list (string * json)) n rest :
  l ≠ [] → Forall text_of l →
  String.length (Join (map fst l) ",") < n →
  parse_elems n (Join (map fst l) "," +:+ "]" +:+ rest) = Some (map snd l, rest).
Proof.
  intros Hl Hp. revert n. induction Hp as [|[t x] l [_ Hx] Hp IH]; [done|].
  cbn [fst snd] in Hx.
  intros n Hn. destruct n as [|n]; [lia|].
  destruct l as [|y l].
  - simpl in Hn. cbn [map Join parse_elems fst snd]. rewrite Hx; [reflexivity|lia|done].
  - cbn [map fst snd] in *. rewrite Join_cons in * by done.
    rewrite !length_app_str in Hn. cbn [String.length] in Hn. rewrite !app_assoc.
    cbn [parse_elems]. rewrite Hx; [|lia|done].
    change ("," +:+ ?t) with (String (chr 44) t). lex_char 44%Z.
    rewrite (IH ltac:(done) n) by lia. done.
Qed.

(** A member of an object: its key's text and its key, its value's text and its value. *)
Definition member : Type := (string * string) * (string * json).
Definition member_text (x : member) : string :=
  String dq (x.1.1 +:+ String dq (String (chr 58) x.2.1)).
Definition member_of (x : member) : string * json := (x.1.2, x.2.2).
Definition member_ok (x : member) : Prop :=
  (∀ rest, parse_string_lit (x.1.1 +:+ String dq rest) = Some (x.1.2, rest)) ∧ reads x.2.1 x.2.2.

Lemma member_text_app kt k t x rest :
  member_text ((kt, k), (t, x)) +:+ rest = String dq (kt +:+ String dq (String (chr 58) (t +:+ rest))).
Proof. unfold member_text. cbn [fst snd]. by rewrite app_cons, app_assoc, !app_cons. Qed.

Lemma parse_members_texts (l : list member) n rest :
  l ≠ [] → Forall member_ok l →
  String.length (Join (map member_text l) ",") < n →
  parse_members n (Join (map member_text l) "," +:+ "}" +:+ rest) = Some (map member_of l, rest).
Proof.
  intros Hl Hp. revert n. induction Hp as [|[[kt k] [t x]] l [Hk Hx] Hp IH]; [done|].
  intros n Hn. destruct n as [|n]; [lia|]. cbn [fst snd] in Hk, Hx.
  assert (String.length t < String.length (member_text ((kt, k), (t, x)))) as Hlen.
  { unfold member_text. cbn [fst snd String.length]. rewrite length_app_str. simpl. lia. }
  destruct l as [|y l].
  - cbn [map Join] in *. rewrite member_text_app. cbn [parse_members].
    change (skip_ws (String dq ?r)) with (String dq r). cbn beta iota.
    rewrite Ascii.eqb_refl, Hk.
    lex_char 58%Z.
    rewrite Hx; [reflexivity|lia|done].
  - cbn [map] in *. rewrite Join_cons in * by done.
    rewrite !length_app_str in Hn. cbn [String.length] in Hn. rewrite !app_assoc, member_text_app.
    cbn [parse_members].
    change (skip_ws (String dq ?r)) with (String dq r). cbn beta iota.
    rewrite Ascii.eqb_refl, Hk.
    lex_char 58%Z.
    rewrite Hx; [|lia|done].
    change ("," +:+ ?t) with (String (chr 44) t). lex_char 44%Z.
    rewrite (IH ltac:(done) n) by lia. done.
Qed.

Lemma reads_array (l : list (string * json)) :
  Forall text_of l → reads ("[" +:+ Join (map fst l) "," +:+ "]") (JArr (map snd l)).
Proof.
  intros Hl n rest Hn Hr. destruct n as [|n]; [simpl in Hn; lia|].
  destruct l as [|[t x] l]; [reflexivity|].
  rewrite !app_assoc. change ("[" +:+ ?t) with (String (chr 91) t).
  cbn [parse_value]. lex_char 91%Z.
  assert (∃ c r, Join (map fst ((t, x) :: l)) "," +:+ "]" +:+ rest = String c r
           ∧ is_ws c = false ∧ (code c =? 93)%Z = false) as (c & r & Hcr & Hws & H93).
  { apply Forall_cons in Hl as [[(c & r & Hp & ? & ? & _) _] _]. cbn [fst] in Hp. subst t.
    cbn [map fst]. destruct (map fst l); cbn [Join]; rewrite ?app_cons; eauto. }
  rewrite Hcr, skip_ws_nonws, H93, <- Hcr by done.
  rewrite parse_elems_texts; [done|done|done|].
  rewrite !length_app_str in Hn. cbn [String.length] in Hn.
  cbn [map] in *. lia.
Qed.

Lemma reads_object (l : list member) :
  Forall member_ok l →
  reads ("{" +:+ Join (map member_text l) "," +:+ "}") (JObj (map member_of l)).
Proof.
  intros Hl n rest Hn Hr. destruct n as [|n]; [simpl in Hn; lia|].
  destruct l as [|x l]; [reflexivity|].
  rewrite !app_assoc. change ("{" +:+ ?t) with (String (chr 123) t).
  cbn [parse_value]. lex_char 123%Z.
  assert (∃ r, Join (map member_text (x :: l)) "," +:+ "}" +:+ rest = String dq r)
    as (r & Hcr).
  { cbn [map]. destruct (map member_text l); cbn [Join];
      unfold member_text; rewrite !app_cons; eauto. }
  rewrite Hcr. change (skip_ws (String dq ?r)) with (String dq r).
  change (code dq =? 125)%Z with false. cbn beta iota. rewrite <- Hcr.
  rewrite parse_members_texts; [done|done|done|].
  rewrite !length_app_str in Hn. cbn [String.length] in Hn.
  cbn [map] in *. lia.
Qed.

(** A key as the encoder writes it, with the text of a value. *)
Definition printed_member (k t : string) (x : json) : member :=
  ((concat_str (map print_rune (runes k)), clean_str k), (t, x)).

Lemma printed_member_text k t x : member_text (printed_member k t x) = print_str k +:+ ":" +:+ t.
Proof.
  unfold member_text, printed_member, print_str, str1. cbn [fst snd].
  by rewrite app_cons, app_assoc, app_cons, app_nil_l.
Qed.

Lemma printed_member_ok k t x : reads t x → member_ok (printed_member k t x).
Proof. intros Hx. split; [intros rest; apply parse_print_str|done]. Qed.

(** Printed text reads back as what the encoder has written. *)
Definition parses (j : json) : Prop := numbers_ok j = true → reads (json_print j) (clean j).

Lemma parses_array l : Forall parses l → parses (JArr l).
Proof.
  intros Hl Hn. simpl in Hn. cbn [json_print clean].
  pose proof (reads_array (map (λ j, (json_print j, clean j)) l)) as H.
  rewrite !map_map in H. apply H. apply Forall_fmap.
  rewrite forallb_forall in Hn. rewrite List.Forall_forall in *.
  intros j Hj. split; [by apply print_head, Hn|by apply Hl, Hn].
Qed.

Lemma parses_object kvs : Forall (λ kv, parses kv.2) kvs → parses (JObj kvs).
Proof.
  intros Hl Hn. simpl in Hn. cbn [json_print clean].
  pose proof (reads_object (map (λ kv, printed_member kv.1 (json_print kv.2) (clean kv.2)) kvs)) as H.
  rewrite !map_map in H.
  replace (map _ kvs) with (map (λ kv, member_text (printed_member kv.1 (json_print kv.2) (clean kv.2))) kvs)
    by (apply map_ext; intros []; apply printed_member_text).
  apply H. apply Forall_fmap. rewrite forallb_forall in Hn. rewrite List.Forall_forall in *.
  intros kv Hkv. by apply printed_member_ok, Hl, Hn.
Qed.

Lemma parses_all j : parses j.
Proof.
  induction j as [|b|lit|s|l Hl|kvs Hl] using json_induction.
  - intros _ [|n] rest Hn _; [simpl in Hn; lia|reflexivity].
  - intros _. destruct b; intros [|n] rest Hn _; (simpl in Hn; lia) || reflexivity.
  - intros Hn. by apply reads_number.
  - intros _. apply reads_literal, parse_print_str.
  - by apply parses_array.
  - by apply parses_object.
Qed.

Lemma json_parse_reads t j : reads t j → json_parse t = Some j.
Proof.
  intros Ht. unfold json_parse. rewrite <- (app_nil_r t) at 2. rewrite Ht; [done|lia|done].
Qed.

(** Parsing inverts printing, up to the replacement of invalid bytes. *)
Theorem json_parse_print_clean j : numbers_ok j = true → json_parse (json_print j) = Some (clean j).
Proof. intros Hn. by apply json_parse_reads, parses_all. Qed.

Theorem json_parse_print j : wf_json j = true → json_parse (json_print j) = Some j.
Proof. intros Hwf. rewrite json_parse_print_clean by (by apply wf_numbers). by rewrite clean_wf. Qed.

(** ** Printed text *)

Lemma print_rune_valid r : valid_chunk r = true → valid_utf8 (print_rune r) = true.
Proof.
  intros H. destruct r as [|a [|b r]]; [done|..].
  - simpl in H. apply Z.ltb_lt in H. clear -H.
    destruct a as [[] [] [] [] [] [] [] []]; first [by vm_compute in H | reflexivity].
  - unfold print_rune. repeat case_match; try reflexivity. by apply valid_utf8_chunk.
Qed.

Lemma print_str_valid s : valid_utf8 s = true → valid_utf8 (print_str s) = true.
Proof.
  intros H. unfold print_str.
  change (String dq ?t) with (str1 dq +:+ t).
  repeat apply valid_utf8_app; try reflexivity.
  apply valid_utf8_concat_list. apply Forall_fmap.
  eapply Forall_impl; [by apply valid_utf8_chunks|]. apply print_rune_valid.
Qed.

Lemma Join_valid l sep :
  Forall (λ s, valid_utf8 s = true) l → valid_utf8 sep = true → valid_utf8 (Join l sep) = true.
Proof.
  intros Hl Hs. induction Hl as [|s l Hx Hl IH]; [done|].
  destruct l as [|y l]; [done|]. rewrite Join_cons by done.
  repeat apply valid_utf8_app; done.
Qed.

(** [Marshal] writes valid UTF-8. *)
Lemma json_print_valid j : wf_json j = true → valid_utf8 (json_print j) = true.
Proof.
  induction j as [|[]|lit|s|l IH|kvs IH] using json_induction; intros Hwf;
    cbn [json_print]; try reflexivity.
  - apply valid_utf8_ascii. simpl in Hwf. apply valid_number_chars in Hwf.
    induction lit as [|c lit IH]; [done|]. simpl in *.
    apply andb_true_iff in Hwf as [Hc Hl]. rewrite IH by done.
    rewrite andb_true_r. clear -Hc.
    destruct c as [[] [] [] [] [] [] [] []]; first [by vm_compute in Hc | reflexivity].
  - by apply print_str_valid.
  - repeat apply valid_utf8_app; try reflexivity. apply Join_valid; [|done].
    apply Forall_fmap. simpl in Hwf. rewrite forallb_forall in Hwf.
    rewrite List.Forall_forall in *. intros x Hx. simpl. auto.
  - repeat apply valid_utf8_app; try reflexivity. apply Join_valid; [|done].
    apply Forall_fmap. simpl in Hwf. rewrite forallb_forall in Hwf.
    rewrite List.Forall_forall in *. intros [k v] Hx. simpl.
    apply Hwf in Hx as Hw. apply andb_true_iff in Hw as [Hk Hv].
    apply valid_utf8_app; [by apply print_str_valid|].
    apply valid_utf8_app; [reflexivity|]. by apply (IH (k, v)).
Qed.

Lemma parse_string_lit_valid s x r : parse_string_lit s = Some (x, r) → valid_utf8 x = true.
Proof.
  unfold parse_string_lit. destruct (parse_str s) as [[]|]; [|done].
  intros [= <- _]. apply to_valid_utf8_valid_chunks.
Qed.

Lemma parse_wf n :
  (∀ s j r, parse_value n s = Some (j, r) → wf_json j = true)
  ∧ (∀ s l r, parse_elems n s = Some (l, r) → forallb wf_json l = true)
  ∧ (∀ s l r, parse_members n s = Some (l, r) →
       forallb (λ kv, valid_utf8 kv.1 && wf_json kv.2) l = true).
Proof.
  induction n as [|n (IHv & IHe & IHm)]; [done|]. split; [|split].
  - intros s j r. cbn [parse_value].
    destruct (skip_ws s) as [|c t]; [done|].
    destruct (c =?c dq).
    { destruct (parse_string_lit t) as [[x r']|] eqn:E; [|done]. intros [= <- _].
      simpl. by eapply parse_string_lit_valid. }
    destruct (code c =? 91)%Z.
    { destruct (skip_ws t) as [|d t']; [done|]. destruct (code d =? 93)%Z.
      { by intros [= <- _]. }
      destruct (parse_elems n t) as [[l r']|] eqn:E; [|done]. intros [= <- _].
      simpl. by eapply IHe. }
    destruct (code c =? 123)%Z.
    { destruct (skip_ws t) as [|d t']; [done|]. destruct (code d =? 125)%Z.
      { by intros [= <- _]. }
      destruct (parse_members n t) as [[l r']|] eqn:E; [|done]. intros [= <- _].
      simpl. by eapply IHm. }
    destruct (is_num_char c).
    { destruct (span _ _) as [lit r']. destruct (valid_number lit) eqn:E; [|done].
      by intros [= <- _]. }
    repeat case_match; naive_solver.
  - intros s l r. cbn [parse_elems].
    destruct (parse_value n s) as [[v r1]|] eqn:Ev; [|done].
    destruct (skip_ws r1) as [|c r2]; [done|].
    destruct (code c =? 93)%Z.
    { intros [= <- _]. simpl. by rewrite (IHv _ _ _ Ev). }
    destruct (code c =? 44)%Z; [|done].
    destruct (parse_elems n r2) as [[l' r3]|] eqn:El; [|done]. intros [= <- _].
    simpl. by rewrite (IHv _ _ _ Ev), (IHe _ _ _ El).
  - intros s l r. cbn [parse_members].
    destruct (skip_ws s) as [|q t]; [done|]. destruct (q =?c dq); [|done].
    destruct (parse_string_lit t) as [[k r1]|] eqn:Ek; [|done].
    apply parse_string_lit_valid in Ek.
    destruct (skip_ws r1) as [|c r2]; [done|]. destruct (code c =? 58)%Z; [|done].
    destruct (parse_value n r2) as [[v r3]|] eqn:Ev; [|done].
    destruct (skip_ws r3) as [|c' r4]; [done|].
    destruct (code c' =? 125)%Z.
    { intros [= <- _]. simpl. by rewrite Ek, (IHv _ _ _ Ev). }
    destruct (code c' =? 44)%Z; [|done].
    destruct (parse_members n r4) as [[l' r5]|] eqn:El; [|done]. intros [= <- _].
    simpl. by rewrite Ek, (IHv _ _ _ Ev), (IHm _ _ _ El).
Qed.

(** The parser produces well-formed trees only. *)
Lemma json_parse_wf s j : json_parse s = Some j → wf_json j = true.
Proof.
  unfold json_parse. destruct (parse_value _ s) as [[j' r]|] eqn:E; [|done].
  case_match; [|done]. intros [= ->]. by eapply (proj1 (parse_wf _)).
Qed.

(** ** Object members as maps *)

Lemma members_map_snoc kvs k v : members_map (kvs ++ [(k, v)]) = <[k:=v]> (members_map kvs).
Proof. unfold members_map. by rewrite foldl_app. Qed.

Lemma members_map_lookup kvs k v :
  NoDup kvs.*1 → members_map kvs !! k = Some v ↔ (k, v) ∈ kvs.
Proof.
  induction kvs as [|[k' v'] kvs IH] using rev_ind; intros Hnd.
  - unfold members_map. simpl. rewrite lookup_empty. split; [done|]. by intros ?%not_elem_of_nil.
  - rewrite fmap_app in Hnd. apply NoDup_app in Hnd as (Hnd & Hdisj & _).
    rewrite members_map_snoc, elem_of_app, list_elem_of_singleton.
    destruct (decide (k = k')) as [->|Hne].
    + rewrite lookup_insert_eq. split; [intros [= ->]; by right|].
      intros [Hin|[= ->]]; [|done].
      exfalso. apply (Hdisj k'); [|by constructor].
      apply list_elem_of_fmap. by exists (k', v).
    + rewrite lookup_insert_ne, IH by done. naive_solver.
Qed.

Lemma members_map_wf kvs :
  forallb (λ kv, valid_utf8 kv.1 && wf_json kv.2) kvs = true →
  map_Forall (λ k v, valid_utf8 k = true ∧ wf_json v = true) (members_map kvs).
Proof.
  induction kvs as [|[k v] kvs IH] using rev_ind; intros H.
  - unfold members_map. simpl. apply map_Forall_empty.
  - rewrite forallb_app in H. simpl in H. rewrite andb_true_r in H.
    apply andb_true_iff in H as [H1 [Hk Hv]%andb_true_iff].
    rewrite members_map_snoc. apply map_Forall_insert_2; auto.
Qed.

Lemma unmarshal_raw_map_wf j m :
  wf_json j = true → unmarshal_raw_map j = Some m →
  map_Forall (λ k v, valid_utf8 k = true ∧ wf_json v = true) m.
Proof.
  destruct j; simpl; try done; intros Hwf [= <-].
  - apply map_Forall_empty.
  - by apply members_map_wf.
Qed.

Lemma assoc_insert_perm {A} k (v : A) l :
  k ∉ l.*1 → assoc_insert k v l ≡ₚ (k, v) :: l.
Proof.
  induction l as [|[k' v'] l IH]; simpl; [done|]. rewrite not_elem_of_cons. intros [Hne Hk].
  destruct (String.compare k k') eqn:E.
  - apply String.compare_eq_iff in E. done.
  - done.
  - rewrite IH by done. apply Permutation_swap.
Qed.

Definition sorted_members (m : gmap string json) : list (string * json) :=
  foldr (λ '(k, v) l, assoc_insert k v l) [] (map_to_list m).

Lemma sorted_members_perm_list (l : list (string * json)) :
  NoDup l.*1 → foldr (λ '(k, v) l, assoc_insert k v l) [] l ≡ₚ l.
Proof.
  induction l as [|[k v] l IH]; simpl; [done|]. intros [Hk Hnd]%NoDup_cons.
  rewrite assoc_insert_perm; rewrite IH by done; done.
Qed.

Lemma sorted_members_perm m : sorted_members m ≡ₚ map_to_list m.
Proof. apply sorted_members_perm_list, NoDup_fst_map_to_list. Qed.

Lemma sorted_members_NoDup m : NoDup (sorted_members m).*1.
Proof. rewrite sorted_members_perm. apply NoDup_fst_map_to_list. Qed.

Lemma elem_of_sorted_members m k v : (k, v) ∈ sorted_members m ↔ m !! k = Some v.
Proof. rewrite sorted_members_perm. apply elem_of_map_to_list. Qed.

(** Decoding inverts encoding on maps of raw members. *)
Lemma unmarshal_marshal_raw_map m : unmarshal_raw_map (marshal_raw_map m) = Some m.
Proof.
  unfold marshal_raw_map. simpl. f_equal. apply map_eq. intros k.
  apply option_eq. intros v.
  change (foldr _ [] (map_to_list m)) with (sorted_members m).
  rewrite members_map_lookup by apply sorted_members_NoDup.
  apply elem_of_sorted_members.
Qed.

Lemma marshal_raw_map_wf m :
  map_Forall (λ k v, valid_utf8 k = true ∧ wf_json v = true) m →
  wf_json (marshal_raw_map m) = true.
Proof.
  intros H. unfold marshal_raw_map. simpl.
  change (foldr _ [] (map_to_list m)) with (sorted_members m).
  apply forallb_forall. intros [k v] Hin%list_elem_of_In%elem_of_sorted_members.
  apply H in Hin as [Hk Hv]. simpl. by rewrite Hk, Hv.
Qed.
