(* ===== verification/GoRaw.v ===== *)
(** * json.RawMessage: members of an object as text

    Decoding an object into a [map[string]json.RawMessage] keeps the text of each
    value; encoding such a map writes these texts again, byte for byte but without
    white space and with the escapes of the encoder. The text written for a value has
    the value it was read from. *)

From S2P Require Import Prelude GoStrings GoJson GoJsonFacts.

(** ** Compaction *)

Definition html_char (c : ascii) : bool :=
  (code c =? 60)%Z || (code c =? 62)%Z || (code c =? 38)%Z.

(** U+2028 or U+2029, after its first byte. *)
Definition is_sep (c : ascii) (r : string) : bool :=
  (code c =? 226)%Z &&
  match r with
  | String a (String b _) => (code a =? 128)%Z && ((code b =? 168)%Z || (code b =? 169)%Z)
  | _ => false
  end.

(** encoding/json's appendCompact with escapeHTML, inside and outside of string
    literals. *)
Fixpoint compact (in_str : bool) (s : string) : string :=
  match s with
  | "" => ""
  | String c r =>
      if in_str then
        if c =?c dq then String dq (compact false r)
        else if c =?c backslash then
          match r with
          | String e r1 => String c (String e (compact true r1))
          | "" => str1 c
          end
        else if html_char c then esc_u "00" (code c) +:+ compact true r
        else if is_sep c r then
          match r with
          | String _ (String b r2) => esc_u "20" (code b - 128) +:+ compact true r2
          | _ => ""
          end
        else String c (compact true r)
      else if is_ws c then compact false r
      else String c (compact (c =?c dq) r)
  end.

(** ** Decoding and encoding *)

(** What [s] has before its end [r]. *)
Definition slice (s r : string) : string := str_take (String.length s - String.length r) s.

(** The members of an object, each with the text of its value. *)
Fixpoint raw_members (n : nat) (s : string) : option (list (string * string) * string) :=
  match n with
  | O => None
  | S n =>
      match skip_ws s with
      | "" => None
      | String q r =>
          if q =?c dq then
            match parse_string_lit r with
            | None => None
            | Some (k, r) =>
                match skip_ws r with
                | "" => None
                | String c r =>
                    if (code c =? 58)%Z then
                      match parse_value n r with
                      | None => None
                      | Some (_, r') =>
                          let t := slice (skip_ws r) r' in
                          match skip_ws r' with
                          | "" => None
                          | String c r =>
                              if (code c =? 125)%Z then Some ([(k, t)], r)
                              else if (code c =? 44)%Z then
                                match raw_members n r with
                                | Some (l, r) => Some ((k, t) :: l, r)
                                | None => None
                                end
                              else None
                          end
                      end
                    else None
                end
            end
          else None
      end
  end.

Definition texts_map (l : list (string * string)) : gmap string string :=
  foldl (λ m '(k, t), <[k:=t]> m) ∅ l.

(** [json.Unmarshal] into a nil [map[string]json.RawMessage]: [None] is an error, and
    [Some None] a map that [null] has left nil. *)
Definition unmarshal_raw (s : string) : option (option (gmap string string)) :=
  match json_parse s with
  | Some JNull => Some None
  | Some (JObj _) =>
      match skip_ws s with
      | String _ r =>
          Some (Some (match raw_members (String.length s) r with Some (l, _) => texts_map l | None => ∅ end))
      | "" => None
      end
  | _ => None
  end.

Definition sorted_texts (m : gmap string string) : list (string * string) :=
  foldr (λ '(k, v) l, assoc_insert k v l) [] (map_to_list m).

(** [json.Marshal] of such a map. *)
Definition marshal_raw (m : gmap string string) : string :=
  "{" +:+ Join (map (λ '(k, t), print_str k +:+ ":" +:+ compact false t) (sorted_texts m)) "," +:+ "}".

(** JSON written with apostrophes for its quotation marks. *)
Fixpoint quoted (s : string) : string :=
  match s with "" => "" | String c r => String (if (code c =? 39)%Z then dq else c) (quoted r) end.

Example marshal_raw_text :
  unmarshal_raw (quoted " { 'b' : [ 1, {'x':'<' } ],'a':'\/'} ") ≫= (λ m, marshal_raw <$> m)
  = Some (quoted "{'a':'\/','b':[1,{'x':'\u003c'}]}").
Proof. by vm_compute. Qed.

(** ** String literals *)

Definition simple_escape (e : ascii) : option string :=
  let z := code e in
  if (z =? 34)%Z || (z =? 92)%Z || (z =? 47)%Z then Some (str1 e)
  else if (z =? 98)%Z then Some (bytes [8]%Z)
  else if (z =? 102)%Z then Some (bytes [12]%Z)
  else if (z =? 110)%Z then Some (bytes [10]%Z)
  else if (z =? 114)%Z then Some (bytes [13]%Z)
  else if (z =? 116)%Z then Some (bytes [9]%Z)
  else None.

(** The code unit of a \u escape at the head of [s]. *)
Definition escaped_unit (s : string) : option Z :=
  match s with
  | String b (String x (String l1 (String l2 (String l3 (String l4 _))))) =>
      match hex4 l1 l2 l3 l4 with
      | Some lo => if (b =?c backslash) && (code x =? 117)%Z then Some lo else None
      | None => None
      end
  | _ => None
  end.

(** It is the second half of a pair. *)
Definition low_next (s : string) : option Z :=
  match escaped_unit s with
  | Some lo => if in_range 56320 57343 lo then Some lo else None
  | None => None
  end.

#[local] Arguments hex4 : simpl never.
#[local] Arguments in_range : simpl never.
#[local] Arguments prepend : simpl never.
#[local] Arguments utf8_encode : simpl never.
#[local] Arguments is_surrogate : simpl never.

Lemma parse_str_escape e y r :
  simple_escape e = Some y → parse_str (String backslash (String e r)) = prepend y (parse_str r).
Proof.
  unfold simple_escape. cbn [parse_str].
  change (backslash =?c dq) with false. change (code backslash <? 32)%Z with false.
  change (backslash =?c backslash) with true. cbv beta iota zeta.
  repeat (match goal with |- context [if ?b then _ else _] => destruct b end; [by intros [= <-]|]). done.
Qed.

(** What is left after the six characters of an escape. *)
Definition after_unit (s : string) : string :=
  match s with
  | String _ (String _ (String _ (String _ (String _ (String _ r))))) => r
  | _ => ""
  end.

Lemma escaped_unit_u h1 h2 h3 h4 r :
  escaped_unit (String backslash (String (chr 117) (String h1 (String h2 (String h3 (String h4 r))))))
  = hex4 h1 h2 h3 h4.
Proof. cbn [escaped_unit]. by destruct (hex4 h1 h2 h3 h4). Qed.

Lemma parse_str_unit h1 h2 h3 h4 u r :
  hex4 h1 h2 h3 h4 = Some u →
  parse_str (String backslash (String (chr 117) (String h1 (String h2 (String h3 (String h4 r)))))) =
    if negb (is_surrogate u) then prepend (utf8_encode u) (parse_str r)
    else match low_next r with
         | Some lo =>
             if in_range 55296 56319 u
             then prepend (utf8_encode (65536 + (u - 55296) * 1024 + (lo - 56320))) (parse_str (after_unit r))
             else prepend replacement (parse_str r)
         | None => prepend replacement (parse_str r)
         end.
Proof.
  intros Hu. cbn [parse_str].
  change (backslash =?c dq) with false. change (code backslash <? 32)%Z with false.
  change (backslash =?c backslash) with true. change (code (chr 117)) with 117%Z. cbv beta iota zeta.
  cbn [Z.eqb Pos.eqb orb]. rewrite Hu. destruct (is_surrogate u); [|done]. cbn [negb].
  unfold low_next, escaped_unit.
  destruct r as [|b [|x [|l1 [|l2 [|l3 [|l4 r3]]]]]]; try done.
  destruct (hex4 l1 l2 l3 l4) as [lo|]; [|done].
  destruct (b =?c backslash); cbn [andb]; [|done]. destruct (code x =? 117)%Z; cbn [andb]; [|done].
  destruct (in_range 55296 56319 u), (in_range 56320 57343 lo); done.
Qed.

(** A string literal fails at its first character, ends, or goes on with a character or
    an escape. *)
Lemma parse_str_cases c r x rest :
  parse_str (String c r) = Some (x, rest) →
  (c = dq ∧ x = "" ∧ rest = r)
  ∨ (c = backslash ∧ ∃ e r1 y, r = String e r1 ∧ simple_escape e = Some y
       ∧ prepend y (parse_str r1) = Some (x, rest))
  ∨ (c = backslash ∧ ∃ h1 h2 h3 h4 r1 u, r = String (chr 117) (String h1 (String h2 (String h3 (String h4 r1))))
       ∧ hex4 h1 h2 h3 h4 = Some u)
  ∨ ((c =?c dq) = false ∧ (c =?c backslash) = false ∧ (code c <? 32)%Z = false
     ∧ prepend (str1 c) (parse_str r) = Some (x, rest)).
Proof.
  destruct (c =?c dq) eqn:E1.
  { apply eqb_ascii_true in E1 as ->. cbn [parse_str]. rewrite Ascii.eqb_refl. intros [= <- <-]. by left. }
  destruct (c =?c backslash) eqn:E2.
  - apply eqb_ascii_true in E2 as ->. destruct r as [|e r1]; [done|].
    destruct (simple_escape e) as [y|] eqn:Ee.
    { rewrite (parse_str_escape e y) by done. intros H. right; left. split; [done|]. by exists e, r1, y. }
    intros H. right; right; left. split; [done|]. revert H Ee. cbn [parse_str]. unfold simple_escape.
    change (backslash =?c dq) with false. change (code backslash <? 32)%Z with false.
    change (backslash =?c backslash) with true. cbv beta iota zeta.
    repeat (match goal with |- context [if ?b then _ else Some _] => destruct b end; [done|]).
    do 5 (match goal with
          | |- context [if ?b then prepend _ _ else _] => destruct b; [done|]
          end || idtac).
    destruct (code e =? 117)%Z eqn:Eu; [|by repeat case_match].
    apply Z.eqb_eq in Eu. assert (e = chr 117) as -> by (rewrite <- (chr_code e); by rewrite Eu).
    destruct r1 as [|h1 [|h2 [|h3 [|h4 r2]]]]; try (by repeat case_match).
    destruct (hex4 h1 h2 h3 h4) as [u|] eqn:Eh; [|by repeat case_match].
    intros _ _. by exists h1, h2, h3, h4, r2, u.
  - cbn [parse_str]. rewrite E1, E2. destruct (code c <? 32)%Z; [done|]. intros H. do 3 right. done.
Qed.

(** *** Its compaction *)

Lemma compact_plain c r :
  (c =?c dq) = false → (c =?c backslash) = false → html_char c = false → is_sep c r = false →
  compact true (String c r) = String c (compact true r).
Proof. intros H1 H2 H3 H4. cbn [compact]. by rewrite H1, H2, H3, H4. Qed.

Lemma hex_char c v r : hex_val c = Some v →
  (c =?c dq) = false ∧ (c =?c backslash) = false ∧ html_char c = false ∧ is_sep c r = false.
Proof. destruct c as [[] [] [] [] [] [] [] []]; intros H; by vm_compute in H. Qed.

Lemma compact_hex c v r : hex_val c = Some v → compact true (String c r) = String c (compact true r).
Proof. intros H. destruct (hex_char c v r H) as (?&?&?&?). by apply compact_plain. Qed.

Lemma hex4_chars h1 h2 h3 h4 u :
  hex4 h1 h2 h3 h4 = Some u → ∃ a b c d, hex_val h1 = Some a ∧ hex_val h2 = Some b ∧ hex_val h3 = Some c ∧ hex_val h4 = Some d.
Proof.
  unfold hex4. destruct (hex_val h1), (hex_val h2), (hex_val h3), (hex_val h4); try done. intros _. eauto 10.
Qed.

Definition unit_text (h1 h2 h3 h4 : ascii) (r : string) : string :=
  String backslash (String (chr 117) (String h1 (String h2 (String h3 (String h4 r))))).

Lemma compact_unit h1 h2 h3 h4 u r :
  hex4 h1 h2 h3 h4 = Some u → compact true (unit_text h1 h2 h3 h4 r) = unit_text h1 h2 h3 h4 (compact true r).
Proof.
  intros (a & b & c & d & H1 & H2 & H3 & H4)%hex4_chars. unfold unit_text.
  change (compact true (String backslash (String (chr 117) ?x))) with (String backslash (String (chr 117) (compact true x))).
  by rewrite (compact_hex h1 a), (compact_hex h2 b), (compact_hex h3 c), (compact_hex h4 d).
Qed.

Lemma is_sep_quote c b u v : is_sep c (b +:+ String dq u) = is_sep c (b +:+ String dq v).
Proof.
  unfold is_sep. destruct (code c =? 226)%Z; [|done]. destruct b as [|x [|y b]]; [|done..].
  rewrite !app_nil_l. by destruct u, v.
Qed.

Lemma escaped_unit_head c r : (c =?c backslash) = false → escaped_unit (String c r) = None.
Proof.
  intros H. destruct r as [|x [|l1 [|l2 [|l3 [|l4 r]]]]]; try done. cbn [escaped_unit].
  rewrite H. by destruct (hex4 l1 l2 l3 l4).
Qed.

Lemma escaped_unit_simple e y r : simple_escape e = Some y → escaped_unit (String backslash (String e r)) = None.
Proof.
  intros H. destruct r as [|l1 [|l2 [|l3 [|l4 r]]]]; try done. cbn [escaped_unit].
  assert ((code e =? 117)%Z = false) as ->; [|by rewrite andb_false_r; destruct (hex4 l1 l2 l3 l4)].
  destruct (code e =? 117)%Z eqn:E; [|done]. apply Z.eqb_eq in E. unfold simple_escape in H. by rewrite E in H.
Qed.

Lemma prepend_Some a m x r : prepend a m = Some (x, r) → ∃ x', m = Some (x', r) ∧ x = a +:+ x'.
Proof. destruct m as [[x' r']|]; [|done]. intros [= <- <-]. by exists x'. Qed.

(** The body [b] of a literal that is followed by [r], and [b'], what is written for it. *)
Definition literal_text (s x r : string) : Prop :=
  ∃ b b', s = b +:+ String dq r
    ∧ (∀ u, compact true (b +:+ String dq u) = b' +:+ String dq (compact false u))
    ∧ (∀ u, parse_str (b' +:+ String dq u) = Some (x, u))
    ∧ (∀ u, low_next (b' +:+ String dq u) = low_next s).

Lemma literal_escape e y r1 x r :
  simple_escape e = Some y → literal_text r1 x r →
  literal_text (String backslash (String e r1)) (y +:+ x) r.
Proof.
  intros He (b & b' & -> & Hc & Hp & _). exists (String backslash (String e b)), (String backslash (String e b')).
  split_and!; [done|..]; intros u; rewrite !app_cons.
  - change (compact true (String backslash (String e ?x))) with (String backslash (String e (compact true x))).
    by rewrite Hc.
  - by rewrite (parse_str_escape e y), Hp.
  - unfold low_next. by rewrite !(escaped_unit_simple e y).
Qed.

Lemma low_next_unit h1 h2 h3 h4 r r' : low_next (unit_text h1 h2 h3 h4 r) = low_next (unit_text h1 h2 h3 h4 r').
Proof. unfold low_next, unit_text. by rewrite !escaped_unit_u. Qed.

(** An escape that stands for [y] whatever follows the literal's next part. *)
Lemma literal_unit h1 h2 h3 h4 v y r1 x r :
  hex4 h1 h2 h3 h4 = Some v → literal_text r1 x r →
  (∀ s, low_next s = low_next r1 → parse_str (unit_text h1 h2 h3 h4 s) = prepend y (parse_str s)) →
  literal_text (unit_text h1 h2 h3 h4 r1) (y +:+ x) r.
Proof.
  intros Hv (b & b' & E & Hc & Hp & Hl) Hy.
  exists (unit_text h1 h2 h3 h4 b), (unit_text h1 h2 h3 h4 b'). split_and!; [by rewrite E|..]; intros u;
    change (unit_text h1 h2 h3 h4 ?b +:+ ?t) with (unit_text h1 h2 h3 h4 (b +:+ t)).
  - by rewrite (compact_unit h1 h2 h3 h4 v), Hc.
  - by rewrite Hy, Hp.
  - apply low_next_unit.
Qed.

Lemma literal_plain c r1 x r :
  (c =?c dq) = false → (c =?c backslash) = false → html_char c = false → is_sep c r1 = false →
  (∀ s, parse_str (String c s) = prepend (str1 c) (parse_str s)) →
  literal_text r1 x r → literal_text (String c r1) (str1 c +:+ x) r.
Proof.
  intros H1 H2 H3 H4 Hp' (b & b' & -> & Hc & Hp & _). exists (String c b), (String c b').
  split_and!; [done|..]; intros u; rewrite !app_cons.
  - rewrite compact_plain by (try done; by rewrite (is_sep_quote _ _ _ r)). by rewrite Hc.
  - by rewrite Hp', Hp.
  - unfold low_next. by rewrite !escaped_unit_head.
Qed.

(** A character that is written as an escape. *)
Lemma literal_replaced pre esc y r1 x r :
  literal_text r1 x r →
  (∀ s, compact true (pre +:+ s) = esc +:+ compact true s) →
  (∀ s, parse_str (esc +:+ s) = prepend y (parse_str s)) →
  (∀ s, low_next (esc +:+ s) = None) → (∀ s, low_next (pre +:+ s) = None) →
  literal_text (pre +:+ r1) (y +:+ x) r.
Proof.
  intros (b & b' & -> & Hc & Hp & _) H1 H2 H3 H4. exists (pre +:+ b), (esc +:+ b').
  split_and!; [by rewrite app_assoc|..]; intros u; rewrite ?app_assoc.
  - by rewrite H1, Hc.
  - by rewrite H2, Hp.
  - by rewrite H3, H4.
Qed.

Lemma low_next_ascii c r : (c =?c backslash) = false → low_next (String c r) = None.
Proof. intros H. unfold low_next. by rewrite escaped_unit_head. Qed.

Lemma parse_str_plain c :
  (c =?c dq) = false → (c =?c backslash) = false → (code c <? 32)%Z = false →
  ∀ s, parse_str (String c s) = prepend (str1 c) (parse_str s).
Proof. intros H1 H2 H3 s. cbn [parse_str]. by rewrite H1, H2, H3. Qed.

Lemma html_char_cases c : html_char c = true → c = chr 60 ∨ c = chr 62 ∨ c = chr 38.
Proof.
  unfold html_char. intros [[H|H]%orb_true_iff|H]%orb_true_iff; apply Z.eqb_eq in H;
    rewrite <- (chr_code c), H; auto.
Qed.

Lemma literal_html c r1 x r :
  html_char c = true → literal_text r1 x r → literal_text (String c r1) (str1 c +:+ x) r.
Proof.
  intros Hc Ht. apply (literal_replaced (str1 c) (esc_u "00" (code c)) (str1 c)); [done|..];
    destruct (html_char_cases c Hc) as [-> |[-> | ->]]; intros s; (reflexivity || by apply low_next_ascii).
Qed.

Lemma is_sep_true c r :
  is_sep c r = true → ∃ b r2, r = String (chr 128) (String b r2) ∧ c = chr 226 ∧ (b = chr 168 ∨ b = chr 169).
Proof.
  assert (∀ x z, (code x =? z)%Z = true → x = chr z) as Hx.
  { intros y z Hy%Z.eqb_eq. by rewrite <- (chr_code y), Hy. }
  unfold is_sep. destruct r as [|a [|b r2]]; try (by rewrite andb_false_r).
  intros [Hc%Hx [Ha%Hx Hb]%andb_true_iff]%andb_true_iff. subst. exists b, r2. split_and!; try done.
  apply orb_true_iff in Hb as [Hb%Hx|Hb%Hx]; auto.
Qed.

Lemma literal_sep b r2 x r :
  b = chr 168 ∨ b = chr 169 → literal_text r2 x r →
  literal_text (String (chr 226) (String (chr 128) (String b r2))) (bytes [226; 128; code b]%Z +:+ x) r.
Proof.
  intros Hb Ht. change (literal_text ?s _ _) with (literal_text (String (chr 226) (String (chr 128) (str1 b)) +:+ r2)
    (bytes [226; 128; code b]%Z +:+ x) r).
  apply (literal_replaced _ (esc_u "20" (code b - 128)%Z)); [done|..];
    destruct Hb as [-> | ->]; intros s; (reflexivity || by apply low_next_ascii).
Qed.

Lemma parse_str_text s x r : parse_str s = Some (x, r) → literal_text s x r.
Proof.
  remember (String.length s) as n eqn:Hn. revert s x Hn.
  induction (lt_wf n) as [n _ IH]. intros [|c s] x ->; [done|].
  assert (∀ t x, String.length t < String.length (String c s) → parse_str t = Some (x, r) → literal_text t x r)
    as IH'; [intros t y Ht; by eapply IH|]. clear IH.
  intros Hp. pose proof Hp as Hp0.
  apply parse_str_cases in Hp as [(-> & -> & ->)|[(-> & e & r1 & y & -> & He & Hp)|
    [(-> & h1 & h2 & h3 & h4 & r1 & u & -> & Hu)|(H1 & H2 & H3 & Hp)]]].
  - exists "", "". split_and!; [done|done| |]; intros u.
    + rewrite app_nil_l. cbn [parse_str]. by rewrite Ascii.eqb_refl.
    + rewrite app_nil_l. by rewrite !low_next_ascii.
  - apply prepend_Some in Hp as (x' & Hp & ->). eapply literal_escape; [done|]. apply IH'; [simpl; lia|done].
  - rewrite (parse_str_unit _ _ _ _ u) in Hp0 by done. destruct (is_surrogate u) eqn:Eu; cbn [negb] in Hp0.
    2: { apply prepend_Some in Hp0 as (x' & Hp & ->). eapply literal_unit; [done|apply IH'; [simpl; lia|done]|].
         intros t _. unfold unit_text. rewrite (parse_str_unit _ _ _ _ u) by done. by rewrite Eu. }
    destruct (low_next r1) as [lo|] eqn:El; [destruct (in_range 55296 56319 u) eqn:Er|].
    + unfold low_next, escaped_unit in El.
      destruct r1 as [|b [|z [|l1 [|l2 [|l3 [|l4 r3]]]]]]; try done.
      destruct (hex4 l1 l2 l3 l4) as [lo'|] eqn:Eh; [|done].
      destruct (b =?c backslash) eqn:Eb; [|done]. destruct (code z =? 117)%Z eqn:Ez; [|done]. cbn [andb] in El.
      apply eqb_ascii_true in Eb as ->. apply Z.eqb_eq in Ez. assert (z = chr 117) as -> by (by rewrite <- (chr_code z), Ez).
      destruct (in_range 56320 57343 lo') eqn:Elo; simplify_eq.
      apply prepend_Some in Hp0 as (x' & Hp & ->).
      assert (literal_text r3 x' r) as (b & b' & E & Hc & Hp' & _) by (apply IH'; [simpl; lia|done]).
      exists (unit_text h1 h2 h3 h4 (unit_text l1 l2 l3 l4 b)), (unit_text h1 h2 h3 h4 (unit_text l1 l2 l3 l4 b')).
      split_and!; [by rewrite E|..]; intros v;
        change (unit_text h1 h2 h3 h4 (unit_text l1 l2 l3 l4 ?b) +:+ ?t)
          with (unit_text h1 h2 h3 h4 (unit_text l1 l2 l3 l4 (b +:+ t))).
      * by rewrite (compact_unit h1 h2 h3 h4 u), (compact_unit l1 l2 l3 l4 lo), Hc.
      * unfold unit_text. rewrite (parse_str_unit _ _ _ _ u), Eu by done. cbn [negb].
        unfold low_next at 1. rewrite escaped_unit_u, Eh, Elo, Er. cbn [after_unit]. by rewrite Hp'.
      * apply low_next_unit.
    + apply prepend_Some in Hp0 as (x' & Hp & ->). eapply literal_unit; [done|apply IH'; [simpl; lia|done]|].
      intros t Ht. unfold unit_text. rewrite (parse_str_unit _ _ _ _ u) by done. by rewrite Eu, Ht, El, Er.
    + apply prepend_Some in Hp0 as (x' & Hp & ->). eapply literal_unit; [done|apply IH'; [simpl; lia|done]|].
      intros t Ht. unfold unit_text. rewrite (parse_str_unit _ _ _ _ u) by done. by rewrite Eu, Ht, El.
  - pose proof (parse_str_plain c H1 H2 H3) as Hplain. apply prepend_Some in Hp as (x' & Hp & ->).
    destruct (html_char c) eqn:Eh; [apply literal_html; [done|]; apply IH'; [simpl; lia|done]|].
    destruct (is_sep c s) eqn:Es.
    + apply is_sep_true in Es as (b & r2 & -> & -> & Hb).
      rewrite parse_str_plain in Hp by done. apply prepend_Some in Hp as (x1 & Hp & ->).
      rewrite parse_str_plain in Hp by (by destruct Hb as [-> | ->]). apply prepend_Some in Hp as (x2 & Hp & ->).
      pose proof (literal_sep b r2 x2 r Hb) as Hsep. destruct Hb as [-> | ->]; (apply Hsep, IH'; [simpl; lia|done]).
    + apply literal_plain; try done. apply IH'; [simpl; lia|done].
Qed.

(** ** Values *)

(** The value [j] at the head of [s], followed by [r]: its text, and what is written
    for it. *)
Definition value_text (s : string) (j : json) (r : string) : Prop :=
  ∃ t t', skip_ws s = t +:+ r
    ∧ (∀ u, compact false (t +:+ u) = t' +:+ compact false u) ∧ text_of (t', j).

Definition elems_text (s : string) (l : list json) (r : string) : Prop :=
  ∃ t xs, s = t +:+ r
    ∧ (∀ u, compact false (t +:+ u) = Join (map fst xs) "," +:+ "]" +:+ compact false u)
    ∧ Forall text_of xs ∧ map snd xs = l ∧ xs ≠ [].

Definition members_text (s : string) (l : list (string * json)) (r : string) : Prop :=
  ∃ t xs, s = t +:+ r
    ∧ (∀ u, compact false (t +:+ u) = Join (map member_text xs) "," +:+ "}" +:+ compact false u)
    ∧ Forall member_ok xs ∧ map member_of xs = l ∧ xs ≠ [].

Lemma skip_ws_split s : ∃ w, s = w +:+ skip_ws s ∧ ∀ u, compact false (w +:+ u) = compact false u.
Proof.
  induction s as [|c s (w & IH & Hc)]; [by exists ""|]. cbn [skip_ws]. destruct (is_ws c) eqn:E.
  - exists (String c w). split; [by rewrite app_cons, <- IH|]. intros u. rewrite app_cons. cbn [compact].
    by rewrite E.
  - by exists "".
Qed.

Lemma skip_ws_head s c r : skip_ws s = String c r → is_ws c = false.
Proof.
  induction s as [|d s IH]; [done|]. cbn [skip_ws]. destruct (is_ws d) eqn:E; [done|]. by intros [= <- _].
Qed.

Lemma compact_out c u : is_ws c = false → (c =?c dq) = false → compact false (String c u) = String c (compact false u).
Proof. intros H1 H2. cbn [compact]. by rewrite H1, H2. Qed.

(** A value and the character after it. *)
Lemma value_then s v r1 c r2 :
  value_text s v r1 → skip_ws r1 = String c r2 → (c =?c dq) = false →
  ∃ t t', s = t +:+ String c r2 ∧ text_of (t', v)
    ∧ ∀ u, compact false (t +:+ String c u) = t' +:+ String c (compact false u).
Proof.
  intros (t & t' & Et & Hc & Ht) E Hdq. pose proof (skip_ws_head _ _ _ E) as Hws.
  destruct (skip_ws_split s) as (w & Ew & Hw), (skip_ws_split r1) as (w1 & E1 & Hw1).
  exists (w +:+ t +:+ w1), t'. split_and!; [|done|].
  - rewrite Ew, Et, !app_assoc. by rewrite E1, E.
  - intros u. rewrite !app_assoc, Hw, Hc, Hw1. by rewrite compact_out.
Qed.

(** A key and its colon. *)
Lemma key_then s r k r0 c r1 :
  skip_ws s = String dq r → parse_string_lit r = Some (k, r0) → skip_ws r0 = String c r1 → (code c =? 58)%Z = true →
  ∃ t b', s = t +:+ r1 ∧ (∀ rest, parse_string_lit (b' +:+ String dq rest) = Some (k, rest))
    ∧ ∀ u, compact false (t +:+ u) = String dq (b' +:+ String dq (String (chr 58) (compact false u))).
Proof.
  intros Es Hk E0 Hcol%Z.eqb_eq. assert (c = chr 58) as -> by (by rewrite <- (chr_code c), Hcol).
  unfold parse_string_lit in Hk. destruct (parse_str r) as [[y r']|] eqn:Ep; simplify_eq.
  apply parse_str_text in Ep as (b & b' & -> & Hc & Hp & _).
  destruct (skip_ws_split s) as (w & Ew & Hw), (skip_ws_split r0) as (w0 & Ew0 & Hw0).
  exists (w +:+ String dq (b +:+ String dq (w0 +:+ str1 (chr 58)))), b'. split_and!.
  - rewrite app_assoc, app_cons, app_assoc, app_cons, app_assoc. unfold str1. rewrite app_cons, app_nil_l.
    by rewrite <- E0, <- Ew0, <- Es, <- Ew.
  - intros rest. unfold parse_string_lit. by rewrite Hp.
  - intros u. rewrite app_assoc, app_cons, app_assoc, app_cons, app_assoc, Hw. unfold str1. rewrite app_cons, app_nil_l.
    cbn [compact]. change (is_ws dq) with false. rewrite Ascii.eqb_refl, Hc, Hw0. by rewrite compact_out.
Qed.

Lemma compact_number lit u :
  all_chars is_num_char lit = true → compact false (lit +:+ u) = lit +:+ compact false u.
Proof.
  induction lit as [|c lit IH]; [done|]. intros [Hc Hl]%andb_true_iff.
  apply num_char_cases in Hc as (Hws & Hdq & _). rewrite !app_cons, compact_out by done. by rewrite IH.
Qed.

(** A word, which is written as it stands. *)
Lemma word_text w j s r :
  skip_ws s = w +:+ r → json_print j = w → clean j = j → numbers_ok j = true →
  (∀ u, compact false (w +:+ u) = w +:+ compact false u) → value_text s j r.
Proof.
  intros Es Hw Hj Hn Hc. exists w, w. split_and!; [done..|]. subst w.
  pose proof (parses_all j Hn) as Hr. rewrite Hj in Hr. by split; [apply print_head|].
Qed.

(** Brackets. *)
Lemma compact_bracket z u :
  z = 91%Z ∨ z = 93%Z ∨ z = 123%Z ∨ z = 125%Z ∨ z = 44%Z →
  compact false (String (chr z) u) = String (chr z) (compact false u).
Proof. intros Hz. repeat destruct Hz as [-> |Hz]; [..|subst z]; by apply compact_out. Qed.

Lemma empty_text a b j s t r :
  skip_ws s = String a t → skip_ws t = String b r →
  json_print j = String a (str1 b) → clean j = j → numbers_ok j = true →
  (∀ u, compact false (String a u) = String a (compact false u)) →
  (∀ u, compact false (String b u) = String b (compact false u)) → value_text s j r.
Proof.
  intros Es Et Hp Hj Hn Ha Hb. destruct (skip_ws_split t) as (w & Ew & Hw).
  exists (String a (w +:+ str1 b)), (String a (str1 b)). split_and!.
  - rewrite Es, app_cons, app_assoc. unfold str1. by rewrite app_cons, app_nil_l, <- Et, <- Ew.
  - intros u. rewrite !app_cons, app_assoc, Ha, Hw. unfold str1. by rewrite !app_cons, !app_nil_l, Hb.
  - pose proof (parses_all j Hn) as Hr. rewrite Hj, Hp in Hr. rewrite <- Hp. split; [by apply print_head|].
    by rewrite Hp.
Qed.

Lemma array_text s t xs r :
  skip_ws s = String (chr 91) (t +:+ r) →
  (∀ u, compact false (t +:+ u) = Join (map fst xs) "," +:+ "]" +:+ compact false u) →
  Forall text_of xs → value_text s (JArr (map snd xs)) r.
Proof.
  intros Es Hc Hxs. exists (String (chr 91) t), ("[" +:+ Join (map fst xs) "," +:+ "]"). split_and!; [done|..].
  - intros u. rewrite app_cons, compact_bracket, Hc by auto. by rewrite !app_assoc.
  - split; [by eexists _, _|by apply reads_array].
Qed.

Lemma object_text s t xs r :
  skip_ws s = String (chr 123) (t +:+ r) →
  (∀ u, compact false (t +:+ u) = Join (map member_text xs) "," +:+ "}" +:+ compact false u) →
  Forall member_ok xs → value_text s (JObj (map member_of xs)) r.
Proof.
  intros Es Hc Hxs. exists (String (chr 123) t), ("{" +:+ Join (map member_text xs) "," +:+ "}"). split_and!; [done|..].
  - intros u. rewrite app_cons, compact_bracket, Hc by auto. by rewrite !app_assoc.
  - split; [by eexists _, _|by apply reads_object].
Qed.

Lemma elems_last s v r1 c r :
  value_text s v r1 → skip_ws r1 = String c r → (code c =? 93)%Z = true → elems_text s [v] r.
Proof.
  intros Hv E1 Ec%Z.eqb_eq. assert (c = chr 93) as -> by (by rewrite <- (chr_code c), Ec).
  destruct (value_then s v r1 _ r Hv E1 eq_refl) as (t & t' & -> & Ht & Hc).
  exists (t +:+ str1 (chr 93)), [(t', v)]. split_and!; [by rewrite app_assoc|..|done|done].
  - intros u. rewrite app_assoc. apply Hc.
  - by apply Forall_singleton.
Qed.

Lemma elems_more s v r1 c r2 l r :
  value_text s v r1 → skip_ws r1 = String c r2 → (code c =? 44)%Z = true → elems_text r2 l r → elems_text s (v :: l) r.
Proof.
  intros Hv E1 Ec%Z.eqb_eq (t2 & xs & -> & Hc2 & Hxs & <- & Hne).
  assert (c = chr 44) as -> by (by rewrite <- (chr_code c), Ec).
  destruct (value_then s v r1 _ _ Hv E1 eq_refl) as (t & t' & -> & Ht & Hc).
  exists (t +:+ String (chr 44) t2), ((t', v) :: xs). split_and!; [by rewrite app_assoc|..|done|done].
  - intros u. rewrite app_assoc, app_cons, Hc, Hc2. cbn [map fst].
    rewrite Join_cons by (by destruct xs). by rewrite !app_assoc.
  - by constructor.
Qed.

Lemma members_last t1 b' k v r2 r3 c r :
  (∀ rest, parse_string_lit (b' +:+ String dq rest) = Some (k, rest)) →
  (∀ u, compact false (t1 +:+ u) = String dq (b' +:+ String dq (String (chr 58) (compact false u)))) →
  value_text r2 v r3 → skip_ws r3 = String c r → (code c =? 125)%Z = true → members_text (t1 +:+ r2) [(k, v)] r.
Proof.
  intros Hb Hk Hv E3 Ec%Z.eqb_eq. assert (c = chr 125) as -> by (by rewrite <- (chr_code c), Ec).
  destruct (value_then r2 v r3 _ r Hv E3 eq_refl) as (t & t' & -> & Ht & Hc).
  exists (t1 +:+ t +:+ str1 (chr 125)), [((b', k), (t', v))]. split_and!; [by rewrite !app_assoc|..|done|done].
  - intros u. rewrite !app_assoc, Hk. unfold str1. rewrite app_cons, app_nil_l, Hc. cbn [map Join].
    by rewrite member_text_app.
  - constructor; [|done]. split; [done|by apply Ht].
Qed.

Lemma members_more t1 b' k v r2 r3 c r4 l r :
  (∀ rest, parse_string_lit (b' +:+ String dq rest) = Some (k, rest)) →
  (∀ u, compact false (t1 +:+ u) = String dq (b' +:+ String dq (String (chr 58) (compact false u)))) →
  value_text r2 v r3 → skip_ws r3 = String c r4 → (code c =? 44)%Z = true → members_text r4 l r →
  members_text (t1 +:+ r2) ((k, v) :: l) r.
Proof.
  intros Hb Hk Hv E3 Ec%Z.eqb_eq (t2 & xs & -> & Hc2 & Hxs & <- & Hne).
  assert (c = chr 44) as -> by (by rewrite <- (chr_code c), Ec).
  destruct (value_then r2 v r3 _ _ Hv E3 eq_refl) as (t & t' & -> & Ht & Hc).
  exists (t1 +:+ t +:+ String (chr 44) t2), (((b', k), (t', v)) :: xs). split_and!; [by rewrite !app_assoc|..|done|done].
  - intros u. rewrite !app_assoc, Hk, app_cons, Hc, Hc2. cbn [map].
    rewrite Join_cons by (by destruct xs). by rewrite !app_assoc, member_text_app.
  - constructor; [|done]. split; [done|by apply Ht].
Qed.

Lemma parse_text n :
  (∀ s j r, parse_value n s = Some (j, r) → value_text s j r)
  ∧ (∀ s l r, parse_elems n s = Some (l, r) → elems_text s l r)
  ∧ (∀ s l r, parse_members n s = Some (l, r) → members_text s l r).
Proof.
  induction n as [|n (IHv & IHe & IHm)]; [done|]. split; [|split].
  - intros s j r. cbn [parse_value]. destruct (skip_ws s) as [|c t] eqn:Es; [done|].
    pose proof (skip_ws_head _ _ _ Es) as Hws.
    destruct (c =?c dq) eqn:Ec; [|destruct (code c =? 91)%Z eqn:E91; [|destruct (code c =? 123)%Z eqn:E123;
      [|destruct (is_num_char c) eqn:En]]].
    + apply eqb_ascii_true in Ec as ->. unfold parse_string_lit.
      destruct (parse_str t) as [[y r']|] eqn:Ep; [|done]. intros [= <- <-].
      apply parse_str_text in Ep as (b & b' & -> & Hc & Hp & _).
      exists (String dq (b +:+ str1 dq)), (String dq (b' +:+ str1 dq)). split_and!.
      * by rewrite Es, app_cons, app_assoc.
      * intros u. rewrite !app_cons, !app_assoc. unfold str1. rewrite !app_cons, !app_nil_l.
        cbn [compact]. change (is_ws dq) with false. by rewrite Ascii.eqb_refl, Hc.
      * split; [by eexists _, _|]. apply reads_literal. intros rest. unfold parse_string_lit. by rewrite Hp.
    + apply Z.eqb_eq in E91. assert (c = chr 91) as -> by (by rewrite <- (chr_code c), E91).
      destruct (skip_ws t) as [|d t'] eqn:Et; [done|]. destruct (code d =? 93)%Z eqn:E93.
      * intros [= <- <-]. apply Z.eqb_eq in E93. assert (d = chr 93) as -> by (by rewrite <- (chr_code d), E93).
        by eapply (empty_text (chr 91) (chr 93) (JArr [])).
      * destruct (parse_elems n t) as [[l r']|] eqn:El; [|done]. intros [= <- <-].
        apply IHe in El as (t1 & xs & -> & Hc & Hxs & <- & _). by apply (array_text s t1 xs).
    + apply Z.eqb_eq in E123. assert (c = chr 123) as -> by (by rewrite <- (chr_code c), E123).
      destruct (skip_ws t) as [|d t'] eqn:Et; [done|]. destruct (code d =? 125)%Z eqn:E125.
      * intros [= <- <-]. apply Z.eqb_eq in E125. assert (d = chr 125) as -> by (by rewrite <- (chr_code d), E125).
        by eapply (empty_text (chr 123) (chr 125) (JObj [])).
      * destruct (parse_members n t) as [[l r']|] eqn:El; [|done]. intros [= <- <-].
        apply IHm in El as (t1 & xs & -> & Hc & Hxs & <- & _). by apply (object_text s t1 xs).
    + destruct (span is_num_char (String c t)) as [lit r'] eqn:Esp.
      destruct (valid_number lit) eqn:Hn; [|done]. intros [= <- <-].
      pose proof (span_spec is_num_char (String c t)) as [Hs _]. rewrite Esp in Hs. cbn [fst snd] in Hs.
      apply (word_text lit); [by rewrite Es|done..|]. intros u. by apply compact_number, valid_number_chars.
    + destruct (strip_prefix "true" (String c t)) as [r1|] eqn:E1; [|destruct (strip_prefix "false" (String c t)) as [r1|] eqn:E2;
        [|destruct (strip_prefix "null" (String c t)) as [r1|] eqn:E3; [|done]]]; intros [= <- <-];
        [apply strip_prefix_Some in E1|apply strip_prefix_Some in E2|apply strip_prefix_Some in E3];
        eapply word_text; eauto; by rewrite Es.
  - intros s l r. cbn [parse_elems].
    destruct (parse_value n s) as [[v r1]|] eqn:Ev; [|done]. apply IHv in Ev.
    destruct (skip_ws r1) as [|c r2] eqn:E1; [done|].
    destruct (code c =? 93)%Z eqn:E93; [|destruct (code c =? 44)%Z eqn:E44; [|done]].
    + intros [= <- <-]. by eapply elems_last.
    + destruct (parse_elems n r2) as [[l' r3]|] eqn:El; [|done]. intros [= <- <-].
      by eapply elems_more; eauto.
  - intros s l r. cbn [parse_members].
    destruct (skip_ws s) as [|q t] eqn:Es; [done|]. destruct (q =?c dq) eqn:Eq; [|done].
    apply eqb_ascii_true in Eq as ->.
    destruct (parse_string_lit t) as [[k r1]|] eqn:Ek; [|done].
    destruct (skip_ws r1) as [|c r2] eqn:E1; [done|]. destruct (code c =? 58)%Z eqn:Ec; [|done].
    destruct (parse_value n r2) as [[v r3]|] eqn:Ev; [|done]. apply IHv in Ev.
    destruct (skip_ws r3) as [|c' r4] eqn:E3; [done|].
    destruct (key_then s t k r1 c r2 Es Ek E1 Ec) as (t1 & b' & -> & Hb & Hc).
    destruct (code c' =? 125)%Z eqn:E125; [|destruct (code c' =? 44)%Z eqn:E44; [|done]].
    + intros [= <- <-]. by eapply members_last.
    + destruct (parse_members n r4) as [[l' r5]|] eqn:El; [|done]. intros [= <- <-].
      by eapply members_more; eauto.
Qed.

(** ** Objects *)

Lemma slice_app t r : slice (t +:+ r) r = t.
Proof.
  unfold slice. rewrite length_app_str, Nat.add_sub. induction t as [|c t IH]; [by destruct r|].
  rewrite app_cons. cbn [String.length str_take]. by rewrite IH.
Qed.

(** The value that is written for a text. *)
Definition tree (t : string) : json := default JNull (json_parse (compact false t)).

Definition text_ok (t : string) : Prop := text_of (compact false t, tree t).

Lemma text_tree t j : text_of (compact false t, j) → text_ok t ∧ tree t = j.
Proof.
  intros [Hh Hr]. cbn [fst snd] in Hh, Hr. assert (tree t = j) as E by (unfold tree; by rewrite (json_parse_reads _ _ Hr)).
  unfold text_ok. rewrite E. done.
Qed.

Lemma value_slice n s j r :
  parse_value n s = Some (j, r) → text_ok (slice (skip_ws s) r) ∧ tree (slice (skip_ws s) r) = j.
Proof.
  intros (t & t' & -> & Hc & Ht)%(proj1 (parse_text n)). rewrite slice_app. apply text_tree.
  specialize (Hc ""). rewrite !app_nil_r in Hc. by rewrite Hc.
Qed.

(** The text of a tree that the encoder has printed. *)
Lemma text_print j : numbers_ok j = true → text_ok (json_print j) ∧ tree (json_print j) = clean j.
Proof.
  intros Hn. pose proof (parses_all j Hn (String.length (json_print j)) "" (le_n _) I) as Hp.
  rewrite app_nil_r in Hp. apply value_slice in Hp.
  destruct (print_head j Hn) as (c & r & E & Hws & _).
  assert (skip_ws (json_print j) = json_print j) as Es by (by rewrite E; apply skip_ws_nonws).
  pose proof (slice_app (json_print j) "") as Hs. rewrite app_nil_r in Hs. by rewrite Es, Hs in Hp.
Qed.

(** Texts and trees are read together. *)
Lemma raw_members_spec n s :
  match parse_members n s with
  | Some (l, r) => ∃ lt, raw_members n s = Some (lt, r) ∧ Forall (λ kt, text_ok kt.2) lt
                         ∧ map (λ kt, (kt.1, tree kt.2)) lt = l
  | None => raw_members n s = None
  end.
Proof.
  revert s. induction n as [|n IH]; intros s; [done|]. cbn [parse_members raw_members].
  destruct (skip_ws s) as [|q t]; [done|]. destruct (q =?c dq); [|done].
  destruct (parse_string_lit t) as [[k r1]|]; [|done].
  destruct (skip_ws r1) as [|c r2]; [done|]. destruct (code c =? 58)%Z; [|done].
  destruct (parse_value n r2) as [[v r3]|] eqn:Ev; [|done]. apply value_slice in Ev as [Hok Ht]. cbv zeta.
  destruct (skip_ws r3) as [|c' r4]; [done|].
  destruct (code c' =? 125)%Z.
  - eexists. split; [done|]. split; [by apply Forall_singleton|]. cbn [map fst snd]. by rewrite Ht.
  - destruct (code c' =? 44)%Z; [|done]. specialize (IH r4).
    destruct (parse_members n r4) as [[l r5]|]; [|by rewrite IH].
    destruct IH as (lt & -> & Hlt & <-). eexists. split; [done|]. split; [by constructor|].
    cbn [map fst snd]. by rewrite Ht.
Qed.

Lemma texts_map_tree lt : tree <$> texts_map lt = members_map (map (λ kt, (kt.1, tree kt.2)) lt).
Proof.
  unfold texts_map, members_map. induction lt as [|[k t] lt IH] using rev_ind; [apply fmap_empty|].
  rewrite map_app, !foldl_app. cbn [foldl map fst snd]. by rewrite fmap_insert, IH.
Qed.

Lemma texts_map_ok lt : Forall (λ kt, text_ok kt.2) lt → map_Forall (λ _ t, text_ok t) (texts_map lt).
Proof.
  unfold texts_map. induction lt as [|[k t] lt IH] using rev_ind; intros H; [apply map_Forall_empty|].
  apply Forall_app in H as [H [Ht _]%Forall_cons]. rewrite foldl_app. cbn [foldl].
  apply map_Forall_insert_2; [exact Ht|]. by apply IH.
Qed.

(** What [Unmarshal] leaves in the map: the texts of the members' values. *)
Definition raw_ok (m : gmap string string) : Prop := map_Forall (λ k t, valid_utf8 k = true ∧ text_ok t) m.

Lemma unmarshal_raw_spec s m :
  unmarshal_raw s = Some (Some m) →
  raw_ok m ∧ ∃ l, json_parse s = Some (JObj l) ∧ tree <$> m = members_map l.
Proof.
  unfold unmarshal_raw. intros H. destruct (json_parse s) as [j|] eqn:Ej; [|done].
  pose proof (json_parse_wf _ _ Ej) as Hwf. destruct j as [| | | | |l]; try done.
  assert (map_Forall (λ _ t, text_ok t) m ∧ tree <$> m = members_map l) as [Hm Hl].
  { unfold json_parse in Ej.
    destruct (parse_value (S (String.length s)) s) as [[j r]|] eqn:Ev; [|done].
    destruct (String.eqb (skip_ws r) ""); simplify_eq. cbn [parse_value] in Ev.
    destruct (skip_ws s) as [|c t] eqn:Es; [done|]. injection H as <-.
    destruct (c =?c dq); [by destruct (parse_string_lit t) as [[]|]|].
    destruct (code c =? 91)%Z; [by repeat case_match|].
    destruct (code c =? 123)%Z; [|by repeat case_match].
    destruct (skip_ws t) as [|d t'] eqn:Et; [done|].
    pose proof (raw_members_spec (String.length s) t) as Hr. destruct (code d =? 125)%Z eqn:Ed.
    - injection Ev as <- <-. assert (raw_members (String.length s) t = None) as ->.
      { apply Z.eqb_eq in Ed. assert (d = chr 125) as -> by (by rewrite <- (chr_code d), Ed).
        destruct (String.length s); [done|]. cbn [raw_members]. by rewrite Et. }
      by rewrite fmap_empty.
    - destruct (parse_members (String.length s) t) as [[l' r']|]; simplify_eq.
      destruct Hr as (lt & -> & Hlt & <-). split; [by apply texts_map_ok|]. apply texts_map_tree. }
  split; [|by exists l]. intros k t Hk. split; [|by apply (Hm k)].
  apply members_map_wf in Hwf. rewrite <- Hl in Hwf.
  destruct (Hwf k (tree t)) as [? _]; [|done]. by rewrite lookup_fmap, Hk.
Qed.

Lemma assoc_insert_map {A B} (f : A → B) k v l :
  assoc_insert k (f v) (map (λ kv, (kv.1, f kv.2)) l) = map (λ kv, (kv.1, f kv.2)) (assoc_insert k v l).
Proof.
  induction l as [|[k' v'] l IH]; [done|]. cbn [map assoc_insert fst snd].
  destruct (String.compare k k'); cbn [map fst snd]; [done..|]. by rewrite IH.
Qed.

Lemma sorted_texts_tree m :
  sorted_members (tree <$> m) = map (λ kt, (kt.1, tree kt.2)) (sorted_texts m).
Proof.
  unfold sorted_members, sorted_texts. rewrite map_to_list_fmap.
  induction (map_to_list m) as [|[k t] l IH]; [done|]. rewrite fmap_cons.
  cbn [foldr prod_map fst snd]. rewrite IH. apply (assoc_insert_map tree k t).
Qed.

Lemma elem_of_sorted_texts m k t : (k, t) ∈ sorted_texts m → m !! k = Some t.
Proof.
  unfold sorted_texts. intros Hin. apply elem_of_map_to_list. revert Hin.
  assert (∀ l : list (string * string), NoDup l.*1 → foldr (λ '(k, v) l, assoc_insert k v l) [] l ≡ₚ l)
    as Hp; [|by rewrite Hp by apply NoDup_fst_map_to_list].
  induction l as [|[k' v] l IH]; [done|]. intros [Hk Hnd]%NoDup_cons. cbn [foldr].
  rewrite assoc_insert_perm; rewrite IH by done; done.
Qed.

(** The text that is written for a map has the members that were read. *)
Lemma marshal_raw_parse m : raw_ok m → json_parse (marshal_raw m) = Some (marshal_raw_map (tree <$> m)).
Proof.
  intros Hm. unfold marshal_raw_map. change (foldr _ [] (map_to_list ?x)) with (sorted_members x).
  rewrite sorted_texts_tree.
  set (xs := map (λ kt, printed_member kt.1 (compact false kt.2) (tree kt.2)) (sorted_texts m)).
  assert (Forall member_ok xs) as Hxs.
  { apply Forall_fmap, Forall_forall. intros [k t] Hin%elem_of_sorted_texts%Hm.
    apply printed_member_ok. by apply Hin. }
  assert (marshal_raw m = "{" +:+ Join (map member_text xs) "," +:+ "}") as ->.
  { unfold marshal_raw, xs. rewrite map_map. do 3 f_equal. apply map_ext. intros [k t].
    by rewrite printed_member_text. }
  rewrite (json_parse_reads _ _ (reads_object xs Hxs)). do 2 f_equal. unfold xs. rewrite map_map.
  apply map_ext_in. intros [k t] Hin%list_elem_of_In%elem_of_sorted_texts%Hm.
  unfold member_of, printed_member. cbn [fst snd]. unfold clean_str. by rewrite to_valid_utf8_valid by apply Hin.
Qed.
