(* ===== verification/GoBase64.v ===== *)
(** * [base64.StdEncoding]: standard alphabet with padding *)

From S2P Require Import Prelude GoStrings.

Definition b64_char (z : Z) : ascii :=
  if (z <? 26)%Z then chr (65 + z)
  else if (z <? 52)%Z then chr (71 + z)
  else if (z <? 62)%Z then chr (z - 4)
  else if (z =? 62)%Z then chr 43 else chr 47.

Definition b64_val (c : ascii) : option Z :=
  let z := code c in
  if in_range 65 90 z then Some (z - 65)%Z
  else if in_range 97 122 z then Some (z - 71)%Z
  else if in_range 48 57 z then Some (z + 4)%Z
  else if (z =? 43)%Z then Some 62%Z
  else if (z =? 47)%Z then Some 63%Z
  else None.

Definition pad : ascii := chr 61.
Definition is_newline (c : ascii) : bool := (code c =? 10)%Z || (code c =? 13)%Z.

Fixpoint EncodeToString (s : string) : string :=
  match s with
  | "" => ""
  | String a "" =>
      let x := code a in
      String (b64_char (x / 4)) (String (b64_char (x `mod` 4 * 16)) (String pad (str1 pad)))
  | String a (String b "") =>
      let x := code a in let y := code b in
      String (b64_char (x / 4)) (String (b64_char (x `mod` 4 * 16 + y / 16))
        (String (b64_char (y `mod` 16 * 4)) (str1 pad)))
  | String a (String b (String c r)) =>
      let x := code a in let y := code b in let z := code c in
      String (b64_char (x / 4)) (String (b64_char (x `mod` 4 * 16 + y / 16))
        (String (b64_char (y `mod` 16 * 4 + z / 64)) (String (b64_char (z `mod` 64))
          (EncodeToString r))))
  end%Z.

(** Line breaks are skipped wherever they occur. *)
Fixpoint strip_newlines (s : string) : string :=
  match s with
  | "" => ""
  | String c r => if is_newline c then strip_newlines r else String c (strip_newlines r)
  end.

Fixpoint decode_quanta (s : string) : option string :=
  match s with
  | "" => Some ""
  | String a (String b (String c (String d r))) =>
      x ← b64_val a; y ← b64_val b;
      if d =?c pad then
        if negb (String.eqb r "") then None
        else if c =?c pad then Some (bytes [x * 4 + y / 16]%Z)
        else z ← b64_val c; Some (bytes [x * 4 + y / 16; y `mod` 16 * 16 + z / 4]%Z)
      else
        z ← b64_val c; w ← b64_val d;
        rest ← decode_quanta r;
        Some (bytes [x * 4 + y / 16; y `mod` 16 * 16 + z / 4; z `mod` 4 * 64 + w]%Z +:+ rest)
  | _ => None
  end.

Definition DecodeString (s : string) : option string := decode_quanta (strip_newlines s).

(** ** Decoding inverts encoding *)

Definition b64_ok (z : Z) : bool :=
  match b64_val (b64_char z) with Some z' => (z' =? z)%Z | None => false end
  && negb (b64_char z =?c pad) && negb (is_newline (b64_char z)).

Lemma b64_ok_all : forallb b64_ok (seqZ 0 64) = true.
Proof. vm_compute. reflexivity. Qed.

Lemma b64_char_spec z :
  (0 ≤ z < 64)%Z →
  b64_val (b64_char z) = Some z ∧ (b64_char z =?c pad) = false
  ∧ is_newline (b64_char z) = false.
Proof.
  intros Hz. pose proof b64_ok_all as H. rewrite forallb_forall in H.
  assert (b64_ok z = true) as H'.
  { apply H, list_elem_of_In, elem_of_seqZ. lia. }
  unfold b64_ok in H'. bool_to_prop.
  destruct (b64_val _); bool_to_prop; naive_solver.
Qed.

Section three_bytes.
Local Open Scope Z_scope.
Lemma b64_bounds x y z :
  0 ≤ x < 256 → 0 ≤ y < 256 → 0 ≤ z < 256 →
  0 ≤ x / 4 < 64 ∧ 0 ≤ x `mod` 4 * 16 < 64 ∧ 0 ≤ x `mod` 4 * 16 + y / 16 < 64
  ∧ 0 ≤ y `mod` 16 * 4 < 64 ∧ 0 ≤ y `mod` 16 * 4 + z / 64 < 64 ∧ 0 ≤ z `mod` 64 < 64.
Proof. intros. Z.to_euclidean_division_equations. lia. Qed.
Lemma b64_first x y : 0 ≤ y < 256 → x / 4 * 4 + (x `mod` 4 * 16 + y / 16) / 16 = x.
Proof. intros. Z.to_euclidean_division_equations. lia. Qed.
Lemma b64_first' x : x / 4 * 4 + (x `mod` 4 * 16) / 16 = x.
Proof. intros. Z.to_euclidean_division_equations. lia. Qed.
Lemma b64_second x y z :
  0 ≤ y < 256 → 0 ≤ z < 256 →
  (x `mod` 4 * 16 + y / 16) `mod` 16 * 16 + (y `mod` 16 * 4 + z / 64) / 4 = y.
Proof. intros. Z.to_euclidean_division_equations. lia. Qed.
Lemma b64_second' x y :
  0 ≤ y < 256 → (x `mod` 4 * 16 + y / 16) `mod` 16 * 16 + (y `mod` 16 * 4) / 4 = y.
Proof. intros. Z.to_euclidean_division_equations. lia. Qed.
Lemma b64_third y z :
  0 ≤ z < 256 → (y `mod` 16 * 4 + z / 64) `mod` 4 * 64 + z `mod` 64 = z.
Proof. intros. Z.to_euclidean_division_equations. lia. Qed.
End three_bytes.

Lemma strip_newlines_char z r :
  (0 ≤ z < 64)%Z → strip_newlines (String (b64_char z) r) = String (b64_char z) (strip_newlines r).
Proof. intros Hz. simpl. by destruct (b64_char_spec z Hz) as (_ & _ & ->). Qed.

(** Three-at-a-time induction on strings. *)
Lemma string_ind3 (P : string → Prop) :
  P "" → (∀ a, P (str1 a)) → (∀ a b, P (String a (str1 b))) →
  (∀ a b c r, P r → P (String a (String b (String c r)))) → ∀ s, P s.
Proof.
  intros H0 H1 H2 H3. fix IH 1. intros [|a [|b [|c r]]];
    [exact H0|exact (H1 a)|exact (H2 a b)|exact (H3 a b c r (IH r))].
Qed.

Theorem DecodeString_EncodeToString s : DecodeString (EncodeToString s) = Some s.
Proof.
  unfold DecodeString.
  induction s as [|a|a b|a b c r IH] using string_ind3; [done|..];
    pose proof (code_range a);
    try pose proof (code_range b); try pose proof (code_range c).
  - pose proof (b64_bounds (code a) 0 0 ltac:(done) ltac:(lia) ltac:(lia)) as (B1 & B2 & _).
    cbn [EncodeToString str1]. rewrite !strip_newlines_char by done.
    change (strip_newlines (String pad (str1 pad))) with (String pad (str1 pad)).
    cbn [decode_quanta str1].
    destruct (b64_char_spec _ B1) as (-> & _), (b64_char_spec _ B2) as (-> & _). simpl.
    by rewrite b64_first', chr_code.
  - pose proof (b64_bounds (code a) (code b) 0 ltac:(done) ltac:(lia) ltac:(lia))
      as (B1 & _ & B2 & B3 & _).
    cbn [EncodeToString str1]. rewrite !strip_newlines_char by done.
    change (strip_newlines (str1 pad)) with (str1 pad). cbn [decode_quanta str1].
    destruct (b64_char_spec _ B1) as (-> & _), (b64_char_spec _ B2) as (-> & _),
      (b64_char_spec _ B3) as (-> & -> & _). simpl.
    by rewrite b64_first, b64_second', !chr_code.
  - pose proof (b64_bounds (code a) (code b) (code c) ltac:(done) ltac:(done) ltac:(done))
      as (B1 & _ & B2 & _ & B3 & B4).
    cbn [EncodeToString]. rewrite !strip_newlines_char by done. cbn [decode_quanta].
    destruct (b64_char_spec _ B1) as (-> & _), (b64_char_spec _ B2) as (-> & _),
      (b64_char_spec _ B3) as (-> & _), (b64_char_spec _ B4) as (-> & -> & _).
    simpl. rewrite IH. simpl.
    by rewrite b64_first, b64_second, b64_third, !chr_code by done.
Qed.

(** Every character of the encoding is visible ASCII. *)
Definition b64_visible (c : ascii) : bool := in_range 33 126 (code c).

Lemma b64_char_visible z : (0 ≤ z < 64)%Z → b64_visible (b64_char z) = true.
Proof.
  intros Hz.
  assert (forallb (λ z, b64_visible (b64_char z)) (seqZ 0 64) = true) as H
    by (vm_compute; reflexivity).
  rewrite forallb_forall in H. apply H, list_elem_of_In, elem_of_seqZ. lia.
Qed.

Lemma EncodeToString_visible s : all_chars b64_visible (EncodeToString s) = true.
Proof.
  induction s as [|a|a b|a b c r IH] using string_ind3; [done|..];
    pose proof (code_range a); try pose proof (code_range b); try pose proof (code_range c);
    cbn [EncodeToString str1 all_chars].
  - pose proof (b64_bounds (code a) 0 0 ltac:(done) ltac:(lia) ltac:(lia)) as (? & ? & _).
    by rewrite !b64_char_visible.
  - pose proof (b64_bounds (code a) (code b) 0 ltac:(done) ltac:(lia) ltac:(lia))
      as (? & _ & ? & ? & _).
    by rewrite !b64_char_visible.
  - pose proof (b64_bounds (code a) (code b) (code c) ltac:(done) ltac:(done) ltac:(done))
      as (? & _ & ? & _ & ? & ?).
    by rewrite !b64_char_visible, IH.
Qed.

Lemma EncodeToString_ascii s : all_chars (λ c, (code c <? 128)%Z) (EncodeToString s) = true.
Proof.
  apply (all_chars_impl b64_visible); [|apply EncodeToString_visible].
  intros c. unfold b64_visible, in_range. bool_to_prop. lia.
Qed.

Lemma EncodeToString_nonempty s : s ≠ "" → EncodeToString s ≠ "".
Proof. by destruct s as [|a [|b [|c r]]]. Qed.
