(* ===== verification/GoTime.v ===== *)
(** * The parts of Go's [time] the agent uses

    An instant is a number of nanoseconds since the Unix epoch; a [Duration]
    is an int64 of nanoseconds. *)

From S2P Require Import Prelude GoStrings GoJson GoJsonFacts.

Local Open Scope Z_scope.

Definition Nanosecond : Z := 1.
Definition Millisecond : Z := 1000000.
Definition Second : Z := 1000000000.
Definition Minute : Z := 60 * Second.

(** [t.Sub(u)]: the difference, saturating at the bounds of a [Duration]. *)
Definition time_sub (t u : Z) : Z := Z.max minInt64 (Z.min maxInt64 (t - u)).

(** Unary minus on a [Duration] wraps around. *)
Definition dur_neg (d : Z) : Z := wrap64 (- d).

(** ** Civil dates (proleptic Gregorian calendar) *)

Definition days_from_civil (y m d : Z) : Z :=
  let y' := if m <=? 2 then y - 1 else y in
  let era := y' / 400 in
  let yoe := y' - era * 400 in
  let mp := if 2 <? m then m - 3 else m + 9 in
  let doy := (153 * mp + 2) / 5 + d - 1 in
  let doe := yoe * 365 + yoe / 4 - yoe / 100 + doy in
  era * 146097 + doe - 719468.

(** Year of era (March-based), month and day of a day of era. *)
Definition civil_of_doe (doe : Z) : Z * Z * Z :=
  let yoe := (doe - doe / 1460 + doe / 36524 - doe / 146096) / 365 in
  let doy := doe - (365 * yoe + yoe / 4 - yoe / 100) in
  let mp := (5 * doy + 2) / 153 in
  let d := doy - (153 * mp + 2) / 5 + 1 in
  let m := if mp <? 10 then mp + 3 else mp - 9 in
  (yoe, m, d).

Definition civil_from_days (z : Z) : Z * Z * Z :=
  let z := z + 719468 in
  let era := z / 146097 in
  let '(yoe, m, d) := civil_of_doe (z - era * 146097) in
  let y := yoe + era * 400 in
  ((if m <=? 2 then y + 1 else y), m, d).

Definition leap (y : Z) : bool :=
  (y `mod` 4 =? 0) && (negb (y `mod` 100 =? 0) || (y `mod` 400 =? 0)).

Definition days_in (m y : Z) : Z :=
  if m =? 2 then (if leap y then 29 else 28)
  else if (m =? 4) || (m =? 6) || (m =? 9) || (m =? 11) then 30 else 31.

(** ** RFC 3339 *)

(** A two-digit field; [getnum(value, true)]. *)
Definition num2 (s : string) : option (Z * string) :=
  match s with
  | String a (String b r) =>
      if is_digit a && is_digit b then Some (digit_val a * 10 + digit_val b, r) else None
  | _ => None
  end.

(** One or two digits; [getnum(value, false)], which Go uses for the hour. *)
Definition num12 (s : string) : option (Z * string) :=
  match num2 s with
  | Some x => Some x
  | None =>
      match s with
      | String a r => if is_digit a then Some (digit_val a, r) else None
      | "" => None
      end
  end.

Definition lit (z : Z) (s : string) : option string :=
  match s with String c r => if code c =? z then Some r else None | "" => None end.

Definition pow10 (n : nat) : Z := 10 ^ Z.of_nat n.

(** A fractional second, after a dot or a comma; nanosecond precision. *)
Definition frac (s : string) : Z * string :=
  match s with
  | String c (String d r) =>
      if ((code c =? 46) || (code c =? 44)) && is_digit d then
        let '(ds, rest) := span is_digit (String d r) in
        let ds := String.substring 0 9 ds in
        (default 0 (digits_val 0 ds) * pow10 (9 - String.length ds), rest)
      else (0, s)
  | _ => (0, s)
  end.

(** The zone, as an offset in seconds east of UTC. *)
Definition zone (s : string) : option (Z * string) :=
  match lit 90 s with
  | Some r => Some (0, r)
  | None =>
      match s with
      | String sgn r =>
          '(h, r) ← num2 r; r ← lit 58 r; '(m, r) ← num2 r;
          if (24 <? h) || (60 <? m) then None
          else if code sgn =? 43 then Some (h * 3600 + m * 60, r)
          else if code sgn =? 45 then Some (- (h * 3600 + m * 60), r)
          else None
      | "" => None
      end
  end.

(** [time.Parse(time.RFC3339, s)]. *)
Definition parse_rfc3339 (s : string) : option Z :=
  '(c, s) ← num2 s; '(y, s) ← num2 s; s ← lit 45 s;
  '(mo, s) ← num2 s; s ← lit 45 s;
  '(d, s) ← num2 s; s ← lit 84 s;
  '(h, s) ← num12 s; s ← lit 58 s;
  '(mi, s) ← num2 s; s ← lit 58 s;
  '(se, s) ← num2 s;
  let '(ns, s) := frac s in
  '(off, s) ← zone s;
  let y := c * 100 + y in
  if negb (String.eqb s "") || (mo <? 1) || (12 <? mo) || (d <? 1) || (days_in mo y <? d)
     || (24 <=? h) || (60 <=? mi) || (60 <=? se) then None
  else Some ((days_from_civil y mo d * 86400 + h * 3600 + mi * 60 + se - off) * Second + ns).

Definition fmt2 (z : Z) (r : string) : string :=
  String (chr (48 + z / 10)) (String (chr (48 + z `mod` 10)) r).

(** [t.UTC().Format(time.RFC3339)], for years 0 to 9999. *)
Definition format_rfc3339 (t : Z) : string :=
  let s := t / Second in
  let '(y, mo, d) := civil_from_days (s / 86400) in
  let sod := s `mod` 86400 in
  fmt2 (y / 100) (fmt2 (y `mod` 100) (String (chr 45)
    (fmt2 mo (String (chr 45) (fmt2 d (String (chr 84)
      (fmt2 (sod / 3600) (String (chr 58) (fmt2 ((sod / 60) `mod` 60) (String (chr 58)
        (fmt2 (sod `mod` 60) (String (chr 90) "")))))))))))).

(** The same for years past 9999, which take more digits. *)
Definition format_rfc3339_wide (t : Z) : string :=
  let y := (civil_from_days (t / Second / 86400)).1.1 in
  if (9999 <? y)
  then Itoa y +:+ String.substring 4 (String.length (format_rfc3339 t)) (format_rfc3339 t)
  else format_rfc3339 t.

Example parse_rfc3339_example :
  parse_rfc3339 "2026-08-08T12:30:45.5+05:30" = Some 1786172445500000000.
Proof. vm_compute. reflexivity. Qed.

Example format_rfc3339_example : format_rfc3339 1786172445500000000 = "2026-08-08T07:00:45Z".
Proof. vm_compute. reflexivity. Qed.

(** ** Parsing inverts formatting *)

Definition doe_ok (doe : Z) : bool :=
  let '(yoe, m, d) := civil_of_doe doe in
  let mp := if 2 <? m then m - 3 else m + 9 in
  (0 <=? yoe) && (yoe <? 400) && (1 <=? m) && (m <=? 12) && (1 <=? d)
  && (d <=? days_in m (if m <=? 2 then yoe + 1 else yoe))
  && (yoe * 365 + yoe / 4 - yoe / 100 + ((153 * mp + 2) / 5 + d - 1) =? doe).

(** [P] holds on the [p] integers from [z] on, by bisection. *)
Fixpoint all_range (p : positive) (z : Z) (P : Z → bool) : bool :=
  match p with
  | xH => P z
  | xO q => all_range q z P && all_range q (z + Z.pos q) P
  | xI q => P z && all_range q (z + 1) P && all_range q (z + 1 + Z.pos q) P
  end.

Lemma all_range_spec p z P :
  all_range p z P = true → ∀ x, z ≤ x < z + Z.pos p → P x = true.
Proof.
  revert z. induction p as [q IH|q IH|]; intros z H x Hx; simpl in H.
  - apply andb_true_iff in H as [[H0 H1]%andb_true_iff H2].
    destruct (decide (x = z)) as [->|]; [done|].
    destruct (decide (x < z + 1 + Z.pos q)); [apply (IH _ H1)|apply (IH _ H2)]; lia.
  - apply andb_true_iff in H as [H1 H2].
    destruct (decide (x < z + Z.pos q)); [apply (IH _ H1)|apply (IH _ H2)]; lia.
  - replace x with z by lia. done.
Qed.

Lemma era_ok : all_range 146097 0 doe_ok = true.
Proof. vm_compute. reflexivity. Qed.

Lemma doe_ok_true doe : 0 ≤ doe < 146097 → doe_ok doe = true.
Proof. intros H. exact (all_range_spec 146097 0 doe_ok era_ok doe H). Qed.

Lemma leap_400 y k : leap (y + k * 400) = leap y.
Proof.
  unfold leap.
  assert ((y + k * 400) `mod` 4 = y `mod` 4) as ->
    by (replace (k * 400) with (k * 100 * 4) by lia; apply Z_mod_plus_full).
  assert ((y + k * 400) `mod` 100 = y `mod` 100) as ->
    by (replace (k * 400) with (k * 4 * 100) by lia; apply Z_mod_plus_full).
  by rewrite Z_mod_plus_full.
Qed.

Lemma civil_from_days_spec z y m d :
  civil_from_days z = (y, m, d) →
  1 ≤ m ≤ 12 ∧ 1 ≤ d ≤ days_in m y ∧ days_from_civil y m d = z.
Proof.
  unfold civil_from_days. set (z' := z + 719468). set (era := z' / 146097).
  assert (0 ≤ z' - era * 146097 < 146097) as Hdoe
    by (unfold era; Z.to_euclidean_division_equations; lia).
  pose proof (doe_ok_true _ Hdoe) as Hok. unfold doe_ok in Hok.
  destruct (civil_of_doe _) as [[yoe m'] d'] eqn:E. intros [= <- <- <-].
  bool_to_prop. destruct Hok as ((((((?&?)&?)&?)&?)&Hd)&Heq).
  split; [done|].
  assert (days_in m' (if m' <=? 2 then yoe + era * 400 + 1 else yoe + era * 400)
          = days_in m' (if m' <=? 2 then yoe + 1 else yoe)) as ->.
  { unfold days_in. destruct (m' <=? 2).
    - replace (yoe + era * 400 + 1) with (yoe + 1 + era * 400) by lia. by rewrite leap_400.
    - by rewrite leap_400. }
  split; [done|]. unfold days_from_civil.
  replace (if m' <=? 2 then (if m' <=? 2 then yoe + era * 400 + 1 else yoe + era * 400) - 1
           else if m' <=? 2 then yoe + era * 400 + 1 else yoe + era * 400)
    with (yoe + era * 400) by (destruct (m' <=? 2); lia).
  assert ((yoe + era * 400) / 400 = era) as ->
    by (Z.to_euclidean_division_equations; lia).
  replace (yoe + era * 400 - era * 400) with yoe by lia. lia.
Qed.

Lemma fmt_digit k : 0 ≤ k < 10 → is_digit (chr (48 + k)) = true ∧ digit_val (chr (48 + k)) = k.
Proof.
  intros Hk. unfold is_digit, digit_val, in_range. rewrite code_chr by lia.
  split; [|lia]. apply andb_true_iff. rewrite !Z.leb_le. lia.
Qed.

Lemma num2_fmt2 z r : 0 ≤ z < 100 → num2 (fmt2 z r) = Some (z, r).
Proof.
  intros Hz. unfold num2, fmt2.
  destruct (fmt_digit (z / 10)) as [-> ->]; [Z.to_euclidean_division_equations; lia|].
  destruct (fmt_digit (z `mod` 10)) as [-> ->]; [Z.to_euclidean_division_equations; lia|].
  simpl. do 2 f_equal. Z.to_euclidean_division_equations; lia.
Qed.

Lemma lit_chr z r : 0 ≤ z < 256 → lit z (String (chr z) r) = Some r.
Proof. intros Hz. simpl. by rewrite code_chr, Z.eqb_refl. Qed.

Lemma fmt2_ascii z r :
  0 ≤ z < 100 → all_chars (λ c, code c <? 128) r = true →
  all_chars (λ c, code c <? 128) (fmt2 z r) = true.
Proof.
  intros Hz Hr. unfold fmt2. simpl. rewrite Hr, andb_true_r.
  apply andb_true_iff. rewrite !Z.ltb_lt, !code_chr; Z.to_euclidean_division_equations; lia.
Qed.

(** Instants whose year has four digits, the range of RFC 3339. *)
Definition rfc3339_range (t : Z) : Prop :=
  0 ≤ (civil_from_days (t / Second / 86400)).1.1 ≤ 9999.

Theorem parse_format_rfc3339 t :
  rfc3339_range t → parse_rfc3339 (format_rfc3339 t) = Some (t / Second * Second).
Proof.
  unfold rfc3339_range, format_rfc3339. set (s := t / Second).
  destruct (civil_from_days (s / 86400)) as [[y mo] d] eqn:E. cbn [fst]. intros Hy.
  apply civil_from_days_spec in E as (Hmo & Hd & Hdays).
  assert (days_in mo y ≤ 31) as Hdi.
  { unfold days_in. repeat case_match; lia. }
  set (sod := s `mod` 86400).
  assert (0 ≤ sod < 86400) as Hsod by (apply Z.mod_pos_bound; lia).
  unfold parse_rfc3339.
  assert (0 ≤ y / 100 < 100) by (Z.to_euclidean_division_equations; lia).
  assert (0 ≤ y `mod` 100 < 100) by (Z.to_euclidean_division_equations; lia).
  assert (0 ≤ sod / 3600 < 24) by (Z.to_euclidean_division_equations; lia).
  assert (0 ≤ (sod / 60) `mod` 60 < 60) by (Z.to_euclidean_division_equations; lia).
  assert (0 ≤ sod `mod` 60 < 60) by (Z.to_euclidean_division_equations; lia).
  repeat (first [rewrite num2_fmt2 by lia | rewrite lit_chr by lia]; cbn [mbind option_bind]).
  unfold num12.
  repeat (first [rewrite num2_fmt2 by lia | rewrite lit_chr by lia]; cbn [mbind option_bind]).
  change (frac (String (chr 90) "")) with (0, String (chr 90) ""). cbn beta iota.
  change (zone (String (chr 90) "")) with (Some (0, "")). cbn [mbind option_bind].
  replace (y / 100 * 100 + y `mod` 100) with y by (Z.to_euclidean_division_equations; lia).
  match goal with |- context [if ?b then _ else _] => replace b with false end.
  2:{ symmetry. cbn [String.eqb negb orb]. rewrite !orb_false_iff, !Z.ltb_ge, !Z.leb_gt. lia. }
  rewrite Hdays. f_equal.
  assert (s = s / 86400 * 86400 + sod) by (unfold sod; Z.to_euclidean_division_equations; lia).
  assert (sod = sod / 3600 * 3600 + (sod / 60) `mod` 60 * 60 + sod `mod` 60)
    by (Z.to_euclidean_division_equations; lia).
  lia.
Qed.

Lemma format_rfc3339_ascii t :
  rfc3339_range t → all_chars (λ c, code c <? 128) (format_rfc3339 t) = true.
Proof.
  unfold rfc3339_range, format_rfc3339. set (s := t / Second).
  destruct (civil_from_days (s / 86400)) as [[y mo] d] eqn:E. cbn [fst]. intros Hy.
  apply civil_from_days_spec in E as (Hmo & Hd & _).
  assert (days_in mo y ≤ 31) as Hdi by (unfold days_in; repeat case_match; lia).
  set (sod := s `mod` 86400).
  assert (0 ≤ sod < 86400) as Hsod by (apply Z.mod_pos_bound; lia).
  assert (∀ z r, 0 ≤ z < 128 → all_chars (λ c, code c <? 128) r = true →
    all_chars (λ c, code c <? 128) (String (chr z) r) = true) as Hc.
  { intros z r Hz Hr. simpl. rewrite Hr, code_chr by lia. rewrite andb_true_r. apply Z.ltb_lt. lia. }
  repeat first [apply fmt2_ascii | apply Hc]; try done;
    clearbody s sod; clear Hc; Z.to_euclidean_division_equations; lia.
Qed.

Lemma format_rfc3339_nonempty t : format_rfc3339 t ≠ "".
Proof. unfold format_rfc3339. by destruct (civil_from_days _) as [[??]?]. Qed.
