(* ===== verification/Signing.v ===== *)
(** * pkg/signing: Ed25519 signatures on relay messages

    [Verifier] (verify.go) checks the signature, the freshness and the nonce of
    a message and that the signed payload agrees with the message around it;
    [Signer] (sign.go) builds such messages. Ed25519 and the key formats of
    crypto/x509 and x/crypto/ssh are parameters. *)

From S2P Require Import Prelude GoStrings GoJson GoRaw GoBase64 GoTime.

(** crypto/ed25519. *)
Class Ed25519 := {
  ed_verify : string → string → string → bool;   (* public key, message, signature *)
  ed_sign : string → string → string;            (* private key, message *)
  ed_public : string → string;                   (* public half of a private key *)
  ed_from_seed : string → string;                (* ed25519.NewKeyFromSeed *)
}.

(** What the documentation of crypto/ed25519 promises. *)
Class Ed25519Laws `{Ed25519} := {
  ed_verify_sign : ∀ sk m, ed_verify (ed_public sk) m (ed_sign sk m) = true;
  ed_sign_size : ∀ sk m, String.length (ed_sign sk m) = 64;   (* ed25519.SignatureSize *)
}.

(** A key as a parser returns it: its algorithm is Ed25519 or another one. *)
Inductive parsed_key := EdKey (k : string) | OtherKey.

(** A PEM block: its type and its bytes. *)
Record pem_block := { pem_type : string; pem_bytes : string }.

(** Key formats: x/crypto/ssh, encoding/pem and crypto/x509. An OpenSSH key that
    does not expose its cryptographic form is [None]. *)
Class KeyFormats := {
  ssh_ParseAuthorizedKey : string → result (option parsed_key);
  ssh_ParseRawPrivateKey : string → result parsed_key;
  pem_Decode : string → option pem_block;
  x509_ParsePKIXPublicKey : string → result parsed_key;
  x509_ParsePKCS8PrivateKey : string → result parsed_key;
}.

Definition PublicKeySize : nat := 32.
Definition SeedSize : nat := 32.
Definition PrivateKeySize : nat := 64.


Definition maxTimestampSkew : Z := 5 * Minute.
Definition maxNonces : Z := 10000.

Record Verifier := MkVerifier {
  publicKey : string;
  enabled : bool;
  seenNonces : gmap string Z;    (* nonce, instant it was recorded *)
}.

Record SignatureEnvelope := MkEnvelope {
  SignedPayload : string;
  Signature : string;
  SignedAt : string;
  Nonce : string;
  KeyID : string;
}.

Definition empty_envelope : SignatureEnvelope := MkEnvelope "" "" "" "" "".

Definition SignatureEnvelope_field (env : SignatureEnvelope) (k : string) (v : json)
  : SignatureEnvelope * bool :=
  let 'MkEnvelope sp sg sa no ki := env in
  if key_is "signed_payload" k then
    let '(s, ok) := dec_string sp v in (MkEnvelope s sg sa no ki, ok)
  else if key_is "signature" k then
    let '(s, ok) := dec_string sg v in (MkEnvelope sp s sa no ki, ok)
  else if key_is "signed_at" k then
    let '(s, ok) := dec_string sa v in (MkEnvelope sp sg s no ki, ok)
  else if key_is "nonce" k then
    let '(s, ok) := dec_string no v in (MkEnvelope sp sg sa s ki, ok)
  else if key_is "key_id" k then
    let '(s, ok) := dec_string ki v in (MkEnvelope sp sg sa no s, ok)
  else (env, true).

(** [json.Unmarshal(msg, &env)]. *)
Definition unmarshal_envelope (j : json) : result SignatureEnvelope :=
  let '(env, ok) := dec_struct SignatureEnvelope_field empty_envelope j in
  if (ok : bool) then Ok env else Err json_error.

Definition json_Unmarshal (msg : string) : result json :=
  match json_parse msg with Some j => Ok j | None => Err json_error end.

Section keys.
Context `{Ed25519, KeyFormats}.

(** OpenSSH, then PEM, then raw base64. *)
Definition ParsePublicKey (s : string) : result string :=
  let s := TrimSpace s in
  if HasPrefix s "ssh-ed25519 " then
    k ← wrap_err "OpenSSH public key parse failed: " (ssh_ParseAuthorizedKey s);
    match k with
    | None => Err (errorf "OpenSSH key does not implement CryptoPublicKey")
    | Some OtherKey => Err (errorf "OpenSSH key is not Ed25519")
    | Some (EdKey k) => Ok k
    end
  else
    match pem_Decode s with
    | Some block =>
        k ← wrap_err "PEM parse failed: " (x509_ParsePKIXPublicKey (pem_bytes block));
        match k with
        | EdKey k => Ok k
        | OtherKey => Err (errorf "PEM key is not Ed25519")
        end
    | None =>
        match DecodeString s with
        | None => Err (wrapf "base64 decode failed: " base64_error)
        | Some keyBytes =>
            if negb (String.length keyBytes =? PublicKeySize) then
              Err (errorf ("expected " +:+ Itoa (Z.of_nat PublicKeySize) +:+ " bytes, got "
                           +:+ Itoa (Z.of_nat (String.length keyBytes))))
            else Ok keyBytes
        end
    end.

Definition NewVerifier (publicKeyStr : string) : result Verifier :=
  if String.eqb publicKeyStr "" then Ok (MkVerifier "" false ∅)
  else
    pubKey ← wrap_err "invalid signing_public_key: " (ParsePublicKey publicKeyStr);
    Ok (MkVerifier pubKey true ∅).

Definition parsePrivateKey (s : string) : result string :=
  let s := TrimSpace s in
  match pem_Decode s with
  | Some block =>
      if String.eqb (pem_type block) "OPENSSH PRIVATE KEY" then
        k ← wrap_err "OpenSSH parse failed: " (ssh_ParseRawPrivateKey s);
        match k with
        | EdKey k => Ok k
        | OtherKey => Err (errorf "OpenSSH key is not Ed25519")
        end
      else
        k ← wrap_err "PEM parse failed: " (x509_ParsePKCS8PrivateKey (pem_bytes block));
        match k with
        | EdKey k => Ok k
        | OtherKey => Err (errorf "PEM key is not Ed25519")
        end
  | None =>
      match DecodeString s with
      | None => Err (wrapf "base64 decode failed: " base64_error)
      | Some keyBytes =>
          if String.length keyBytes =? SeedSize then Ok (ed_from_seed keyBytes)
          else if String.length keyBytes =? PrivateKeySize then Ok keyBytes
          else Err (errorf ("invalid key size: expected " +:+ Itoa (Z.of_nat SeedSize)
                 +:+ " or " +:+ Itoa (Z.of_nat PrivateKeySize) +:+ " bytes, got "
                 +:+ Itoa (Z.of_nat (String.length keyBytes))))
      end
  end.
End keys.

(** A nil verifier is [None]. *)
Definition Enabled (v : option Verifier) : bool :=
  match v with Some v => enabled v | None => false end.

Definition absDuration (d : Z) : Z := if (d <? 0)%Z then dur_neg d else d.

(** [absDuration(time.Since(signedAt)) > maxTimestampSkew]. *)
Definition outside_window (now signedAt : Z) : bool :=
  (maxTimestampSkew <? absDuration (time_sub now signedAt))%Z.

(** The decoded value stands for the bytes [json.Marshal] makes of it: the
    encoder is deterministic (sorted keys, shortest number form) and injective
    on decoded values. *)
Definition canonicalJSON (raw : json) : result any :=
  match to_any raw with Some v => Ok v | None => Err json_error end.

(** One round of the loop over the signed fields. *)
Definition check_signed_field (msgFields : gmap string json) (key : string) (payloadVal : json)
  : result unit :=
  match msgFields !! key with
  | None => Err (errorf ("signed field " +:+ Quote key +:+ " not found in message"))
  | Some msgVal =>
      payloadCanonical ←
        wrap_err ("invalid JSON in signed field " +:+ Quote key +:+ ": ") (canonicalJSON payloadVal);
      msgCanonical ←
        wrap_err ("invalid JSON in message field " +:+ Quote key +:+ ": ") (canonicalJSON msgVal);
      fail_if (negb (bool_decide (payloadCanonical = msgCanonical)))
        (errorf ("signed field " +:+ Quote key +:+ " does not match message (payload substitution)"))
  end.

(** Map iteration order decides which error is reported first, not whether
    there is one; the model takes the order of [map_to_list]. *)
Definition verifyPayloadMatchesMessage (signedPayload msg : string) : result unit :=
  payload ← wrap_err "signed_payload is not valid JSON: " (json_Unmarshal signedPayload);
  payloadFields ←
    match unmarshal_raw_map payload with
    | Some m => Ok m
    | None => Err (wrapf "signed_payload is not valid JSON: " json_error)
    end;
  j ← wrap_err "message is not valid JSON: " (json_Unmarshal msg);
  msgFields ←
    match unmarshal_raw_map j with
    | Some m => Ok m
    | None => Err (wrapf "message is not valid JSON: " json_error)
    end;
  foldl (λ acc '(key, payloadVal), acc ≫= λ _, check_signed_field msgFields key payloadVal)
    (Ok tt) (map_to_list payloadFields).

(** Atomic under [nonceMu]. [rec] is the instant the nonce is recorded at and
    [evict] the instant the cutoff is computed from. *)
Definition checkAndRecordNonce (v : Verifier) (rec evict : Z) (nonce : string)
  : bool * Verifier :=
  match seenNonces v !! nonce with
  | Some _ => (true, v)
  | None =>
      let seen := <[nonce:=rec]> (seenNonces v) in
      let seen :=
        if (maxNonces <? Z.of_nat (size seen))%Z && (Z.of_nat (size seen) `mod` 100 =? 0)%Z then
          let cutoff := (evict - maxTimestampSkew * 2)%Z in
          filter (λ '(_, t), ¬ (t < cutoff)%Z) seen
        else seen in
      (false, MkVerifier (publicKey v) (enabled v) seen)
  end.

(** The three readings of the clock in one call of [Verify]. *)
Record clock := MkClock { at_check : Z; at_record : Z; at_evict : Z }.

Section verify.
Context `{Ed25519}.

(** The checks of [Verify] up to the nonce: the envelope, or the error. *)
Definition check_message (pub : string) (now : Z) (msg : string) : result SignatureEnvelope :=
  wrap_err "signature verification failed: " (
    env ← wrap_err "cannot parse envelope: " (json_Unmarshal msg ≫= unmarshal_envelope);
    _ ← fail_if (String.eqb (Signature env) "") (errorf "missing signature field");
    _ ← fail_if (String.eqb (SignedPayload env) "") (errorf "missing signed_payload field");
    _ ← fail_if (String.eqb (SignedAt env) "") (errorf "missing signed_at field");
    _ ← fail_if (String.eqb (Nonce env) "") (errorf "missing nonce field");
    signedAt ← match parse_rfc3339 (SignedAt env) with
               | Some t => Ok t
               | None => Err (wrapf "invalid signed_at format: " time_error)
               end;
    _ ← fail_if (outside_window now signedAt)
          (errorf ("signed_at " +:+ SignedAt env +:+ " is outside allowed window (±5m0s)"));
    sigBytes ← match DecodeString (Signature env) with
               | Some b => Ok b
               | None => Err (wrapf "invalid signature encoding: " base64_error)
               end;
    _ ← fail_if (negb (ed_verify pub (SignedPayload env) sigBytes)) (errorf "invalid signature");
    _ ← verifyPayloadMatchesMessage (SignedPayload env) msg;
    Ok env).

Definition Verify (v : Verifier) (c : clock) (msg : string) : result unit * Verifier :=
  if negb (enabled v) then (Ok tt, v)
  else
    match check_message (publicKey v) (at_check c) msg with
    | Err e => (Err e, v)
    | Ok env =>
        let '(seen, v') := checkAndRecordNonce v (at_record c) (at_evict c) (Nonce env) in
        if seen
        then (Err (errorf ("signature verification failed: nonce " +:+ Nonce env
                           +:+ " already seen (replay attack)")), v')
        else (Ok tt, v')
    end.
End verify.

(** ** Signer *)

Record Signer := MkSigner { privateKey : string; keyID : string }.

Definition DefaultSigningFields : list string := ["action"; "datasource_id"; "params"].

Definition SigningFields : gmap string (list string) :=
  let std := ["action"; "datasource_id"; "params"] in
  list_to_map [
    ("datasource_config_sync", ["action"; "account_id"; "datasources"]);
    ("db_query", std); ("db_execute", std); ("db_metadata", std);
    ("ssh_command", std); ("ssh_upload", std); ("ssh_download", std); ("ssh_list_dir", std);
    ("http_request", ["action"; "datasource_id"; "method"; "url"; "header"; "body"]);
    ("mcp_request", std); ("redis_command", std);
    ("mongo_query", std); ("mongo_aggregate", std)].

(** [json.Unmarshal] into a string that holds [old], its error ignored. *)
Definition unmarshal_string (old t : string) : string :=
  match json_parse t with Some v => (dec_string old v).1 | None => old end.

(** The action whose fields are signed; legacy messages carry it in the body. *)
Definition signing_action (raw : gmap string string) : string :=
  let action :=
    match raw !! "action" with Some actionRaw => unmarshal_string "" actionRaw | None => "" end in
  if String.eqb action "" then
    match raw !! "body" with
    | Some bodyRaw =>
        match unmarshal_raw bodyRaw with
        | Some (Some body) =>
            match body !! "action_name" with
            | Some actionNameRaw => unmarshal_string action actionNameRaw
            | None => action
            end
        | _ => action
        end
    | None => action
    end
  else action.

Definition sign_payload (raw : gmap string string) : gmap string string :=
  let fields := default DefaultSigningFields (SigningFields !! signing_action raw) in
  foldl (λ m field, match raw !! field with Some val => <[field:=val]> m | None => m end)
    ∅ fields.

Section sign.
Context `{Ed25519, KeyFormats}.

Definition NewSigner (privateKeyStr keyID : string) : result Signer :=
  privKey ← wrap_err "invalid private key: " (parsePrivateKey privateKeyStr);
  Ok (MkSigner privKey keyID).

(** [now] is the clock, [uuid] the random identifier drawn for the nonce. The message
    [null] leaves the map nil, to which the signature cannot be added. *)
Definition Sign (s : Signer) (now : Z) (uuid : string) (msg : string) : outcome (result string) :=
  match unmarshal_raw msg with
  | None => Return (Err (wrapf "sign: invalid JSON input: " json_error))
  | Some None => Panic
  | Some (Some raw) =>
      let signedPayloadStr := marshal_raw (sign_payload raw) in
      let sig := ed_sign (privateKey s) signedPayloadStr in
      let raw := <["signed_payload" := print_str signedPayloadStr]> raw in
      let raw := <["signature" := print_str (EncodeToString sig)]> raw in
      let raw := <["signed_at" := print_str (format_rfc3339 now)]> raw in
      let raw := <["nonce" := print_str uuid]> raw in
      let raw := if negb (String.eqb (keyID s) "") then <["key_id" := print_str (keyID s)]> raw
                 else raw in
      Return (Ok (marshal_raw raw))
  end.

(** [GenerateKeypair]: [draw] stands for the system's randomness. *)
Definition GenerateKeypair (draw : result (string * string)) : result (string * string) :=
  '(pub, priv) ← draw; Ok (EncodeToString pub, EncodeToString priv).
End sign.
