(* ===== verification/SigningFacts.v ===== *)
(** * Correctness of message signing *)

From S2P Require Import Prelude GoStrings GoJson GoJsonFacts GoRaw GoBase64 GoTime Signing.

(** ** The loop over signed fields *)

Lemma foldl_check_Err {A} (f : A → result unit) l e :
  foldl (λ acc x, acc ≫= λ _, f x) (Err e) l = Err e.
Proof. induction l; [done|]. simpl. done. Qed.

Lemma foldl_check_Ok {A} (f : A → result unit) l :
  foldl (λ acc x, acc ≫= λ _, f x) (Ok tt) l = Ok tt ↔ Forall (λ x, f x = Ok tt) l.
Proof.
  induction l as [|x l IH]; simpl; [done|].
  rewrite Forall_cons_iff. destruct (f x) as [[]|e].
  - rewrite IH. naive_solver.
  - rewrite foldl_check_Err. naive_solver.
Qed.

Lemma foldl_check_Ok' fields l :
  foldl (λ acc '(key, v), acc ≫= λ _, check_signed_field fields key v) (Ok tt) l = Ok tt ↔
  Forall (λ kv, check_signed_field fields kv.1 kv.2 = Ok tt) l.
Proof.
  rewrite <- foldl_check_Ok.
  assert (∀ a, foldl (λ acc '(key, v), acc ≫= λ _, check_signed_field fields key v) a l =
    foldl (λ acc kv, acc ≫= λ _, check_signed_field fields kv.1 kv.2) a l) as ->; [|done].
  induction l as [|[k v] l IH]; intros a; simpl; auto.
Qed.

(** Every signed field occurs in the message with the same decoded value. *)
Definition fields_agree (payload msg : gmap string json) : Prop :=
  map_Forall (λ k pv, ∃ mv a, msg !! k = Some mv ∧ to_any pv = Some a ∧ to_any mv = Some a)
    payload.

Lemma check_signed_field_Ok msgFields k pv :
  check_signed_field msgFields k pv = Ok tt ↔
  ∃ mv a, msgFields !! k = Some mv ∧ to_any pv = Some a ∧ to_any mv = Some a.
Proof.
  unfold check_signed_field, canonicalJSON.
  destruct (msgFields !! k) as [mv|]; [|naive_solver].
  destruct (to_any pv) as [a|] eqn:Ep; simpl; [|split; [done|intros (?&?&?&?&?); congruence]].
  destruct (to_any mv) as [b|] eqn:Em; simpl; [|split; [done|intros (?&?&?&?&?); congruence]].
  destruct (bool_decide_reflect (a = b)) as [->|Hne]; simpl.
  - split; [|done]. intros _. eauto.
  - split; [done|]. intros (?&?&[= <-]&?&?). congruence.
Qed.

Lemma verifyPayloadMatchesMessage_Ok sp msg :
  verifyPayloadMatchesMessage sp msg = Ok tt ↔
  ∃ pj payload mj fields,
    json_parse sp = Some pj ∧ unmarshal_raw_map pj = Some payload ∧
    json_parse msg = Some mj ∧ unmarshal_raw_map mj = Some fields ∧
    fields_agree payload fields.
Proof.
  unfold verifyPayloadMatchesMessage, json_Unmarshal.
  destruct (json_parse sp) as [pj|]; [|naive_solver]. simpl.
  destruct (unmarshal_raw_map pj) as [payload|] eqn:Ep; [|naive_solver]. simpl.
  destruct (json_parse msg) as [mj|]; [|naive_solver]. simpl.
  destruct (unmarshal_raw_map mj) as [fields|] eqn:Em; [|naive_solver]. simpl.
  transitivity (fields_agree payload fields); [|naive_solver].
  unfold fields_agree. rewrite map_Forall_to_list.
  rewrite (foldl_check_Ok' fields). apply Forall_iff. intros [k v]. apply check_signed_field_Ok.
Qed.

(** ** The freshness window *)

Lemma outside_window_false now s :
  outside_window now s = false ↔
  (Z.abs (now - s) ≤ maxTimestampSkew ∨ now - s ≤ minInt64)%Z.
Proof.
  unfold outside_window, absDuration, time_sub, dur_neg, maxTimestampSkew, Minute, Second.
  rewrite Z.ltb_ge. destruct (Z.ltb_spec (Z.max minInt64 (Z.min maxInt64 (now - s))) 0).
  - destruct (decide (now - s ≤ minInt64)%Z).
    + replace (Z.max minInt64 (Z.min maxInt64 (now - s))) with minInt64
        by (unfold minInt64, maxInt64 in *; lia).
      rewrite wrap64_neg_min. unfold minInt64 in *. lia.
    + rewrite wrap64_id; unfold in_int64, minInt64, maxInt64 in *; lia.
  - unfold minInt64, maxInt64 in *. lia.
Qed.

(** ** What [Verify] accepts *)

(** The contract of a verified message: everything a caller may rely on once
    [Verify] has returned nil with signing enabled. *)
Record trusted `{Ed25519} (pub : string) (now : Z) (msg : string) (env : SignatureEnvelope)
    (signedAt : Z) : Prop := {
  tr_envelope : ∃ j, json_parse msg = Some j ∧ unmarshal_envelope j = Ok env;
  tr_signature : Signature env ≠ "";
  tr_payload : SignedPayload env ≠ "";
  tr_nonce : Nonce env ≠ "";
  tr_signed_at : parse_rfc3339 (SignedAt env) = Some signedAt;
  tr_window : (Z.abs (now - signedAt) ≤ maxTimestampSkew ∨ now - signedAt ≤ minInt64)%Z;
  tr_authentic : ∃ sig, DecodeString (Signature env) = Some sig ∧
                        ed_verify pub (SignedPayload env) sig = true;
  tr_agree : ∃ pj payload mj fields,
    json_parse (SignedPayload env) = Some pj ∧ unmarshal_raw_map pj = Some payload ∧
    json_parse msg = Some mj ∧ unmarshal_raw_map mj = Some fields ∧
    fields_agree payload fields;
}.

Lemma unmarshal_msg_Ok msg env :
  json_Unmarshal msg ≫= unmarshal_envelope = Ok env ↔
  ∃ j, json_parse msg = Some j ∧ unmarshal_envelope j = Ok env.
Proof.
  unfold json_Unmarshal. destruct (json_parse msg); simpl.
  - split; [eauto|]. by intros (? & [= ->] & ?).
  - split; [done|]. by intros (? & ? & ?).
Qed.

Lemma eqb_false_ne (s : string) : String.eqb s "" = false ↔ s ≠ "".
Proof. apply String.eqb_neq. Qed.

Lemma check_message_Ok `{Ed25519} pub now msg env :
  check_message pub now msg = Ok env ↔ ∃ t, trusted pub now msg env t.
Proof.
  unfold check_message. rewrite wrap_err_Ok. split.
  - intros Hc. apply bind_Ok in Hc as (e & He%wrap_err_Ok%unmarshal_msg_Ok & Hc).
    repeat (apply bind_Ok in Hc as (? & ?%fail_if_Ok%eqb_false_ne & Hc)).
    apply bind_Ok in Hc as (t & Ht & Hc).
    destruct (parse_rfc3339 (SignedAt e)) as [t'|] eqn:Et; [|done]. injection Ht as ->.
    apply bind_Ok in Hc as (? & Hw%fail_if_Ok & Hc).
    apply bind_Ok in Hc as (sig & Hs & Hc).
    destruct (DecodeString (Signature e)) as [sig'|] eqn:Es; [|done]. injection Hs as ->.
    apply bind_Ok in Hc as (? & Hv%fail_if_Ok%negb_false_iff & Hc).
    apply bind_Ok in Hc as ([] & Hp%verifyPayloadMatchesMessage_Ok & Hc). injection Hc as ->.
    exists t. apply outside_window_false in Hw. split; eauto.
  - intros [t [(j & Hj & He) Hsg Hsp Hno Ht Hw (sig & Hd & Hv) Ha]].
    rewrite (proj2 (unmarshal_msg_Ok msg env)) by eauto. simpl.
    rewrite (proj2 (eqb_false_ne _) Hsg), (proj2 (eqb_false_ne _) Hsp). simpl.
    assert (SignedAt env ≠ "") as Hsa by (by intros E; rewrite E in Ht).
    rewrite (proj2 (eqb_false_ne _) Hsa), (proj2 (eqb_false_ne _) Hno), Ht. simpl.
    apply outside_window_false in Hw. rewrite Hw. simpl. rewrite Hd. simpl. rewrite Hv. simpl.
    by rewrite (proj2 (verifyPayloadMatchesMessage_Ok _ _) Ha).
Qed.

Lemma checkAndRecordNonce_seen v r e n :
  (checkAndRecordNonce v r e n).1 = true ↔ is_Some (seenNonces v !! n).
Proof.
  unfold checkAndRecordNonce. destruct (seenNonces v !! n); simpl; [naive_solver|].
  split; [done|by intros []].
Qed.

Lemma Verify_Ok `{Ed25519} v c msg :
  enabled v = true →
  ((Verify v c msg).1 = Ok tt ↔
   ∃ env t, trusted (publicKey v) (at_check c) msg env t ∧ seenNonces v !! Nonce env = None).
Proof.
  intros Hen. unfold Verify. rewrite Hen. simpl.
  destruct (check_message _ _ _) as [env|e] eqn:E; simpl.
  - pose proof (proj1 (check_message_Ok _ _ _ _) E) as [t Ht].
    destruct (checkAndRecordNonce v _ _ _) as [seen v'] eqn:En.
    pose proof (checkAndRecordNonce_seen v (at_record c) (at_evict c) (Nonce env)) as Hs.
    rewrite En in Hs. simpl in Hs.
    destruct seen; simpl.
    + split; [done|]. intros (env' & t' & Ht' & Hn).
      assert (env' = env) as ->.
      { assert (check_message (publicKey v) (at_check c) msg = Ok env') as E'
          by (apply check_message_Ok; eauto). congruence. }
      destruct (proj1 Hs eq_refl) as [? Hx]. congruence.
    + split; [|done]. intros _. exists env, t. split; [done|].
      apply eq_None_not_Some. intros Hx%Hs. done.
  - split; [done|]. intros (env & t & Ht & _).
    assert (check_message (publicKey v) (at_check c) msg = Ok env) as E'
      by (apply check_message_Ok; eauto). congruence.
Qed.

(** ** Replay protection *)

(** One call of [Verify] on the shared verifier. The mutex orders the nonce
    operations, so their clocks do not decrease; the checks before them may have
    started at any time. A state carries the latest clock reading. *)
Inductive verify_step `{Ed25519} : Verifier * Z → Verifier * Z → Prop :=
  | verify_call v t c msg :
      (t ≤ at_record c)%Z → (at_record c ≤ at_evict c)%Z →
      verify_step (v, t) ((Verify v c msg).2, at_evict c).

(** The record of a nonce taken at instant [r] is still there, or it is older
    than twice the window. *)
Definition nonce_guard (n : string) (r : Z) (s : Verifier * Z) : Prop :=
  (∃ r', seenNonces s.1 !! n = Some r' ∧ (r ≤ r')%Z) ∨ (r < s.2 - maxTimestampSkew * 2)%Z.

Lemma checkAndRecordNonce_lookup v r e n m :
  let v' := (checkAndRecordNonce v r e m).2 in
  ∀ r', <[m := default r (seenNonces v !! m)]> (seenNonces v) !! n = Some r' →
  seenNonces v' !! n = Some r' ∨ (r' < e - maxTimestampSkew * 2)%Z.
Proof.
  simpl. intros r' Hl. unfold checkAndRecordNonce.
  destruct (seenNonces v !! m) as [r0|] eqn:Em; simpl in *.
  - left. by rewrite insert_id in Hl.
  - case_match; [|by left].
    destruct (decide (r' < e - maxTimestampSkew * 2)%Z) as [|Hge]; [by right|].
    left. by apply map_lookup_filter_Some_2.
Qed.

Lemma checkAndRecordNonce_enabled v r e n :
  enabled (checkAndRecordNonce v r e n).2 = enabled v
  ∧ publicKey (checkAndRecordNonce v r e n).2 = publicKey v.
Proof. unfold checkAndRecordNonce. by case_match. Qed.

Lemma Verify_preserves `{Ed25519} v c msg :
  enabled (Verify v c msg).2 = enabled v ∧ publicKey (Verify v c msg).2 = publicKey v.
Proof.
  unfold Verify. destruct (enabled v) eqn:E; simpl; [|done].
  destruct (check_message _ _ _) as [env|]; simpl; [|done].
  pose proof (checkAndRecordNonce_enabled v (at_record c) (at_evict c) (Nonce env)).
  destruct (checkAndRecordNonce _ _ _ _) as [[] v']; simpl in *; by rewrite <- E.
Qed.

Lemma nonce_guard_step `{Ed25519} n r s s' :
  verify_step s s' → (r ≤ s.2)%Z → nonce_guard n r s → nonce_guard n r s' ∧ (r ≤ s'.2)%Z.
Proof.
  intros [v t c msg Ht He] Hr Hg. simpl in *. split; [|lia].
  destruct Hg as [(r' & Hl & Hrr)|Hold]; simpl in *; [|right; simpl; lia].
  unfold Verify. destruct (negb (enabled v)); simpl; [left; eauto|].
  destruct (check_message _ _ _) as [env|]; simpl; [|left; eauto].
  pose proof (checkAndRecordNonce_lookup v (at_record c) (at_evict c) n (Nonce env)) as Hc.
  destruct (checkAndRecordNonce _ _ _ _) as [b v'] eqn:En. simpl in Hc.
  assert (seenNonces v' !! n = Some r' ∨ (r' < at_evict c - maxTimestampSkew * 2)%Z) as Hc'.
  { apply Hc. destruct (decide (n = Nonce env)) as [->|Hne].
    - by rewrite lookup_insert_eq, Hl.
    - by rewrite lookup_insert_ne. }
  destruct b; simpl; (destruct Hc' as [Hc'|Hc']; [left; eauto|right; simpl; lia]).
Qed.

Lemma nonce_guard_steps `{Ed25519} n r s s' :
  rtc verify_step s s' → (r ≤ s.2)%Z → nonce_guard n r s → nonce_guard n r s' ∧ (r ≤ s'.2)%Z.
Proof.
  induction 1 as [|x y z Hxy _ IH]; intros Hr Hg; [done|].
  destruct (nonce_guard_step _ _ _ _ Hxy Hr Hg) as [??]. by apply IH.
Qed.

Lemma enabled_steps `{Ed25519} s s' : rtc verify_step s s' → enabled s'.1 = enabled s.1.
Proof.
  induction 1 as [|x y z Hxy _ IH]; [done|]. rewrite IH.
  destruct Hxy. simpl. apply Verify_preserves.
Qed.

(** ** Decoding the envelope *)

(** The content of one string field after decoding the members [l]. *)
Definition field_val (name old : string) (l : list (string * json)) : string :=
  foldl (λ s '(k, v), if key_is name k then (dec_string s v).1 else s) old l.

Definition envelope_names : list string :=
  ["signed_payload"; "signature"; "signed_at"; "nonce"; "key_id"].

Definition envelope_types_ok (l : list (string * json)) : bool :=
  forallb (λ '(k, v), negb (existsb (λ n, key_is n k) envelope_names) || (dec_string "" v).2) l.

Lemma dec_string_ok s v : (dec_string s v).2 = (dec_string "" v).2.
Proof. by destruct v. Qed.

Definition envelope_step :=
  (λ '(a, ok) '(k, x), let '(a', ok') := SignatureEnvelope_field a k x in (a', ok && ok')).

Lemma envelope_step_fields env ok k v :
  envelope_step (env, ok) (k, v) =
  (MkEnvelope (field_val "signed_payload" (SignedPayload env) [(k, v)])
     (field_val "signature" (Signature env) [(k, v)])
     (field_val "signed_at" (SignedAt env) [(k, v)])
     (field_val "nonce" (Nonce env) [(k, v)])
     (field_val "key_id" (KeyID env) [(k, v)]),
   ok && envelope_types_ok [(k, v)]).
Proof.
  destruct env as [sp sg sa no ki].
  unfold envelope_step, SignatureEnvelope_field, field_val, envelope_types_ok, envelope_names.
  cbn [foldl SignedPayload Signature SignedAt Nonce KeyID forallb existsb].
  unfold key_is. generalize (fold_name k). intros f.
  destruct (String.eqb_spec f "signed_payload") as [->|]; [by destruct v|].
  destruct (String.eqb_spec f "signature") as [->|]; [by destruct v|].
  destruct (String.eqb_spec f "signed_at") as [->|]; [by destruct v|].
  destruct (String.eqb_spec f "nonce") as [->|]; [by destruct v|].
  destruct (String.eqb_spec f "key_id") as [->|]; [by destruct v|].
  done.
Qed.

Lemma envelope_fold l env ok :
  foldl envelope_step (env, ok) l =
  (MkEnvelope (field_val "signed_payload" (SignedPayload env) l)
     (field_val "signature" (Signature env) l) (field_val "signed_at" (SignedAt env) l)
     (field_val "nonce" (Nonce env) l) (field_val "key_id" (KeyID env) l),
   ok && envelope_types_ok l).
Proof.
  revert env ok. induction l as [|[k v] l IH]; intros env ok.
  - simpl. rewrite andb_true_r. by destruct env.
  - change (foldl envelope_step (env, ok) ((k, v) :: l))
      with (foldl envelope_step (envelope_step (env, ok) (k, v)) l).
    rewrite envelope_step_fields, IH.
    cbn [SignedPayload Signature SignedAt Nonce KeyID].
    f_equal. rewrite <- andb_assoc. f_equal. unfold envelope_types_ok. cbn [forallb].
    by rewrite andb_true_r.
Qed.

Lemma unmarshal_envelope_obj l :
  unmarshal_envelope (JObj l) =
  if envelope_types_ok l then
    Ok (MkEnvelope (field_val "signed_payload" "" l) (field_val "signature" "" l)
          (field_val "signed_at" "" l) (field_val "nonce" "" l) (field_val "key_id" "" l))
  else Err json_error.
Proof.
  unfold unmarshal_envelope, dec_struct.
  change (foldl _ (empty_envelope, true) l) with (foldl envelope_step (empty_envelope, true) l).
  by rewrite envelope_fold.
Qed.

Lemma field_val_app name old l l' :
  field_val name old (l ++ l') = field_val name (field_val name old l) l'.
Proof. unfold field_val. by rewrite foldl_app. Qed.

Lemma field_val_skip name old l :
  (∀ k v, (k, v) ∈ l → key_is name k = false) → field_val name old l = old.
Proof.
  revert old. induction l as [|[k v] l IH]; intros old H; [done|].
  unfold field_val. simpl. rewrite (H k v) by (by left).
  apply IH. intros k' v' Hin. apply (H k' v'). by right.
Qed.

(** The decoded envelope of a parsed message is text in valid UTF-8. *)
Lemma field_val_valid name old l :
  wf_json (JObj l) = true → valid_utf8 old = true → valid_utf8 (field_val name old l) = true.
Proof.
  revert old. induction l as [|[k v] l IH]; intros old Hwf Hold; [done|].
  cbn [wf_json forallb fst snd] in Hwf. apply andb_true_iff in Hwf as [[_ Hv]%andb_true_iff Hwf].
  unfold field_val. cbn [foldl]. apply IH; [done|].
  destruct (key_is name k); [|done]. by destruct v.
Qed.

Lemma unmarshal_envelope_valid l env :
  wf_json (JObj l) = true → unmarshal_envelope (JObj l) = Ok env →
  envelope_types_ok l = true ∧ valid_utf8 (SignedPayload env) = true
  ∧ valid_utf8 (Signature env) = true.
Proof.
  intros Hwf. rewrite unmarshal_envelope_obj. destruct (envelope_types_ok l); [|done].
  intros [= <-]. cbn [SignedPayload Signature].
  split_and!; [done|apply field_val_valid; done..].
Qed.

(** In an object without case variants of a field name, the field decodes to the
    member of that name. *)
Lemma field_val_unique name l s :
  NoDup l.*1 → (∀ k v, (k, v) ∈ l → key_is name k = true → k = name) →
  key_is name name = true → (name, JStr s) ∈ l → field_val name "" l = s.
Proof.
  intros Hnd Hex Hn (l1 & l2 & ->)%list_elem_of_split.
  rewrite fmap_app, fmap_cons in Hnd. simpl in Hnd.
  apply NoDup_app in Hnd as (_ & Hd & [Hn2 _]%NoDup_cons).
  rewrite field_val_app. unfold field_val at 1. simpl. rewrite Hn. simpl.
  apply field_val_skip. intros k v Hin.
  destruct (key_is name k) eqn:E; [|done].
  apply Hex with (v := v) in E; [|set_solver]. subst k.
  exfalso. apply Hn2. apply list_elem_of_fmap. by exists (name, v).
Qed.

(** ** What [Sign] signs *)

#[local] Opaque json_print format_rfc3339 EncodeToString SigningFields.

Lemma marshal_raw_nonempty m : marshal_raw m ≠ "".
Proof. done. Qed.

Lemma foldl_pick_lookup {A} (raw : gmap string A) fields (m : gmap string A) k v :
  foldl (λ (m : gmap string A) f, match raw !! f with Some x => <[f:=x]> m | None => m end) m fields !! k = Some v →
  m !! k = Some v ∨ (k ∈ fields ∧ raw !! k = Some v).
Proof.
  revert m. induction fields as [|f fields IH]; intros m; simpl; [by left|].
  intros [H|[H1 H2]]%IH; [|right; set_solver].
  destruct (raw !! f) as [x|] eqn:E; [|by left].
  destruct (decide (f = k)) as [->|Hne].
  - rewrite lookup_insert_eq in H. right. split; [set_solver|congruence].
  - rewrite lookup_insert_ne in H by done. by left.
Qed.

Lemma foldl_pick_mono {A} (raw : gmap string A) fields (m : gmap string A) k :
  is_Some (m !! k) →
  is_Some (foldl (λ (m : gmap string A) f, match raw !! f with Some x => <[f:=x]> m | None => m end) m fields !! k).
Proof.
  revert m. induction fields as [|f fields IH]; intros m Hm; simpl; [done|]. apply IH.
  destruct (raw !! f); [|done]. destruct (decide (f = k)) as [->|].
  - rewrite lookup_insert_eq. eauto.
  - by rewrite lookup_insert_ne.
Qed.

Definition signed_fields (raw : gmap string string) : list string :=
  default DefaultSigningFields (SigningFields !! signing_action raw).

Lemma sign_payload_lookup raw k v :
  sign_payload raw !! k = Some v ↔ k ∈ signed_fields raw ∧ raw !! k = Some v.
Proof.
  unfold sign_payload. fold (signed_fields raw). split.
  - intros [H|H]%foldl_pick_lookup; [by rewrite lookup_empty in H|done].
  - generalize (signed_fields raw). intros fields [Hin Hraw].
    assert (∀ m : gmap string string, is_Some (foldl
      (λ (m : gmap string string) f, match raw !! f with Some x => <[f:=x]> m | None => m end) m fields !! k)) as Hs.
    { induction fields as [|f fields IH]; intros m; [by apply not_elem_of_nil in Hin|].
      simpl. apply elem_of_cons in Hin as [->|Hin]; [|by apply IH].
      rewrite Hraw. apply foldl_pick_mono. rewrite lookup_insert_eq. eauto. }
    destruct (Hs ∅) as [w Hw]. pose proof Hw as Hw'.
    apply foldl_pick_lookup in Hw as [Hw|[_ Hw]]; [by rewrite lookup_empty in Hw|]. congruence.
Qed.

Definition no_envelope_name (l : list string) : bool :=
  forallb (λ f, bool_decide (f ∉ envelope_names)) l.

Lemma SigningFields_no_envelope :
  bool_decide (map_Forall (λ _ l, no_envelope_name l = true) SigningFields) = true.
Proof. vm_compute. reflexivity. Qed.

(** The signed fields are never those that carry the signature. *)
Lemma signed_fields_no_envelope raw k : k ∈ signed_fields raw → k ∉ envelope_names.
Proof.
  intros Hk.
  assert (no_envelope_name (signed_fields raw) = true) as H.
  { unfold signed_fields. destruct (SigningFields !! _) as [l|] eqn:E; [|reflexivity].
    pose proof SigningFields_no_envelope as Hall. apply bool_decide_eq_true in Hall.
    by apply Hall in E. }
  unfold no_envelope_name in H. rewrite forallb_forall in H.
  apply list_elem_of_In in Hk. apply H in Hk. by apply bool_decide_eq_true in Hk.
Qed.

(** Membership of a literal name. *)
Ltac solve_member := apply (bool_decide_eq_true _); vm_compute; reflexivity.

(** The members of a signed message, as text. *)
Definition signed_members `{Ed25519} (s : Signer) (now : Z) (uuid : string)
    (raw : gmap string string) : gmap string string :=
  let p := marshal_raw (sign_payload raw) in
  let m := <["nonce" := print_str uuid]> (<["signed_at" := print_str (format_rfc3339 now)]>
             (<["signature" := print_str (EncodeToString (ed_sign (privateKey s) p))]>
                (<["signed_payload" := print_str p]> raw))) in
  if negb (String.eqb (keyID s) "") then <["key_id" := print_str (keyID s)]> m else m.

Lemma Sign_Ok `{Ed25519} s now uuid msg raw :
  unmarshal_raw msg = Some (Some raw) →
  Sign s now uuid msg = Return (Ok (marshal_raw (signed_members s now uuid raw))).
Proof. unfold Sign. by intros ->. Qed.

(** What a message must satisfy for [Sign] to produce a message that verifies:
    no case variants of the envelope's names among its keys, no key_id of its own
    unless the signer sets one, signed numbers within the range of float64, and
    text in valid UTF-8, that of the signed values included. *)
Record signable (s : Signer) (uuid : string) (raw : gmap string string) : Prop := {
  sg_exact : ∀ k v n,
    raw !! k = Some v → n ∈ envelope_names → key_is n k = true → k = n;
  sg_key_id : keyID s = "" → raw !! "key_id" = None;
  sg_values : map_Forall (λ _ t, is_Some (to_any (tree t))) (sign_payload raw);
  sg_payload : valid_utf8 (marshal_raw (sign_payload raw)) = true;
  sg_uuid : uuid ≠ "";
  sg_utf8 : valid_utf8 uuid = true ∧ valid_utf8 (keyID s) = true;
}.

(** The text of a string. *)
Lemma text_str x : text_ok (print_str x) ∧ (valid_utf8 x = true → tree (print_str x) = JStr x).
Proof.
  destruct (text_print (JStr x) eq_refl) as [H1 H2]. split; [exact H1|]. intros Hx.
  transitivity (clean (JStr x)); [exact H2|]. cbn [clean]. f_equal. by apply to_valid_utf8_valid.
Qed.

Section sign_verify.
Context `{Ed25519} (s : Signer) (now : Z) (uuid : string) (raw : gmap string string).
Hypothesis Hraw : raw_ok raw.
Hypothesis Hready : signable s uuid raw.
Hypothesis Hnow : rfc3339_range now.

Let p := marshal_raw (sign_payload raw).
Let m := signed_members s now uuid raw.

Lemma payload_ok : raw_ok (sign_payload raw).
Proof. intros k v [_ Hk]%sign_payload_lookup. by apply Hraw. Qed.

Lemma signed_members_ok : raw_ok m.
Proof.
  unfold m, signed_members. fold p.
  case_match; repeat apply map_Forall_insert_2; try done; (split; [done|apply text_str]).
Qed.

Lemma signed_members_lookup k :
  m !! k =
    if decide (k = "key_id") then
      (if String.eqb (keyID s) "" then raw !! k else Some (print_str (keyID s)))
    else if decide (k = "nonce") then Some (print_str uuid)
    else if decide (k = "signed_at") then Some (print_str (format_rfc3339 now))
    else if decide (k = "signature")
    then Some (print_str (EncodeToString (ed_sign (privateKey s) p)))
    else if decide (k = "signed_payload") then Some (print_str p)
    else raw !! k.
Proof.
  unfold m, signed_members. fold p. clearbody p.
  destruct (String.eqb (keyID s) "") eqn:E; cbn [negb];
    rewrite !lookup_insert; repeat case_decide; subst; done.
Qed.

(** The members as [Verify] reads them. *)
Let mt := tree <$> m.

Lemma signed_trees_lookup k :
  mt !! k =
    if decide (k = "key_id") then
      (if String.eqb (keyID s) "" then tree <$> raw !! k else Some (JStr (keyID s)))
    else if decide (k = "nonce") then Some (JStr uuid)
    else if decide (k = "signed_at") then Some (JStr (format_rfc3339 now))
    else if decide (k = "signature")
    then Some (JStr (EncodeToString (ed_sign (privateKey s) p)))
    else if decide (k = "signed_payload") then Some (JStr p)
    else tree <$> raw !! k.
Proof.
  destruct Hready as [_ _ _ Hp _ [Hu Hk]]. fold p in Hp.
  assert (valid_utf8 (format_rfc3339 now) = true) as Ht
    by (apply valid_utf8_ascii, format_rfc3339_ascii, Hnow).
  assert (valid_utf8 (EncodeToString (ed_sign (privateKey s) p)) = true) as Hs
    by (apply valid_utf8_ascii, EncodeToString_ascii).
  unfold mt. rewrite lookup_fmap, signed_members_lookup.
  destruct (String.eqb (keyID s) ""); repeat case_decide; cbn [fmap option_fmap option_map];
    try done; f_equal; by apply text_str.
Qed.

Lemma signed_members_exact k v n :
  mt !! k = Some v → n ∈ envelope_names → key_is n k = true → k = n.
Proof.
  rewrite signed_trees_lookup. intros Hk Hn Hkey.
  assert (∀ k', k = k' → k' ∈ envelope_names → k = n) as Hdone.
  { intros k' -> Hk'. unfold envelope_names in *.
    repeat (apply elem_of_cons in Hn as [->|Hn];
      [repeat (apply elem_of_cons in Hk' as [->|Hk']; [by vm_compute in Hkey|]);
       by apply not_elem_of_nil in Hk'|]).
    by apply not_elem_of_nil in Hn. }
  repeat case_decide; try (eapply Hdone; [done|solve_member]).
  apply fmap_Some in Hk as (t & Hk & _). by eapply (sg_exact _ _ _ Hready).
Qed.

Lemma signed_envelope :
  unmarshal_envelope (marshal_raw_map mt) =
  Ok (MkEnvelope p (EncodeToString (ed_sign (privateKey s) p)) (format_rfc3339 now) uuid
        (field_val "key_id" "" (sorted_members mt))).
Proof.
  unfold marshal_raw_map.
  change (foldr _ [] (map_to_list mt)) with (GoJsonFacts.sorted_members mt).
  rewrite unmarshal_envelope_obj.
  assert (∀ name v, name ∈ envelope_names → mt !! name = Some (JStr v) →
    key_is name name = true → field_val name "" (sorted_members mt) = v) as Hval.
  { intros name v Hn Hm Hk. apply field_val_unique; [apply sorted_members_NoDup| |done|].
    - intros k w Hin%elem_of_sorted_members Hkey. by eapply signed_members_exact.
    - by apply elem_of_sorted_members. }
  assert (envelope_types_ok (sorted_members mt) = true) as ->.
  { unfold envelope_types_ok. apply forallb_forall.
    intros [k v] Hin%list_elem_of_In%elem_of_sorted_members.
    destruct (existsb _ envelope_names) eqn:E; [|done]. simpl.
    apply existsb_exists in E as (n & Hn%list_elem_of_In & Hkey).
    pose proof (signed_members_exact _ _ _ Hin Hn Hkey) as ->.
    rewrite signed_trees_lookup in Hin.
    case_decide as Hkid; [subst n|].
    { destruct (String.eqb_spec (keyID s) "") as [He|]; [|by injection Hin as <-].
      by rewrite (sg_key_id _ _ _ Hready He) in Hin. }
    repeat (case_decide; [by injection Hin as <-|]).
    exfalso. unfold envelope_names in Hn.
    repeat (apply elem_of_cons in Hn as [->|Hn]; [done|]). by apply not_elem_of_nil in Hn. }
  do 2 f_equal; (apply Hval;
    [solve_member|by rewrite signed_trees_lookup|vm_compute; reflexivity]).
Qed.

Lemma signed_fields_agree : fields_agree (tree <$> sign_payload raw) mt.
Proof.
  intros k v (t & <- & Hk)%lookup_fmap_Some. destruct (sg_values _ _ _ Hready k t Hk) as [a Ha].
  apply sign_payload_lookup in Hk as [Hf Hk].
  apply signed_fields_no_envelope in Hf. exists (tree t), a. split; [|done].
  rewrite signed_trees_lookup.
  repeat case_decide; subst; try (exfalso; apply Hf; solve_member). by rewrite Hk.
Qed.
End sign_verify.

(** ** A message with a chosen envelope *)

(** The members that carry a signature, as they are appended to a message. *)
Definition envelope_members (sp sg ts n : string) : list (string * json) :=
  [("signed_payload", JStr sp); ("signature", JStr sg); ("signed_at", JStr ts);
   ("nonce", JStr n)].

Lemma field_val_envelope l sp sg ts n name s :
  (name, s) ∈ [("signed_payload", sp); ("signature", sg); ("signed_at", ts); ("nonce", n)] →
  field_val name "" (l ++ envelope_members sp sg ts n) = s.
Proof.
  intros Hin. rewrite field_val_app. generalize (field_val name "" l). intros old.
  repeat (apply elem_of_cons in Hin as [[= -> ->]|Hin]; [reflexivity|]).
  by apply not_elem_of_nil in Hin.
Qed.

Lemma envelope_types_ok_app l l' :
  envelope_types_ok (l ++ l') = envelope_types_ok l && envelope_types_ok l'.
Proof. unfold envelope_types_ok. apply forallb_app. Qed.

Lemma fields_agree_envelope payload l sp sg ts n :
  fields_agree payload (members_map l) →
  (∀ name, name ∈ envelope_names → payload !! name = None) →
  fields_agree payload (members_map (l ++ envelope_members sp sg ts n)).
Proof.
  intros Ha Hno k v Hk. destruct (Ha k v Hk) as (mv & a & Hmv & Hv & Hm).
  exists mv, a. split; [|done].
  assert (∀ name, name ∈ envelope_names → name ≠ k) as Hne
    by (intros name Hn ->; rewrite Hno in Hk; done).
  unfold envelope_members, members_map. rewrite foldl_app. cbn [foldl].
  fold (members_map l).
  rewrite !lookup_insert_ne by (apply Hne; solve_member). done.
Qed.

(** A message that carries a valid signature of a payload it agrees with is
    accepted whatever its timestamp and nonce, as long as they are fresh. *)
Lemma Verify_crafted `{Ed25519} v c l sp sg sb payload pj ts t n :
  enabled v = true →
  wf_json (JObj l) = true → envelope_types_ok l = true →
  valid_utf8 sp = true → valid_utf8 sg = true → valid_utf8 ts = true → valid_utf8 n = true →
  sp ≠ "" → sg ≠ "" → n ≠ "" → seenNonces v !! n = None →
  DecodeString sg = Some sb → ed_verify (publicKey v) sp sb = true →
  json_parse sp = Some pj → unmarshal_raw_map pj = Some payload →
  fields_agree payload (members_map l) →
  (∀ name, name ∈ envelope_names → payload !! name = None) →
  parse_rfc3339 ts = Some t → (Z.abs (at_check c - t) ≤ maxTimestampSkew)%Z →
  (Verify v c (json_print (JObj (l ++ envelope_members sp sg ts n)))).1 = Ok tt.
Proof.
  intros Hen Hwf Hty Usp Usg Uts Un Hsp Hsg Hn Hseen Hd Hv Hp Hm Ha Hno Ht Hw.
  assert (json_parse (json_print (JObj (l ++ envelope_members sp sg ts n)))
          = Some (JObj (l ++ envelope_members sp sg ts n))) as Hparse.
  { apply json_parse_print. cbn [wf_json] in *. rewrite forallb_app, Hwf.
    unfold envelope_members. cbn [forallb fst snd wf_json].
    rewrite Usp, Usg, Uts, Un. vm_compute. reflexivity. }
  apply Verify_Ok; [done|].
  exists (MkEnvelope sp sg ts n (field_val "key_id" "" (l ++ envelope_members sp sg ts n))), t.
  split; [|done].
  split; cbn [SignedPayload Signature SignedAt Nonce]; [|done|done|done|done|by left|by eauto|].
  - eexists. split; [exact Hparse|].
    rewrite unmarshal_envelope_obj, envelope_types_ok_app, Hty.
    assert (envelope_types_ok (envelope_members sp sg ts n) = true) as -> by reflexivity.
    cbn [andb]. do 2 f_equal; apply field_val_envelope; rewrite !elem_of_cons; tauto.
  - exists pj, payload, (JObj (l ++ envelope_members sp sg ts n)).
    eexists. split_and!; [done|done|exact Hparse|reflexivity|by apply fields_agree_envelope].
Qed.
