(* ===== verification/SigningTheorems.v ===== *)
(** * Theorems on message signing

    What [Verify] accepts, replay protection and its limits, and that signed
    messages verify. The witnesses run on a toy signature scheme. *)

From S2P Require Import Prelude GoStrings GoJson GoJsonFacts GoRaw GoBase64 GoTime Signing SigningFacts.

#[local] Opaque json_print json_parse format_rfc3339 parse_rfc3339 EncodeToString SigningFields.

(** ** A toy signature scheme and a signed message *)

Fixpoint pad_to (n : nat) (s : string) : string :=
  match n, s with
  | O, _ => ""
  | S n, String c s' => String c (pad_to n s')
  | S n, EmptyString => String (chr 46) (pad_to n "")
  end.

Lemma pad_to_length n s : String.length (pad_to n s) = n.
Proof. revert s. induction n as [|n IH]; intros [|c s]; simpl; auto. Qed.

#[local] Instance toy : Ed25519 := {|
  ed_verify pub m sig := String.eqb sig (pad_to 64 (pub +:+ m));
  ed_sign sk m := pad_to 64 (sk +:+ m);
  ed_public sk := sk;
  ed_from_seed sd := sd;
|}.

#[local] Instance toy_laws : Ed25519Laws.
Proof.
  split.
  - intros sk m. apply String.eqb_refl.
  - intros sk m. apply pad_to_length.
Qed.

Definition demo_signer : Signer := MkSigner "k" "".
Definition demo_verifier : Verifier := MkVerifier "k" true ∅.
Definition demo_raw : list (string * json) :=
  [("action", JStr "redis_command"); ("params", JStr "PING")].
(** 2023-11-14T22:13:20Z. *)
Definition demo_now : Z := 1700000000 * Second.
Definition demo_clock : clock := MkClock demo_now demo_now demo_now.
Definition signed_at (now : Z) (l : list (string * json)) (n : string) : string :=
  match Sign demo_signer now n (json_print (JObj l)) with Return (Ok m) => m | _ => "" end.

Ltac by_compute := vm_compute; reflexivity.

(** The envelope of a message. *)
Definition envelope_of (msg : string) : SignatureEnvelope :=
  match json_Unmarshal msg ≫= unmarshal_envelope with Ok e => e | Err _ => empty_envelope end.

Lemma envelope_of_spec msg :
  is_ok (json_Unmarshal msg ≫= unmarshal_envelope) = true →
  ∃ j, json_parse msg = Some j ∧ unmarshal_envelope j = Ok (envelope_of msg).
Proof.
  intros [e He]%is_ok_true. unfold envelope_of. rewrite He. by apply unmarshal_msg_Ok.
Qed.

#[local] Opaque signed_at envelope_of.

(** ** Acceptance *)

(** C1. With verification enabled, [Verify] returns nil exactly for the messages
    that satisfy the contract [trusted] (well-formed envelope, fresh timestamp,
    valid Ed25519 signature over signed_payload, every signed field equal to the
    message's field of that name) and whose nonce is not on record. *)
Theorem Verify_accepts_iff `{Ed25519} v c msg :
  enabled v = true →
  ((Verify v c msg).1 = Ok tt ↔
   ∃ env t, trusted (publicKey v) (at_check c) msg env t ∧ seenNonces v !! Nonce env = None).
Proof. apply Verify_Ok. Qed.

Lemma Verify_accepts_iff_witness :
  ∃ env t, trusted "k" demo_now (signed_at demo_now demo_raw "n1") env t
           ∧ seenNonces demo_verifier !! Nonce env = None.
Proof.
  apply (proj1 (Verify_accepts_iff demo_verifier demo_clock
                  (signed_at demo_now demo_raw "n1") eq_refl)). by_compute.
Defined.

(** ** Replay *)

(** C2. Replay protection. A message accepted once is rejected ever after: after
    any number of further [Verify] calls, including those that evict old nonces,
    presenting the same bytes again is an error. The timestamp must not be so far
    ahead that its distance overflows a Duration (see [Verify_far_future_accepted]). *)
Theorem Verify_no_replay `{Ed25519} v c msg env t s2 c2 :
  enabled v = true →
  (at_check c ≤ at_record c)%Z → (at_record c ≤ at_evict c)%Z →
  (Verify v c msg).1 = Ok tt →
  (∃ j, json_parse msg = Some j ∧ unmarshal_envelope j = Ok env) →
  parse_rfc3339 (SignedAt env) = Some t →
  (minInt64 < at_check c - t)%Z →
  rtc verify_step ((Verify v c msg).2, at_evict c) s2 →
  (s2.2 ≤ at_check c2)%Z →
  is_ok (Verify s2.1 c2 msg).1 = false.
Proof.
  intros Hen Hcr Hre Hacc (j & Hj & Henv) Ht Hnear Hsteps Hc2.
  pose proof (proj1 (Verify_Ok v c msg Hen) Hacc) as (env' & t' & Htr & Hfresh).
  destruct (tr_envelope _ _ _ _ _ Htr) as (j' & Hj' & Henv').
  assert (env' = env) as -> by congruence.
  assert (t' = t) as -> by (pose proof (tr_signed_at _ _ _ _ _ Htr); congruence).
  pose proof (tr_window _ _ _ _ _ Htr) as [Hw|Hw]; [|lia].
  assert (nonce_guard (Nonce env) (at_record c) ((Verify v c msg).2, at_evict c)) as Hg.
  { unfold Verify. rewrite Hen. simpl.
    rewrite (proj2 (check_message_Ok _ _ _ _) (ex_intro _ t Htr)).
    pose proof (checkAndRecordNonce_lookup v (at_record c) (at_evict c) (Nonce env) (Nonce env)
                  (at_record c)) as Hl. simpl in Hl.
    destruct (checkAndRecordNonce _ _ _ _) as [b v'] eqn:En. simpl in Hl.
    rewrite Hfresh, lookup_insert_eq in Hl. specialize (Hl eq_refl).
    destruct b; (destruct Hl; [left; exists (at_record c); split; [done|lia]|right; simpl; lia]). }
  destruct (nonce_guard_steps _ _ _ _ Hsteps Hre Hg) as [Hg2 _].
  pose proof (enabled_steps _ _ Hsteps) as Hen2. simpl in Hen2.
  rewrite (proj1 (Verify_preserves v c msg)), Hen in Hen2.
  apply not_true_is_false. intros [[] Hok]%is_ok_true.
  apply Verify_Ok in Hok as (env2 & t2 & Htr2 & Hfresh2); [|done].
  destruct (tr_envelope _ _ _ _ _ Htr2) as (j2 & Hj2 & Henv2).
  assert (env2 = env) as -> by congruence.
  assert (t2 = t) as -> by (pose proof (tr_signed_at _ _ _ _ _ Htr2); congruence).
  pose proof (tr_window _ _ _ _ _ Htr2) as Hw2.
  destruct Hg2 as [(r' & Hr' & _)|Hold]; [congruence|].
  unfold maxTimestampSkew, Minute, Second, minInt64 in *. lia.
Qed.

#[local] Opaque Verify.

(** The same bytes, one second later. *)
Definition demo_msg : string := signed_at demo_now demo_raw "n1".
Definition demo_later : clock := MkClock (demo_now + Second) (demo_now + Second) (demo_now + Second).
Definition demo_state : Verifier * Z := ((Verify demo_verifier demo_clock demo_msg).2, demo_now).

Lemma Verify_no_replay_witness : is_ok (Verify demo_state.1 demo_later demo_msg).1 = false.
Proof.
  apply (Verify_no_replay demo_verifier demo_clock demo_msg (envelope_of demo_msg) demo_now
           demo_state demo_later).
  - reflexivity.
  - apply Z.le_refl.
  - apply Z.le_refl.
  - by_compute.
  - apply envelope_of_spec. by_compute.
  - by_compute.
  - by_compute.
  - apply rtc_refl.
  - apply Z.leb_le. by_compute.
Defined.

(** A timestamp so far ahead that its distance saturates a Duration
    (about 292 years) passes the freshness check, because the absolute value of
    the smallest Duration is itself negative. Such a message is accepted at any
    time, and again as soon as the eviction has dropped its nonce. *)
Theorem Verify_far_future_accepted `{Ed25519} v c msg env t v' c' :
  enabled v = true → (Verify v c msg).1 = Ok tt →
  (∃ j, json_parse msg = Some j ∧ unmarshal_envelope j = Ok env) →
  parse_rfc3339 (SignedAt env) = Some t →
  enabled v' = true → publicKey v' = publicKey v → seenNonces v' !! Nonce env = None →
  (at_check c' - t ≤ minInt64)%Z →
  (Verify v' c' msg).1 = Ok tt.
Proof.
  intros Hen Hacc (j & Hj & Henv) Ht Hen' Hpub Hseen Hfar.
  apply Verify_Ok in Hacc as (env' & t' & Htr & _); [|done].
  destruct Htr as [(j' & Hj' & Henv') Hsg Hsp Hno Ht' _ Hau Hag].
  assert (env' = env) as -> by congruence. assert (t' = t) as -> by congruence.
  apply Verify_Ok; [done|]. exists env, t. rewrite Hpub. split; [|done].
  split; eauto.
Qed.

(** A message dated three centuries ahead, presented now and ten years later. *)
Definition year : Z := 365 * 86400 * Second.

Definition future_msg : string := signed_at (demo_now + 310 * year) demo_raw "n1".
Definition decade_later : clock :=
  MkClock (demo_now + 10 * year) (demo_now + 10 * year) (demo_now + 10 * year).

Lemma Verify_far_future_accepted_witness :
  (Verify demo_verifier decade_later future_msg).1 = Ok tt.
Proof.
  apply (Verify_far_future_accepted demo_verifier demo_clock future_msg (envelope_of future_msg)
           (demo_now + 310 * year) demo_verifier decade_later).
  - reflexivity.
  - by_compute.
  - apply envelope_of_spec. by_compute.
  - by_compute.
  - reflexivity.
  - reflexivity.
  - by_compute.
  - apply Z.leb_le. by_compute.
Defined.

(** C39. The signature covers neither the nonce nor the timestamp: whoever holds
    one accepted message can append a current timestamp and a new nonce to it and
    have it accepted again, at any later time, by a verifier for the same key. *)
Theorem Verify_envelope_malleable `{Ed25519} v c msg l env payload pj v' c' now n :
  enabled v = true → (Verify v c msg).1 = Ok tt →
  json_parse msg = Some (JObj l) → unmarshal_envelope (JObj l) = Ok env →
  json_parse (SignedPayload env) = Some pj → unmarshal_raw_map pj = Some payload →
  (∀ name, name ∈ envelope_names → payload !! name = None) →
  enabled v' = true → publicKey v' = publicKey v →
  valid_utf8 n = true → n ≠ "" → seenNonces v' !! n = None →
  rfc3339_range now → (Z.abs (at_check c' - now / Second * Second) ≤ maxTimestampSkew)%Z →
  (Verify v' c' (json_print (JObj (l ++ envelope_members (SignedPayload env) (Signature env)
                                          (format_rfc3339 now) n)))).1 = Ok tt.
Proof.
  intros Hen Hacc Hj Henv Hpj Hpl Hno Hen' Hpub Un Hn Hseen Hr Hw.
  apply Verify_Ok in Hacc as (env' & t & Htr & _); [|done].
  destruct Htr as [(j' & Hj' & Henv') Hsg Hsp _ _ _ (sb & Hd & Hv) Hag].
  assert (j' = JObj l) as -> by congruence. assert (env' = env) as -> by congruence.
  destruct Hag as (pj' & payload' & mj & fields & Hp1 & Hp2 & Hp3 & Hp4 & Hag).
  assert (pj' = pj) as -> by congruence. assert (payload' = payload) as -> by congruence.
  assert (mj = JObj l) as -> by congruence. simpl in Hp4. injection Hp4 as <-.
  pose proof (json_parse_wf _ _ Hj) as Hwf.
  destruct (unmarshal_envelope_valid l env Hwf Henv) as (Hty & Usp & Usg).
  rewrite <- Hpub in Hv.
  eapply Verify_crafted; eauto using parse_format_rfc3339.
  apply valid_utf8_ascii, format_rfc3339_ascii, Hr.
Qed.

Definition members_of (msg : string) : list (string * json) :=
  match json_parse msg with Some (JObj l) => l | _ => [] end.

Lemma members_of_spec msg :
  match json_parse msg with Some (JObj _) => true | _ => false end = true →
  json_parse msg = Some (JObj (members_of msg)).
Proof. unfold members_of. by destruct (json_parse msg) as [[]|]. Qed.

Definition fields_of (msg : string) : gmap string json := members_map (members_of msg).

#[local] Opaque members_of fields_of.

(** The captured message, dated and numbered anew a decade later. *)
Lemma Verify_envelope_malleable_witness :
  (Verify demo_state.1 decade_later (json_print (JObj (members_of demo_msg ++
     envelope_members (SignedPayload (envelope_of demo_msg)) (Signature (envelope_of demo_msg))
       (format_rfc3339 (demo_now + 10 * year)) "n2")))).1 = Ok tt.
Proof.
  apply (Verify_envelope_malleable demo_verifier demo_clock demo_msg (members_of demo_msg)
           (envelope_of demo_msg) (fields_of (SignedPayload (envelope_of demo_msg)))
           (JObj (members_of (SignedPayload (envelope_of demo_msg))))).
  - reflexivity.
  - by_compute.
  - apply members_of_spec. by_compute.
  - by_compute.
  - apply members_of_spec. by_compute.
  - reflexivity.
  - intros name Hn.
    repeat (apply elem_of_cons in Hn as [->|Hn]; [by_compute|]). by apply not_elem_of_nil in Hn.
  - by_compute.
  - by_compute.
  - reflexivity.
  - done.
  - by_compute.
  - split; apply Z.leb_le; by_compute.
  - apply Z.leb_le. by_compute.
Defined.

(** ** Signed messages verify *)

(** C3. A message signed by [Sign] is accepted by [Verify]: for a message that
    JSON-decodes to an object with no key that collides with an envelope name in
    another case, whose signed values are text in valid UTF-8 and numbers in range, a
    verifier holding the signer's public key, a clock within five minutes of the signing
    time (truncated to seconds) and an unused nonce. *)
Theorem Verify_Sign `{Ed25519Laws} s v c now uuid msg raw :
  unmarshal_raw msg = Some (Some raw) → signable s uuid raw →
  enabled v = true → publicKey v = ed_public (privateKey s) → seenNonces v !! uuid = None →
  rfc3339_range now → (Z.abs (at_check c - now / Second * Second) ≤ maxTimestampSkew)%Z →
  ∃ out, Sign s now uuid msg = Return (Ok out) ∧ (Verify v c out).1 = Ok tt.
Proof.
  intros Hraw Hsg Hen Hpub Hseen Hr Hw.
  destruct (unmarshal_raw_spec _ _ Hraw) as [Hok _].
  pose proof (marshal_raw_parse _ (signed_members_ok s now uuid raw Hok)) as Hout.
  pose proof (marshal_raw_parse _ (payload_ok raw Hok)) as Hpl.
  eexists. split; [by apply Sign_Ok|].
  apply Verify_Ok; [done|]. eexists _, _. split; [split|].
  - eexists. split; [exact Hout|by apply signed_envelope].
  - cbn [Signature]. apply EncodeToString_nonempty. intros E.
    pose proof (ed_sign_size (privateKey s) (marshal_raw (sign_payload raw))) as Hl.
    by rewrite E in Hl.
  - cbn [SignedPayload]. apply marshal_raw_nonempty.
  - cbn [Nonce]. apply Hsg.
  - cbn [SignedAt]. by apply parse_format_rfc3339.
  - by left.
  - eexists. cbn [SignedPayload Signature]. split; [apply DecodeString_EncodeToString|].
    rewrite Hpub. apply ed_verify_sign.
  - cbn [SignedPayload]. eexists _, _, _, _.
    split; [exact Hpl|].
    split; [apply unmarshal_marshal_raw_map|].
    split; [exact Hout|].
    split; [apply unmarshal_marshal_raw_map|]. by apply signed_fields_agree.
  - done.
Qed.

Definition demo_text : string := json_print (JObj demo_raw).

(** The members of a message, as text. *)
Definition texts_of (msg : string) : gmap string string :=
  match unmarshal_raw msg with Some (Some m) => m | _ => ∅ end.

Lemma texts_of_spec msg :
  match unmarshal_raw msg with Some (Some _) => true | _ => false end = true →
  unmarshal_raw msg = Some (Some (texts_of msg)).
Proof. unfold texts_of. by destruct (unmarshal_raw msg) as [[]|]. Qed.

#[local] Opaque texts_of.

Lemma demo_signable : signable demo_signer "n1" (texts_of demo_text).
Proof.
  split.
  - assert (map_Forall (λ k _, Forall (λ n, key_is n k = true → k = n) envelope_names)
              (texts_of demo_text)) as Hall by (apply (bool_decide_eq_true _); by_compute).
    intros k v n Hk Hn. apply Hall in Hk. rewrite Forall_forall in Hk. by apply Hk.
  - intros _. by_compute.
  - apply (bool_decide_eq_true _). by_compute.
  - by_compute.
  - done.
  - done.
Qed.

Lemma Verify_Sign_witness :
  ∃ out, Sign demo_signer demo_now "n1" demo_text = Return (Ok out)
         ∧ (Verify demo_verifier demo_clock out).1 = Ok tt.
Proof.
  apply (Verify_Sign demo_signer demo_verifier demo_clock demo_now "n1" demo_text (texts_of demo_text)).
  - apply texts_of_spec. by_compute.
  - apply demo_signable.
  - reflexivity.
  - reflexivity.
  - by_compute.
  - split; apply Z.leb_le; by_compute.
  - apply Z.leb_le. by_compute.
Defined.

(** What is signed are the bytes of the values, which may be invalid UTF-8, but what
    is sent is a JSON string of them with U+FFFD for each invalid byte: such a message
    does not verify. *)
Example Sign_invalid_utf8 :
  match Sign demo_signer demo_now "n1" (quoted "{'action':'redis_command','params':'" +:+ bytes [255]%Z +:+ quoted "'}") with
  | Return (Ok out) => (Verify demo_verifier demo_clock out).1
                       = Err (wrapf "signature verification failed: " (errorf "invalid signature"))
  | _ => False
  end.
Proof. by_compute. Qed.

(** The message [null] is JSON, and brings [Sign] down. *)
Lemma Sign_null_panics `{Ed25519} s now uuid : Sign s now uuid "null" = Panic.
Proof. done. Qed.

(** A legacy message (its request inside "body") has none of the signed
    fields at its top level, so what is signed is the empty object; its signature
    then authenticates every message: any members [l], with that signature and a
    current timestamp and new nonce appended, are accepted. *)
Theorem Sign_legacy_authenticates_any `{Ed25519Laws} s now uuid msg raw :
  unmarshal_raw msg = Some (Some raw) → sign_payload raw = ∅ →
  signed_members s now uuid raw !! "signed_payload" = Some (print_str "{}") ∧
  ∃ sig, signed_members s now uuid raw !! "signature" = Some (print_str sig) ∧
    ∀ v c l now' n,
      enabled v = true → publicKey v = ed_public (privateKey s) →
      wf_json (JObj l) = true → envelope_types_ok l = true →
      valid_utf8 n = true → n ≠ "" → seenNonces v !! n = None →
      rfc3339_range now' →
      (Z.abs (at_check c - now' / Second * Second) ≤ maxTimestampSkew)%Z →
      (Verify v c (json_print (JObj (l ++ envelope_members "{}" sig
                                            (format_rfc3339 now') n)))).1 = Ok tt.
Proof.
  intros Hraw Hnone.
  assert (marshal_raw (sign_payload raw) = "{}") as Hp
    by (rewrite Hnone; by_compute).
  rewrite !signed_members_lookup, Hp. cbn [decide decide_rel].
  split; [reflexivity|]. eexists. split; [reflexivity|].
  intros v c l now' n Hen Hpub Hwf Hty Un Hn Hseen Hr Hw.
  eapply (Verify_crafted v c l "{}" _ _ ∅ (JObj [])); eauto using parse_format_rfc3339.
  - apply valid_utf8_ascii, EncodeToString_ascii.
  - apply valid_utf8_ascii, format_rfc3339_ascii, Hr.
  - apply EncodeToString_nonempty. intros E. pose proof (ed_sign_size (privateKey s) "{}") as Hl.
    by rewrite E in Hl.
  - apply DecodeString_EncodeToString.
  - rewrite Hpub. apply ed_verify_sign.
  - apply map_Forall_empty.
Qed.

(** A legacy query; its signature on a key/value command. *)
Definition legacy_text : string :=
  json_print (JObj [("body", JObj [("account_id", JStr "a"); ("action_name", JStr "db_query");
    ("action_params", JObj [("query", JStr "select 1")])])]).

Lemma Sign_legacy_authenticates_any_witness :
  ∃ sig, signed_members demo_signer demo_now "n1" (texts_of legacy_text) !! "signature"
           = Some (print_str sig)
    ∧ (Verify demo_verifier demo_clock (json_print (JObj (
         [("action", JStr "redis_command"); ("params", JStr "FLUSHALL")]
         ++ envelope_members "{}" sig (format_rfc3339 demo_now) "n2")))).1 = Ok tt.
Proof.
  destruct (Sign_legacy_authenticates_any demo_signer demo_now "n1" legacy_text
              (texts_of legacy_text)) as (_ & sig & Hs & Hany).
  - apply texts_of_spec. by_compute.
  - by_compute.
  - exists sig. split; [exact Hs|]. apply Hany.
    + reflexivity.
    + reflexivity.
    + by_compute.
    + by_compute.
    + by_compute.
    + done.
    + by_compute.
    + split; apply Z.leb_le; by_compute.
    + apply Z.leb_le. by_compute.
Defined.
