(* ===== verification/Regex.v ===== *)
(** * regexp: the subset of Go's regular expressions the agent uses

    Leftmost-first matching by backtracking over the code points of the text,
    with capture groups, and [ReplaceAllString]. *)

From S2P Require Import Prelude GoStrings GoJsonFacts.

(** A code point, as its UTF-8 bytes. *)
Notation rune := string (only parsing).

Inductive re :=
  | RSet (p : rune → bool)
  | REps
  | RSeq (a b : re)
  | RAlt (a b : re)                  (* a preferred over b *)
  | RStar (greedy : bool) (a : re)
  | RGroup (n : nat) (a : re)
  | RWordB                           (* \b, on ASCII words *)
  | REnd.                            (* $ without the m flag *)

Definition caps := list (nat * list string).

(** A match: the code point before its end, the rest of the text, the groups. *)
Definition match_end : Type := option string * list string * caps.

Definition is_word_rune (r : string) : bool :=
  match r with
  | String c "" => in_range 48 57 (code c) || in_range 65 90 (code c) || in_range 97 122 (code c)
                   || (code c =? 95)%Z
  | _ => false
  end.

Definition at_word_boundary (prev : option string) (s : list string) : bool :=
  xorb (match prev with Some r => is_word_rune r | None => false end)
       (match s with r :: _ => is_word_rune r | [] => false end).

(** What follows in the expression. *)
Definition continuation : Type := option string → list string → caps → option match_end.

(** The rounds of a star. A round that consumes nothing is not taken, so as many
    rounds as code points are left suffice. *)
Fixpoint star (round : option string → list string → caps → continuation → option match_end)
    (greedy : bool) (k : continuation) (n : nat) (prev : option string) (s : list string)
    (cs : caps) : option match_end :=
  match n with
  | O => k prev s cs
  | S n =>
      if greedy then
        match round prev s cs (λ prev' s' cs',
                if length s' <? length s then star round greedy k n prev' s' cs' else None) with
        | Some x => Some x
        | None => k prev s cs
        end
      else
        match k prev s cs with
        | Some x => Some x
        | None => round prev s cs (λ prev' s' cs',
                    if length s' <? length s then star round greedy k n prev' s' cs' else None)
        end
  end.

Fixpoint exec (r : re) (prev : option string) (s : list string) (cs : caps)
    (k : continuation) : option match_end :=
  match r with
  | RSet p => match s with c :: s' => if p c then k (Some c) s' cs else None | [] => None end
  | REps => k prev s cs
  | RSeq a b => exec a prev s cs (λ prev s cs, exec b prev s cs k)
  | RAlt a b =>
      match exec a prev s cs k with Some x => Some x | None => exec b prev s cs k end
  | RStar greedy a => star (exec a) greedy k (length s) prev s cs
  | RGroup n a =>
      exec a prev s cs (λ prev' s' cs', k prev' s' ((n, take (length s - length s') s) :: cs'))
  | RWordB => if at_word_boundary prev s then k prev s cs else None
  | REnd => match s with [] => k prev s cs | _ => None end
  end.

Definition match_here (r : re) (prev : option string) (s : list string) : option match_end :=
  exec r prev s [] (λ prev s cs, Some (prev, s, cs)).

(** The text of group [n] of a match. *)
Definition group (n : nat) (cs : caps) : string :=
  match list_find (λ '(i, _), i = n) cs with
  | Some (_, (_, l)) => concat_str l
  | None => ""
  end.

(** [ReplaceAllString] of an expression that matches no empty text. *)
Fixpoint replace_go (r : re) (tmpl : caps → string) (fuel : nat) (prev : option string)
    (s : list string) : string :=
  match fuel, s with
  | S fuel, c :: s' =>
      match match_here r prev s with
      | Some (prev', rest, cs) =>
          if length rest <? length s then tmpl cs +:+ replace_go r tmpl fuel prev' rest
          else c +:+ replace_go r tmpl fuel (Some c) s'
      | None => c +:+ replace_go r tmpl fuel (Some c) s'
      end
  | _, _ => concat_str s
  end.

Definition ReplaceAllString (r : re) (tmpl : caps → string) (s : string) : string :=
  replace_go r tmpl (length (runes s)) None (runes s).

(** [MatchString]: a match at some position. *)
Fixpoint match_string_go (r : re) (prev : option string) (s : list string) : bool :=
  match match_here r prev s with
  | Some _ => true
  | None => match s with [] => false | c :: s' => match_string_go r (Some c) s' end
  end.

Definition MatchString (r : re) (s : string) : bool := match_string_go r None (runes s).

(** ** Building expressions *)

Fixpoint rseq (l : list re) : re :=
  match l with [] => REps | [r] => r | r :: l => RSeq r (rseq l) end.
Fixpoint ralt (l : list re) : re :=
  match l with [] => REps | [r] => r | r :: l => RAlt r (ralt l) end.
Definition rstar (r : re) : re := RStar true r.
Definition rlazy (r : re) : re := RStar false r.
Definition rplus (r : re) : re := RSeq r (rstar r).
Definition ropt (r : re) : re := RAlt r REps.
Fixpoint rtimes (n : nat) (r : re) : re :=
  match n with O => REps | S n => RSeq r (rtimes n r) end.
Fixpoint rupto (n : nat) (r : re) : re :=
  match n with O => REps | S n => ropt (RSeq r (rupto n r)) end.
(** r{lo,hi} and r{lo,}. *)
Definition rrep (lo hi : nat) (r : re) : re := RSeq (rtimes lo r) (rupto (hi - lo) r).
Definition rmin (lo : nat) (r : re) : re := RSeq (rtimes lo r) (rstar r).

(** A class of ASCII characters given by ranges. *)
Definition ranges (l : list (Z * Z)) (r : string) : bool :=
  match r with
  | String c "" => existsb (λ '(lo, hi), in_range lo hi (code c)) l
  | _ => false
  end.
(** A class of ASCII characters given by its elements. *)
Definition chars (cs r : string) : bool :=
  match r with String c "" => negb (all_chars (λ d, negb (Ascii.eqb c d)) cs) | _ => false end.
Definition cor (p q : string → bool) (r : string) : bool := p r || q r.
Definition cnot (p : string → bool) (r : string) : bool := negb (p r).

Definition digit : string → bool := ranges [(48, 57)]%Z.
Definition alnum : string → bool := ranges [(48, 57); (65, 90); (97, 122)]%Z.
Definition white : string → bool := ranges [(9, 10); (12, 13); (32, 32)]%Z.
Definition any_rune (r : string) : bool := true.

Definition rlit (s : string) : re := rseq (map (λ c, RSet (String.eqb c)) (runes s)).

(** Case-insensitive ASCII letter, with the two code points outside ASCII that
    fold to one: U+017F to s and U+212A to k. *)
Definition lower1 (r : string) : string :=
  match r with String a "" => str1 (lower_char a) | _ => r end.

Definition fold_eq (c r : string) : bool :=
  String.eqb (lower1 c) (lower1 r)
  || (String.eqb (lower1 c) "s" && String.eqb r (bytes [197; 191]%Z))
  || (String.eqb (lower1 c) "k" && String.eqb r (bytes [226; 132; 170]%Z)).

Definition rilit (s : string) : re := rseq (map (λ c, RSet (fold_eq c)) (runes s)).

(** ** What a match can capture *)

(** Every group holds code points of the text. *)
Definition caps_from (P : string → Prop) (cs : caps) : Prop := Forall (λ c, Forall P c.2) cs.

Definition explores (P : string → Prop)
    (f : option string → list string → caps → continuation → option match_end) : Prop :=
  ∀ prev s cs k x,
    Forall P s → caps_from P cs → f prev s cs k = Some x →
    ∃ prev' s' cs', Forall P s' ∧ caps_from P cs' ∧ length s' ≤ length s
                    ∧ k prev' s' cs' = Some x.

Lemma star_explores P round greedy n :
  explores P round → explores P (λ prev s cs k, star round greedy k n prev s cs).
Proof.
  intros Hr. induction n as [|n IH]; intros prev s cs k x Hs Hc H; cbn [star] in H.
  { exists prev, s, cs. auto. }
  assert (∀ y, round prev s cs (λ prev' s' cs',
            if length s' <? length s then star round greedy k n prev' s' cs' else None) = Some y →
          ∃ prev' s' cs', Forall P s' ∧ caps_from P cs' ∧ length s' ≤ length s
                  ∧ k prev' s' cs' = Some y) as Hround.
  { intros y Hy. apply Hr in Hy as (p1 & s1 & c1 & ? & ? & ? & Hy); [|done..].
    destruct (length s1 <? length s); [|done].
    apply IH in Hy as (p2 & s2 & c2 & ? & ? & ? & ?); [|done..].
    exists p2, s2, c2. split_and!; [done..|lia|done]. }
  destruct greedy.
  - destruct (round _ _ _ _) eqn:E; [simplify_eq; auto|exists prev, s, cs; auto].
  - destruct (k prev s cs) eqn:E; [|auto].
    exists prev, s, cs. split_and!; [done..|congruence].
Qed.

Lemma exec_explores P r : explores P (exec r).
Proof.
  induction r as [p| |a IHa b IHb|a IHa b IHb|g a IHa|i a IHa| |]; intros prev s cs k x Hs Hc H;
    cbn [exec] in H.
  - destruct s as [|c s]; [done|]. destruct (p c); [|done].
    apply Forall_cons in Hs as [_ Hs]. exists (Some c), s, cs. simpl. auto.
  - exists prev, s, cs. auto.
  - apply IHa in H as (p1 & s1 & c1 & ? & ? & ? & H); [|done..].
    apply IHb in H as (p2 & s2 & c2 & ? & ? & ? & H); [|done..].
    exists p2, s2, c2. split_and!; [done..|lia|done].
  - destruct (exec a prev s cs k) eqn:E; [simplify_eq; by apply IHa in E|by apply IHb in H].
  - by apply (star_explores P (exec a) g (length s) IHa) in H.
  - apply IHa in H as (p1 & s1 & c1 & ? & ? & ? & H); [|done..].
    exists p1, s1, ((i, take (length s - length s1) s) :: c1).
    split_and!; [done| |done|done]. constructor; [by apply Forall_take|done].
  - destruct (at_word_boundary prev s); [|done]. exists prev, s, cs. auto.
  - destruct s; [|done]. exists prev, [], cs. auto.
Qed.

Lemma match_here_inv (P : string → Prop) r prev s prev' rest cs :
  Forall P s → match_here r prev s = Some (prev', rest, cs) →
  Forall P rest ∧ caps_from P cs ∧ length rest ≤ length s.
Proof.
  intros Hs H. unfold match_here in H.
  apply (exec_explores P) in H as (? & ? & ? & ? & ? & ? & H); [|done|constructor].
  by simplify_eq.
Qed.

Lemma group_from (P : string → Prop) n cs :
  caps_from P cs → ∃ l, Forall P l ∧ group n cs = concat_str l.
Proof.
  intros Hc. unfold group. destruct (list_find _ cs) as [[i [m l]]|] eqn:E; [|by exists []].
  exists l. split; [|done]. apply list_find_Some in E as (Hl & _).
  apply list_elem_of_lookup_2 in Hl. unfold caps_from in Hc. rewrite Forall_forall in Hc.
  by apply Hc in Hl.
Qed.

(** ** Validity of replaced text *)

Lemma group_valid n cs :
  caps_from (λ r, valid_chunk r = true) cs → valid_utf8 (group n cs) = true.
Proof. intros H. destruct (group_from _ n cs H) as (l & Hl & ->). by apply valid_utf8_concat. Qed.

(** A template that inserts valid text keeps the text valid. *)
Lemma ReplaceAllString_valid r tmpl s :
  (∀ cs, caps_from (λ r, valid_chunk r = true) cs → valid_utf8 (tmpl cs) = true) →
  valid_utf8 s = true → valid_utf8 (ReplaceAllString r tmpl s) = true.
Proof.
  intros Ht Hs%valid_utf8_chunks. unfold ReplaceAllString.
  generalize (@None string) as prev. generalize (length (runes s)) as n. revert Hs.
  generalize (runes s) as l. intros l Hl n. revert l Hl.
  induction n as [|n IH]; intros l Hl prev; cbn [replace_go]; [by apply valid_utf8_concat|].
  destruct l as [|c l]; [done|]. pose proof Hl as [Hc Hl']%Forall_cons.
  assert (valid_utf8 (c +:+ replace_go r tmpl n (Some c) l) = true) as Hskip
    by (apply valid_utf8_app; [by apply valid_utf8_chunk|by apply IH]).
  destruct (match_here _ _ _) as [[[p rest] cs]|] eqn:E; [|done].
  apply match_here_inv with (P := λ r, valid_chunk r = true) in E as (? & ? & ?); [|done].
  case_match; [|done]. apply valid_utf8_app; auto.
Qed.
