(* ===== verification/Registry.v ===== *)
(** * pkg/proxy/registry.go: datasource proxies by ID

    The registry's four maps, its operations as they run under its locks, and the
    health report, whose checks run without the locks and commit under them. A
    proxy is known to the registry by reference; what its methods do is a
    parameter. *)

From S2P Require Import Prelude GoStrings GoJson GoTime Errors.

(** ** Requests and responses *)

Record ActionRequest := MkRequest {
  req_RequestID : string;
  req_DatasourceID : string;
  req_Action : string;
  req_Params : gmap string any;
  req_Method : string;
  req_URL : string;
  req_Header : gmap string (list string);
  req_Body : string;
}.

Definition ErrCodeDatasourceNotFound : string := "datasource_not_found".
Definition ErrCodeUpstreamUnreachable : string := "upstream_unreachable".
Definition ErrCodeAmbiguousDatasource : string := "ambiguous_datasource".

Record ActionResponse := MkResponse {
  resp_StatusCode : Z;
  resp_RequestID : string;
  resp_Action : string;
  resp_ErrorCode : string;
  resp_Data : string;
  resp_Result : option json;
}.

(** ** State *)

(** The identity of a proxy, which [r.proxies[id] != t.proxy] compares. *)
Definition proxyref := nat.

Record DatasourceEntry := MkEntry {
  ent_ID : string;
  ent_Type : string;
  ent_ProxyType : string;
  ent_Name : string;
  ent_CredentialSource : string;
  ent_CredentialRef : string;
}.

Record requestError := MkRequestError { re_msg : string; re_at : Z }.

Record Registry := MkRegistry {
  proxies : gmap string proxyref;
  configs : gmap string DatasourceEntry;
  lastSuccess : gmap string string;
  reqErrors : gmap string requestError;
}.

Definition requestErrorTTL : Z := 15 * Minute.

Definition NewRegistry : Registry := MkRegistry ∅ ∅ ∅ ∅.

(** ** Request failures *)

(** [ctxDone] is [ctx.Err() != nil]; a nil error is [None]. *)
Definition RecordRequestResult (r : Registry) (ctxDone : bool) (now : Z) (datasourceID : string)
    (err : option error) : Registry :=
  if match err with Some _ => ctxDone || negb (IsIntegrationError err) | None => false end then r
  else
    match proxies r !! datasourceID with
    | None => r
    | Some _ =>
        MkRegistry (proxies r) (configs r) (lastSuccess r)
          match err with
          | None => delete datasourceID (reqErrors r)
          | Some e =>
              <[datasourceID := MkRequestError (RedactError (err_msg e)) now]> (reqErrors r)
          end
    end.

Definition clearRequestError (r : Registry) (datasourceID : string) : Registry :=
  MkRegistry (proxies r) (configs r) (lastSuccess r) (delete datasourceID (reqErrors r)).

Definition recentRequestError (r : Registry) (now : Z) (datasourceID : string)
  : option string * Registry :=
  match reqErrors r !! datasourceID with
  | None => (None, r)
  | Some e =>
      if (requestErrorTTL <? time_sub now (re_at e))%Z
      then (None, clearRequestError r datasourceID)
      else (Some (re_msg e), r)
  end.

(** ** Registration *)

Definition Get (r : Registry) (datasourceID : string) : option proxyref := proxies r !! datasourceID.

(** The proxies closed on the way are returned with the state. *)
Definition Register (r : Registry) (id : string) (entry : DatasourceEntry) (p : proxyref)
  : Registry * list proxyref :=
  let closed := match proxies r !! id with Some old => [old] | None => [] end in
  let r := MkRegistry (<[id:=p]> (proxies r)) (<[id:=entry]> (configs r))
             (delete id (lastSuccess r)) (reqErrors r) in
  (clearRequestError r id, closed).

(** [close] is what [Close] of each proxy returns. *)
Definition Remove (close : proxyref → result unit) (r : Registry) (id : string)
  : result unit * Registry * list proxyref :=
  match proxies r !! id with
  | Some p =>
      match close p with
      | Err err => (Err (wrapf ("closing proxy " +:+ id +:+ ": ") err), r, [p])
      | Ok _ =>
          let r := MkRegistry (delete id (proxies r)) (delete id (configs r))
                     (delete id (lastSuccess r)) (reqErrors r) in
          (Ok tt, clearRequestError r id, [p])
      end
  | None => (Ok tt, r, [])
  end.

Definition All (r : Registry) : list string := (map_to_list (proxies r)).*1.

Definition ListEntries (r : Registry) : gmap string DatasourceEntry := configs r.

(** One round of the loop of [CloseAll]: [lastSuccess] is left alone. *)
Definition close_one (r : Registry) (id : string) : Registry :=
  clearRequestError
    (MkRegistry (delete id (proxies r)) (delete id (configs r)) (lastSuccess r) (reqErrors r)) id.

Definition CloseAll (r : Registry) : Registry * list proxyref :=
  (foldl close_one r (map_to_list (proxies r)).*1, (map_to_list (proxies r)).*2).

(** ** Health report *)

Record DatasourceHealth := MkHealth {
  dh_Type : string;
  dh_ProxyType : string;
  dh_Name : string;
  dh_Status : string;
  dh_Error : string;
  dh_ErrorClass : string;
  dh_LastCheck : string;
  dh_Reachable : bool;
  dh_LatencyMs : Z;
  dh_LastSuccess : string;
}.

Record target := MkTarget { t_id : string; t_proxy : proxyref; t_cfg : DatasourceEntry }.

(** The snapshot under the read lock. *)
Definition health_targets (r : Registry) : list target :=
  omap (λ '(id, p), cfg ← configs r !! id; Some (MkTarget id p cfg)) (map_to_list (proxies r)).

(** A check that the cancelled context kept from running. *)
Definition health_cancelled (t : target) (now err : string) : DatasourceHealth :=
  MkHealth (ent_Type (t_cfg t)) (ent_ProxyType (t_cfg t)) (ent_Name (t_cfg t)) "error"
    (RedactError err) (ErrorClass (ent_ProxyType (t_cfg t))) now false 0 "".

(** How the check of one datasource ends. *)
Inductive check_outcome :=
  | NotRun (ctxErr : string)                (* the context ended before it *)
  | Returned (err : option error)
  | Panicked (rec : string).

Definition outcome_err (o : check_outcome) : option error :=
  match o with
  | NotRun e => Some (errorf e)
  | Returned err => err
  | Panicked rec => Some (errorf ("panic: " +:+ rec))
  end.

(** The critical section after a check: [None] for a superseded datasource.
    [elapsed] is the duration of the check in nanoseconds. *)
Definition health_commit (r : Registry) (t : target) (now : string) (clock elapsed : Z)
    (err : option error) : option DatasourceHealth * Registry :=
  let latency := Z.quot elapsed 1000000 in
  let report status msg class reach last :=
    MkHealth (ent_Type (t_cfg t)) (ent_ProxyType (t_cfg t)) (ent_Name (t_cfg t))
      status msg class now reach latency last in
  if bool_decide (proxies r !! t_id t = Some (t_proxy t)) then
    match err with
    | Some e =>
        (Some (report "error" (RedactError (err_msg e)) (ErrorClass (ent_ProxyType (t_cfg t)))
                 false (default "" (lastSuccess r !! t_id t))), r)
    | None =>
        let r := MkRegistry (proxies r) (configs r) (<[t_id t := now]> (lastSuccess r))
                   (reqErrors r) in
        let '(recent, r) := recentRequestError r clock (t_id t) in
        match recent with
        | Some msg =>
            (Some (report "error" msg (ErrorClass (ent_ProxyType (t_cfg t))) true now), r)
        | None => (Some (report "healthy" "" "" true now), r)
        end
    end
  else (None, r).

(** The other operations on the registry, as they may run between two checks. *)
Inductive reg_op :=
  | OpRegister (id : string) (entry : DatasourceEntry) (p : proxyref)
  | OpRemove (id : string)
  | OpRecord (ctxDone : bool) (now : Z) (id : string) (err : option error)
  | OpCloseAll.

Definition apply_op (close : proxyref → result unit) (r : Registry) (op : reg_op) : Registry :=
  match op with
  | OpRegister id entry p => (Register r id entry p).1
  | OpRemove id => (Remove close r id).1.2
  | OpRecord ctxDone now id err => RecordRequestResult r ctxDone now id err
  | OpCloseAll => (CloseAll r).1
  end.

(** One check, as the worker that ran it commits it. *)
Record check_run := MkRun {
  run_target : target;
  run_between : list reg_op;        (* what others did since the last commit *)
  run_outcome : check_outcome;
  run_clock : Z;
  run_elapsed : Z;
}.

Definition health_run (close : proxyref → result unit) (now : string)
    (acc : gmap string DatasourceHealth * Registry) (c : check_run)
  : gmap string DatasourceHealth * Registry :=
  let '(report, r) := acc in
  let r := foldl (apply_op close) r (run_between c) in
  let t := run_target c in
  match run_outcome c with
  | NotRun e => (<[t_id t := health_cancelled t now e]> report, r)
  | o =>
      let '(h, r) := health_commit r t now (run_clock c) (run_elapsed c) (outcome_err o) in
      (match h with Some h => <[t_id t := h]> report | None => report end, r)
  end.

(** The report, given how the checks of the snapshot are scheduled and end:
    [schedule] lists the targets in the order they commit. [ctxErr] is the error
    of a context that is already done. *)
Definition HealthReport (close : proxyref → result unit) (r : Registry) (ctxErr : option string)
    (now : string) (schedule : list check_run) : gmap string DatasourceHealth * Registry :=
  let targets := health_targets r in
  match targets, ctxErr with
  | [], _ => (∅, r)
  | _, Some e => (list_to_map (map (λ t, (t_id t, health_cancelled t now e)) targets), r)
  | _, None => foldl (health_run close now) (∅, r) schedule
  end.

(** ** Metadata

    [collect] is [CollectMetadata] of the proxies that implement it: [None] for
    the others. *)
Definition metadata : Type := gmap string any.

Definition CollectAllMetadata (collect : proxyref → option (result metadata)) (r : Registry)
  : gmap string metadata :=
  list_to_map (list_omap _ _ (λ '(id, p),
    match collect p with Some (Ok m) => Some (id, m) | _ => None end) (map_to_list (proxies r))).
