(* ===== verification/RegistryFacts.v ===== *)
(** * Correctness of the proxy registry *)

From S2P Require Import Prelude GoStrings GoTime Errors Registry.

(** ** Abstract registry

    What the registry promises: one slot per datasource, with everything that is
    known of it. *)

Record slot := MkSlot {
  sl_proxy : proxyref;
  sl_entry : DatasourceEntry;
  sl_last : option string;            (* last passing check of this proxy *)
  sl_fail : option requestError;      (* last unrecovered request failure *)
}.

Notation spec := (gmap string slot) (only parsing).

Definition set_fail (f : option requestError) (s : slot) : slot :=
  MkSlot (sl_proxy s) (sl_entry s) (sl_last s) f.

(** Only integration failures of requests that were not cancelled count. *)
Definition counts (ctxDone : bool) (err : option error) : bool :=
  match err with Some _ => negb ctxDone && IsIntegrationError err | None => true end.

Definition spec_op (close : proxyref → result unit) (s : spec) (op : reg_op) : spec :=
  match op with
  | OpRegister id entry p => <[id := MkSlot p entry None None]> s
  | OpRemove id =>
      match s !! id with
      | Some sl => if is_ok (close (sl_proxy sl)) then delete id s else s
      | None => s
      end
  | OpRecord ctxDone now id err =>
      if counts ctxDone err then
        alter (set_fail ((λ e, MkRequestError (RedactError (err_msg e)) now) <$> err)) id s
      else s
  | OpCloseAll => ∅
  end.

(** What happens to a registry: an operation, or a health check that commits. *)
Inductive reg_event :=
  | EvOp (op : reg_op)
  | EvCheck (t : target) (now : string) (clock elapsed : Z) (err : option error).

Definition apply_event (close : proxyref → result unit) (r : Registry) (ev : reg_event) : Registry :=
  match ev with
  | EvOp op => apply_op close r op
  | EvCheck t now clock elapsed err => (health_commit r t now clock elapsed err).2
  end.

(** A failure is forgotten once a check finds it too old. *)
Definition unexpired (clock : Z) (f : option requestError) : option requestError :=
  e ← f; if (requestErrorTTL <? time_sub clock (re_at e))%Z then None else Some e.

(** A passing check counts for the proxy it checked, if that is still the one in place. *)
Definition spec_check (s : spec) (t : target) (now : string) (clock : Z) : spec :=
  alter (λ sl, if decide (sl_proxy sl = t_proxy t)
               then MkSlot (sl_proxy sl) (sl_entry sl) (Some now) (unexpired clock (sl_fail sl)) else sl) (t_id t) s.

Definition spec_event (close : proxyref → result unit) (s : spec) (ev : reg_event) : spec :=
  match ev with
  | EvOp op => spec_op close s op
  | EvCheck t now clock _ None => spec_check s t now clock
  | EvCheck _ _ _ _ (Some _) => s
  end.

(** The slot of a datasource in the concrete maps. *)
Definition abs_slot (r : Registry) (id : string) : option slot :=
  p ← proxies r !! id; e ← configs r !! id;
  Some (MkSlot p e (lastSuccess r !! id) (reqErrors r !! id)).

Definition refines (r : Registry) (s : spec) : Prop := ∀ id, s !! id = abs_slot r id.

(** The maps agree on what is registered; failures are kept for nothing else. *)
Definition reg_inv (r : Registry) : Prop :=
  ∀ id, (is_Some (proxies r !! id) ↔ is_Some (configs r !! id))
        ∧ (is_Some (reqErrors r !! id) → is_Some (proxies r !! id)).

Lemma foldl_close_one ids r :
  proxies (foldl close_one r ids) = foldr delete (proxies r) (reverse ids)
  ∧ configs (foldl close_one r ids) = foldr delete (configs r) (reverse ids)
  ∧ lastSuccess (foldl close_one r ids) = lastSuccess r
  ∧ reqErrors (foldl close_one r ids) = foldr delete (reqErrors r) (reverse ids).
Proof.
  revert r. induction ids as [|i ids IH]; intros r; [done|].
  simpl. destruct (IH (close_one r i)) as (-> & -> & -> & ->).
  rewrite reverse_cons, !foldr_app. done.
Qed.

Lemma foldr_delete_lookup {A} (m : gmap string A) ids k :
  foldr delete m ids !! k = if decide (k ∈ ids) then None else m !! k.
Proof.
  case_decide.
  - by apply lookup_foldr_delete.
  - by apply lookup_foldr_delete_not_elem_of.
Qed.

(** [CloseAll] leaves nothing registered and no failure on record. *)
Lemma CloseAll_empty r :
  reg_inv r → proxies (CloseAll r).1 = ∅ ∧ configs (CloseAll r).1 = ∅ ∧ reqErrors (CloseAll r).1 = ∅.
Proof.
  intros Hinv. unfold CloseAll. cbn [fst].
  set (ids := (map_to_list (proxies r)).*1).
  assert (∀ k, is_Some (proxies r !! k) → k ∈ reverse ids) as Hin.
  { intros k [p Hp]. apply elem_of_reverse, list_elem_of_fmap. exists (k, p). split; [done|].
    by apply elem_of_map_to_list. }
  destruct (foldl_close_one ids r) as (-> & -> & _ & ->).
  split_and!; apply map_eq; intros k; rewrite foldr_delete_lookup, lookup_empty;
    case_decide as Hk; try done; apply eq_None_not_Some; intros Hs; apply Hk, Hin;
    destruct (Hinv k); naive_solver.
Qed.

Lemma spec_CloseAll r : reg_inv r → ∀ id, abs_slot (CloseAll r).1 id = None.
Proof.
  intros Hinv id. destruct (CloseAll_empty r Hinv) as (Hp & _ & _).
  unfold abs_slot. by rewrite Hp, lookup_empty.
Qed.

Lemma reg_inv_op close r op : reg_inv r → reg_inv (apply_op close r op).
Proof.
  intros Hinv id. specialize (Hinv id) as Hid. destruct op as [i e p|i|c n i err|]; simpl.
  - destruct (decide (i = id)) as [->|].
    + rewrite !lookup_insert_eq, lookup_delete_eq. naive_solver.
    + by rewrite !lookup_insert_ne, lookup_delete_ne by done.
  - unfold Remove. repeat case_match; simpl; try done.
    destruct (decide (i = id)) as [->|].
    + rewrite !lookup_delete_eq. naive_solver.
    + by rewrite !lookup_delete_ne by done.
  - unfold RecordRequestResult. case_match; [done|].
    destruct (proxies r !! i) as [p|] eqn:Ei; [|done]. simpl. split; [apply Hid|].
    destruct err as [e|]; destruct (decide (i = id)) as [->|].
    + rewrite Ei. by eexists.
    + rewrite lookup_insert_ne by done. apply Hid.
    + rewrite lookup_delete_eq. by intros [].
    + rewrite lookup_delete_ne by done. apply Hid.
  - destruct (CloseAll_empty r Hinv) as (Hp & Hc & He). unfold CloseAll in *. simpl in *.
    rewrite Hp, Hc, He, !lookup_empty. done.
Qed.

Lemma refines_op close r s op :
  reg_inv r → refines r s → refines (apply_op close r op) (spec_op close s op).
Proof.
  intros Hinv Href id. pose proof (Href id) as Hid. unfold abs_slot in Hid.
  destruct op as [i e p|i|c n i err|]; cbn [apply_op spec_op].
  - unfold Register, abs_slot. simpl. destruct (decide (i = id)) as [->|].
    + by rewrite !lookup_insert_eq, !lookup_delete_eq.
    + rewrite !lookup_insert_ne, !lookup_delete_ne by done. exact Hid.
  - unfold Remove. pose proof (Href i) as Hi. unfold abs_slot in Hi.
    destruct (proxies r !! i) as [p|] eqn:Ep; simpl in Hi; [|by rewrite Hi].
    destruct (Hinv i) as [[Hc _] _]. rewrite Ep in Hc. destruct (Hc (ltac:(eauto))) as [ce Hce].
    rewrite Hce in Hi. simpl in Hi. rewrite Hi. simpl.
    destruct (close p); simpl; [|done]. unfold abs_slot. simpl.
    destruct (decide (i = id)) as [->|].
    + by rewrite !lookup_delete_eq.
    + rewrite !lookup_delete_ne by done. exact Hid.
  - unfold RecordRequestResult, counts.
    destruct err as [er|]; simpl.
    + destruct c, (IsIntegrationError (Some er)) eqn:E; simpl in E; rewrite ?E; simpl;
        try exact Hid.
      destruct (decide (i = id)) as [->|Hne].
      * rewrite lookup_alter_eq, Hid. unfold abs_slot.
        destruct (proxies r !! id) as [p|] eqn:Ep; cbn; rewrite Ep; [|done].
        destruct (configs r !! id) as [ce|] eqn:Ec; cbn; [|done].
        by rewrite lookup_insert_eq.
      * rewrite lookup_alter_ne, Hid by done. unfold abs_slot.
        destruct (proxies r !! i); simpl; [|done]. by rewrite lookup_insert_ne.
    + destruct (decide (i = id)) as [->|Hne].
      * rewrite lookup_alter_eq, Hid. unfold abs_slot.
        destruct (proxies r !! id) as [p|] eqn:Ep; cbn; rewrite Ep; [|done].
        destruct (configs r !! id) as [ce|] eqn:Ec; cbn; [|done].
        by rewrite lookup_delete_eq.
      * rewrite lookup_alter_ne, Hid by done. unfold abs_slot.
        destruct (proxies r !! i); simpl; [|done]. by rewrite lookup_delete_ne.
  - by rewrite spec_CloseAll, lookup_empty.
Qed.

(** What a passing check leaves in the four maps. *)
Lemma health_commit_maps r t now clock elapsed :
  let r' := (health_commit r t now clock elapsed None).2 in
  proxies r' = proxies r ∧ configs r' = configs r
  ∧ if bool_decide (proxies r !! t_id t = Some (t_proxy t))
    then lastSuccess r' = <[t_id t := now]> (lastSuccess r)
         ∧ ∀ id, reqErrors r' !! id = if decide (id = t_id t) then unexpired clock (reqErrors r !! id)
                                      else reqErrors r !! id
    else r' = r.
Proof.
  unfold health_commit. simpl. case_bool_decide; [|done]. unfold recentRequestError, unexpired. simpl.
  destruct (reqErrors r !! t_id t) as [e|] eqn:E; [destruct (requestErrorTTL <? _)%Z eqn:Ee|]; simpl;
    split_and!; try done; intros id; destruct (decide (id = t_id t)) as [->|];
    rewrite ?lookup_delete_eq, ?lookup_delete_ne, ?E by done; simpl; by rewrite ?Ee.
Qed.

Lemma health_commit_failed r t now clock elapsed e :
  (health_commit r t now clock elapsed (Some e)).2 = r.
Proof. unfold health_commit. by case_bool_decide. Qed.

Lemma reg_inv_event close r ev : reg_inv r → reg_inv (apply_event close r ev).
Proof.
  intros Hinv. destruct ev as [op|t now clock elapsed [e|]]; [by apply reg_inv_op| |]; cbn [apply_event].
  - by rewrite health_commit_failed.
  - destruct (health_commit_maps r t now clock elapsed) as (Hp & Hc & Hb). case_bool_decide; [|by rewrite Hb].
    destruct Hb as [_ He]. intros id. destruct (Hinv id) as [H1 H2]. rewrite Hp, Hc, He. split; [done|].
    intros Hs. apply H2. destruct (decide (id = t_id t)); [|done]. by destruct (reqErrors r !! id), Hs.
Qed.

Lemma refines_event close r s ev :
  reg_inv r → refines r s → refines (apply_event close r ev) (spec_event close s ev).
Proof.
  intros Hinv Href. destruct ev as [op|t now clock elapsed [e|]]; [by apply refines_op| |]; cbn [apply_event spec_event].
  - by rewrite health_commit_failed.
  - destruct (health_commit_maps r t now clock elapsed) as (Hp & Hc & Hb). intros id. pose proof (Href id) as Hid.
    unfold spec_check, abs_slot in *. rewrite Hp, Hc. case_bool_decide as Ht; [|rewrite Hb].
    + destruct Hb as [-> He]. rewrite He. destruct (decide (id = t_id t)) as [->|].
      * rewrite lookup_alter_eq, Hid, Ht, lookup_insert_eq. simpl. destruct (configs r !! t_id t); [|done]. simpl.
        by rewrite decide_True.
      * by rewrite lookup_alter_ne, lookup_insert_ne.
    + destruct (decide (id = t_id t)) as [->|]; [|by rewrite lookup_alter_ne].
      rewrite lookup_alter_eq, Hid. destruct (proxies r !! t_id t) as [p|]; [|done]. simpl.
      destruct (configs r !! t_id t); [|done]. simpl. rewrite decide_False; [done|]. intros ->. by apply Ht.
Qed.

(** Only what is registered has a last success on record, until a shutdown. *)
Definition last_known (r : Registry) : Prop := ∀ id, is_Some (lastSuccess r !! id) → is_Some (proxies r !! id).

Lemma last_known_event close r ev : ev ≠ EvOp OpCloseAll → last_known r → last_known (apply_event close r ev).
Proof.
  intros Hev Hl id. specialize (Hl id). destruct ev as [[i e p|i|c n i err|]|t now clock elapsed [e|]]; simpl.
  - destruct (decide (i = id)) as [->|].
    + by rewrite lookup_insert_eq.
    + by rewrite lookup_insert_ne, lookup_delete_ne.
  - unfold Remove. repeat case_match; simpl; try done. destruct (decide (i = id)) as [->|].
    + rewrite lookup_delete_eq. by intros [].
    + by rewrite !lookup_delete_ne.
  - unfold RecordRequestResult. by repeat case_match.
  - done.
  - by rewrite health_commit_failed.
  - destruct (health_commit_maps r t now clock elapsed) as (Hp & _ & Hb). rewrite Hp. case_bool_decide as Ht; [|by rewrite Hb].
    destruct Hb as [-> _]. destruct (decide (t_id t = id)) as [<-|]; [by rewrite Ht|by rewrite lookup_insert_ne].
Qed.

Lemma apply_events_refines close evs r s :
  reg_inv r → refines r s →
  reg_inv (foldl (apply_event close) r evs)
  ∧ refines (foldl (apply_event close) r evs) (foldl (spec_event close) s evs).
Proof.
  revert r s. induction evs as [|ev evs IH]; intros r s Hi Hr; [done|].
  simpl. apply IH; [by apply reg_inv_event|by apply refines_event].
Qed.

Lemma last_known_events close evs r :
  EvOp OpCloseAll ∉ evs → last_known r → last_known (foldl (apply_event close) r evs).
Proof.
  revert r. induction evs as [|ev evs IH]; intros r Hn Hl; [done|]. apply not_elem_of_cons in Hn as [Hn Hn'].
  apply IH; [done|]. apply last_known_event; [congruence|done].
Qed.

(** C11. The registry implements the abstract one: after any sequence of
    registrations, removals (of proxies whose Close may fail), request results,
    shutdowns and health checks that commit, the four maps hold exactly the slots of
    the specification: a passing check is on record for the proxy it checked until that
    is replaced or removed, so a datasource never has a failure or a last success of
    its predecessor. Until a shutdown nothing is on record for what was removed. *)
Theorem Registry_refines close evs :
  let r := foldl (apply_event close) NewRegistry evs in
  reg_inv r
  ∧ refines r (foldl (spec_event close) ∅ evs)
  ∧ (EvOp OpCloseAll ∉ evs → last_known r).
Proof.
  assert (reg_inv NewRegistry ∧ refines NewRegistry ∅) as [Hi Hr].
  { split; intros id; unfold abs_slot; simpl; rewrite ?lookup_empty; naive_solver. }
  cbn zeta. destruct (apply_events_refines close evs NewRegistry ∅ Hi Hr). split_and!; [done..|].
  intros Hn. apply last_known_events; [done|]. intros id. simpl. rewrite lookup_empty. by intros [].
Qed.

(** A check that passed before a replacement does not count for the new proxy. *)
Example last_success_replaced :
  let e := MkEntry "d" "postgresql" "db-proxy" "main" "local" "" in
  (abs_slot (foldl (apply_event (λ _, Ok tt)) NewRegistry
    [EvOp (OpRegister "d" e 1); EvCheck (MkTarget "d" 1 e) "t1" 0 0 None; EvOp (OpRegister "d" e 2);
     EvCheck (MkTarget "d" 1 e) "t2" 0 0 None]) "d" ≫= sl_last) = None.
Proof. reflexivity. Qed.

Lemma Registry_refines_witness :
  last_known (foldl (apply_event (λ _, Ok tt)) NewRegistry
    [EvOp (OpRegister "d" (MkEntry "d" "postgresql" "db-proxy" "main" "local" "") 1); EvOp (OpRemove "d")]).
Proof.
  refine (proj2 (proj2 (Registry_refines (λ _, Ok tt) _)) _).
  intros [?|[?|?%elem_of_nil]%elem_of_cons]%elem_of_cons; congruence || done.
Defined.

(** ** Health checks among the other operations *)

(** A passing check on record: datasource, proxy, time. *)
Definition passing : Type := string * proxyref * string.

Inductive reg_step (close : proxyref → result unit)
  : Registry * list passing → Registry * list passing → Prop :=
  | step_op r log op : reg_step close (r, log) (apply_op close r op, log)
  | step_failed r log t now clock elapsed e :
      reg_step close (r, log) ((health_commit r t now clock elapsed (Some e)).2, log)
  | step_passed r log t now clock elapsed :
      reg_step close (r, log)
        ((health_commit r t now clock elapsed None).2, (t_id t, t_proxy t, now) :: log).

Definition attributed (s : Registry * list passing) : Prop :=
  ∀ id p ts, proxies s.1 !! id = Some p → lastSuccess s.1 !! id = Some ts → (id, p, ts) ∈ s.2.

Lemma recentRequestError_frame r now id :
  proxies (recentRequestError r now id).2 = proxies r
  ∧ configs (recentRequestError r now id).2 = configs r
  ∧ lastSuccess (recentRequestError r now id).2 = lastSuccess r.
Proof. unfold recentRequestError. by repeat case_match. Qed.

Lemma health_commit_passed r t now clock elapsed :
  let r' := (health_commit r t now clock elapsed None).2 in
  proxies r' = proxies r ∧
  lastSuccess r' = if bool_decide (proxies r !! t_id t = Some (t_proxy t))
                   then <[t_id t := now]> (lastSuccess r) else lastSuccess r.
Proof.
  unfold health_commit. simpl. case_bool_decide; [|done].
  match goal with |- context [recentRequestError ?r0 ?c ?i] =>
    pose proof (recentRequestError_frame r0 c i) as (Hp & _ & Hl);
    destruct (recentRequestError r0 c i) as [[m|] r1] end; simpl in *; auto.
Qed.

Lemma attributed_op close r log op : attributed (r, log) → attributed (apply_op close r op, log).
Proof.
  intros H id p ts. simpl. destruct op as [i e q|i|c n i err|]; simpl.
  - destruct (decide (i = id)) as [->|].
    + by rewrite lookup_delete_eq.
    + rewrite lookup_insert_ne, lookup_delete_ne by done. apply H.
  - unfold Remove. repeat case_match; simpl; try apply H.
    destruct (decide (i = id)) as [->|].
    + by rewrite lookup_delete_eq.
    + rewrite !lookup_delete_ne by done. apply H.
  - unfold RecordRequestResult. repeat case_match; simpl; apply H.
  - destruct (foldl_close_one (map_to_list (proxies r)).*1 r) as (-> & _ & -> & _).
    rewrite foldr_delete_lookup. case_decide; [done|]. apply H.
Qed.

Lemma attributed_step close s s' : reg_step close s s' → attributed s → attributed s'.
Proof.
  intros [r log op|r log t now cl el e|r log t now cl el] H; [by apply attributed_op| |].
  - by rewrite health_commit_failed.
  - intros id p ts. simpl. destruct (health_commit_passed r t now cl el) as [-> ->].
    case_bool_decide as Hb; [|intros ??; right; by apply H].
    destruct (decide (t_id t = id)) as [<-|Hne].
    + rewrite lookup_insert_eq, Hb. intros [= ->] [= ->]. by left.
    + rewrite lookup_insert_ne by done. intros ??. right. by apply H.
Qed.

(** C12. What a health report says of last_success is true of the proxy it is
    reported for: in every interleaving of checks (which run outside the lock)
    with registrations, removals and shutdowns, a reported last_success is the
    time of a check that this very proxy passed, never one of a proxy it replaced. *)
Theorem HealthReport_last_success close r log t now clock elapsed err h :
  rtc (reg_step close) (NewRegistry, []) (r, log) →
  (health_commit r t now clock elapsed err).1 = Some h →
  dh_LastSuccess h ≠ "" →
  err = None ∧ dh_LastSuccess h = now ∨ (t_id t, t_proxy t, dh_LastSuccess h) ∈ log.
Proof.
  intros Hsteps Hh Hne.
  assert (attributed (r, log)) as Ha.
  { remember (NewRegistry, []) as s0 eqn:E0. remember (r, log) as s eqn:E.
    assert (attributed s0) as H0 by (subst; intros id p ts; simpl; by rewrite lookup_empty).
    clear E E0 Hh. induction Hsteps as [|x y z Hxy _ IH]; [done|].
    apply IH. by eapply attributed_step. }
  unfold health_commit in Hh. case_bool_decide as Hb; [|done].
  destruct err as [e|].
  - right. injection Hh as <-. simpl in *.
    destruct (lastSuccess r !! t_id t) as [ts|] eqn:El; [|done]. simpl. by apply Ha.
  - left. split; [done|].
    destruct (recentRequestError _ _ _) as [[m|] r1]; by injection Hh as <-.
Qed.

Definition demo_entry : DatasourceEntry := MkEntry "d" "postgresql" "db-proxy" "main" "local" "".
Definition close_ok (_ : proxyref) : result unit := Ok tt.
Definition demo_target : target := MkTarget "d" 1 demo_entry.

(** A datasource passes a check, then fails one. *)
Lemma HealthReport_last_success_witness :
  let r1 := (Register NewRegistry "d" demo_entry 1).1 in
  let r2 := (health_commit r1 demo_target "t1" 0 0 None).2 in
  ∃ h, (health_commit r2 demo_target "t2" 0 0 (Some (errorf "down"))).1 = Some h
       ∧ ("d", 1, dh_LastSuccess h) ∈ [("d", 1, "t1")].
Proof.
  simpl. eexists. split; [vm_compute; reflexivity|].
  match goal with |- (_, _, dh_LastSuccess ?h) ∈ _ =>
    destruct (HealthReport_last_success close_ok
      (health_commit (Register NewRegistry "d" demo_entry 1).1 demo_target "t1" 0 0 None).2
      [("d", 1, "t1")] demo_target "t2" 0 0 (Some (errorf "down")) h) as [[? _]|Hin] end.
  - eapply rtc_l; [apply (step_op _ NewRegistry [] (OpRegister "d" demo_entry 1))|].
    eapply rtc_l; [|apply rtc_refl].
    apply (step_passed _ _ [] demo_target "t1" 0 0).
  - vm_compute. reflexivity.
  - done.
  - done.
  - exact Hin.
Defined.

(** ** No proxy is lost *)

(** The proxies an operation closes. *)
Definition closed_by (close : proxyref → result unit) (r : Registry) (op : reg_op) : list proxyref :=
  match op with
  | OpRegister id entry p => (Register r id entry p).2
  | OpRemove id => (Remove close r id).2
  | OpRecord _ _ _ _ => []
  | OpCloseAll => (CloseAll r).2
  end.

Definition run_op close (s : Registry * list proxyref) (op : reg_op) : Registry * list proxyref :=
  (apply_op close s.1 op, closed_by close s.1 op ++ s.2).

(** [p] is registered or has been closed. *)
Definition kept (p : proxyref) (s : Registry * list proxyref) : Prop :=
  (∃ id, proxies s.1 !! id = Some p) ∨ p ∈ s.2.

Lemma kept_op close p s op : kept p s → kept p (run_op close s op).
Proof.
  intros [(id & Hid)|Hc]; [|right; simpl; apply elem_of_app; by right].
  unfold kept, run_op. simpl. destruct op as [i e q|i|c n i err|]; simpl.
  - destruct (decide (i = id)) as [->|].
    + right. rewrite Hid. by left.
    + left. exists id. by rewrite lookup_insert_ne.
  - unfold Remove. destruct (proxies s.1 !! i) as [q|] eqn:Ei; simpl; [|by left; exists id].
    destruct (close q); simpl; [|by left; exists id].
    destruct (decide (i = id)) as [->|].
    + right. replace q with p by congruence. by left.
    + left. exists id. by rewrite lookup_delete_ne.
  - left. exists id. unfold RecordRequestResult. by repeat case_match.
  - right. apply elem_of_app. left. apply list_elem_of_fmap. exists (id, p).
    split; [done|]. by apply elem_of_map_to_list.
Qed.

Lemma kept_ops close p ops s : kept p s → kept p (foldl (run_op close) s ops).
Proof. revert s. induction ops as [|op ops IH]; intros s Hs; [done|]. apply IH, kept_op, Hs. Qed.

Lemma run_op_fst close ops s :
  (foldl (run_op close) s ops).1 = foldl (apply_op close) s.1 ops.
Proof. revert s. induction ops as [|op ops IH]; intros s; [done|]. simpl. by rewrite IH. Qed.

(** No connection leaks: every proxy ever handed to [Register] is still
    registered or has been closed, and a shutdown at the end closes them all. *)
Theorem Registry_no_leak close ops id entry p :
  OpRegister id entry p ∈ ops →
  let s := foldl (run_op close) (NewRegistry, []) ops in
  ((∃ id, Get s.1 id = Some p) ∨ p ∈ s.2)
  ∧ p ∈ (run_op close s OpCloseAll).2.
Proof.
  intros (ops1 & ops2 & ->)%list_elem_of_split. simpl.
  rewrite foldl_app. simpl.
  set (s1 := foldl (run_op close) (NewRegistry, []) ops1).
  assert (kept p (foldl (run_op close) (run_op close s1 (OpRegister id entry p)) ops2)) as Hk.
  { apply kept_ops. left. exists id. simpl. by rewrite lookup_insert_eq. }
  split; [exact Hk|].
  set (s := foldl (run_op close) _ ops2) in *.
  apply elem_of_app. destruct Hk as [(i & Hi)|Hc]; [left|by right].
  apply list_elem_of_fmap. exists (i, p). split; [done|]. by apply elem_of_map_to_list.
Qed.

Lemma Registry_no_leak_witness :
  let ops := [OpRegister "d" demo_entry 1; OpRegister "d" demo_entry 2] in
  1 ∈ (run_op close_ok (foldl (run_op close_ok) (NewRegistry, []) ops) OpCloseAll).2.
Proof.
  apply (Registry_no_leak close_ok [OpRegister "d" demo_entry 1; OpRegister "d" demo_entry 2]
           "d" demo_entry 1). by left.
Defined.

(** ** A report with nothing else going on *)

(** [r'] differs from [r] at most in what checks of the datasources [ids] record. *)
Definition same_but (ids : list string) (r r' : Registry) : Prop :=
  proxies r' = proxies r ∧
  ∀ id, id ∉ ids → lastSuccess r' !! id = lastSuccess r !! id ∧ reqErrors r' !! id = reqErrors r !! id.

Lemma health_commit_same_but r t now clock elapsed err :
  same_but [t_id t] r (health_commit r t now clock elapsed err).2.
Proof.
  unfold health_commit. case_bool_decide; [|done].
  destruct err as [e|]; [done|]. unfold recentRequestError. simpl.
  repeat case_match; simplify_eq; (split; [done|]); simpl; intros id Hid;
    rewrite ?lookup_insert_ne, ?lookup_delete_ne by set_solver; done.
Qed.

Lemma health_commit_agree r r' t now clock elapsed err ids :
  same_but ids r r' → t_id t ∉ ids →
  (health_commit r' t now clock elapsed err).1 = (health_commit r t now clock elapsed err).1.
Proof.
  intros [Hp Hid] Ht. destruct (Hid _ Ht) as [Hl He].
  unfold health_commit, recentRequestError. rewrite Hp, Hl. simpl. rewrite He.
  repeat case_match; simplify_eq; done.
Qed.

Definition quiet (c : check_run) : Prop :=
  run_between c = [] ∧ ∃ err, run_outcome c = Returned err.

Definition commit_of (r : Registry) (now : string) (c : check_run) : option DatasourceHealth :=
  (health_commit r (run_target c) now (run_clock c) (run_elapsed c) (outcome_err (run_outcome c))).1.

Lemma health_run_quiet close now report r c :
  quiet c →
  health_run close now (report, r) c =
  (match commit_of r now c with Some h => <[t_id (run_target c) := h]> report | None => report end,
   (health_commit r (run_target c) now (run_clock c) (run_elapsed c) (outcome_err (run_outcome c))).2).
Proof.
  intros [Hb [err Ho]]. unfold health_run, commit_of. rewrite Hb, Ho. simpl.
  by destruct (health_commit _ _ _ _ _ _) as [[h|] r1].
Qed.

Lemma quiet_runs close now r0 schedule done_ids r report :
  Forall quiet schedule → NoDup (done_ids ++ map (t_id ∘ run_target) schedule) →
  same_but done_ids r0 r →
  ∀ c, c ∈ schedule →
  (∀ id, id ∈ map (t_id ∘ run_target) schedule → report !! id = None) →
  (foldl (health_run close now) (report, r) schedule).1 !! t_id (run_target c) = commit_of r0 now c.
Proof.
  revert done_ids r report. induction schedule as [|c0 l IH]; intros ids r report Hq Hnd Hs c Hc Hrep;
    [by apply not_elem_of_nil in Hc|].
  apply Forall_cons in Hq as [Hq0 Hq]. simpl in Hnd.
  cbn [foldl]. rewrite health_run_quiet by done.
  assert (t_id (run_target c0) ∉ ids) as Hc0.
  { apply NoDup_app in Hnd as (_ & Hd & _). intros Hin. apply (Hd _ Hin). by left. }
  assert (commit_of r now c0 = commit_of r0 now c0) as Heq by (by eapply health_commit_agree).
  rewrite Heq.
  set (r' := (health_commit r _ _ _ _ _).2).
  assert (same_but (ids ++ [t_id (run_target c0)]) r0 r') as Hs'.
  { destruct Hs as [Hp Hs], (health_commit_same_but r (run_target c0) now (run_clock c0)
      (run_elapsed c0) (outcome_err (run_outcome c0))) as [Hp' Hs1].
    split; [unfold r'; congruence|]. intros id Hid. unfold r'.
    destruct (Hs1 id) as [-> ->]; [set_solver|]. apply Hs. set_solver. }
  assert (NoDup ((ids ++ [t_id (run_target c0)]) ++ map (t_id ∘ run_target) l)) as Hnd'
    by (by rewrite <- List.app_assoc).
  assert (t_id (run_target c0) ∉ map (t_id ∘ run_target) l) as Hnotin.
  { apply NoDup_app in Hnd as (_ & _ & Hn). apply NoDup_cons in Hn as [Hn _]. exact Hn. }
  apply elem_of_cons in Hc as [->|Hc].
  - (* the rest of the schedule does not touch this entry *)
    assert (∀ l report r, Forall quiet l → t_id (run_target c0) ∉ map (t_id ∘ run_target) l →
      (foldl (health_run close now) (report, r) l).1 !! t_id (run_target c0)
      = report !! t_id (run_target c0)) as Hskip.
    { clear. induction l as [|c l IH]; intros report r Hq Hn; [done|].
      apply Forall_cons in Hq as [Hq0 Hq]. simpl in Hn. apply not_elem_of_cons in Hn as [Hne Hn].
      cbn [foldl]. rewrite health_run_quiet, IH by done.
      case_match; [by rewrite lookup_insert_ne|done]. }
    rewrite Hskip by done. destruct (commit_of r0 now c0); [by rewrite lookup_insert_eq|].
    apply Hrep. by left.
  - apply (IH (ids ++ [t_id (run_target c0)])); try done.
    intros id Hid. case_match; [|apply Hrep; by right].
    rewrite lookup_insert_ne; [apply Hrep; by right|]. intros <-. done.
Qed.

Lemma elem_of_health_targets r t :
  t ∈ health_targets r ↔ proxies r !! t_id t = Some (t_proxy t) ∧ configs r !! t_id t = Some (t_cfg t).
Proof.
  unfold health_targets. rewrite list_elem_of_omap. split.
  - intros ([id p] & Hin%elem_of_map_to_list & H). simpl in H.
    destruct (configs r !! id) as [cfg|] eqn:E; [|done]. by injection H as <-.
  - intros [Hp Hc]. exists (t_id t, t_proxy t). split; [by apply elem_of_map_to_list|].
    simpl. rewrite Hc. by destruct t.
Qed.

Lemma health_targets_NoDup r : NoDup (t_id <$> health_targets r).
Proof.
  unfold health_targets.
  assert (∀ l : list (string * proxyref), NoDup l.*1 → NoDup (t_id <$>
    omap (λ '(id, p), cfg ← configs r !! id; Some (MkTarget id p cfg)) l)
    ∧ ∀ id, id ∈ (t_id <$> omap (λ '(id, p), cfg ← configs r !! id; Some (MkTarget id p cfg)) l) →
        id ∈ l.*1) as H.
  { induction l as [|[id p] l IH]; intros Hnd; [split; [constructor|done]|].
    apply NoDup_cons in Hnd as [Hn Hnd]. destruct (IH Hnd) as [H1 H2].
    simpl. destruct (configs r !! id); simpl.
    - split; [apply NoDup_cons; auto|]. intros i [->|Hi]%elem_of_cons; [left|right; auto].
    - split; [done|]. intros i Hi. right. auto. }
  apply H, NoDup_fst_map_to_list.
Qed.

(** A request to the datasource failed less than the TTL ago. *)
Definition failing (r : Registry) (now : Z) (id : string) : Prop :=
  ∃ e, reqErrors r !! id = Some e ∧ (time_sub now (re_at e) ≤ requestErrorTTL)%Z.

Lemma health_commit_status r t now clock elapsed err :
  proxies r !! t_id t = Some (t_proxy t) →
  ∃ h, (health_commit r t now clock elapsed err).1 = Some h
    ∧ (dh_Reachable h = true ↔ err = None)
    ∧ (dh_Status h = "healthy" ↔ err = None ∧ ¬ failing r clock (t_id t))
    ∧ (dh_Status h ≠ "healthy" → dh_Status h = "error"
         ∧ dh_ErrorClass h = ErrorClass (ent_ProxyType (t_cfg t))).
Proof.
  intros Hp. unfold health_commit. rewrite bool_decide_eq_true_2 by done.
  destruct err as [e|]; [eexists; split; [done|]; simpl; naive_solver|].
  unfold recentRequestError, failing. cbn [reqErrors].
  destruct (reqErrors r !! t_id t) as [e|] eqn:E.
  - destruct (Z.ltb_spec requestErrorTTL (time_sub clock (re_at e))).
    + eexists. split; [done|]. simpl. split_and!; try done. split; [|done]. intros _.
      split; [done|]. intros (? & [= <-] & ?). lia.
    + eexists. split; [done|]. simpl. split_and!; try done. split; [done|].
      intros [_ []]. eauto.
  - eexists. split; [done|]. simpl. split_and!; try done. split; [|done]. intros _.
    split; [done|]. by intros (? & ? & ?).
Qed.

(** Without interference a health report is complete and right: there is a
    check for every registered datasource, in whatever order the workers finish,
    and its entry says reachable exactly if the check passed, healthy exactly if
    moreover no request failed within the last fifteen minutes, and otherwise
    error with the class of the proxy type. *)
Theorem HealthReport_complete close r now schedule :
  reg_inv r → map run_target schedule ≡ₚ health_targets r → Forall quiet schedule →
  (∀ id, is_Some (proxies r !! id) → ∃ c, c ∈ schedule ∧ t_id (run_target c) = id) ∧
  (∀ c err, c ∈ schedule → run_outcome c = Returned err →
   ∃ h, (HealthReport close r None now schedule).1 !! t_id (run_target c) = Some h
    ∧ (dh_Reachable h = true ↔ err = None)
    ∧ (dh_Status h = "healthy" ↔ err = None ∧ ¬ failing r (run_clock c) (t_id (run_target c)))
    ∧ (dh_Status h ≠ "healthy" → dh_Status h = "error"
         ∧ dh_ErrorClass h = ErrorClass (ent_ProxyType (t_cfg (run_target c))))).
Proof.
  intros Hinv Hperm Hq. split.
  - intros id [p Hp]. destruct (proj1 (proj1 (Hinv id)) (ltac:(eauto))) as [cfg Hcfg].
    assert (MkTarget id p cfg ∈ map run_target schedule) as Hin.
    { rewrite Hperm. by apply elem_of_health_targets. }
    apply list_elem_of_In, in_map_iff in Hin as (c & Hc & Hin). exists c.
    split; [by apply list_elem_of_In|]. by rewrite Hc.
  - intros c err Hc Ho.
    assert (run_target c ∈ health_targets r) as Ht.
    { rewrite <- Hperm. apply list_elem_of_In, in_map, list_elem_of_In, Hc. }
    apply elem_of_health_targets in Ht as Htp.
    unfold HealthReport. destruct (health_targets r) as [|t0 ts] eqn:Et;
      [by apply not_elem_of_nil in Ht|].
    rewrite (quiet_runs close now r schedule [] r); [|done| |done|done|done].
    + unfold commit_of. rewrite Ho. apply health_commit_status, Htp.
    + simpl. assert (map (t_id ∘ run_target) schedule = t_id <$> map run_target schedule) as ->
        by (symmetry; apply map_map).
      rewrite Hperm, <- Et. apply health_targets_NoDup.
Qed.

Lemma HealthReport_complete_witness :
  let r := (Register NewRegistry "d" demo_entry 1).1 in
  ∃ h, (HealthReport close_ok r None "t1" [MkRun demo_target [] (Returned None) 0 0]).1 !! "d" = Some h
       ∧ (dh_Reachable h = true ↔ @None error = None).
Proof.
  simpl.
  destruct (HealthReport_complete close_ok (Register NewRegistry "d" demo_entry 1).1 "t1"
              [MkRun demo_target [] (Returned None) 0 0]) as [_ H].
  - apply (reg_inv_op close_ok NewRegistry (OpRegister "d" demo_entry 1)).
    intros id. simpl. rewrite !lookup_empty. naive_solver.
  - vm_compute. reflexivity.
  - repeat constructor. by exists None.
  - destruct (H (MkRun demo_target [] (Returned None) 0 0) None) as (h & Hh & Hr & _).
    + by left.
    + done.
    + exists h. split; [exact Hh|exact Hr].
Defined.
