(* ===== verification/NetIP.v ===== *)
(** * net: addresses and networks

    [ParseIP], [ParseCIDR], [IPNet.Contains] and [JoinHostPort]. An address is its
    length in bytes and its big-endian value. *)

From S2P Require Import Prelude GoStrings.
#[local] Open Scope Z_scope.

Record IP := MkIP { ip_len : Z; ip_val : Z }.
Record IPNet := MkIPNet { net_ip : IP; net_mask : IP }.

#[global] Instance IP_eq_dec : EqDecision IP.
Proof. solve_decision. Defined.

(** netip.Addr: IPv4, or IPv6 with its zone. *)
Inductive Addr := Addr4 (v : Z) | Addr6 (v : Z) (zone : string).

(** ** Parsing *)

(** The dotted fields; [len] is the number of digits of the current one. *)
Fixpoint v4_fields (s : string) (val len : Z) (fields : list Z) : option (list Z) :=
  match s with
  | "" => if (len =? 0) then None else Some (fields ++ [val])
  | String c s' =>
      if is_digit c then
        if (len =? 1) && (val =? 0) then None
        else
          let val := val * 10 + digit_val c in
          if (255 <? val) then None else v4_fields s' val (len + 1) fields
      else if (code c =? 46) then
        if (len =? 0) then None
        else if (3 <=? Z.of_nat (length fields)) then None
        else v4_fields s' 0 0 (fields ++ [val])
      else None
  end.

Definition parseIPv4 (s : string) : option Z :=
  match v4_fields s 0 0 [] with
  | Some [a; b; c; d] => Some (((a * 256 + b) * 256 + c) * 256 + d)
  | _ => None
  end.

Definition hex_val (c : ascii) : option Z :=
  if in_range 48 57 (code c) then Some (code c - 48)
  else if in_range 97 102 (code c) then Some (code c - 87)
  else if in_range 65 70 (code c) then Some (code c - 55)
  else None.

(** A run of hexadecimal digits: how many, their value and the rest. A fifth digit
    is an error. *)
Fixpoint hex_run (s : string) (off : nat) (acc : Z) : option (nat * Z * string) :=
  match s with
  | "" => Some (off, acc, s)
  | String c s' =>
      match hex_val c with
      | Some d => if (3 <? off)%nat then None else hex_run s' (S off) (acc * 16 + d)
      | None => Some (off, acc, s)
      end
  end.

(** The loop over the fields; [fuel] counts the 16-bit fields still missing, and
    [ell] is the position of "::". *)
Fixpoint v6_fields (fuel : nat) (s : string) (fields : list Z) (ell : option nat)
  : option (list Z * option nat) :=
  match fuel with
  | O => if String.eqb s "" then Some (fields, ell) else None
  | S fuel =>
      match hex_run s 0 0 with
      | None | Some (O, _, _) => None
      | Some (_, acc, rest) =>
          match rest with
          | "" => Some (fields ++ [acc], ell)
          | String c more =>
              if (code c =? 46) then
                if match ell with None => negb (length fields =? 6)%nat | Some _ => false end
                then None
                else if (6 <? length fields)%nat then None
                else match parseIPv4 s with
                     | Some v => Some (fields ++ [v / 65536; v mod 65536], ell)
                     | None => None
                     end
              else if negb (code c =? 58) then None
              else
                match more with
                | "" => None
                | String c' more' =>
                    if (code c' =? 58) then
                      match ell with
                      | Some _ => None
                      | None =>
                          let ell := Some (length (fields ++ [acc])) in
                          if String.eqb more' "" then Some (fields ++ [acc], ell)
                          else v6_fields fuel more' (fields ++ [acc]) ell
                      end
                    else v6_fields fuel more (fields ++ [acc]) ell
                end
          end
      end
  end.

Definition v6_value (fields : list Z) : Z := foldl (λ acc f, acc * 65536 + f) 0 fields.

(** The fields with "::" expanded: it stands for at least one field. *)
Definition v6_expand (r : option (list Z * option nat)) : option Z :=
  match r with
  | None => None
  | Some (fields, ell) =>
      if (length fields <? 8)%nat then
        match ell with
        | None => None
        | Some e => Some (v6_value (take e fields ++ replicate (8 - length fields) 0 ++ drop e fields))
        end
      else match ell with Some _ => None | None => Some (v6_value fields) end
  end.

Definition parseIPv6 (input : string) : option Addr :=
  let '(s, zone, found) := Cut input "%" in
  if found && String.eqb zone "" then None
  else
    let parsed :=
      match s with
      | String a (String b rest) =>
          if (code a =? 58) && (code b =? 58) then
            if String.eqb rest "" then Some 0 else v6_expand (v6_fields 8 rest [] (Some 0%nat))
          else v6_expand (v6_fields 8 s [] None)
      | _ => v6_expand (v6_fields 8 s [] None)
      end in
    match parsed with Some v => Some (Addr6 v zone) | None => None end.

(** [netip.ParseAddr]: the first of '.', ':' and '%' decides. *)
Fixpoint addr_kind (s : string) : option ascii :=
  match s with
  | "" => None
  | String c s' =>
      if (code c =? 46) || (code c =? 58) || (code c =? 37) then Some c else addr_kind s'
  end.

Definition ParseAddr (s : string) : option Addr :=
  match addr_kind s with
  | Some c =>
      if (code c =? 46) then match parseIPv4 s with Some v => Some (Addr4 v) | None => None end
      else if (code c =? 58) then parseIPv6 s
      else None
  | None => None
  end.

Definition v4InV6 (v : Z) : Z := 65535 * 4294967296 + v.

Definition As16 (a : Addr) : IP :=
  match a with Addr4 v => MkIP 16 (v4InV6 v) | Addr6 v _ => MkIP 16 v end.

Definition Zone (a : Addr) : string := match a with Addr4 _ => "" | Addr6 _ z => z end.
Definition BitLen (a : Addr) : Z := match a with Addr4 _ => 32 | Addr6 _ _ => 128 end.

Definition ParseIP (s : string) : option IP :=
  match ParseAddr s with
  | Some a => if String.eqb (Zone a) "" then Some (As16 a) else None
  | None => None
  end.

(** [IP.To4]. *)
Definition To4 (ip : IP) : option IP :=
  if (ip_len ip =? 4) then Some ip
  else if (ip_len ip =? 16) && (Z.shiftr (ip_val ip) 32 =? 65535)
  then Some (MkIP 4 (Z.land (ip_val ip) (Z.ones 32)))
  else None.

(** [CIDRMask(ones, bits)] for 0 <= ones <= bits and bits 32 or 128. *)
Definition CIDRMask (ones bits : Z) : IP :=
  MkIP (bits / 8) (Z.shiftl (Z.ones ones) (bits - ones)).

(** [ip.Mask(mask)] for a 16-byte address. *)
Definition ip_mask (ip mask : IP) : IP :=
  if (ip_len mask =? 4) then
    match To4 ip with
    | Some ip4 => MkIP 4 (Z.land (ip_val ip4) (ip_val mask))
    | None => MkIP 0 0
    end
  else MkIP 16 (Z.land (ip_val ip) (ip_val mask)).

(** Decimal digits; [None] for none, for other characters and past 0xFFFFFF. *)
Fixpoint dtoi_go (s : string) (n : Z) : option Z :=
  match s with
  | "" => Some n
  | String c s' =>
      if is_digit c then
        let n := n * 10 + digit_val c in if (16777215 <=? n) then None else dtoi_go s' n
      else None
  end.
Definition dtoi (s : string) : option Z := if String.eqb s "" then None else dtoi_go s 0.

Definition ParseCIDR (s : string) : option (IP * IPNet) :=
  match Cut s "/" with
  | (addr, mask, true) =>
      match ParseAddr addr, dtoi mask with
      | Some a, Some n =>
          if negb (String.eqb (Zone a) "") || (BitLen a <? n) then None
          else
            let m := CIDRMask n (BitLen a) in
            Some (As16 a, MkIPNet (ip_mask (As16 a) m) m)
      | _, _ => None
      end
  | _ => None
  end.

(** [networkNumberAndMask]: [None] when the lengths do not fit. *)
Definition networkNumberAndMask (n : IPNet) : option (IP * Z) :=
  let fit (ip : IP) :=
    if (ip_len (net_mask n) =? 4) then
      if (ip_len ip =? 4) then Some (ip, ip_val (net_mask n)) else None
    else if (ip_len (net_mask n) =? 16) then
      Some (ip, if (ip_len ip =? 4) then Z.land (ip_val (net_mask n)) (Z.ones 32)
                else ip_val (net_mask n))
    else None in
  match To4 (net_ip n) with
  | Some ip => fit ip
  | None => if (ip_len (net_ip n) =? 16) then fit (net_ip n) else None
  end.

(** [n.Contains(ip)]. *)
Definition Contains_ip (n : IPNet) (ip : IP) : bool :=
  let ip := default ip (To4 ip) in
  match networkNumberAndMask n with
  | None => false
  | Some (nn, m) =>
      (ip_len ip =? ip_len nn) && (Z.land (ip_val nn) m =? Z.land (ip_val ip) m)
  end.

Definition JoinHostPort (host port : string) : string :=
  if Contains host ":" then "[" +:+ host +:+ "]:" +:+ port else host +:+ ":" +:+ port.

(** ** Examples *)

Example parse_v4 : ParseIP "10.1.2.3" = Some (MkIP 16 (v4InV6 167838211)).
Proof. vm_compute. reflexivity. Qed.
Example parse_v4_zero : ParseIP "10.01.2.3" = None.
Proof. vm_compute. reflexivity. Qed.
Example parse_v6 : ParseIP "2001:db8::1" = Some (MkIP 16 42540766411282592856903984951653826561).
Proof. vm_compute. reflexivity. Qed.
Example parse_v6_v4 : ParseIP "::ffff:10.1.2.3" = Some (MkIP 16 (v4InV6 167838211)).
Proof. vm_compute. reflexivity. Qed.
Example parse_v6_zone : ParseIP "fe80::1%eth0" = None.
Proof. vm_compute. reflexivity. Qed.
Example contains_v4 :
  (λ n, (Contains_ip n.2) <$> ParseIP "10.1.255.7") <$> ParseCIDR "10.1.2.3/16" = Some (Some true).
Proof. vm_compute. reflexivity. Qed.

(** ** Membership is agreement on the prefix *)

Lemma land_prefix_mask x n k :
  0 ≤ n → 0 ≤ k → 0 ≤ x < 2 ^ (n + k) →
  Z.land x (Z.shiftl (Z.ones n) k) = Z.shiftl (Z.shiftr x k) k.
Proof.
  intros Hn Hk Hx. apply Z.bits_inj'. intros i Hi.
  rewrite Z.land_spec, !Z.shiftl_spec by done.
  destruct (Z.ltb_spec i k) as [Hlt|Hge].
  - rewrite !(Z.testbit_neg_r _ (i - k)) by lia. apply andb_false_r.
  - rewrite Z.shiftr_spec by lia. replace (i - k + k) with i by lia.
    destruct (Z.ltb_spec (i - k) n) as [Hin|Hout].
    + rewrite Z.ones_spec_low by lia. apply andb_true_r.
    + rewrite Z.ones_spec_high by lia. rewrite andb_false_r. symmetry.
      destruct (decide (x = 0)) as [->|Hx0]; [apply Z.bits_0|].
      apply Z.bits_above_log2; [lia|].
      assert (Z.log2 x < n + k) by (apply Z.log2_lt_pow2; lia). lia.
Qed.

Lemma land_prefix_eq x y n k :
  0 ≤ n → 0 ≤ k → 0 ≤ x < 2 ^ (n + k) → 0 ≤ y < 2 ^ (n + k) →
  Z.land x (Z.shiftl (Z.ones n) k) = Z.land y (Z.shiftl (Z.ones n) k) ↔ x / 2 ^ k = y / 2 ^ k.
Proof.
  intros. rewrite !land_prefix_mask by done.
  rewrite <- !Z.shiftr_div_pow2 by done. split; [|by intros ->].
  intros E. apply (f_equal (λ z, Z.shiftr z k)) in E.
  rewrite !Z.shiftr_shiftl_l, Z.sub_diag, !Z.shiftl_0_r in E by lia. done.
Qed.

Lemma To4_v4 v : 0 ≤ v < 2 ^ 32 → To4 (MkIP 16 (v4InV6 v)) = Some (MkIP 4 v).
Proof.
  intros Hv. unfold To4, v4InV6. cbn [ip_len ip_val].
  change (16 =? 4) with false. change (16 =? 16) with true. cbn [andb].
  rewrite Z.shiftr_div_pow2, Z.land_ones by lia.
  replace ((65535 * 4294967296 + v) / 2 ^ 32) with 65535
    by (change 4294967296 with (2 ^ 32); rewrite Z.add_comm, Z.div_add by lia;
        rewrite Z.div_small by lia; done).
  rewrite Z.eqb_refl. do 2 f_equal.
  change 4294967296 with (2 ^ 32). rewrite Z.add_comm, Z.mod_add, Z.mod_small by lia. done.
Qed.

(** The network of an IPv4 prefix of [n] bits. *)
Definition v4_net (v n : Z) : IPNet :=
  MkIPNet (ip_mask (As16 (Addr4 v)) (CIDRMask n 32)) (CIDRMask n 32).

Lemma Contains_v4 v n w :
  0 ≤ v < 2 ^ 32 → 0 ≤ n ≤ 32 → 0 ≤ w < 2 ^ 32 →
  Contains_ip (v4_net v n) (MkIP 16 (v4InV6 w)) = true ↔ v / 2 ^ (32 - n) = w / 2 ^ (32 - n).
Proof.
  intros Hv Hn Hw. unfold Contains_ip, v4_net, networkNumberAndMask, ip_mask, CIDRMask.
  cbn [net_ip net_mask ip_len As16]. change (32 / 8 =? 4) with true. cbn iota.
  rewrite (To4_v4 v), (To4_v4 w) by done. cbn [ip_val].
  assert (∀ x, To4 (MkIP 4 x) = Some (MkIP 4 x)) as -> by done.
  cbn [from_option ip_len ip_val]. unfold id. cbn [ip_len ip_val].
  change (4 =? 4) with true. cbn iota beta delta [andb ip_len ip_val]. change (4 =? 4) with true. cbn [andb].
  rewrite Z.eqb_eq. rewrite <- Z.land_assoc, Z.land_diag.
  apply land_prefix_eq; try lia; replace (n + (32 - n)) with 32 by lia; done.
Qed.

(** The fields of a dotted address are bytes. *)
Lemma v4_fields_bytes s val len fields l :
  v4_fields s val len fields = Some l → 0 ≤ val ≤ 255 → Forall (λ x, 0 ≤ x ≤ 255) fields →
  Forall (λ x, 0 ≤ x ≤ 255) l.
Proof.
  revert val len fields. induction s as [|c s IH]; intros val len fields H Hv Hf; simpl in H.
  - case_match; [done|]. injection H as <-. apply Forall_app_2; [done|]. by constructor.
  - destruct (is_digit c) eqn:Ed.
    + case_match; [done|]. destruct (Z.ltb_spec 255 (val * 10 + digit_val c)); [done|].
      apply IH in H; [done| |done]. unfold is_digit, in_range, digit_val in *. bool_to_prop. lia.
    + repeat case_match; try done. apply IH in H; [done|lia|].
      apply Forall_app_2; [done|]. by constructor.
Qed.

Lemma parseIPv4_range s v : parseIPv4 s = Some v → 0 ≤ v < 2 ^ 32.
Proof.
  unfold parseIPv4. destruct (v4_fields s 0 0 []) as [l|] eqn:E; [|done].
  apply v4_fields_bytes in E; [|lia|constructor].
  destruct l as [|a [|b [|c [|d [|]]]]]; try done. intros [= <-].
  apply Forall_cons in E as [Ha E]. apply Forall_cons in E as [Hb E].
  apply Forall_cons in E as [Hc E]. apply Forall_cons in E as [Hd _]. lia.
Qed.

Lemma dtoi_range s n : dtoi s = Some n → 0 ≤ n.
Proof.
  unfold dtoi. case_match; [done|].
  assert (∀ s n m, dtoi_go s n = Some m → 0 ≤ n → 0 ≤ m) as Hgo.
  { clear. induction s as [|c s IH]; intros n m H Hn; simpl in H; [by injection H as <-|].
    destruct (is_digit c) eqn:Ed; [|done]. case_match; [done|]. apply IH in H; [done|].
    unfold is_digit, in_range, digit_val in *. bool_to_prop. lia. }
  intros Hd. by apply Hgo in Hd.
Qed.

Lemma v4_fields_kind s val len fields l :
  v4_fields s val len fields = Some l → (length fields + 1 < length l)%nat →
  addr_kind s = Some (chr 46).
Proof.
  revert val len fields. induction s as [|c s IH]; intros val len fields H Hl; simpl in H.
  - case_match; [done|]. injection H as <-. rewrite length_app in Hl. simpl in Hl. lia.
  - simpl. destruct (is_digit c) eqn:Ed.
    + repeat case_match; try done; [|by eapply IH].
      unfold is_digit, in_range in *. bool_to_prop. lia.
    + destruct (Z.eqb_spec (code c) 46) as [E|E]; [|done]. simpl. f_equal. by rewrite <- E, chr_code.
Qed.

Lemma ParseAddr_v4 s v : parseIPv4 s = Some v → ParseAddr s = Some (Addr4 v).
Proof.
  intros H. unfold ParseAddr.
  assert (addr_kind s = Some (chr 46)) as ->.
  { unfold parseIPv4 in H. destruct (v4_fields s 0 0 []) as [l|] eqn:E; [|done].
    destruct l as [|a [|b [|c [|d [|]]]]]; try done. eapply v4_fields_kind; [exact E|]. simpl. lia. }
  change (code (chr 46) =? 46) with true. by rewrite H.
Qed.

Lemma ParseIP_v4 s v : parseIPv4 s = Some v → ParseIP s = Some (MkIP 16 (v4InV6 v)).
Proof. intros H. unfold ParseIP. by rewrite (ParseAddr_v4 s v H). Qed.

(** An IPv4 prefix in text: "a.b.c.d/n", or a bare address for one host. *)
Definition v4_prefix (h : string) : option (Z * Z) :=
  match Cut h "/" with
  | (a, m, true) =>
      match parseIPv4 a, dtoi m with
      | Some v, Some n => if 32 <? n then None else Some (v, n)
      | _, _ => None
      end
  | _ => match parseIPv4 h with Some v => Some (v, 32) | None => None end
  end.

Lemma v4_prefix_range h v n : v4_prefix h = Some (v, n) → 0 ≤ v < 2 ^ 32 ∧ 0 ≤ n ≤ 32.
Proof.
  unfold v4_prefix. destruct (Cut h "/") as [[a m] []].
  - destruct (parseIPv4 a) eqn:Ea; [|done]. destruct (dtoi m) eqn:Em; [|done].
    destruct (Z.ltb_spec 32 z0); [done|]. intros [= <- <-].
    apply parseIPv4_range in Ea. apply dtoi_range in Em. lia.
  - destruct (parseIPv4 h) eqn:Ea; [|done]. intros [= <- <-]. apply parseIPv4_range in Ea. lia.
Qed.
