(* ===== verification/NetPrefix.v ===== *)
(** * net/netip: prefixes and the text of addresses

    [ParsePrefix], [Masked], [Contains], [Next] and [String], and the text of
    net.IPNet. The zero [Addr] is [None]. *)

From S2P Require Import Prelude GoStrings NetIP.
#[local] Open Scope Z_scope.

(** A prefix; a number of bits below 0 marks an invalid one. *)
Record Prefix := MkPrefix { p_addr : Addr; p_bits : Z }.

#[global] Instance Addr_eq_dec : EqDecision Addr.
Proof. solve_decision. Defined.
#[global] Instance Prefix_eq_dec : EqDecision Prefix.
Proof. solve_decision. Defined.

Definition Is4 (a : Addr) : bool := match a with Addr4 _ => true | Addr6 _ _ => false end.

(** [PrefixFrom]: drops the zone, and is invalid when there are too many bits. *)
Definition PrefixFrom (a : Addr) (bits : Z) : Prefix :=
  let a := match a with Addr4 v => Addr4 v | Addr6 v _ => Addr6 v "" end in
  MkPrefix a (if (0 <=? bits) && (bits <=? BitLen a) then bits else -1).

(** The text before and after the last '/'. *)
Fixpoint cut_last_slash (s : string) : option (string * string) :=
  match s with
  | "" => None
  | String c s' =>
      match cut_last_slash s' with
      | Some (a, b) => Some (String c a, b)
      | None => if (code c =? 47) then Some ("", s') else None
      end
  end.

Definition bad_bits (s : string) : bool :=
  match s with
  | String c (String _ _) => negb (in_range 49 57 (code c))
  | _ => false
  end.

Definition ParsePrefix (s : string) : option Prefix :=
  match cut_last_slash s with
  | None => None
  | Some (ipStr, bitsStr) =>
      match ParseAddr ipStr with
      | None => None
      | Some a =>
          if negb (String.eqb (Zone a) "") || bad_bits bitsStr then None
          else match Atoi bitsStr with
               | None => None
               | Some bits => if (bits <? 0) || (BitLen a <? bits) then None
                              else Some (PrefixFrom a bits)
               end
      end
  end.

(** The address with the bits after the first [n] cleared. *)
Definition mask_addr (a : Addr) (n : Z) : Addr :=
  let clear v := Z.shiftl (Z.shiftr v (BitLen a - n)) (BitLen a - n) in
  match a with Addr4 v => Addr4 (clear v) | Addr6 v _ => Addr6 (clear v) "" end.

Definition Masked (p : Prefix) : Prefix :=
  if (p_bits p <? 0) then p else MkPrefix (mask_addr (p_addr p) (p_bits p)) (p_bits p).

Definition Contains_addr (p : Prefix) (ip : option Addr) : bool :=
  if (p_bits p <? 0) then false
  else
    match p_addr p, ip with
    | Addr4 n, Some (Addr4 v) => Z.shiftr (Z.lxor v n) (32 - p_bits p) =? 0
    | Addr6 n _, Some (Addr6 v z) =>
        String.eqb z "" && (Z.shiftr (Z.lxor v n) (128 - p_bits p) =? 0)
    | _, _ => false
    end.

(** [Addr.Next]; past the last address, the zero Addr. *)
Definition Next (ip : option Addr) : option Addr :=
  match ip with
  | Some (Addr4 v) => if (v + 1 =? 4294967296) then None else Some (Addr4 (v + 1))
  | Some (Addr6 v z) => if (v + 1 =? 2 ^ 128) then None else Some (Addr6 (v + 1) z)
  | None => None
  end.

(** ** Text *)

Definition v4_String (v : Z) : string :=
  Itoa (v / 16777216) +:+ "." +:+ Itoa (v / 65536 mod 256) +:+ "."
  +:+ Itoa (v / 256 mod 256) +:+ "." +:+ Itoa (v mod 256).

Definition v6_groups (v : Z) : list Z :=
  map (λ i, Z.shiftr v (16 * i) mod 65536) [7; 6; 5; 4; 3; 2; 1; 0].

(** Hexadecimal without leading zeros; at most four digits. *)
Fixpoint hex_text (fuel : nat) (z : Z) (acc : string) : string :=
  match fuel with
  | O => acc
  | S fuel => let acc := String (hex_digit (z mod 16)) acc in
              if (z <? 16) then acc else hex_text fuel (z / 16) acc
  end.

(** How many zero groups start here. *)
Fixpoint zero_run (l : list Z) : nat :=
  match l with 0 :: l' => S (zero_run l') | _ => O end.

(** The first longest run of at least two zero groups: its start and its length. *)
Definition longest_run (l : list Z) : nat * nat :=
  foldl (λ '(s, n) i, let m := zero_run (drop i l) in
          if (n <? m)%nat && (1 <? m)%nat then (i, m) else (s, n)) (O, O) (seq 0 8).

Definition v6_String (v : Z) : string :=
  let l := v6_groups v in
  let hex := map (λ g, hex_text 4 g "") l in
  let '(s, n) := longest_run l in
  if (n =? 0)%nat then Join hex ":"
  else Join (take s hex) ":" +:+ "::" +:+ Join (drop (s + n) hex) ":".

Definition Addr_String (ip : option Addr) : string :=
  match ip with
  | None => "invalid IP"
  | Some (Addr4 v) => v4_String v
  | Some (Addr6 v z) =>
      (if Z.shiftr v 32 =? 65535 then "::ffff:" +:+ v4_String (Z.land v (Z.ones 32)) else v6_String v)
      +:+ (if String.eqb z "" then "" else "%" +:+ z)
  end.

Definition Prefix_String (p : Prefix) : string :=
  if (p_bits p <? 0) then "invalid Prefix"
  else Addr_String (Some (p_addr p)) +:+ "/" +:+ Itoa (p_bits p).

(** The length of a mask of leading ones; -1 for another mask. *)
Definition mask_ones (m : IP) : Z :=
  let bits := 8 * ip_len m in
  match list_find (λ n, ip_val m = Z.shiftl (Z.ones n) (bits - n)) (seqZ 0 (bits + 1)) with
  | Some (_, n) => n
  | None => -1
  end.

(** [net.IP.String] and [net.IPNet.String] for a canonical mask. *)
Definition IP_String (ip : IP) : string :=
  match To4 ip with
  | Some ip4 => v4_String (ip_val ip4)
  | None => if (ip_len ip =? 16) then v6_String (ip_val ip) else "<nil>"
  end.

Definition IPNet_String (n : IPNet) : string :=
  match networkNumberAndMask n with
  | None => "<nil>"
  | Some (nn, m) => IP_String nn +:+ "/" +:+ Itoa (mask_ones (MkIP (ip_len nn) m))
  end.

Example prefix_text :
  Prefix_String <$> (Masked <$> ParsePrefix "10.1.2.3/20") = Some "10.1.0.0/20".
Proof. vm_compute. reflexivity. Qed.
Example prefix_v6 :
  Prefix_String <$> (Masked <$> ParsePrefix "2001:db8:0:0:1::9/80") = Some "2001:db8:0:0:1::/80".
Proof. vm_compute. reflexivity. Qed.
Example net_text : IPNet_String ∘ snd <$> ParseCIDR "192.168.7.9/30" = Some "192.168.7.8/30".
Proof. vm_compute. reflexivity. Qed.

(** ** Facts *)

(** The digits of one field: its value and how many there are. *)
Fixpoint scan_field (s : string) (val len : Z) : option (Z * Z) :=
  match s with
  | "" => Some (val, len)
  | String c s' =>
      if is_digit c then
        if (len =? 1) && (val =? 0) then None
        else let val := val * 10 + digit_val c in
             if 255 <? val then None else scan_field s' val (len + 1)
      else None
  end.

Lemma v4_fields_scan s val len v l rest fields :
  scan_field s val len = Some (v, l) →
  v4_fields (s +:+ rest) val len fields = v4_fields rest v l fields.
Proof.
  revert val len. induction s as [|c s IH]; intros val len; simpl; [by intros [= -> ->]|].
  destruct (is_digit c); [|done]. case_match; [done|]. case_match; [done|]. apply IH.
Qed.

Lemma scan_byte a : 0 ≤ a < 256 → ∃ l, scan_field (Itoa a) 0 0 = Some (a, l) ∧ l ≠ 0.
Proof.
  intros Ha.
  assert (forallb (λ a, match scan_field (Itoa a) 0 0 with
                        | Some (v, l) => (v =? a) && negb (l =? 0)
                        | None => false
                        end) (seqZ 0 256) = true) as H by (vm_compute; reflexivity).
  rewrite forallb_forall in H. specialize (H a ltac:(apply list_elem_of_In, elem_of_seqZ; lia)).
  destruct (scan_field (Itoa a) 0 0) as [[v l]|]; [|done]. bool_to_prop. exists l. naive_solver.
Qed.

Lemma v4_fields_dot a rest fields :
  0 ≤ a < 256 → (length fields < 3)%nat →
  v4_fields (Itoa a +:+ "." +:+ rest) 0 0 fields = v4_fields rest 0 0 (fields ++ [a]).
Proof.
  intros Ha Hf. destruct (scan_byte a Ha) as (l & Hs & Hl). rewrite (v4_fields_scan _ _ _ _ _ _ _ Hs).
  change ("." +:+ rest) with (String (chr 46) rest). cbn [v4_fields].
  change (is_digit (chr 46)) with false. change (code (chr 46) =? 46) with true. cbv iota.
  replace (l =? 0) with false by (symmetry; by apply Z.eqb_neq).
  destruct (Z.leb_spec 3 (Z.of_nat (length fields))); [lia|done].
Qed.

(** Reading back the text of an address. *)
Lemma parseIPv4_String v : 0 ≤ v < 2 ^ 32 → parseIPv4 (v4_String v) = Some v.
Proof.
  intros Hv. unfold parseIPv4, v4_String.
  set (a := v / 16777216). set (b := v / 65536 mod 256). set (c := v / 256 mod 256). set (d := v mod 256).
  assert (0 ≤ a < 256 ∧ 0 ≤ b < 256 ∧ 0 ≤ c < 256 ∧ 0 ≤ d < 256
          ∧ v = ((a * 256 + b) * 256 + c) * 256 + d) as (Ha & Hb & Hc & Hd & E).
  { unfold a, b, c, d. pose proof (Z.div_lt_upper_bound v 16777216 256). Z.div_mod_to_equations. lia. }
  rewrite !v4_fields_dot by (done || simpl; lia). destruct (scan_byte d Hd) as (l & Hs & Hl).
  rewrite <- (app_nil_r (Itoa d)), (v4_fields_scan _ _ _ _ _ _ _ Hs). cbn [v4_fields].
  replace (l =? 0) with false by (symmetry; by apply Z.eqb_neq). cbn [app]. by rewrite <- E.
Qed.

Lemma v4_String_inj v w : 0 ≤ v < 2 ^ 32 → 0 ≤ w < 2 ^ 32 → v4_String v = v4_String w → v = w.
Proof. intros Hv Hw E. apply parseIPv4_String in Hv, Hw. rewrite E in Hv. congruence. Qed.

(** An IPv4 prefix in range. *)
Definition wf_prefix4 (p : Prefix) : Prop :=
  ∃ v, p_addr p = Addr4 v ∧ 0 ≤ v < 2 ^ 32 ∧ 0 ≤ p_bits p ≤ 32.

Lemma Contains_addr4 v n w :
  0 ≤ v < 2 ^ 32 → 0 ≤ n ≤ 32 → 0 ≤ w < 2 ^ 32 →
  Contains_addr (MkPrefix (Addr4 v) n) (Some (Addr4 w)) = true ↔ v / 2 ^ (32 - n) = w / 2 ^ (32 - n).
Proof.
  intros Hv Hn Hw. unfold Contains_addr. cbn [p_addr p_bits].
  destruct (Z.ltb_spec n 0); [lia|]. rewrite Z.eqb_eq, Z.shiftr_lxor, Z.lxor_eq_0_iff by lia.
  rewrite !Z.shiftr_div_pow2 by lia. naive_solver.
Qed.

(** The first address of the network. *)
Definition prefix_base (v n : Z) : Z := v / 2 ^ (32 - n) * 2 ^ (32 - n).

Lemma mask_addr4 v n : 0 ≤ n ≤ 32 → mask_addr (Addr4 v) n = Addr4 (prefix_base v n).
Proof.
  intros Hn. unfold mask_addr, prefix_base. cbn [BitLen].
  by rewrite Z.shiftl_mul_pow2, Z.shiftr_div_pow2 by lia.
Qed.

Lemma prefix_base_range v n :
  0 ≤ v < 2 ^ 32 → 0 ≤ n ≤ 32 → 0 ≤ prefix_base v n ∧ prefix_base v n + 2 ^ (32 - n) ≤ 2 ^ 32.
Proof.
  intros Hv Hn. unfold prefix_base.
  assert (2 ^ 32 = 2 ^ n * 2 ^ (32 - n)) as E by (rewrite <- Z.pow_add_r by lia; f_equal; lia).
  assert (0 < 2 ^ (32 - n)) by (apply Z.pow_pos_nonneg; lia).
  assert (v / 2 ^ (32 - n) < 2 ^ n) by (apply Z.div_lt_upper_bound; lia).
  pose proof (Z.div_pos v (2 ^ (32 - n))). nia.
Qed.

(** The addresses of a network are an interval. *)
Lemma prefix_interval v n w :
  0 ≤ n ≤ 32 →
  v / 2 ^ (32 - n) = w / 2 ^ (32 - n) ↔ prefix_base v n ≤ w < prefix_base v n + 2 ^ (32 - n).
Proof.
  intros Hn. unfold prefix_base. set (m := 2 ^ (32 - n)).
  assert (0 < m) by (apply Z.pow_pos_nonneg; lia).
  split.
  - intros E. rewrite E. pose proof (Z.mod_pos_bound w m). pose proof (Z.div_mod w m). lia.
  - intros Hw. apply (Z.div_unique w m (v / m) (w - v / m * m)); lia.
Qed.

Lemma ParseAddr_range a v : ParseAddr a = Some (Addr4 v) → 0 ≤ v < 2 ^ 32.
Proof.
  unfold ParseAddr. intros Ea. destruct (addr_kind a); [|done]. case_match.
  - destruct (parseIPv4 a) eqn:E4; [|done]. injection Ea as ->. by apply parseIPv4_range in E4.
  - case_match; [|done]. unfold parseIPv6 in Ea. destruct (Cut a "%") as [[] []]; repeat case_match; done.
Qed.

Lemma ParsePrefix_wf s p : ParsePrefix s = Some p →
  0 ≤ p_bits p ≤ BitLen (p_addr p) ∧ (Is4 (p_addr p) = true → wf_prefix4 p).
Proof.
  unfold ParsePrefix. destruct (cut_last_slash s) as [[a b]|]; [|done].
  destruct (ParseAddr a) as [ad|] eqn:Ea; [|done]. case_match; [done|].
  destruct (Atoi b) as [bits|]; [|done].
  destruct (Z.ltb_spec bits 0); [done|]. destruct (Z.ltb_spec (BitLen ad) bits); [done|].
  intros [= <-]. unfold PrefixFrom.
  assert (BitLen match ad with Addr4 v => Addr4 v | Addr6 v _ => Addr6 v "" end = BitLen ad) as El
    by (by destruct ad).
  cbn [p_addr p_bits]. rewrite El. rewrite (proj2 (Z.leb_le 0 bits)), (proj2 (Z.leb_le bits (BitLen ad))) by done.
  split; [simpl; lia|]. destruct ad as [v|]; [|done]. intros _. exists v. cbn [p_addr p_bits andb BitLen] in *.
  split; [done|]. split; [|lia].
  by apply ParseAddr_range in Ea.
Qed.

(** ** Masks *)

Lemma mask_ones_v4 n : 0 ≤ n ≤ 32 → mask_ones (CIDRMask n 32) = n.
Proof.
  intros Hn. assert (forallb (λ n, mask_ones (CIDRMask n 32) =? n) (seqZ 0 33) = true) as H
    by (vm_compute; reflexivity).
  rewrite forallb_forall in H. apply Z.eqb_eq, H, list_elem_of_In, elem_of_seqZ. lia.
Qed.

Lemma mask_ones_v6 n : 0 ≤ n ≤ 128 → mask_ones (CIDRMask n 128) = n.
Proof.
  intros Hn. assert (forallb (λ n, mask_ones (CIDRMask n 128) =? n) (seqZ 0 129) = true) as H
    by (vm_compute; reflexivity).
  rewrite forallb_forall in H. apply Z.eqb_eq, H, list_elem_of_In, elem_of_seqZ. lia.
Qed.

Lemma To4_v4_net v n : 0 ≤ v < 2 ^ 32 → 0 ≤ n ≤ 32 →
  To4 (net_ip (v4_net v n)) = Some (MkIP 4 (prefix_base v n)).
Proof.
  intros Hv Hn. unfold v4_net, ip_mask, CIDRMask, prefix_base. cbn [net_ip ip_len As16].
  change (32 / 8 =? 4) with true. cbn iota. rewrite To4_v4 by done. cbn [ip_val].
  rewrite land_prefix_mask by (try lia; by replace (n + (32 - n)) with 32 by lia).
  unfold To4. cbn [ip_len]. change (4 =? 4) with true. cbn iota.
  by rewrite Z.shiftl_mul_pow2, Z.shiftr_div_pow2 by lia.
Qed.

(** A single IPv4 host kept in its 16-byte form is the network of 32 bits. *)
Lemma Contains_single v ip :
  0 ≤ v < 2 ^ 32 →
  Contains_ip (MkIPNet (MkIP 16 (v4InV6 v)) (CIDRMask 32 32)) ip = Contains_ip (v4_net v 32) ip.
Proof.
  intros Hv. unfold Contains_ip.
  assert (networkNumberAndMask (MkIPNet (MkIP 16 (v4InV6 v)) (CIDRMask 32 32))
          = networkNumberAndMask (v4_net v 32)) as ->; [|done].
  unfold networkNumberAndMask. rewrite To4_v4_net by lia. cbn [net_ip]. rewrite To4_v4 by done.
  unfold prefix_base. change (2 ^ (32 - 32)) with 1. by rewrite Z.div_1_r, Z.mul_1_r.
Qed.

(** A 16-byte address that has a 4-byte form. *)
Lemma To4_16 v ip4 : To4 (MkIP 16 v) = Some ip4 →
  ∃ w, 0 ≤ w < 2 ^ 32 ∧ v = v4InV6 w ∧ ip4 = MkIP 4 w.
Proof.
  unfold To4. cbn [ip_len ip_val]. change (16 =? 4) with false. change (16 =? 16) with true. cbn [andb].
  rewrite Z.shiftr_div_pow2 by lia. destruct (Z.eqb_spec (v / 2 ^ 32) 65535) as [E|]; [|done].
  intros [= <-]. exists (v mod 2 ^ 32). pose proof (Z.mod_pos_bound v (2 ^ 32)).
  rewrite Z.land_ones by lia. split_and!; [lia|lia| |done].
  unfold v4InV6. pose proof (Z.div_mod v (2 ^ 32)). lia.
Qed.

(** An IPv6 network of at most 32 bits has no 4-byte form. *)
Lemma To4_v6_short v n : 0 ≤ n ≤ 32 → To4 (MkIP 16 (Z.land v (Z.shiftl (Z.ones n) (128 - n)))) = None.
Proof.
  intros Hn. destruct (To4 _) as [ip4|] eqn:E; [|done]. exfalso.
  apply To4_16 in E as (w & Hw & E & _).
  assert (Z.testbit (v4InV6 w) 32 = false) as Hf.
  { rewrite <- E, Z.land_spec, Z.shiftl_spec_low by lia. apply andb_false_r. }
  assert (Z.testbit (v4InV6 w) 32 = true) as Ht; [|congruence].
  replace 32 with (0 + 32) by lia. rewrite <- Z.shiftr_spec, Z.shiftr_div_pow2 by lia.
  unfold v4InV6. change 4294967296 with (2 ^ 32). rewrite Z.add_comm, Z.div_add by lia.
  rewrite Z.div_small by lia. done.
Qed.
