(* ===== verification/GoAny.v ===== *)
(** * encoding/json: dynamic values and numbers

    [Marshal] of values of type [any], with Go's shortest float64 notation, and
    decoding into integer, bool and list fields. *)

From S2P Require Import Prelude GoStrings GoJson.
From Stdlib Require Import SpecFloat.
#[local] Open Scope Z_scope.

(** ** float64 as Marshal writes it *)

(** The value of a positive finite float64 as a fraction. *)
Definition float_frac (m : positive) (e : Z) : Z * Z :=
  if (0 <=? e) then (Z.pos m * 2 ^ e, 1) else (Z.pos m, 2 ^ (- e)).

(** num/den over 10^scale, rounded to the nearest integer, ties to even. *)
Definition round_scaled (num den scale : Z) : Z :=
  let '(num, den) := if (0 <=? scale) then (num, den * 10 ^ scale) else (num * 10 ^ (- scale), den) in
  let q := num / den in
  let r := num mod den in
  match 2 * r ?= den with
  | Lt => q
  | Gt => q + 1
  | Eq => if Z.even q then q else q + 1
  end.

(** The k with 10^(k-1) <= num/den < 10^k, searching from an upper bound. *)
Fixpoint dec_exponent (fuel : nat) (num den k : Z) : Z :=
  match fuel with
  | O => k
  | S fuel =>
      let below := if (0 <=? k - 1) then (num <? den * 10 ^ (k - 1))
                   else (num * 10 ^ (1 - k) <? den) in
      if below then dec_exponent fuel num den (k - 1) else k
  end.

Fixpoint strip_zeros (fuel : nat) (d scale : Z) : Z * Z :=
  match fuel with
  | O => (d, scale)
  | S fuel => if (d mod 10 =? 0) then strip_zeros fuel (d / 10) (scale + 1) else (d, scale)
  end.

(** The shortest digits d and exponent with d * 10^scale read back as the value:
    [fuel] is the number of lengths left to try, up to 17 digits. *)
Fixpoint shortest (fuel : nat) (f : spec_float) (num den k n : Z) : Z * Z :=
  let d := round_scaled num den (k - n) in
  match fuel with
  | O => strip_zeros 20 d (k - n)
  | S fuel =>
      if bool_decide (parse_float (Itoa d +:+ "e" +:+ Itoa (k - n)) = Some f)
      then strip_zeros 20 d (k - n)
      else shortest fuel f num den k (n + 1)
  end.

Definition zeros (n : Z) : string := bytes (replicate (Z.to_nat n) 48).

(** Digits [ds] with the decimal point after position [dp]. *)
Definition fixed_notation (ds : string) (dp : Z) : string :=
  let len := Z.of_nat (String.length ds) in
  if (dp <=? 0) then "0." +:+ zeros (- dp) +:+ ds
  else if (len <=? dp) then ds +:+ zeros (dp - len)
  else String.substring 0 (Z.to_nat dp) ds +:+ "."
       +:+ String.substring (Z.to_nat dp) (String.length ds) ds.

Definition exp_notation (ds : string) (dp : Z) : string :=
  let x := dp - 1 in
  let lead := String.substring 0 1 ds in
  let rest := String.substring 1 (String.length ds) ds in
  lead +:+ (if String.eqb rest "" then "" else "." +:+ rest) +:+ "e"
  +:+ (if (x <? 0) then "-" else "+")
  +:+ (if (0 <=? x) && (x <? 10) then "0" else "") +:+ Itoa (Z.abs x).

(** [None] for the values JSON cannot express. *)
Definition format_float (f : spec_float) : option string :=
  match f with
  | S754_zero s => Some (if s then "-0" else "0")
  | S754_finite s m e =>
      let '(num, den) := float_frac m e in
      let k := dec_exponent 700 num den 310 in
      let '(d, scale) := shortest 16 (S754_finite false m e) num den k 1 in
      let ds := Itoa d in
      let dp := Z.of_nat (String.length ds) + scale in
      let small := (num * 1000000 <? den) in
      let large := (den * 10 ^ 21 <=? num) in
      Some ((if s then "-" else "")
            +:+ (if small || large then exp_notation ds dp else fixed_notation ds dp))
  | _ => None
  end.

(** ** Marshal of any *)

Fixpoint marshal_any (v : any) : option json :=
  match v with
  | ANil => Some JNull
  | ABool b => Some (JBool b)
  | AFloat f => JNum <$> format_float f
  | AInt z => Some (JNum (Itoa z))
  | AStr s => Some (JStr s)
  | AStrs l => Some (JArr (map JStr l))
  | AList l => JArr <$> foldr (λ x acc, v ← marshal_any x; l ← acc; Some (v :: l)) (Some []) l
  | AMap kvs =>
      JObj <$> foldr (λ '(k, x) acc, v ← marshal_any x; l ← acc; Some ((k, v) :: l)) (Some []) kvs
  end.

(** A [map[string]any]; keys in increasing order. *)
Definition any_map (m : gmap string any) : any :=
  AMap (foldr (λ '(k, v) l, assoc_insert k v l) [] (map_to_list m)).

Definition marshal_any_map (m : gmap string any) : option json := marshal_any (any_map m).

(** ** Decoding into fields *)

(** An integer literal: no fraction and no exponent, within 64 bits. *)
Definition int_literal (lit : string) : option Z :=
  let '(neg, ds) := match lit with
                    | String c r => if (code c =? 45) then (true, r) else (false, lit)
                    | "" => (false, lit)
                    end in
  if String.eqb ds "" then None
  else
    match digits_val 0 ds with
    | Some v => let v := if (neg : bool) then - v else v in
                if bool_decide (in_int64 v) then Some v else None
    | None => None
    end.

Definition dec_int (old : Z) (v : json) : Z * bool :=
  match v with
  | JNum lit => match int_literal lit with Some z => (z, true) | None => (old, false) end
  | JNull => (old, true)
  | _ => (old, false)
  end.

Definition dec_bool (old : bool) (v : json) : bool * bool :=
  match v with JBool b => (b, true) | JNull => (old, true) | _ => (old, false) end.

(** A string member under omitempty. *)
Definition omit_empty (k s : string) : list (string * json) :=
  if String.eqb s "" then [] else [(k, JStr s)].

(** Decide which field a literal key names. *)
Ltac eval_keys :=
  repeat match goal with
  | |- context [key_is ?a ?b] =>
      let r := eval vm_compute in (key_is a b) in change (key_is a b) with r
  | H : context [key_is ?a ?b] |- _ =>
      let r := eval vm_compute in (key_is a b) in change (key_is a b) with r in H
  end; cbv iota in *.

(** A list of structures, each decoded from its zero value. *)
Definition dec_list {A} (dec : A → json → A * bool) (zero : A) (old : list A) (v : json)
  : list A * bool :=
  match v with
  | JArr l => (map (λ x, (dec zero x).1) l, forallb (λ x, (dec zero x).2) l)
  | JNull => ([], true)
  | _ => (old, false)
  end.

Example float_22 : (parse_float "22" ≫= format_float) = Some "22".
Proof. vm_compute. reflexivity. Qed.
Example float_big : (parse_float "1152921504606846976" ≫= format_float) = Some "1152921504606847000".
Proof. vm_compute. reflexivity. Qed.
Example float_tenth : (parse_float "0.1" ≫= format_float) = Some "0.1".
Proof. vm_compute. reflexivity. Qed.
Example float_exp : (parse_float "-1.5e-9" ≫= format_float) = Some "-1.5e-9".
Proof. vm_compute. reflexivity. Qed.
Example float_e21 : (parse_float "1e21" ≫= format_float) = Some "1e+21".
Proof. vm_compute. reflexivity. Qed.
