(* ===== verification/GoDecode.v ===== *)
(** * encoding/json: a map of values decoded into a structure

    Marshalling a [map[string]any] and decoding the result field by field: when every
    value has the type of the field it is for, decoding succeeds and each field is
    determined by the map alone, whatever the order of the members. *)

From S2P Require Import Prelude GoStrings GoJson GoJsonFacts GoAny.
#[local] Open Scope Z_scope.

(** ** Integers *)

Lemma pretty_N_char_digit x :
  (x < 10)%N → is_digit (pretty_N_char x) = true ∧ digit_val (pretty_N_char x) = Z.of_N x.
Proof.
  intros Hx. assert (x = 0 ∨ x = 1 ∨ x = 2 ∨ x = 3 ∨ x = 4 ∨ x = 5 ∨ x = 6 ∨ x = 7 ∨ x = 8 ∨ x = 9)%N
    as Hc by lia. repeat destruct Hc as [-> |Hc]; try (subst x); by vm_compute.
Qed.

Lemma digits_val_go n s : digits_val 0 (pretty_N_go n s) = digits_val (Z.of_N n) s.
Proof.
  revert s. induction (N.lt_wf_0 n) as [n _ IH]; intros s.
  destruct (decide (n = 0)%N) as [-> |Hn]; [by rewrite pretty_N_go_0|].
  assert (n mod 10 < 10)%N as Hm by (apply N.mod_lt; lia).
  rewrite pretty_N_go_step, IH by (try apply N.div_lt; lia). cbn [digits_val].
  destruct (pretty_N_char_digit _ Hm) as [-> ->]. f_equal.
  pose proof (N.div_mod n 10 ltac:(lia)). lia.
Qed.

Lemma pretty_N_go_head n s :
  (0 < n)%N → ∃ c r, pretty_N_go n s = String c r ∧ is_digit c = true.
Proof.
  revert s. induction (N.lt_wf_0 n) as [n _ IH]; intros s Hn.
  rewrite pretty_N_go_step by done. destruct (decide (n / 10 = 0)%N) as [-> |Hd].
  - rewrite pretty_N_go_0. do 2 eexists. split; [done|]. apply pretty_N_char_digit, N.mod_lt. lia.
  - apply IH; [apply N.div_lt; lia|]. by apply N.neq_0_lt_0.
Qed.

Lemma pretty_N_digits (n : N) :
  digits_val 0 (pretty n) = Some (Z.of_N n) ∧ ∃ c r, pretty n = String c r ∧ is_digit c = true.
Proof.
  unfold pretty, pretty_N. destruct (decide (n = 0)%N) as [-> |Hn].
  - split; [done|]. by exists (chr 48), "".
  - split; [|apply pretty_N_go_head; lia]. by rewrite digits_val_go.
Qed.

(** An integer of 64 bits survives being written and read back. *)
Lemma int_literal_Itoa z : in_int64 z → int_literal (Itoa z) = Some z.
Proof.
  intros Hz. unfold Itoa.
  assert (∀ (neg : bool) (n : N), (if neg then - Z.of_N n else Z.of_N n) = z →
            (if String.eqb (pretty n) "" then None
             else match digits_val 0 (pretty n) with
                  | Some v => let v := if neg then - v else v in
                              if bool_decide (in_int64 v) then Some v else None
                  | None => None
                  end) = Some z) as Hd.
  { intros neg n Hn. destruct (pretty_N_digits n) as [-> (c & r & -> & _)]. simpl. rewrite Hn.
    by rewrite bool_decide_eq_true_2. }
  destruct z as [|p|p].
  - by vm_compute.
  - change (pretty (Z.pos p)) with (pretty (N.pos p)). unfold int_literal.
    destruct (pretty_N_digits (N.pos p)) as [_ (c & r & E & Hc)].
    specialize (Hd false (N.pos p) eq_refl). rewrite E in *.
    destruct (code c =? 45) eqn:E45; [|exact Hd]. exfalso. apply Z.eqb_eq in E45.
    unfold is_digit, in_range in Hc. rewrite E45 in Hc. by vm_compute in Hc.
  - change (pretty (Z.neg p)) with (String (chr 45) (pretty (N.pos p))). unfold int_literal.
    change (code (chr 45) =? 45) with true. exact (Hd true (N.pos p) eq_refl).
Qed.

Lemma pretty_N_go_number n s :
  (0 < n)%N → all_chars is_digit s = true →
  all_chars is_digit (pretty_N_go n s) = true ∧ starts_with [48] (pretty_N_go n s) = false.
Proof.
  revert s. induction (N.lt_wf_0 n) as [n _ IH]; intros s Hn Hs.
  assert (n mod 10 < 10)%N as Hm by (apply N.mod_lt; lia).
  pose proof (pretty_N_char_digit _ Hm) as [Hd Hv].
  rewrite pretty_N_go_step by done. destruct (decide (n / 10 = 0)%N) as [E|Hq].
  - rewrite E, pretty_N_go_0. cbn [all_chars starts_with existsb]. rewrite Hd, Hs. split; [done|].
    rewrite orb_false_r. apply Z.eqb_neq. unfold digit_val in Hv.
    pose proof (N.div_mod n 10 ltac:(lia)). lia.
  - apply IH; [apply N.div_lt; lia|by apply N.neq_0_lt_0|]. simpl. by rewrite Hd.
Qed.

(** An integer is written as a JSON number. *)
Lemma valid_number_Itoa z : valid_number (Itoa z) = true.
Proof.
  assert (∀ s, s ≠ "" → all_chars is_digit s = true → starts_with [48] s = false → starts_with [45] s = false →
    valid_number s = true ∧ valid_number (String (chr 45) s) = true) as Hs.
  { intros s Hne Hd H0 Hm. pose proof (span_app is_digit s "" Hd I) as Hsp. rewrite app_nil_r in Hsp.
    apply String.eqb_neq in Hne.
    assert (opt_char [45] s = s) as Ho by (unfold opt_char; unfold starts_with in Hm; by destruct s; [|rewrite Hm]).
    unfold valid_number, number_parts.
    change (opt_char [45] (String (chr 45) s)) with s. rewrite Ho, Hsp, Hne, H0. done. }
  assert (∀ p, pretty (N.pos p) ≠ "" ∧ all_chars is_digit (pretty (N.pos p)) = true
    ∧ starts_with [48] (pretty (N.pos p)) = false ∧ starts_with [45] (pretty (N.pos p)) = false) as Hp.
  { intros p. unfold pretty, pretty_N. destruct (decide (N.pos p = 0)%N); [done|].
    destruct (pretty_N_go_number (N.pos p) "" ltac:(lia) eq_refl) as [Hd H0].
    destruct (pretty_N_go_head (N.pos p) "" ltac:(lia)) as (c & r & E & Hc). rewrite E in *.
    split_and!; try done. cbn. rewrite orb_false_r. apply Z.eqb_neq. intros E45.
    unfold is_digit, in_range in Hc. rewrite E45 in Hc. by vm_compute in Hc. }
  unfold Itoa. destruct z as [|p|p]; [by vm_compute|..]; destruct (Hp p) as (H1 & H2 & H3 & H4).
  - change (pretty (Z.pos p)) with (pretty (N.pos p)). by apply Hs.
  - change (pretty (Z.neg p)) with (String (chr 45) (pretty (N.pos p))). by apply Hs.
Qed.

(** ** The members of a map *)

Lemma any_members_perm (m : gmap string any) :
  foldr (λ '(k, v) l, assoc_insert k v l) [] (map_to_list m) ≡ₚ map_to_list m.
Proof.
  assert (∀ l : list (string * any), NoDup l.*1 → foldr (λ '(k, v) l, assoc_insert k v l) [] l ≡ₚ l)
    as Hl; [|apply Hl, NoDup_fst_map_to_list].
  induction l as [|[k v] l IH]; simpl; [done|]. intros [Hk Hnd]%NoDup_cons.
  rewrite assoc_insert_perm; rewrite IH by done; done.
Qed.

Lemma marshal_members (l : list (string * any)) :
  Forall (λ kv, is_Some (marshal_any kv.2)) l →
  ∃ js, marshal_any (AMap l) = Some (JObj js)
    ∧ Forall2 (λ kv kj, kj.1 = kv.1 ∧ marshal_any kv.2 = Some kj.2) l js.
Proof.
  cbn [marshal_any]. induction 1 as [|[k v] l [j Hj] _ (js & E & IH)]; [by exists []|].
  exists ((k, j) :: js). cbn [foldr]. simpl in Hj. split; [|by constructor].
  rewrite Hj. destruct (foldr _ _ l) as [x|]; [|done]. by injection E as ->.
Qed.

Lemma marshal_members_some (l : list (string * any)) j :
  marshal_any (AMap l) = Some j → Forall (λ kv, is_Some (marshal_any kv.2)) l.
Proof.
  cbn [marshal_any]. revert j. induction l as [|[k v] l IH]; intros j Hj; [constructor|].
  cbn [foldr] in Hj. destruct (marshal_any v) as [x|] eqn:Ev; [|done].
  destruct (foldr _ _ l) as [js|] eqn:El; [|done]. constructor; [by exists x|]. by eapply IH.
Qed.

(** The members of a marshalled map are its entries. *)
Lemma marshal_map_members (m : gmap string any) j :
  marshal_any_map m = Some j →
  ∃ js, j = JObj js ∧ NoDup js.*1
    ∧ ∀ k x, (k, x) ∈ js ↔ ∃ v, m !! k = Some v ∧ marshal_any v = Some x.
Proof.
  unfold marshal_any_map, any_map.
  set (l := foldr _ [] (map_to_list m)). assert (l ≡ₚ map_to_list m) as Hl by apply any_members_perm.
  assert (∀ k v, (k, v) ∈ l ↔ m !! k = Some v) as Hin by (intros; by rewrite Hl, elem_of_map_to_list).
  intros Hj. destruct (marshal_members l (marshal_members_some l j Hj)) as (js & Hj' & Hjs).
  rewrite Hj in Hj'. injection Hj' as ->. exists js. split; [done|].
  assert (js.*1 = l.*1) as Hkeys
    by (clear -Hjs; induction Hjs as [|???? [? _] _ IH]; [done|]; rewrite !fmap_cons, IH; by f_equal).
  split; [rewrite Hkeys, Hl; apply NoDup_fst_map_to_list|]. intros k x. split.
  - intros (i & Hi)%list_elem_of_lookup.
    destruct (Forall2_lookup_r _ _ _ _ _ Hjs Hi) as ([k' v] & Hi' & Hk & Hv). simpl in *. subst k'.
    exists v. split; [|done]. apply Hin, list_elem_of_lookup. by exists i.
  - intros (v & (i & Hi)%Hin%list_elem_of_lookup & Hv).
    destruct (Forall2_lookup_l _ _ _ _ _ Hjs Hi) as ([k' x'] & Hi' & Hk & Hv'). simpl in *. subst k'.
    apply list_elem_of_lookup. exists i. by simplify_eq.
Qed.

Section decode.
Context {A : Type} (field : A → string → json → A * bool).

(** The value can be written, and has the type of the field named by its key. *)
Definition fits (k : string) (v : any) : Prop :=
  ∃ j, marshal_any v = Some j ∧ ∀ a, (field a k j).2 = true.

(** The part [π] of the structure that starts as [a0] becomes [x]: only the key [k0]
    changes it. *)
Definition lands {B} (m : gmap string any) (a0 : A) (π : A → B) (k0 : string) (x : B) : Prop :=
  (∀ k v a j, m !! k = Some v → k ≠ k0 → π (field a k j).1 = π a)
  ∧ match m !! k0 with
    | Some v => ∃ j, marshal_any v = Some j ∧ ∀ a, π a = π a0 → π (field a k0 j).1 = x
    | None => π a0 = x
    end.

Lemma dec_fold_ok l a ok :
  (∀ k j, (k, j) ∈ l → ∀ a, (field a k j).2 = true) →
  (foldl (λ '(a, ok) '(k, x), let '(a', ok') := field a k x in (a', ok && ok')) (a, ok) l).2 = ok.
Proof.
  revert a ok. induction l as [|[k j] l IH]; intros a ok Hl; [done|]. simpl.
  specialize (Hl k j ltac:(left)) as Hk. destruct (field a k j) as [a' ok'] eqn:E.
  pose proof (Hk a) as Hk'. rewrite E in Hk'. simpl in Hk'. subst ok'. rewrite IH, andb_true_r; [done|].
  intros k' j' Hin. apply Hl. by right.
Qed.

Lemma dec_fold_frame {B} (π : A → B) l a ok :
  (∀ a k j, (k, j) ∈ l → π (field a k j).1 = π a) →
  π (foldl (λ '(a, ok) '(k, x), let '(a', ok') := field a k x in (a', ok && ok')) (a, ok) l).1 = π a.
Proof.
  revert a ok. induction l as [|[k j] l IH]; intros a ok Hl; [done|]. simpl.
  pose proof (Hl a k j ltac:(left)) as Hk. destruct (field a k j) as [a' ok'] eqn:E.
  simpl in Hk. rewrite IH; [done|]. intros a1 k1 j1 Hin. apply Hl. by right.
Qed.

Lemma dec_fold_set {B} (π : A → B) l k0 j0 x a ok :
  NoDup l.*1 → (k0, j0) ∈ l → (∀ a', π a' = π a → π (field a' k0 j0).1 = x) →
  (∀ a k j, (k, j) ∈ l → k ≠ k0 → π (field a k j).1 = π a) →
  π (foldl (λ '(a, ok) '(k, x), let '(a', ok') := field a k x in (a', ok && ok')) (a, ok) l).1 = x.
Proof.
  intros Hnd (l1 & l2 & ->)%list_elem_of_split Hx Hf.
  rewrite fmap_app, fmap_cons in Hnd.
  assert (∀ a' k j, (k, j) ∈ l1 → π (field a' k j).1 = π a') as H1.
  { intros a' k j Hin. apply Hf; [set_solver|]. intros ->.
    apply NoDup_app in Hnd as (_ & Hd & _). apply (Hd k0); [|left].
    apply list_elem_of_fmap. by exists (k0, j). }
  apply NoDup_app in Hnd as (_ & _ & [Hk0 _]%NoDup_cons).
  pose proof (dec_fold_frame π l1 a ok H1) as Ha. rewrite foldl_app.
  destruct (foldl _ (a, ok) l1) as [a1 ok1]. simpl in *.
  pose proof (Hx a1 Ha) as Hx1. destruct (field a1 k0 j0) as [a2 ok2]. simpl in Hx1.
  rewrite dec_fold_frame; [done|]. intros a3 k j Hin. apply Hf; [set_solver|].
  intros ->. apply Hk0. apply list_elem_of_fmap. by exists (k0, j).
Qed.

(** Each part of a decoded structure is what lands there. *)
Lemma decode_lands {B} m a0 j a ok (π : A → B) k0 x :
  marshal_any_map m = Some j → dec_struct field a0 j = (a, ok) → lands m a0 π k0 x → π a = x.
Proof.
  intros (js & -> & Hnd & Hin)%marshal_map_members Hdec [Hframe Hset].
  apply (f_equal fst) in Hdec. simpl in Hdec. subst a. destruct (m !! k0) as [v|] eqn:E.
  - destruct Hset as (j & Hj & Hx). eapply dec_fold_set; [done|by apply Hin; eauto|done|].
    intros a k j' (v' & Hv' & _)%Hin Hne. by eapply Hframe.
  - etrans; [apply (dec_fold_frame π)|done]. intros a k j' (v' & Hv' & _)%Hin.
    eapply Hframe; [done|]. intros ->. congruence.
Qed.

(** A map whose values fit decodes. *)
Lemma decode_fits (m : gmap string any) (a0 : A) :
  (∀ k v, m !! k = Some v → fits k v) →
  ∃ j a, marshal_any_map m = Some j ∧ dec_struct field a0 j = (a, true)
    ∧ ∀ (B : Type) (π : A → B) k0 x, lands m a0 π k0 x → π a = x.
Proof.
  intros Hfit. assert (∃ j, marshal_any_map m = Some j) as [j Hj].
  { unfold marshal_any_map, any_map. edestruct marshal_members as (js & -> & _); [|by eexists].
    rewrite any_members_perm. apply Forall_forall. intros [k v] Hkv%elem_of_map_to_list.
    destruct (Hfit _ _ Hkv) as (j & Hj & _). by exists j. }
  exists j. destruct (dec_struct field a0 j) as [a ok] eqn:Hdec. exists a.
  split; [done|]. split; [|intros B π k0 x; by eapply decode_lands].
  f_equal. apply (f_equal snd) in Hdec. simpl in Hdec. subst ok.
  apply marshal_map_members in Hj as (js & -> & _ & Hin). apply dec_fold_ok. intros k x Hkx.
  apply Hin in Hkx as (v & Hv & Hx). destruct (Hfit _ _ Hv) as (x' & Hx' & Hok). by simplify_eq.
Qed.
End decode.

(** Keys from a list in which only [k0] names the field, other fields leaving the part alone. *)
Lemma lands_key {A B} (field : A → string → json → A * bool) (keys : list string) m a0 (π : A → B) k0 x :
  (∀ k v, m !! k = Some v → k ∈ keys) →
  forallb (λ k, String.eqb k k0 || negb (key_is k0 k)) keys = true →
  (∀ a k j, key_is k0 k = false → π (field a k j).1 = π a) →
  match m !! k0 with
  | Some v => ∃ j, marshal_any v = Some j ∧ ∀ a, π a = π a0 → π (field a k0 j).1 = x
  | None => π a0 = x
  end →
  lands field m a0 π k0 x.
Proof.
  intros Hkeys Hdist Hframe Hset. split; [|done]. intros k v a j Hk Hne. apply Hframe.
  rewrite forallb_forall in Hdist. specialize (Hdist k). rewrite <- list_elem_of_In in Hdist.
  specialize (Hdist (Hkeys _ _ Hk)). rewrite (proj2 (String.eqb_neq k k0) Hne) in Hdist.
  by apply negb_true_iff.
Qed.
