(* ===== verification/GoUrl.v ===== *)
(** * net/url: parsing and writing URLs, as of Go 1.26

    Percent-encoding, [Parse], [String], the parts of the host, and query strings.
    A nil *Userinfo is [None]; error texts are Go's up to quoted operands. *)

From S2P Require Import Prelude GoStrings GoJson NetIP.
#[local] Open Scope Z_scope.

(** ** Percent-encoding *)

Inductive encoding :=
  | encodePath | encodePathSegment | encodeHost | encodeZone
  | encodeUserPassword | encodeQueryComponent | encodeFragment.

#[global] Instance encoding_eq_dec : EqDecision encoding.
Proof. solve_decision. Defined.

Definition one_of (chars : string) (c : ascii) : bool := Contains chars (str1 c).

Definition alphanum (c : ascii) : bool :=
  in_range 97 122 (code c) || in_range 65 90 (code c) || in_range 48 57 (code c).

Definition host_mode (m : encoding) : bool :=
  match m with encodeHost | encodeZone => true | _ => false end.

(** Sub-delimiters and the like that a host may contain. *)
Definition host_char (c : ascii) : bool :=
  one_of "!$&'()*+,;=:[]<>" c || (code c =? 34).

Definition shouldEscape (c : ascii) (mode : encoding) : bool :=
  if alphanum c then false
  else if host_mode mode && host_char c then false
  else if one_of "-_.~" c then false
  else
    let general :=
      match mode with
      | encodeFragment => negb (one_of "!()*" c)
      | _ => true
      end in
    if one_of "$&+,/:;=?@" c then
      match mode with
      | encodePath => one_of "?" c
      | encodePathSegment => one_of "/;,?" c
      | encodeUserPassword => one_of "@/?:" c
      | encodeQueryComponent => true
      | encodeFragment => false
      | encodeHost | encodeZone => general
      end
    else general.

Definition upper_hex (z : Z) : ascii := if z <? 10 then chr (z + 48) else chr (z + 55).

Definition pct (c : ascii) : string :=
  String (chr 37) (String (upper_hex (code c / 16)) (str1 (upper_hex (code c mod 16)))).

Definition escape_char (mode : encoding) (c : ascii) : string :=
  if shouldEscape c mode then
    if (code c =? 32) && bool_decide (mode = encodeQueryComponent) then "+" else pct c
  else str1 c.

Fixpoint escape (s : string) (mode : encoding) : string :=
  match s with "" => "" | String c s' => escape_char mode c +:+ escape s' mode end.

(** One "%XX": the byte, unless the mode refuses it. *)
Definition unescape_pct (mode : encoding) (h l : ascii) : option ascii :=
  match hex_val h, hex_val l with
  | Some a, Some b =>
      let v := chr (a * 16 + b) in
      let is25 := (code h =? 50) && (code l =? 53) in
      if bool_decide (mode = encodeHost) && (a <? 8) && negb is25 then None
      else if bool_decide (mode = encodeZone) && negb is25 && negb (code v =? 32)
              && shouldEscape v encodeHost
      then None
      else Some v
  | _, _ => None
  end.

Fixpoint unescape (s : string) (mode : encoding) : option string :=
  match s with
  | "" => Some ""
  | String c s' =>
      if code c =? 37 then
        match s' with
        | String h (String l rest) =>
            match unescape_pct mode h l with
            | Some v => String v <$> unescape rest mode
            | None => None
            end
        | _ => None
        end
      else if (code c =? 43) then
        String (if bool_decide (mode = encodeQueryComponent) then chr 32 else c) <$> unescape s' mode
      else if host_mode mode && (code c <? 128) && shouldEscape c mode then None
      else String c <$> unescape s' mode
  end.

Definition PathEscape (s : string) : string := escape s encodePathSegment.
Definition QueryEscape (s : string) : string := escape s encodeQueryComponent.

(** [Values.Encode]; keys in increasing order. *)
Definition Encode (v : gmap string (list string)) : string :=
  Join (flat_map (λ '(k, vs), map (λ x, QueryEscape k +:+ "=" +:+ QueryEscape x) vs)
          (foldr (λ '(k, x) l, assoc_insert k x l) [] (map_to_list v))) "&".

(** ** URLs *)

Record Userinfo := MkUserinfo { username : string; password : option string }.

Record URL := MkURL {
  Scheme : string;
  Opaque : string;
  User : option Userinfo;
  Host : string;
  Path : string;
  RawPath : string;
  OmitHost : bool;
  ForceQuery : bool;
  RawQuery : string;
  Fragment : string;
  RawFragment : string;
}.

#[global] Instance Userinfo_eq_dec : EqDecision Userinfo.
Proof. solve_decision. Defined.
#[global] Instance URL_eq_dec : EqDecision URL.
Proof. solve_decision. Defined.

(** ** Writing *)

Definition Userinfo_String (u : Userinfo) : string :=
  match password u with
  | Some pw => escape (username u) encodeUserPassword +:+ ":" +:+ escape pw encodeUserPassword
  | None => escape (username u) encodeUserPassword
  end.

Definition validEncoded (s : string) (mode : encoding) : bool :=
  all_chars (λ c, one_of "!$&'()*+,;=:@[]%" c || negb (shouldEscape c mode)) s.

Definition escaped (raw plain : string) (mode : encoding) : string :=
  if negb (String.eqb raw "") && validEncoded raw mode
     && bool_decide (unescape raw mode = Some plain)
  then raw else escape plain mode.

Definition EscapedPath (u : URL) : string :=
  if negb (String.eqb (RawPath u) "") && validEncoded (RawPath u) encodePath
     && bool_decide (unescape (RawPath u) encodePath = Some (Path u))
  then RawPath u
  else if String.eqb (Path u) "*" then "*" else escape (Path u) encodePath.

Definition EscapedFragment (u : URL) : string := escaped (RawFragment u) (Fragment u) encodeFragment.

Definition userinfo_prefix (u : option Userinfo) : string :=
  match u with Some ui => Userinfo_String ui +:+ "@" | None => "" end.

(** The part of [String] before the path. *)
Definition origin_String (u : URL) : string :=
  let no_authority := bool_decide (User u = None) && String.eqb (Host u) "" in
  (if String.eqb (Scheme u) "" then "" else Scheme u +:+ ":")
  +:+ (if no_authority && (String.eqb (Scheme u) "" || OmitHost u) then ""
       else (if no_authority && String.eqb (Path u) "" then "" else "//")
            +:+ userinfo_prefix (User u) +:+ escape (Host u) encodeHost).

Definition query_String (u : URL) : string :=
  (if ForceQuery u || negb (String.eqb (RawQuery u) "") then "?" +:+ RawQuery u else "")
  +:+ (if String.eqb (Fragment u) "" then "" else "#" +:+ EscapedFragment u).

Definition URL_String (u : URL) : string :=
  (if negb (String.eqb (Opaque u) "") then
     (if String.eqb (Scheme u) "" then "" else Scheme u +:+ ":") +:+ Opaque u
   else
     let path := EscapedPath u in
     let origin := origin_String u in
     let slash := if negb (String.eqb path "") && negb (HasPrefix path "/")
                     && negb (String.eqb (Host u) "") then "/" else "" in
     let dot := if String.eqb (origin +:+ slash) "" && Contains (Cut path "/").1.1 ":"
                then "./" else "" in
     origin +:+ slash +:+ dot +:+ path)
  +:+ query_String u.

(** ** Parsing *)

Definition ctl_byte (c : ascii) : bool := (code c <? 32) || (code c =? 127).

(** [getScheme]: what is left of the loop over the first bytes; [Err] for a
    leading colon. *)
Fixpoint scheme_loop (first : bool) (acc s : string) : result (option (string * string)) :=
  match s with
  | "" => Ok None
  | String c s' =>
      if in_range 97 122 (code c) || in_range 65 90 (code c)
      then scheme_loop false (acc +:+ str1 c) s'
      else if in_range 48 57 (code c) || one_of "+-." c
      then if first then Ok None else scheme_loop false (acc +:+ str1 c) s'
      else if code c =? 58
      then if first then Err (errorf "missing protocol scheme") else Ok (Some (acc, s'))
      else Ok None
  end.

Definition getScheme (rawURL : string) : result (string * string) :=
  r ← scheme_loop true "" rawURL; Ok (default ("", rawURL) r).

Definition validOptionalPort (port : string) : bool :=
  match port with
  | "" => true
  | String c ds => (code c =? 58) && all_chars is_digit ds
  end.

Definition unescape_err (s : string) (mode : encoding) : result string :=
  match unescape s mode with
  | Some x => Ok x
  | None => Err (errorf "invalid URL escape or character in host name")
  end.

(** A host in brackets, without them. *)
Definition parse_literal (rest : string) : result string :=
  match cut_last rest "]" with
  | None => Err (errorf "missing ']' in host")
  | Some (hostname, colonPort) =>
      _ ← fail_if (negb (validOptionalPort colonPort))
            (errorf ("invalid port " +:+ Quote colonPort +:+ " after host"));
      port ← unescape_err colonPort encodeHost;
      name ← match cut hostname "%25" with
             | Some (before, after) =>
                 hostPart ← unescape_err before encodeHost;
                 zonePart ← unescape_err ("%25" +:+ after) encodeZone;
                 Ok (hostPart +:+ zonePart)
             | None => unescape_err hostname encodeHost
             end;
      match ParseAddr name with
      | None => Err (errorf "invalid host")
      | Some (Addr4 _) => Err (errorf "invalid IP-literal")
      | Some (Addr6 _ _) => Ok ("[" +:+ name +:+ "]" +:+ port)
      end
  end.

Definition parseHost (scheme host : string) : result string :=
  match cut_last host "[" with
  | Some ("", rest) => parse_literal rest
  | Some _ => Err (errorf "invalid IP-literal")
  | None =>
      _ ← match cut host ":" with
          | Some (_, first) =>
              let port :=
                match cut_last host ":" with
                | Some (_, last) =>
                    if String.eqb scheme "postgresql" || String.eqb scheme "postgres"
                    then last else first
                | None => first
                end in
              fail_if (negb (validOptionalPort (":" +:+ port)))
                (errorf ("invalid port " +:+ Quote (":" +:+ port) +:+ " after host"))
          | None => Ok tt
          end;
      unescape_err host encodeHost
  end.

Definition validUserinfo (s : string) : bool :=
  all_chars (λ c, alphanum c || one_of "-._:~!$&'()*+,;=%@" c) s.

Definition parse_userinfo (userinfo : string) : result Userinfo :=
  _ ← fail_if (negb (validUserinfo userinfo)) (errorf "net/url: invalid userinfo");
  match cut userinfo ":" with
  | None => u ← unescape_err userinfo encodeUserPassword; Ok (MkUserinfo u None)
  | Some (name, pw) =>
      u ← unescape_err name encodeUserPassword;
      p ← unescape_err pw encodeUserPassword;
      Ok (MkUserinfo u (Some p))
  end.

Definition parseAuthority (scheme authority : string) : result (option Userinfo * string) :=
  match cut_last authority "@" with
  | None => h ← parseHost scheme authority; Ok (None, h)
  | Some (userinfo, host) =>
      h ← parseHost scheme host;
      u ← parse_userinfo userinfo;
      Ok (Some u, h)
  end.

(** The raw form is kept only when it is not the default encoding. *)
Definition raw_form (p plain : string) (mode : encoding) : string :=
  if String.eqb p (escape plain mode) then "" else p.

(** Number of question marks, up to two. *)
Definition single_question (s : string) : bool :=
  match cut s "?" with Some (_, "") => true | _ => false end.

(** The authority and what follows it, of a text after "//". *)
Definition split_authority (s : string) : string * string :=
  match cut s "/" with
  | Some (authority, rest) => (authority, "/" +:+ rest)
  | None => (s, "")
  end.

Definition parse_rest (scheme rest : string) (force : bool) (query : string) : result URL :=
  if negb (HasPrefix rest "/") && negb (String.eqb scheme "")
  then Ok (MkURL scheme rest None "" "" "" false force query "" "")
  else
    _ ← fail_if (negb (HasPrefix rest "/") && Contains (Cut rest "/").1.1 ":")
          (errorf "first path segment in URL cannot contain colon");
    '(user, host, omit, rest) ←
      (if (negb (String.eqb scheme "") || negb (HasPrefix rest "///")) && HasPrefix rest "//" then
         let '(authority, rest') := split_authority (str_drop 2 rest) in
         '(user, host) ← parseAuthority scheme authority;
         Ok (user, host, false, rest')
       else Ok (None, "", negb (String.eqb scheme "") && HasPrefix rest "/", rest));
    path ← unescape_err rest encodePath;
    Ok (MkURL scheme "" user host path (raw_form rest path encodePath) omit force query "" "").

Definition parse (rawURL : string) : result URL :=
  _ ← fail_if (negb (all_chars (λ c, negb (ctl_byte c)) rawURL))
        (errorf "net/url: invalid control character in URL");
  if String.eqb rawURL "*" then Ok (MkURL "" "" None "" "*" "" false false "" "" "")
  else
    '(scheme, rest) ← getScheme rawURL;
    if single_question rest
    then parse_rest (ToLower scheme) (TrimSuffix rest "?") true ""
    else
      let '(rest, query, _) := Cut rest "?" in
      parse_rest (ToLower scheme) rest false query.

Definition Parse (rawURL : string) : result URL :=
  let '(u, frag, _) := Cut rawURL "#" in
  wrap_err ("parse " +:+ Quote rawURL +:+ ": ") (
    url ← parse u;
    if String.eqb frag "" then Ok url
    else
      f ← unescape_err frag encodeFragment;
      Ok (MkURL (Scheme url) (Opaque url) (User url) (Host url) (Path url) (RawPath url)
            (OmitHost url) (ForceQuery url) (RawQuery url) f (raw_form frag f encodeFragment))).

Definition IsAbs (u : URL) : bool := negb (String.eqb (Scheme u) "").

(** ** Host and port *)

Definition strip_brackets (host : string) : string :=
  if HasPrefix host "[" && HasSuffix host "]" then TrimSuffix (str_drop 1 host) "]" else host.

Definition splitHostPort (hostPort : string) : string * string :=
  match cut_last hostPort ":" with
  | Some (host, port) =>
      if all_chars is_digit port then (strip_brackets host, port) else (strip_brackets hostPort, "")
  | None => (strip_brackets hostPort, "")
  end.

Definition Hostname (u : URL) : string := (splitHostPort (Host u)).1.
Definition Port (u : URL) : string := (splitHostPort (Host u)).2.

(** [Redacted]: the password is masked. *)
Definition Redacted (u : URL) : string :=
  match User u with
  | Some (MkUserinfo name (Some _)) =>
      URL_String (MkURL (Scheme u) (Opaque u) (Some (MkUserinfo name (Some "xxxxx"))) (Host u)
                    (Path u) (RawPath u) (OmitHost u) (ForceQuery u) (RawQuery u)
                    (Fragment u) (RawFragment u))
  | _ => URL_String u
  end.

(** ** Queries *)

(** [ParseQuery] as [URL.Query] uses it: pairs that cannot be decoded, or contain a
    semicolon, are left out. *)
Definition add_pair (m : gmap string (list string)) (kv : string) : gmap string (list string) :=
  if String.eqb kv "" || Contains kv ";" then m
  else
    let '(k, v, _) := Cut kv "=" in
    match unescape k encodeQueryComponent, unescape v encodeQueryComponent with
    | Some k, Some v => <[k := default [] (m !! k) ++ [v]]> m
    | _, _ => m
    end.

Definition Query (u : URL) : gmap string (list string) :=
  foldl add_pair ∅ (Split (RawQuery u) "&").
