(* ===== verification/GoUrlFacts.v ===== *)
(** * URLs: the destination survives writing and parsing

    Whatever path, query and fragment are written after it, the authority that
    [URL_String] writes is the one that [Parse] reads. *)

From S2P Require Import Prelude GoStrings GoJson NetIP GoUrl.
#[local] Open Scope Z_scope.

(** ** Percent-encoding *)

(** Decode every well-formed "%XX". *)
Fixpoint pct_decode (s : string) : string :=
  match s with
  | "" => ""
  | String c s' =>
      if code c =? 37 then
        match s' with
        | String h (String l rest) =>
            match hex_val h, hex_val l with
            | Some a, Some b => String (chr (a * 16 + b)) (pct_decode rest)
            | _, _ => String c (pct_decode s')
            end
        | _ => String c (pct_decode s')
        end
      else String c (pct_decode s')
  end.

Lemma hex_val_upper z : 0 ≤ z < 16 → hex_val (upper_hex z) = Some z.
Proof.
  intros Hz. unfold hex_val, upper_hex, in_range. destruct (Z.ltb_spec z 10).
  - rewrite code_chr by lia. destruct (Z.leb_spec 48 (z + 48)); [|lia].
    destruct (Z.leb_spec (z + 48) 57); [|lia]. simpl. f_equal. lia.
  - rewrite code_chr by lia.
    destruct (Z.leb_spec 48 (z + 55)); [|lia]. destruct (Z.leb_spec (z + 55) 57); [lia|].
    destruct (Z.leb_spec 97 (z + 55)); [lia|]. simpl.
    destruct (Z.leb_spec 65 (z + 55)); [|lia]. destruct (Z.leb_spec (z + 55) 70); [|lia].
    simpl. f_equal. lia.
Qed.

Lemma pct_decode_pct c B : pct_decode (pct c +:+ B) = String c (pct_decode B).
Proof.
  unfold pct, str1. rewrite !app_cons, app_nil_l. cbn [pct_decode].
  pose proof (code_range c). change (code (chr 37) =? 37) with true. cbv iota.
  rewrite !hex_val_upper.
  - f_equal. rewrite <- (chr_code c) at 3. f_equal. pose proof (Z.div_mod (code c) 16). lia.
  - apply Z.mod_pos_bound. lia.
  - split; [apply Z.div_pos; lia|apply Z.div_lt_upper_bound; lia].
Qed.

Lemma percent_escaped c m : code c = 37 → shouldEscape c m = true.
Proof. intros E. rewrite <- (chr_code c), E. by destruct m. Qed.

Lemma pct_decode_escape s m B :
  m ≠ encodeQueryComponent → pct_decode (escape s m +:+ B) = s +:+ pct_decode B.
Proof.
  intros Hm. induction s as [|c s IH]; [done|]. cbn [escape]. rewrite app_assoc, app_cons.
  unfold escape_char. destruct (shouldEscape c m) eqn:Ec.
  - rewrite bool_decide_eq_false_2, andb_false_r by done. by rewrite pct_decode_pct, IH.
  - unfold str1. rewrite app_cons, app_nil_l. cbn [pct_decode].
    destruct (Z.eqb_spec (code c) 37) as [E|_].
    + rewrite (percent_escaped c m) in Ec by done. discriminate Ec.
    + by rewrite IH.
Qed.

(** A successful [unescape] is the decoding. *)
Lemma unescape_decode A m v B :
  m ≠ encodeQueryComponent → unescape A m = Some v → pct_decode (A +:+ B) = v +:+ pct_decode B.
Proof.
  intros Hm. remember (String.length A) as n eqn:Hn. revert A Hn v.
  induction (lt_wf n) as [n _ IH]. intros [|c A] -> v.
  { cbn [unescape]. by intros [= <-]. }
  assert (∀ A' v', String.length A' < String.length (String c A) → unescape A' m = Some v' →
                   pct_decode (A' +:+ B) = v' +:+ pct_decode B)%nat as IH'.
  { intros A' v' Hl Hu. by eapply (IH (String.length A')). }
  cbn [unescape]. rewrite app_cons. cbn [pct_decode]. destruct (code c =? 37) eqn:Ec.
  - destruct A as [|h [|l rest]]; [done..|]. rewrite !app_cons.
    unfold unescape_pct. destruct (hex_val h) as [a|]; [|done]. destruct (hex_val l) as [b|]; [|done].
    destruct (bool_decide (m = encodeHost) && _ && _); [done|].
    destruct (bool_decide (m = encodeZone) && _ && _ && _); [done|].
    intros (w & Hw & ->)%fmap_Some. rewrite app_cons. f_equal. apply IH'; [simpl; lia|done].
  - destruct (code c =? 43).
    + rewrite bool_decide_eq_false_2 by done. intros (w & Hw & ->)%fmap_Some.
      rewrite app_cons. f_equal. apply IH'; [simpl; lia|done].
    + case_match; [done|]. intros (w & Hw & ->)%fmap_Some.
      rewrite app_cons. f_equal. apply IH'; [simpl; lia|done].
Qed.

Lemma unescape_decode_all A m v :
  m ≠ encodeQueryComponent → unescape A m = Some v → pct_decode A = v.
Proof.
  intros Hm Hu. pose proof (unescape_decode A m v "" Hm Hu) as H.
  change (pct_decode "") with "" in H. by rewrite !app_nil_r in H.
Qed.

Lemma unescape_err_Ok s m v : unescape_err s m = Ok v → unescape s m = Some v.
Proof. unfold unescape_err. by destruct (unescape s m); intros [= ->]. Qed.

(** ** Hosts *)

(** Parsing an encoded host gives the host back, if it gives anything. *)
Lemma parse_literal_decode rest h : parse_literal rest = Ok h → pct_decode (String (chr 91) rest) = h.
Proof.
  unfold parse_literal. destruct (cut_last rest "]") as [[hostname colonPort]|] eqn:E; [|done].
  apply cut_last_Some in E as ->. intros H. inv_ok.
  match goal with H : unescape_err colonPort _ = Ok ?p |- _ =>
    rename p into port; apply unescape_err_Ok in H as Hport end.
  match goal with H : match ParseAddr ?n with _ => _ end = Ok _ |- _ =>
    rename n into name; assert (h = "[" +:+ name +:+ "]" +:+ port) as -> by
      (destruct (ParseAddr name) as [[]|]; [discriminate H|by injection H|discriminate H]) end.
  assert (∀ B, pct_decode (hostname +:+ B) = name +:+ pct_decode B) as Hname.
  { intros B. destruct (cut hostname "%25") as [[before after]|] eqn:Ez in *.
    - apply cut_Some in Ez as ->. inv_ok.
      match goal with H1 : unescape_err before _ = Ok ?a, H2 : unescape_err _ encodeZone = Ok ?b |- _ =>
        apply unescape_err_Ok in H1, H2;
        rewrite app_assoc, (unescape_decode before encodeHost a),
          (unescape_decode ("%25" +:+ after) encodeZone b) by done end.
      by rewrite app_assoc.
    - match goal with H : unescape_err hostname _ = Ok _ |- _ => apply unescape_err_Ok in H;
        by rewrite (unescape_decode hostname encodeHost name) end. }
  change (pct_decode (String (chr 91) (hostname +:+ "]" +:+ colonPort)))
    with (String (chr 91) (pct_decode (hostname +:+ "]" +:+ colonPort))).
  rewrite Hname. change (pct_decode ("]" +:+ colonPort)) with ("]" +:+ pct_decode colonPort).
  by rewrite (unescape_decode_all _ encodeHost port).
Qed.

Lemma parseHost_escape scheme host h : parseHost scheme (escape host encodeHost) = Ok h → h = host.
Proof.
  intros H. transitivity (pct_decode (escape host encodeHost)).
  - unfold parseHost in H. destruct (cut_last _ "[") as [[[|c a] rest]|] eqn:E.
    + apply cut_last_Some in E. rewrite E. symmetry. by apply parse_literal_decode.
    + discriminate H.
    + apply bind_Ok in H as (u & _ & H). apply unescape_err_Ok in H.
      by rewrite (unescape_decode_all _ encodeHost h).
  - rewrite <- (app_nil_r (escape _ _)), pct_decode_escape by done.
    change (pct_decode "") with "". by rewrite app_nil_r.
Qed.

(** An escaped text lacks the characters that are escaped. *)
Lemma pct_lacks c d : code c ≠ 37 → hex_val c = None → lacks c (pct d).
Proof.
  intros Hc Hh. pose proof (code_range d). unfold pct, str1. rewrite !lacks_cons. split_and!; [|..|done].
  - intros <-. by rewrite code_chr in Hc.
  - intros <-. rewrite hex_val_upper in Hh; [done|].
    split; [apply Z.div_pos; lia|apply Z.div_lt_upper_bound; lia].
  - intros <-. rewrite hex_val_upper in Hh; [done|]. apply Z.mod_pos_bound. lia.
Qed.

Lemma escape_lacks c s m :
  code c ≠ 37 → code c ≠ 43 → hex_val c = None → shouldEscape c m = true → lacks c (escape s m).
Proof.
  intros H1 H2 H3 Hc. induction s as [|d s IH]; [done|]. cbn [escape]. apply lacks_app. split; [|done].
  unfold escape_char. destruct (shouldEscape d m) eqn:Ed.
  - case_match; [|by apply pct_lacks]. apply lacks_cons. split; [|done].
    intros <-. by apply H2.
  - apply lacks_cons. split; [|done]. intros ->. congruence.
Qed.

(** ** The authority of a written URL *)

(** What may follow the authority. *)
Definition boundary (cs : list Z) (t : string) : Prop :=
  match t with "" => True | String c _ => code c ∈ cs end.

Definition unsplit (s : string) : Prop := lacks (chr 47) s ∧ lacks (chr 63) s ∧ lacks (chr 35) s.

Lemma unsplit_app s t : unsplit s → unsplit t → unsplit (s +:+ t).
Proof. unfold unsplit. rewrite !lacks_app. naive_solver. Qed.

Lemma escape_unsplit s m : m = encodeHost ∨ m = encodeUserPassword → unsplit (escape s m).
Proof. intros [-> | ->]; split_and!; by apply escape_lacks. Qed.

Lemma userinfo_unsplit u : unsplit (userinfo_prefix u).
Proof.
  destruct u as [[name [pw|]]|]; [| |done]; unfold userinfo_prefix, Userinfo_String; simpl;
    repeat apply unsplit_app; try done; apply escape_unsplit; auto.
Qed.

(** Cutting inside what follows the authority. *)
Lemma cut_after c auth t :
  lacks c auth →
  lacks c t ∧ Cut (auth +:+ t) (str1 c) = (auth +:+ t, "", false) ∨
  ∃ a b, t = a +:+ String c b ∧ lacks c a ∧ Cut (auth +:+ t) (str1 c) = (auth +:+ a, b, true).
Proof.
  intros Ha. unfold Cut. destruct (cut_char_cases t c) as [[Ht _]|(a & b & -> & Ha' & _)].
  - left. split; [done|]. rewrite cut_char_None; [done|]. by apply lacks_app.
  - right. exists a, b. split; [done|]. split; [done|].
    rewrite <- app_assoc, cut_char; [done|]. by apply lacks_app.
Qed.

Lemma boundary_prefix cs c a b :
  boundary (c :: cs) (a +:+ String (chr c) b) → 0 ≤ c < 256 → lacks (chr c) a → boundary cs a.
Proof.
  destruct a as [|x a]; [done|]. rewrite app_cons. simpl. intros H Hc [Hx _]%lacks_cons.
  apply elem_of_cons in H as [E|]; [|done]. destruct Hx. rewrite <- (chr_code x). by f_equal.
Qed.

Lemma boundary_weaken cs c t :
  boundary (c :: cs) t → 0 ≤ c < 256 → lacks (chr c) t → boundary cs t.
Proof.
  destruct t as [|x a]; [done|]. simpl. intros H Hc [Hx _]%lacks_cons.
  apply elem_of_cons in H as [E|]; [|done]. destruct Hx. rewrite <- (chr_code x). by f_equal.
Qed.

Definition web (scheme : string) : Prop := scheme = "http" ∨ scheme = "https".

(** The scheme and the host a URL is read with. *)
Definition reads (scheme auth : string) (u : URL) : Prop :=
  Scheme u = scheme ∧ ∃ user, parseAuthority scheme auth = Ok (user, Host u).

Lemma parse_rest_reads scheme auth t force query u :
  web scheme → lacks (chr 47) auth → boundary [47] t →
  parse_rest scheme ("//" +:+ auth +:+ t) force query = Ok u → reads scheme auth u.
Proof.
  intros Hs Ha Ht. unfold parse_rest.
  change (HasPrefix ("//" +:+ auth +:+ t) "/") with true.
  change (HasPrefix ("//" +:+ auth +:+ t) "//") with true.
  change (str_drop 2 ("//" +:+ auth +:+ t)) with (auth +:+ t).
  assert (String.eqb scheme "" = false) as -> by (by destruct Hs as [-> | ->]).
  assert (split_authority (auth +:+ t) = (auth, t)) as ->.
  { unfold split_authority. destruct t as [|c t].
    - rewrite app_nil_r, (cut_char_None _ (chr 47)); done.
    - simpl in Ht. apply list_elem_of_singleton in Ht.
      assert (c = chr 47) as -> by (by rewrite <- (chr_code c), Ht).
      by rewrite (cut_char auth (chr 47)). }
  cbn [negb andb orb fail_if mbind result_bind]. intros H.
  apply bind_Ok in H as ([[[user host] omit] rest] & H & H').
  apply bind_Ok in H as ([user' host'] & Hp & H). injection H as -> -> <- <-.
  apply bind_Ok in H' as (path & _ & H'). injection H' as <-. split; [done|]. by exists user.
Qed.

Lemma parse_reads scheme auth t u :
  web scheme → unsplit auth → boundary [63; 47] t →
  parse (scheme +:+ "://" +:+ auth +:+ t) = Ok u → reads scheme auth u.
Proof.
  intros Hs (Ha1 & Ha2 & _) Ht. unfold parse. intros H. apply bind_Ok in H as (? & _ & H).
  assert (getScheme (scheme +:+ "://" +:+ auth +:+ t) = Ok (scheme, "//" +:+ auth +:+ t)) as E
    by (by destruct Hs as [-> | ->]).
  assert (String.eqb (scheme +:+ "://" +:+ auth +:+ t) "*" = false) as Es
    by (by destruct Hs as [-> | ->]).
  assert (ToLower scheme = scheme) as El by (by destruct Hs as [-> | ->]).
  rewrite Es, E in H. cbn [mbind result_bind] in H. rewrite El in H.
  assert (lacks (chr 63) ("//" +:+ auth)) as Ha by (apply lacks_app; done).
  unfold single_question in H. rewrite <- app_assoc in H.
  destruct (cut_after (chr 63) ("//" +:+ auth) t Ha) as [[Hl EC]|(a & b & -> & Hl & EC)].
  - rewrite (cut_char_None _ (chr 63)) in H by (by apply lacks_app).
    change "?" with (str1 (chr 63)) in H. rewrite EC, app_assoc in H.
    eapply parse_rest_reads; [done|done| |done]. by eapply (boundary_weaken [47] 63).
  - assert (boundary [47] a) as Hb by (by eapply (boundary_prefix [47] 63)).
    change "?" with (str1 (chr 63)) in H.
    rewrite EC, <- app_assoc, cut_char in H by (by apply lacks_app).
    destruct b as [|y b].
    + unfold TrimSuffix in H. rewrite cut_last_char, app_assoc in H by done.
      by eapply parse_rest_reads.
    + rewrite app_assoc in H. by eapply parse_rest_reads.
Qed.

(** The authority that is read is the one that was written, whatever follows. *)
Lemma Parse_reads scheme auth t u :
  web scheme → unsplit auth → boundary [35; 63; 47] t →
  Parse (scheme +:+ "://" +:+ auth +:+ t) = Ok u → reads scheme auth u.
Proof.
  intros Hs Ha Ht. unfold Parse.
  assert (lacks (chr 35) (scheme +:+ "://" +:+ auth)) as Hl.
  { apply lacks_app. split; [by destruct Hs as [-> | ->]|]. apply lacks_app. split; [done|apply Ha]. }
  assert (∀ t', boundary [63; 47] t' → ∀ url, parse (scheme +:+ "://" +:+ auth +:+ t') = Ok url →
                reads scheme auth url) as Hp.
  { intros t' Ht' url. by apply parse_reads. }
  replace (scheme +:+ "://" +:+ auth +:+ t) with ((scheme +:+ "://" +:+ auth) +:+ t)
    by (by rewrite !app_assoc).
  change "#" with (str1 (chr 35)).
  destruct (cut_after (chr 35) _ t Hl) as [[Hl' ->]|(a & b & -> & Hl' & ->)]; intros H; inv_ok.
  - cbn [String.eqb] in *. inv_ok. rewrite !app_assoc in *. eapply Hp; [|done].
    by eapply (boundary_weaken [63; 47] 35).
  - rewrite !app_assoc in *. destruct (String.eqb b "").
    + inv_ok. eapply Hp; [|done]. by eapply (boundary_prefix [63; 47] 35).
    + inv_ok. match goal with H : parse _ = Ok ?url |- _ =>
        assert (reads scheme auth url) by (eapply Hp; [|done]; by eapply (boundary_prefix [63; 47] 35)) end.
      done.
Qed.

(** ** Scheme and host survive writing and parsing *)

Lemma query_boundary cs u : 63 ∈ cs → 35 ∈ cs → boundary cs (query_String u).
Proof.
  intros H1 H2. unfold query_String. destruct (_ || _); [done|]. by destruct (String.eqb (Fragment u) "").
Qed.

Lemma URL_String_shape u :
  web (Scheme u) → Opaque u = "" → Host u ≠ "" →
  ∃ t, boundary [35; 63; 47] t ∧
       URL_String u = Scheme u +:+ "://" +:+ (userinfo_prefix (User u) +:+ escape (Host u) encodeHost) +:+ t.
Proof.
  intros Hs Ho Hh. unfold URL_String, origin_String. rewrite Ho.
  apply String.eqb_neq in Hh as Hh'. rewrite Hh', andb_false_r. cbn [negb String.eqb andb].
  assert (String.eqb (Scheme u) "" = false) as -> by (by destruct Hs as [-> | ->]).
  set (path := EscapedPath u).
  set (slash := if negb (String.eqb path "") && negb (HasPrefix path "/") && true then "/" else "").
  match goal with |- context [if String.eqb ?o "" && ?x then "./" else ""] =>
    assert (String.eqb o "" = false) as -> by (by destruct Hs as [-> | ->]) end.
  cbn [andb]. exists (slash +:+ path +:+ query_String u). split.
  - subst slash. destruct path as [|c path].
    + rewrite !app_nil_l. by apply query_boundary; set_solver.
    + destruct (HasPrefix (String c path) "/") eqn:E; simpl.
      * apply HasPrefix_true in E as [r [= -> ->]]. by apply (bool_decide_unpack _).
      * by apply (bool_decide_unpack _).
  - by rewrite !app_assoc, app_nil_l.
Qed.

Lemma at_escaped s : lacks (chr 64) (escape s encodeHost).
Proof. by apply escape_lacks. Qed.

Lemma parseAuthority_escape scheme user host user' h :
  parseAuthority scheme (userinfo_prefix user +:+ escape host encodeHost) = Ok (user', h) → h = host.
Proof.
  unfold parseAuthority, userinfo_prefix. destruct user as [ui|].
  - rewrite app_assoc. change ("@" +:+ ?x) with (String (chr 64) x).
    rewrite (cut_last_char _ (chr 64)) by apply at_escaped. intros H. inv_ok.
    by eapply parseHost_escape.
  - rewrite app_nil_l, (cut_last_char_None _ (chr 64)) by apply at_escaped. intros H. inv_ok.
    by eapply parseHost_escape.
Qed.

(** Reading a written web URL gives its scheme and host, if it gives anything. *)
Theorem Parse_URL_String_origin u u' :
  web (Scheme u) → Opaque u = "" → Host u ≠ "" → Parse (URL_String u) = Ok u' →
  Scheme u' = Scheme u ∧ Host u' = Host u.
Proof.
  intros Hs Ho Hh H. destruct (URL_String_shape u Hs Ho Hh) as (t & Ht & E). rewrite E in H.
  apply Parse_reads in H as [HS [user HA]]; [|done| |done].
  - split; [done|]. by eapply parseAuthority_escape.
  - apply unsplit_app; [apply userinfo_unsplit|apply escape_unsplit; auto].
Qed.
