(* ===== verification/Ssh.v ===== *)
(** * pkg/proxy/ssh: commands and files over SSH

    Static mode keeps one connection; dynamic mode keeps a bounded pool of
    connections to allowed hosts. What the network does in a call is an argument of
    it; an operation returns its result, the new state and the connections it opened
    and closed, in order. *)

From S2P Require Import Prelude GoStrings GoJson GoAny GoBase64 GoTime NetIP Registry.
#[local] Open Scope Z_scope.

Definition defaultPort : Z := 22.
Definition defaultMaxOutputBytes : Z := 1048576.
Definition maxTimeoutMs : Z := 120000.
Definition defaultTimeoutMs : Z := 30000.
Definition defaultPoolTTL : Z := 10 * Minute.
Definition defaultPoolMaxSize : Z := 50.

(** ** State *)

Record Config := MkConfig {
  Host : string;
  Port : Z;
  MaxOutputBytes : Z;
  AllowedHosts : list string;
  PoolTTL : Z;
  PoolMaxSize : Z;
  KnownHosts : string;
  HostKey : string;
}.

Definition zero_config : Config := MkConfig "" 0 0 [] 0 0 "" "".

Definition Config_field (c : Config) (k : string) (v : json) : Config * bool :=
  let 'MkConfig h po mo ah tl ms kh hk := c in
  if key_is "host" k then let '(x, ok) := dec_string h v in (MkConfig x po mo ah tl ms kh hk, ok)
  else if key_is "port" k then let '(x, ok) := dec_int po v in (MkConfig h x mo ah tl ms kh hk, ok)
  else if key_is "max_output_bytes" k then
    let '(x, ok) := dec_int mo v in (MkConfig h po x ah tl ms kh hk, ok)
  else if key_is "allowed_hosts" k then
    let '(x, ok) := dec_string_list ah v in (MkConfig h po mo x tl ms kh hk, ok)
  else if key_is "pool_ttl_seconds" k then
    let '(x, ok) := dec_int tl v in (MkConfig h po mo ah x ms kh hk, ok)
  else if key_is "pool_max_size" k then
    let '(x, ok) := dec_int ms v in (MkConfig h po mo ah tl x kh hk, ok)
  else if key_is "known_hosts" k then
    let '(x, ok) := dec_string kh v in (MkConfig h po mo ah tl ms x hk, ok)
  else if key_is "host_key" k then
    let '(x, ok) := dec_string hk v in (MkConfig h po mo ah tl ms kh x, ok)
  else (c, true).

(** A connection, by identity. *)
Definition conn := nat.

Record poolEntry := MkPoolEntry { pe_client : conn; pe_lastUsed : Z }.

Inductive AuthMethod := PublicKeys (signer : string) | Password (password : string).

Inductive HostKeyCallback :=
  | KnownHostsFile (path : string)
  | FixedHostKey (key : string)
  | InsecureIgnoreHostKey.

Record ClientConfig := MkClientConfig {
  cc_User : string;
  cc_Auth : list AuthMethod;
  cc_HostKeyCallback : HostKeyCallback;
}.

Record Proxy := MkProxy {
  client : option conn;
  sftp : option nat;
  config : Config;
  dynamic : bool;
  sshConfig : option ClientConfig;
  pool : gmap string poolEntry;
  allowedNets : list IPNet;
  allowedHosts : list string;
  cleanupRunning : bool;              (* cleanupDone is open *)
}.

Definition New : Proxy := MkProxy None None zero_config false None ∅ [] [] false.

Definition set_pool (p : Proxy) (m : gmap string poolEntry) : Proxy :=
  MkProxy (client p) (sftp p) (config p) (dynamic p) (sshConfig p) m (allowedNets p)
    (allowedHosts p) (cleanupRunning p).

Inductive ssh_event :=
  | Dialed (addr : string) (cfg : ClientConfig) (c : conn)
  | Closed (c : conn)
  | SftpClosed (s : nat).

(** x/crypto/ssh and knownhosts: parsers of key material. *)
Class SshLib := {
  knownhosts_New : string → result unit;
  ParseAuthorizedKey : string → result string;
  ParsePrivateKey : string → result string;
  ParsePrivateKeyWithPassphrase : string → string → result string;
}.

(** ** Configuration *)

Definition hostKeyCallback `{SshLib} (cfg : Config) : result HostKeyCallback :=
  if negb (String.eqb (KnownHosts cfg) "") then
    _ ← wrap_err ("loading known_hosts " +:+ Quote (KnownHosts cfg) +:+ ": ")
          (knownhosts_New (KnownHosts cfg));
    Ok (KnownHostsFile (KnownHosts cfg))
  else if negb (String.eqb (HostKey cfg) "") then
    key ← wrap_err "parsing host_key: " (ParseAuthorizedKey (HostKey cfg));
    Ok (FixedHostKey key)
  else Ok InsecureIgnoreHostKey.

Definition buildAuthMethods `{SshLib} (creds : gmap string string) : result (list AuthMethod) :=
  let key := cred creds "private_key" in
  let passphrase := cred creds "passphrase" in
  let password := cred creds "password" in
  keys ←
    (if negb (String.eqb key "") then
       signer ← wrap_err "parsing private key: "
         (if negb (String.eqb passphrase "") then ParsePrivateKeyWithPassphrase key passphrase
          else ParsePrivateKey key);
       Ok [PublicKeys signer]
     else Ok []);
  let methods := keys ++ (if negb (String.eqb password "") then [Password password] else []) in
  match methods with
  | [] => Err (errorf "no ssh auth method provided (need private_key or password)")
  | _ => Ok methods
  end.

(** One entry of allowed_hosts: a network, a single address, or a host name. *)
Definition parse_allowed (h : string) : IPNet + string :=
  match ParseCIDR h with
  | Some (_, ipNet) => inl ipNet
  | None =>
      match ParseIP h with
      | Some ip =>
          match To4 ip with
          | Some ip4 => inl (MkIPNet ip4 (CIDRMask 32 32))
          | None => inl (MkIPNet ip (CIDRMask 128 128))
          end
      | None => inr h
      end
  end.

Definition allowed_nets (hosts : list string) : list IPNet :=
  list_omap _ _ (λ h, match parse_allowed h with inl n => Some n | inr _ => None end) hosts.
Definition allowed_names (hosts : list string) : list string :=
  list_omap _ _ (λ h, match parse_allowed h with inl _ => None | inr h => Some h end) hosts.

Definition parseAllowedHosts (p : Proxy) (hosts : list string) : Proxy :=
  MkProxy (client p) (sftp p) (config p) (dynamic p) (sshConfig p) (pool p)
    (allowed_nets hosts) (allowed_names hosts) (cleanupRunning p).

(** [close] is what closing each connection returns. *)
Definition closeAllLocked (close : conn → result unit) (p : Proxy)
  : result unit * Proxy * list ssh_event :=
  let ev_sftp := match sftp p with Some s => [SftpClosed s] | None => [] end in
  let '(staticErr, ev_client) :=
    match client p with Some c => (close c, [Closed c]) | None => (Ok tt, []) end in
  let ev_pool := map (λ '(_, e), Closed (pe_client e)) (map_to_list (pool p)) in
  (staticErr,
   MkProxy None None (config p) (dynamic p) None ∅ (allowedNets p) (allowedHosts p) false,
   ev_sftp ++ ev_client ++ ev_pool).

Definition Close := closeAllLocked.

(** [dial] is the outcome of [ssh.Dial] to an address. *)
Definition Configure `{SshLib} (close : conn → result unit)
    (dial : string → ClientConfig → result conn) (p : Proxy)
    (conf : gmap string any) (creds : gmap string string)
  : result unit * Proxy * list ssh_event :=
  let '(_, p, ev) := closeAllLocked close p in
  match marshal_any_map conf with
  | None => (Err (wrapf "parsing ssh config: " json_error), p, ev)
  | Some j =>
  let '(cfg, ok) := dec_struct Config_field zero_config j in
  if negb ok then (Err (wrapf "parsing ssh config: " json_error), p, ev)
  else
    let port := if Port cfg =? 0 then defaultPort else Port cfg in
    let maxOut := if MaxOutputBytes cfg =? 0 then defaultMaxOutputBytes else MaxOutputBytes cfg in
    let cfg := MkConfig (Host cfg) port maxOut (AllowedHosts cfg) (PoolTTL cfg) (PoolMaxSize cfg)
                 (KnownHosts cfg) (HostKey cfg) in
    let p := MkProxy (client p) (sftp p) cfg (dynamic p) (sshConfig p) (pool p) (allowedNets p)
               (allowedHosts p) (cleanupRunning p) in
    match buildAuthMethods creds with
    | Err e => (Err (wrapf "building ssh auth: " e), p, ev)
    | Ok auth =>
        if String.eqb (cred creds "username") "" then
          (Err (errorf "ssh username is required"), p, ev)
        else
          match hostKeyCallback cfg with
          | Err e => (Err (wrapf "configuring ssh host key verification: " e), p, ev)
          | Ok cb =>
              let sshCfg := MkClientConfig (cred creds "username") auth cb in
              if String.eqb (Host cfg) "" then
                let p := MkProxy (client p) (sftp p) cfg true (Some sshCfg) ∅ (allowedNets p)
                           (allowedHosts p) (cleanupRunning p) in
                let p := parseAllowedHosts p (AllowedHosts cfg) in
                (Ok tt, MkProxy (client p) (sftp p) (config p) (dynamic p) (sshConfig p) (pool p)
                          (allowedNets p) (allowedHosts p) true, ev)
              else
                let p := MkProxy (client p) (sftp p) cfg false None (pool p) (allowedNets p)
                           (allowedHosts p) (cleanupRunning p) in
                let addr := JoinHostPort (Host cfg) (Itoa port) in
                match dial addr sshCfg with
                | Err e => (Err (wrapf ("ssh dial " +:+ addr +:+ ": ") e), p, ev)
                | Ok c =>
                    (Ok tt, MkProxy (Some c) (sftp p) (config p) (dynamic p) (sshConfig p) (pool p)
                              (allowedNets p) (allowedHosts p) (cleanupRunning p),
                     ev ++ [Dialed addr sshCfg c])
                end
          end
    end
  end.

(** ** The allowlist *)

(** [lookup] is [net.LookupHost]. *)
Definition isHostAllowed (lookup : string → result (list string)) (p : Proxy) (host : string)
  : bool :=
  match allowedNets p, allowedHosts p with
  | [], [] => true
  | _, _ =>
      if existsb (String.eqb host) (allowedHosts p) then true
      else
        match ParseIP host with
        | Some ip => existsb (λ n, Contains_ip n ip) (allowedNets p)
        | None =>
            match lookup host with
            | Err _ => false
            | Ok addrs =>
                existsb (λ addr,
                  match ParseIP addr with
                  | Some resolved => existsb (λ n, Contains_ip n resolved) (allowedNets p)
                  | None => false
                  end) addrs
            end
        end
  end.

(** ** The pool *)

(** One step of the loop of [evictOldestLocked]. *)
Definition older (acc : option (string * Z)) (kv : string * poolEntry) : option (string * Z) :=
  let '(addr, entry) := kv in
  match acc with
  | None => Some (addr, pe_lastUsed entry)
  | Some (_, t) => if pe_lastUsed entry <? t then Some (addr, pe_lastUsed entry) else acc
  end.

(** The order Go ranges over the map decides among equally old entries. *)
Definition evictOldestLocked (p : Proxy) : Proxy * list ssh_event :=
  match foldl older None (map_to_list (pool p)) with
  | Some (oldestAddr, _) =>
      if String.eqb oldestAddr "" then (p, [])
      else
        (set_pool p (delete oldestAddr (pool p)),
         match pool p !! oldestAddr with Some e => [Closed (pe_client e)] | None => [] end)
  | None => (p, [])
  end.

(** What the network and the clock do during one call. *)
Record pool_env := MkPoolEnv {
  pe_alive : conn → bool;                             (* the keepalive is answered *)
  pe_dial : string → ClientConfig → result conn;
  pe_now : Z;
}.

(** The size the pool is kept below before a connection is added. *)
Definition pool_limit (p : Proxy) : Z :=
  if PoolMaxSize (config p) =? 0 then defaultPoolMaxSize else PoolMaxSize (config p).

(** The second half of [getPooledClient]: room, then a new connection. *)
Definition dial_pooled (env : pool_env) (p : Proxy) (addr : string) (ev : list ssh_event)
  : result conn * Proxy * list ssh_event :=
  let '(p, ev') := if pool_limit p <=? Z.of_nat (size (pool p)) then evictOldestLocked p
                   else (p, []) in
  match sshConfig p with
  | None => (Err (errorf "ssh config not initialized"), p, ev ++ ev')
  | Some sshCfg =>
      match pe_dial env addr sshCfg with
      | Err e => (Err (wrapf ("ssh dial " +:+ addr +:+ ": ") e), p, ev ++ ev')
      | Ok c =>
          (Ok c, set_pool p (<[addr := MkPoolEntry c (pe_now env)]> (pool p)),
           ev ++ ev' ++ [Dialed addr sshCfg c])
      end
  end.

Definition getPooledClient (env : pool_env) (p : Proxy) (addr : string)
  : result conn * Proxy * list ssh_event :=
  match pool p !! addr with
  | Some entry =>
      if pe_alive env (pe_client entry) then
        (Ok (pe_client entry),
         set_pool p (<[addr := MkPoolEntry (pe_client entry) (pe_now env)]> (pool p)), [])
      else
        let p := set_pool p (delete addr (pool p)) in
        dial_pooled env p addr [Closed (pe_client entry)]
  | None => dial_pooled env p addr []
  end.

Definition cleanupExpiredConnections (p : Proxy) (now : Z) : Proxy * list ssh_event :=
  let ttl := wrap64 (PoolTTL (config p) * Second) in
  let ttl := if ttl =? 0 then defaultPoolTTL else ttl in
  let cutoff := now - ttl in
  let expired := filter (λ '(_, e), pe_lastUsed e < cutoff) (pool p) in
  (set_pool p (filter (λ '(_, e), ¬ (pe_lastUsed e < cutoff)) (pool p)),
   map (λ '(_, e), Closed (pe_client e)) (map_to_list expired)).

(** ** Requests *)

Definition params := gmap string any.

(** [v, ok := params[k].(float64); ok && v > 0]. *)
Definition positive_number (ps : params) (k : string) : option Z :=
  match as_float (ps !! k) with
  | Some f => if float_pos f then Some (float_to_int f) else None
  | None => None
  end.

Definition getClient (lookup : string → result (list string)) (env : pool_env) (p : Proxy)
    (ps : params) : result conn * Proxy * list ssh_event :=
  if negb (dynamic p) then
    match client p with
    | None => (Err (errorf "not connected"), p, [])
    | Some c => (Ok c, p, [])
    end
  else
    let host := as_string (ps !! "host") in
    if String.eqb host "" then
      (Err (errorf "host is required in dynamic mode (no static host configured)"), p, [])
    else if negb (isHostAllowed lookup p host) then
      (Err (errorf ("host " +:+ host +:+ " is not in the allowed hosts list")), p, [])
    else
      let port := default (Port (config p)) (positive_number ps "port") in
      getPooledClient env p (JoinHostPort host (Itoa port)).

(** [newClient] is the outcome of [sftp.NewClient] on a connection. *)
Definition getSFTP (lookup : string → result (list string)) (env : pool_env)
    (newClient : conn → result nat) (p : Proxy) (ps : params)
  : result nat * Proxy * list ssh_event :=
  if dynamic p then
    let '(r, p, ev) := getClient lookup env p ps in
    (c ← r; wrap_err "sftp client: " (newClient c), p, ev)
  else
    match client p with
    | None => (Err (errorf "not connected"), p, [])
    | Some c =>
        match sftp p with
        | Some s => (Ok s, p, [])
        | None =>
            match newClient c with
            | Err e => (Err (wrapf "sftp client: " e), p, [])
            | Ok s =>
                (Ok s, MkProxy (client p) (Some s) (config p) (dynamic p) (sshConfig p) (pool p)
                         (allowedNets p) (allowedHosts p) (cleanupRunning p), [])
            end
        end
    end.

(** [io.ReadAll(io.LimitReader(r, n))] of a stream with the given content. *)
Definition read_limited (n : Z) (content : string) : string :=
  String.substring 0 (Z.to_nat n) content.

(** The time allowed for a command, in milliseconds and as a Duration. *)
Definition exec_timeout_ms (ps : params) : Z :=
  match positive_number ps "timeout_ms" with
  | Some v => if maxTimeoutMs <? v then maxTimeoutMs else v
  | None => defaultTimeoutMs
  end.
Definition exec_timeout (ps : params) : Z := wrap64 (exec_timeout_ms ps * 1000000).

(** How the wait for a started command ends. *)
Inductive wait_outcome :=
  | TimedOut
  | Exited (code : Z)
  | WaitFailed (e : error).

(** A session as the server plays it. *)
Record session_env := MkSessionEnv {
  se_new : result unit;
  se_stdoutPipe : result unit;
  se_stderrPipe : result unit;
  se_start : string → result unit;
  se_stdout : string;
  se_stderr : string;
  se_wait : Z → wait_outcome;           (* given the timeout *)
}.

(** A successful response carries the printed JSON. *)
Definition ok_response (j : json) : ActionResponse := MkResponse 200 "" "" "" (json_print j) None.

Definition handleExec (lookup : string → result (list string)) (env : pool_env)
    (session : conn → session_env) (p : Proxy) (ps : params)
  : result ActionResponse * Proxy * list ssh_event :=
  let command := as_string (ps !! "command") in
  if String.eqb command "" then (Err (errorf "ssh_command: command is required"), p, [])
  else
    let '(r, p, ev) := getClient lookup env p ps in
    (c ← wrap_err "ssh_command: " r;
     let maxOut := MaxOutputBytes (config p) in
     let s := session c in
     _ ← wrap_err "ssh_command: new session: " (se_new s);
     _ ← wrap_err "ssh_command: stdout pipe: " (se_stdoutPipe s);
     _ ← wrap_err "ssh_command: stderr pipe: " (se_stderrPipe s);
     _ ← wrap_err "ssh_command: start: " (se_start s command);
     let stdout := read_limited maxOut (se_stdout s) in
     let stderr := read_limited maxOut (se_stderr s) in
     match se_wait s (exec_timeout ps) with
     | TimedOut => Err (errorf "ssh_command: command timed out")
     | WaitFailed e => Err (wrapf "ssh_command: wait: " e)
     | Exited exitCode =>
         Ok (ok_response (JObj [("exit_code", JNum (Itoa exitCode)); ("stderr", JStr stderr);
                                ("stdout", JStr stdout)]))
     end, p, ev).

(** A remote directory entry. *)
Record file_info := MkFileInfo {
  fi_Name : string;
  fi_Size : Z;
  fi_Mode : string;
  fi_ModTime : Z;
  fi_IsDir : bool;
}.

(** An SFTP session as the server plays it. *)
Record sftp_env := MkSftpEnv {
  sf_create : string → result unit;
  sf_write : string → result Z;
  sf_open : string → result unit;
  sf_read : Z → result string;          (* at most that many bytes *)
  sf_readdir : string → result (list file_info);
}.

(** What an upload does to the remote side. *)
Inductive sftp_effect :=
  | SftpCreate (path : string)
  | SftpWrite (content : string)
  | SftpChmod (path : string) (mode : Z).

(** os.FileMode is a uint32. *)
Definition parseFileMode (mode : Z) : Z := mode mod 4294967296.

Definition handleUpload (lookup : string → result (list string)) (env : pool_env)
    (newClient : conn → result nat) (fs : nat → sftp_env) (p : Proxy) (ps : params)
  : result ActionResponse * Proxy * list ssh_event * list sftp_effect :=
  let remotePath := as_string (ps !! "remote_path") in
  let contentB64 := as_string (ps !! "content") in
  if String.eqb remotePath "" then (Err (errorf "ssh_upload: remote_path is required"), p, [], [])
  else if String.eqb contentB64 "" then (Err (errorf "ssh_upload: content is required"), p, [], [])
  else
    match DecodeString contentB64 with
    | None => (Err (wrapf "ssh_upload: invalid base64 content: " (errorf "base64")), p, [], [])
    | Some content =>
        let mode := default 420 (positive_number ps "mode") in
        let '(r, p, ev) := getSFTP lookup env newClient p ps in
        match r with
        | Err e => (Err (wrapf "ssh_upload: " e), p, ev, [])
        | Ok s =>
            match sf_create (fs s) remotePath with
            | Err e => (Err (wrapf ("ssh_upload: create " +:+ remotePath +:+ ": ") e), p, ev, [])
            | Ok _ =>
                match sf_write (fs s) content with
                | Err e => (Err (wrapf "ssh_upload: write: " e), p, ev, [SftpCreate remotePath])
                | Ok n =>
                    (Ok (ok_response (JObj [("bytes_written", JNum (Itoa n));
                                            ("remote_path", JStr remotePath)])), p, ev,
                     [SftpCreate remotePath; SftpWrite content;
                      SftpChmod remotePath (parseFileMode mode)])
                end
            end
        end
    end.

Definition handleDownload (lookup : string → result (list string)) (env : pool_env)
    (newClient : conn → result nat) (fs : nat → sftp_env) (p : Proxy) (ps : params)
  : result ActionResponse * Proxy * list ssh_event :=
  let remotePath := as_string (ps !! "remote_path") in
  if String.eqb remotePath "" then (Err (errorf "ssh_download: remote_path is required"), p, [])
  else
    let maxOut := MaxOutputBytes (config p) in
    let '(r, p, ev) := getSFTP lookup env newClient p ps in
    (s ← wrap_err "ssh_download: " r;
     _ ← wrap_err ("ssh_download: open " +:+ remotePath +:+ ": ") (sf_open (fs s) remotePath);
     content ← wrap_err "ssh_download: read: "
       (c ← sf_read (fs s) maxOut; Ok (read_limited maxOut c));
     Ok (ok_response (JObj [("content", JStr (EncodeToString content));
                            ("remote_path", JStr remotePath);
                            ("size", JNum (Itoa (Z.of_nat (String.length content))))])), p, ev).

Definition dir_entry (e : file_info) : json :=
  JObj [("name", JStr (fi_Name e)); ("size", JNum (Itoa (fi_Size e))); ("mode", JStr (fi_Mode e));
        ("mod_time", JStr (format_rfc3339 (fi_ModTime e))); ("is_dir", JBool (fi_IsDir e))].

Definition handleListDir (lookup : string → result (list string)) (env : pool_env)
    (newClient : conn → result nat) (fs : nat → sftp_env) (p : Proxy) (ps : params)
  : result ActionResponse * Proxy * list ssh_event :=
  let remotePath := as_string (ps !! "remote_path") in
  if String.eqb remotePath "" then (Err (errorf "ssh_list_dir: remote_path is required"), p, [])
  else
    let '(r, p, ev) := getSFTP lookup env newClient p ps in
    (s ← wrap_err "ssh_list_dir: " r;
     entries ← wrap_err ("ssh_list_dir: readdir " +:+ remotePath +:+ ": ")
       (sf_readdir (fs s) remotePath);
     Ok (ok_response (JArr (map dir_entry entries))), p, ev).

(** What the network does during a request. *)
Record ssh_world := MkSshWorld {
  sw_lookup : string → result (list string);
  sw_pool : pool_env;
  sw_session : conn → session_env;
  sw_newSftp : conn → result nat;
  sw_sftp : nat → sftp_env;
}.

Definition HandleRequest (w : ssh_world) (p : Proxy) (req : ActionRequest)
  : result ActionResponse * Proxy * list ssh_event :=
  let ps := req_Params req in
  if String.eqb (req_Action req) "ssh_command" then
    handleExec (sw_lookup w) (sw_pool w) (sw_session w) p ps
  else if String.eqb (req_Action req) "ssh_upload" then
    (handleUpload (sw_lookup w) (sw_pool w) (sw_newSftp w) (sw_sftp w) p ps).1
  else if String.eqb (req_Action req) "ssh_download" then
    handleDownload (sw_lookup w) (sw_pool w) (sw_newSftp w) (sw_sftp w) p ps
  else if String.eqb (req_Action req) "ssh_list_dir" then
    handleListDir (sw_lookup w) (sw_pool w) (sw_newSftp w) (sw_sftp w) p ps
  else (Err (errorf ("unknown ssh action: " +:+ req_Action req)), p, []).

(** [newSession] and [run] are the outcomes of opening a session on the static
    connection and of running "echo ok" in it. *)
Definition HealthCheck (newSession run : conn → result unit) (p : Proxy) : result unit :=
  if dynamic p then
    match sshConfig p with
    | None => Err (errorf "ssh config not initialized")
    | Some _ => Ok tt
    end
  else
    match client p with
    | None => Err (errorf "not connected")
    | Some c =>
        _ ← wrap_err "health check session: " (newSession c);
        wrap_err "health check run: " (run c)
    end.

Definition CollectMetadata (p : Proxy) : gmap string any :=
  if dynamic p then
    list_to_map [("mode", AStr "dynamic"); ("port", AInt (Port (config p)));
                 ("allowed_hosts", AStrs (AllowedHosts (config p)));
                 ("active_connections", AInt (Z.of_nat (size (pool p))))]
  else
    list_to_map [("mode", AStr "static"); ("host", AStr (Host (config p)));
                 ("port", AInt (Port (config p)))].
