(* ===== verification/SshFacts.v ===== *)
(** * Correctness of the SSH proxy *)

From S2P Require Import Prelude GoStrings GoJson GoAny NetIP Registry Ssh.
#[local] Open Scope Z_scope.

(** ** Runs of the proxy *)

Inductive ssh_op :=
  | OpConfigure (conf : gmap string any) (creds : gmap string string)
                (dial : string → ClientConfig → result conn)
  | OpRequest (w : ssh_world) (req : ActionRequest)
  | OpCleanup (now : Z)
  | OpClose.

Section runs.
Context `{SshLib} (close : conn → result unit).

Definition ssh_step (s : Proxy * list ssh_event) (op : ssh_op) : Proxy * list ssh_event :=
  let '(p, ev) := s in
  let '(p', ev') :=
    match op with
    | OpConfigure conf creds dial =>
        let '(_, p, ev) := Configure close dial p conf creds in (p, ev)
    | OpRequest w req => let '(_, p, ev) := HandleRequest w p req in (p, ev)
    | OpCleanup now => cleanupExpiredConnections p now
    | OpClose => let '(_, p, ev) := Close close p in (p, ev)
    end in
  (p', ev ++ ev').

Definition ssh_run (ops : list ssh_op) : Proxy * list ssh_event :=
  foldl ssh_step (New, []) ops.
End runs.

(** The connections a proxy holds. *)
Definition live (p : Proxy) (c : conn) : Prop :=
  client p = Some c ∨ ∃ addr e, pool p !! addr = Some e ∧ pe_client e = c.

(** The state invariant: the pool has at most the configured size (and room for one
    connection), no entry under the empty address, and in static mode no entry. *)
Record ssh_inv (p : Proxy) : Prop := {
  si_bound : Z.of_nat (size (pool p)) ≤ Z.max 1 (pool_limit p);
  si_addr : pool p !! "" = None;
}.

(** What one operation does to the connections: those it opens and does not close
    again are live afterwards, and so are those that were and were not closed. *)
Definition accounts (p : Proxy) (ev : list ssh_event) (p' : Proxy) : Prop :=
  (∀ a cfg c, Dialed a cfg c ∈ ev → live p' c ∨ Closed c ∈ ev)
  ∧ (∀ c, live p c → live p' c ∨ Closed c ∈ ev).

(** Everything an operation guarantees. *)
Definition good_step (p : Proxy) (ev : list ssh_event) (p' : Proxy) : Prop :=
  ssh_inv p → accounts p ev p' ∧ ssh_inv p'.

Lemma elem_of_nil_ev (e : ssh_event) : e ∈ [] → False.
Proof. apply not_elem_of_nil. Qed.

Lemma good_refl p : good_step p [] p.
Proof. intros Hp. split; [|done]. split; [by intros a cfg c ?%elem_of_nil_ev|by left]. Qed.

Lemma good_trans p ev1 p1 ev2 p2 :
  good_step p ev1 p1 → good_step p1 ev2 p2 → good_step p (ev1 ++ ev2) p2.
Proof.
  intros H1 H2 Hp. destruct (H1 Hp) as [[Ha1 Ha2] Hp1]. destruct (H2 Hp1) as [[Hb1 Hb2] Hp2].
  split; [|done]. split.
  - intros a cfg c [Hin|Hin]%elem_of_app; rewrite elem_of_app.
    + destruct (Ha1 _ _ _ Hin) as [Hl|]; [|by eauto]. destruct (Hb2 _ Hl); eauto.
    + destruct (Hb1 _ _ _ Hin); eauto.
  - intros c Hc. rewrite elem_of_app.
    destruct (Ha2 _ Hc) as [Hl|]; [|by eauto]. destruct (Hb2 _ Hl); eauto.
Qed.

(** ** Eviction *)

Lemma foldl_older_spec l acc :
  match foldl older acc l with
  | Some (a, t) =>
      (acc = Some (a, t) ∨ ∃ e, (a, e) ∈ l ∧ pe_lastUsed e = t)
      ∧ (∀ b e, (b, e) ∈ l → t ≤ pe_lastUsed e)
      ∧ (∀ a0 t0, acc = Some (a0, t0) → t ≤ t0)
  | None => acc = None ∧ l = []
  end.
Proof.
  revert acc. induction l as [|[b e] l IH]; intros acc; simpl.
  - destruct acc as [[a t]|]; [|done]. split_and!; [by left| |by intros ?? [= -> ->]].
    intros ?? Hin. by apply not_elem_of_nil in Hin.
  - specialize (IH (match acc with
      | None => Some (b, pe_lastUsed e)
      | Some (_, t) => if pe_lastUsed e <? t then Some (b, pe_lastUsed e) else acc end)).
    destruct (foldl older _ l) as [[a t]|]; simpl in *.
    + destruct IH as (H1 & H2 & H3). split_and!.
      * destruct H1 as [H1|(e' & He' & Ht)]; [|right; exists e'; split; [by right|done]].
        destruct acc as [[a0 t0]|]; [case_match|]; simplify_eq; eauto;
          right; exists e; (split; [by left|done]).
      * intros b' e' [[= -> ->]|Hin]%elem_of_cons; [|by eapply H2].
        destruct acc as [[a0 t0]|]; [|by eapply H3].
        destruct (Z.ltb_spec (pe_lastUsed e) t0); [by eapply H3|].
        specialize (H3 _ _ eq_refl). lia.
      * intros a0 t0 ->. destruct (Z.ltb_spec (pe_lastUsed e) t0); [|by eapply H3].
        specialize (H3 _ _ eq_refl). lia.
    + destruct IH as [H1 H2]. destruct acc as [[a0 t0]|]; [|done]. by case_match.
Qed.

(** [evictOldestLocked] removes one entry, the least recently used one, and
    closes its connection. *)
Lemma evictOldest_spec p :
  pool p !! "" = None → pool p ≠ ∅ →
  ∃ addr e, pool p !! addr = Some e
    ∧ evictOldestLocked p = (set_pool p (delete addr (pool p)), [Closed (pe_client e)])
    ∧ ∀ b e', pool p !! b = Some e' → pe_lastUsed e ≤ pe_lastUsed e'.
Proof.
  intros Hno Hne. unfold evictOldestLocked.
  pose proof (foldl_older_spec (map_to_list (pool p)) None) as Hs.
  destruct (foldl older None _) as [[a t]|].
  - destruct Hs as ([|(e & Hin%elem_of_map_to_list & <-)] & Hmin & _); [done|].
    exists a, e. split; [done|]. destruct (String.eqb_spec a "") as [->|]; [congruence|].
    rewrite Hin. split; [done|]. intros b e' Hb. apply (Hmin b). by apply elem_of_map_to_list.
  - destruct Hs as [_ Hs]. apply map_to_list_empty_iff in Hs. done.
Qed.

Lemma set_pool_limit p m : pool_limit (set_pool p m) = pool_limit p.
Proof. done. Qed.

Lemma live_set_pool p m c :
  live (set_pool p m) c ↔ client p = Some c ∨ ∃ addr e, m !! addr = Some e ∧ pe_client e = c.
Proof. done. Qed.

(** Removing one entry, its connection being closed. *)
Lemma live_delete p addr e c :
  pool p !! addr = Some e → live p c →
  live (set_pool p (delete addr (pool p))) c ∨ c = pe_client e.
Proof.
  intros He [Hc|(a & e' & Ha & <-)]; [by left; left|].
  destruct (decide (a = addr)) as [->|Hne]; [right; congruence|].
  left. right. exists a, e'. split; [|done]. simpl. by rewrite lookup_delete_ne.
Qed.

(** Adding one entry at a free address. *)
Lemma live_insert p addr e c :
  pool p !! addr = None → live p c → live (set_pool p (<[addr:=e]> (pool p))) c.
Proof.
  intros Hn [Hc|(a & e' & Ha & <-)]; [by left|].
  right. exists a, e'. split; [|done]. simpl. rewrite lookup_insert_ne; [done|]. intros <-. congruence.
Qed.

(** ** The pool's operations *)

(** Making room: at most one entry goes, and its connection is closed. *)
Definition room (p : Proxy) : Proxy * list ssh_event :=
  if pool_limit p <=? Z.of_nat (size (pool p)) then evictOldestLocked p else (p, []).

Lemma room_spec p :
  ssh_inv p →
  ∃ m ev, room p = (set_pool p m, ev) ∧ m ⊆ pool p
    ∧ Z.of_nat (size m) ≤ Z.max 1 (pool_limit p) - 1
    ∧ (∀ e, e ∈ ev → ∃ c, e = Closed c)
    ∧ (∀ c, live p c → live (set_pool p m) c ∨ Closed c ∈ ev).
Proof.
  intros [Hb Ha]. unfold room.
  assert (set_pool p (pool p) = p) as Hid by (by destruct p).
  destruct (Z.leb_spec (pool_limit p) (Z.of_nat (size (pool p)))) as [Hl|Hl].
  - destruct (decide (pool p = ∅)) as [He|He].
    + exists (pool p), []. unfold evictOldestLocked. rewrite He, map_to_list_empty. simpl.
      rewrite <- He, Hid. split_and!; try done.
      * rewrite He, map_size_empty. lia.
      * by intros e ?%elem_of_nil_ev.
      * by left.
    + destruct (evictOldest_spec p Ha He) as (addr & e & Hp & -> & _).
      exists (delete addr (pool p)), [Closed (pe_client e)]. split_and!; [done| | | |].
      * apply delete_subseteq.
      * rewrite map_size_delete_Some by eauto.
        assert (size (pool p) ≠ 0%nat) by (by rewrite map_size_ne_0_lookup; eauto). lia.
      * intros e' ?%list_elem_of_singleton. eauto.
      * intros c Hc. destruct (live_delete p addr e c Hp Hc) as [| ->]; [by left|].
        right. by left.
  - exists (pool p), []. rewrite Hid. split_and!; try done; [lia| |by left].
    by intros e ?%elem_of_nil_ev.
Qed.

Lemma dial_pooled_good env p addr ev :
  addr ≠ "" → pool p !! addr = None → ssh_inv p →
  (∀ e, e ∈ ev → ∃ c, e = Closed c) →
  let '(_, p', ev') := dial_pooled env p addr ev in
  (∃ ev1, ev' = ev ++ ev1) ∧ accounts p ev' p' ∧ ssh_inv p'.
Proof.
  intros Hne Hnone Hinv Hev. unfold dial_pooled. fold (room p).
  destruct (room_spec p Hinv) as (m & ev1 & -> & Hsub & Hsz & Hcl & Hlive).
  cbn [sshConfig set_pool].
  assert (ssh_inv (set_pool p m)) as Hinv1.
  { destruct Hinv as [_ Ha]. split; rewrite ?set_pool_limit; simpl; [lia|].
    eapply lookup_weaken_None; [exact Ha|done]. }
  assert (∀ a cfg c, Dialed a cfg c ∈ ev ++ ev1 → False) as Hnd.
  { intros a cfg c [Hin|Hin]%elem_of_app; [apply Hev in Hin|apply Hcl in Hin]; by destruct Hin. }
  assert (accounts p (ev ++ ev1) (set_pool p m)) as Hacc.
  { split; [intros a cfg c Hin; by apply Hnd in Hin|]. intros c Hc.
    destruct (Hlive c Hc); [by left|]. right. apply elem_of_app. by right. }
  destruct (sshConfig p) as [cfg|]; [|by eauto].
  destruct (pe_dial env addr cfg) as [c|e]; [|by eauto].
  assert (m !! addr = None) as Hm by (by eapply lookup_weaken_None).
  split; [by exists (ev1 ++ [Dialed addr cfg c])|]. split.
  - split.
    + intros a cfg' c' Hin. rewrite List.app_assoc in Hin.
      apply elem_of_app in Hin as [Hin|Hin%list_elem_of_singleton]; [by apply Hnd in Hin|].
      injection Hin as -> -> ->. left. right. exists addr, (MkPoolEntry c (pe_now env)).
      simpl. by rewrite lookup_insert_eq.
    + intros c' Hc'. destruct (Hlive c' Hc') as [Hl|Hin].
      * left. by apply (live_insert (set_pool p m)).
      * right. rewrite !elem_of_app. auto.
  - destruct Hinv1 as [_ Ha1]. split; rewrite ?set_pool_limit; simpl.
    + rewrite map_size_insert_None by done. lia.
    + by rewrite lookup_insert_ne.
Qed.

Lemma JoinHostPort_nonempty h q : JoinHostPort h q ≠ "".
Proof. unfold JoinHostPort. case_match; [done|]. by destruct h. Qed.

Lemma getPooledClient_good env p addr :
  addr ≠ "" → let '(_, p', ev) := getPooledClient env p addr in good_step p ev p'.
Proof.
  intros Hne. unfold getPooledClient. destruct (pool p !! addr) as [e|] eqn:He.
  - destruct (pe_alive env (pe_client e)).
    + intros [Hb Ha]. split.
      * split; [by intros a cfg c ?%elem_of_nil_ev|]. intros c [Hc|(a & e' & Ha' & <-)]; [by left; left|].
        left. right. destruct (decide (a = addr)) as [->|Hna].
        -- exists addr, (MkPoolEntry (pe_client e) (pe_now env)). simpl.
           rewrite lookup_insert_eq. split; [done|]. simpl. congruence.
        -- exists a, e'. simpl. by rewrite lookup_insert_ne.
      * split; rewrite ?set_pool_limit; simpl.
        -- by rewrite map_size_insert_Some by eauto.
        -- by rewrite lookup_insert_ne.
    + pose proof (dial_pooled_good env (set_pool p (delete addr (pool p))) addr
                    [Closed (pe_client e)] Hne) as Hd.
      destruct (dial_pooled _ _ _ _) as [[r p'] ev]. intros [Hb Ha].
      destruct Hd as ((ev1 & ->) & [Hacc1 Hacc2] & Hinv').
      * simpl. apply lookup_delete_eq.
      * split; rewrite ?set_pool_limit; simpl.
        -- pose proof (size_delete_lt (pool p) addr (ltac:(eauto))). lia.
        -- by rewrite lookup_delete_ne by done.
      * intros x ?%list_elem_of_singleton. eauto.
      * split; [|done]. split; [done|]. intros c Hc.
        destruct (live_delete p addr e c He Hc) as [Hl| ->]; [by apply Hacc2|]. right. by left.
  - pose proof (dial_pooled_good env p addr [] Hne He) as Hd.
    destruct (dial_pooled _ _ _ _) as [[r p'] ev]. intros Hinv.
    destruct Hd as (_ & ? & ?); [done|by intros x ?%elem_of_nil_ev|done].
Qed.

Lemma getClient_good lookup env p ps :
  let '(_, p', ev) := getClient lookup env p ps in good_step p ev p'.
Proof.
  unfold getClient. repeat case_match; simplify_eq; try apply good_refl.
  pose proof (getPooledClient_good env p _ (JoinHostPort_nonempty
    (as_string (ps !! "host")) (Itoa (default (Port (config p)) (positive_number ps "port"))))) as Hg.
  by match goal with H : getPooledClient _ _ _ = _ |- _ => rewrite H in Hg end.
Qed.

(** Changing only the SFTP client. *)
Lemma getSFTP_good lookup env newClient p ps :
  let '(_, p', ev) := getSFTP lookup env newClient p ps in good_step p ev p'.
Proof.
  unfold getSFTP. destruct (dynamic p).
  - pose proof (getClient_good lookup env p ps). by destruct (getClient _ _ _ _) as [[r p'] ev].
  - repeat case_match; simplify_eq; try apply good_refl.
    intros [Hb Ha]. split; [|by split]. split; [by intros ??? ?%elem_of_nil_ev|].
    intros c0 [Hc|Hc]; left; [left; simpl; congruence|by right].
Qed.

Lemma HandleRequest_good w p req :
  let '(_, p', ev) := HandleRequest w p req in good_step p ev p'.
Proof.
  unfold HandleRequest, handleExec, handleUpload, handleDownload, handleListDir.
  pose proof (getClient_good (sw_lookup w) (sw_pool w) p (req_Params req)) as Hc.
  pose proof (getSFTP_good (sw_lookup w) (sw_pool w) (sw_newSftp w) p (req_Params req)) as Hs.
  destruct (getClient _ _ _ _) as [[rc pc] evc], (getSFTP _ _ _ _ _) as [[rs ps] evs].
  repeat case_match; simplify_eq; simpl in *; simplify_eq; try done; apply good_refl.
Qed.

(** Closing everything leaves no connection. *)
Lemma closeAll_spec close p :
  let '(_, p', ev) := closeAllLocked close p in
  client p' = None ∧ pool p' = ∅ ∧ (∀ c, live p c → Closed c ∈ ev)
  ∧ (∀ a cfg c, Dialed a cfg c ∉ ev).
Proof.
  unfold closeAllLocked.
  set (evp := map _ (map_to_list (pool p))).
  set (evs := match sftp p with Some s => [SftpClosed s] | None => [] end).
  assert (∀ a e, pool p !! a = Some e → Closed (pe_client e) ∈ evp) as Hpool.
  { intros a e He. apply list_elem_of_In, in_map_iff. exists (a, e). split; [done|].
    by apply list_elem_of_In, elem_of_map_to_list. }
  assert (∀ a cfg c, Dialed a cfg c ∉ evs ++ evp) as Hnd.
  { intros a cfg c [Hin|Hin]%elem_of_app.
    - unfold evs in Hin. by destruct (sftp p); [apply list_elem_of_singleton in Hin|apply elem_of_nil_ev in Hin].
    - by apply list_elem_of_In, in_map_iff in Hin as ([] & ? & _). }
  destruct (client p) as [c0|] eqn:E0; simpl; (split_and!; [done|done| |]).
  - intros c [Hc|(a & e & Ha & <-)]; [|set_solver]. replace c with c0 by congruence. set_solver.
  - intros a cfg c. specialize (Hnd a cfg c). set_solver.
  - intros c [Hc|(a & e & Ha & <-)]; [congruence|set_solver].
  - done.
Qed.

Lemma empty_pool_inv p : pool p = ∅ → ssh_inv p.
Proof. intros Hp. split; rewrite Hp; [rewrite map_size_empty; lia|apply lookup_empty]. Qed.

Lemma Close_good close p : let '(_, p', ev) := Close close p in good_step p ev p'.
Proof.
  unfold Close. pose proof (closeAll_spec close p) as Hs.
  destruct (closeAllLocked close p) as [[r p'] ev]. destruct Hs as (Hc & Hp & Hcl & Hnd).
  intros _. split; [|by apply empty_pool_inv]. split; [by intros a cfg c ?%Hnd|by right; auto].
Qed.

Lemma Configure_good `{SshLib} close dial p conf creds :
  let '(_, p', ev) := Configure close dial p conf creds in good_step p ev p'.
Proof.
  unfold Configure. pose proof (closeAll_spec close p) as Hs.
  destruct (closeAllLocked close p) as [[r p0] ev]. destruct Hs as (Hc & Hp & Hcl & Hnd).
  assert (∀ p', pool p' = ∅ → good_step p ev p') as Hg.
  { intros p' Hp' _. split; [|by apply empty_pool_inv].
    split; [by intros a cfg c ?%Hnd|by right; auto]. }
  assert (∀ p' a cfg c, pool p' = ∅ → client p' = Some c →
            good_step p (ev ++ [Dialed a cfg c]) p') as Hdial.
  { intros p' a cfg c Hp' Hc' _. split; [|by apply empty_pool_inv]. split.
    - intros a' cfg' c' [Hin|Hin%list_elem_of_singleton]%elem_of_app; [by apply Hnd in Hin|].
      injection Hin as -> -> ->. left. by left.
    - intros c' Hl. right. apply elem_of_app. left. auto. }
  repeat case_match; simplify_eq; first [apply Hdial | apply Hg]; try exact Hp; reflexivity.
Qed.

Lemma cleanup_good p now : let '(p', ev) := cleanupExpiredConnections p now in good_step p ev p'.
Proof.
  unfold cleanupExpiredConnections. simpl.
  set (cutoff := now - _). intros [Hb Ha]. split.
  - split; [intros a cfg c Hin; apply list_elem_of_In, in_map_iff in Hin as ([] & ? & _); done|].
    intros c [Hc|(a & e & He & <-)]; [by left; left|].
    destruct (decide (pe_lastUsed e < cutoff)) as [Hlt|Hge].
    + right. apply list_elem_of_In, in_map_iff. exists (a, e). split; [done|].
      apply list_elem_of_In, elem_of_map_to_list. by apply map_lookup_filter_Some_2.
    + left. right. exists a, e. split; [|done]. by apply map_lookup_filter_Some_2.
  - split; rewrite ?set_pool_limit; simpl.
    + pose proof (map_size_filter (λ '(_, e), ¬ pe_lastUsed e < cutoff) (pool p)). lia.
    + eapply lookup_weaken_None; [exact Ha|]. apply map_filter_subseteq.
Qed.

Lemma ssh_step_good `{SshLib} close p op :
  let '(p', ev) := ssh_step close (p, []) op in good_step p ev p'.
Proof.
  destruct op as [conf creds dial|w req|now|]; simpl.
  - pose proof (Configure_good close dial p conf creds).
    by destruct (Configure _ _ _ _ _) as [[r p'] ev].
  - pose proof (HandleRequest_good w p req). by destruct (HandleRequest _ _ _) as [[r p'] ev].
  - exact (cleanup_good p now).
  - pose proof (Close_good close p). by destruct (Close _ _) as [[r p'] ev].
Qed.

Lemma ssh_step_events `{SshLib} close p ev op :
  ssh_step close (p, ev) op =
  ((ssh_step close (p, []) op).1, ev ++ (ssh_step close (p, []) op).2).
Proof.
  destruct op as [conf creds dial|w req|now|]; simpl.
  - by destruct (Configure _ _ _ _ _) as [[r p'] ev'].
  - by destruct (HandleRequest _ _ _) as [[r p'] ev'].
  - done.
  - by destruct (Close _ _) as [[r p'] ev'].
Qed.

Lemma ssh_run_good `{SshLib} close ops p ev :
  let '(p', ev') := foldl (ssh_step close) (p, ev) ops in ∃ ev1, ev' = ev ++ ev1 ∧ good_step p ev1 p'.
Proof.
  revert p ev. induction ops as [|op ops IH]; intros p ev; cbn [foldl].
  - exists []. rewrite List.app_nil_r. split; [done|]. apply good_refl.
  - rewrite ssh_step_events. pose proof (ssh_step_good close p op) as Hop.
    destruct (ssh_step close (p, []) op) as [p1 ev1]. cbn [fst snd].
    specialize (IH p1 (ev ++ ev1)). destruct (foldl _ _ ops) as [p2 ev2].
    destruct IH as (ev3 & -> & Hg). exists (ev1 ++ ev3). rewrite List.app_assoc.
    split; [done|]. by eapply good_trans.
Qed.

(** C9. The connection pool never grows beyond its configured size (one, if that is
    smaller) and never loses a connection: over any sequence of configurations,
    requests, periodic cleanups and shutdowns, every connection that was dialled is
    still held by the proxy or has been closed, and after [Close] all are closed. *)
Theorem ssh_pool_safe `{SshLib} close ops :
  let '(p, ev) := ssh_run close ops in
  Z.of_nat (size (pool p)) ≤ Z.max 1 (pool_limit p)
  ∧ (∀ addr cfg c, Dialed addr cfg c ∈ ev → live p c ∨ Closed c ∈ ev)
  ∧ (∀ addr cfg c, Dialed addr cfg c ∈ ev → Closed c ∈ ev ++ (Close close p).2).
Proof.
  unfold ssh_run. pose proof (ssh_run_good close ops New []) as Hg.
  destruct (foldl _ _ ops) as [p ev]. destruct Hg as (ev1 & -> & Hg). simpl.
  destruct (Hg (empty_pool_inv New eq_refl)) as [[H1 _] [Hb _]].
  split_and!; [done|done|]. intros addr cfg c Hin. apply elem_of_app.
  destruct (H1 _ _ _ Hin) as [Hl|]; [right|by left].
  pose proof (closeAll_spec close p) as Hs. unfold Close.
  destruct (closeAllLocked close p) as [[r p'] ev']. by apply Hs.
Qed.

(** ** Which hosts are dialled *)

Lemma dial_pooled_dials env p addr ev a cfg c :
  (∀ e, e ∈ ev → ∃ c, e = Closed c) → Dialed a cfg c ∈ (dial_pooled env p addr ev).2 →
  a = addr ∧ sshConfig p = Some cfg.
Proof.
  intros Hev. unfold dial_pooled.
  assert (∀ p', sshConfig (evictOldestLocked p').1 = sshConfig p'
           ∧ ∀ a cfg c, Dialed a cfg c ∉ (evictOldestLocked p').2) as Hevict.
  { intros p'. unfold evictOldestLocked. repeat case_match; simplify_eq; simpl;
      (split; [done|]); intros a' cfg' c' Hin;
      first [by apply elem_of_nil_ev in Hin | by apply list_elem_of_singleton in Hin]. }
  assert (∃ p1 ev1, (if pool_limit p <=? Z.of_nat (size (pool p)) then evictOldestLocked p
                     else (p, [])) = (p1, ev1) ∧ sshConfig p1 = sshConfig p
                    ∧ ∀ a cfg c, Dialed a cfg c ∉ ev1) as (p1 & ev1 & -> & Hc & Hnd).
  { case_match.
    - destruct (Hevict p) as [H1 H2]. destruct (evictOldestLocked p) as [p1 ev1]. eauto.
    - exists p, []. split_and!; try done. intros ??? ?%elem_of_nil_ev. done. }
  assert (∀ a cfg c, Dialed a cfg c ∉ ev ++ ev1) as Hnd'.
  { intros a' cfg' c' [Hin|Hin]%elem_of_app; [apply Hev in Hin as [? ?]; done|by eapply Hnd]. }
  rewrite Hc. destruct (sshConfig p) as [cfg0|]; simpl; [|by intros ?%Hnd'].
  destruct (pe_dial env addr cfg0); simpl; [|by intros ?%Hnd'].
  rewrite List.app_assoc. intros [Hin|Hin%list_elem_of_singleton]%elem_of_app; [by apply Hnd' in Hin|].
  by injection Hin as -> -> ->.
Qed.

Lemma getPooledClient_dials env p addr a cfg c :
  Dialed a cfg c ∈ (getPooledClient env p addr).2 → a = addr ∧ sshConfig p = Some cfg.
Proof.
  unfold getPooledClient. destruct (pool p !! addr) as [e|]; [case_match; simpl|].
  - by intros ?%elem_of_nil_ev.
  - intros Hin. by apply dial_pooled_dials in Hin; [|intros x ->%list_elem_of_singleton; eauto].
  - intros Hin. by apply dial_pooled_dials in Hin; [|intros x ?%elem_of_nil_ev].
Qed.

(** A dialled address is that of an allowed host, with the configured credentials. *)
Definition dial_ok (lookup : string → result (list string)) (p : Proxy) (e : ssh_event) : Prop :=
  match e with
  | Dialed addr cfg _ =>
      dynamic p = true ∧ sshConfig p = Some cfg
      ∧ ∃ host port, addr = JoinHostPort host (Itoa port) ∧ isHostAllowed lookup p host = true
  | _ => True
  end.

Lemma getClient_dials lookup env p ps e :
  e ∈ (getClient lookup env p ps).2 → dial_ok lookup p e.
Proof.
  unfold getClient. destruct (dynamic p) eqn:Ed; simpl;
    [|by case_match; intros ?%elem_of_nil_ev].
  case_match; [by intros ?%elem_of_nil_ev|].
  destruct (isHostAllowed _ _ _) eqn:Ea; simpl; [|by intros ?%elem_of_nil_ev].
  destruct e as [a cfg c| |]; try done. intros Hin.
  apply getPooledClient_dials in Hin as [-> Hc]. simpl. split_and!; eauto.
Qed.

Lemma getSFTP_dials lookup env newClient p ps e :
  e ∈ (getSFTP lookup env newClient p ps).2 → dial_ok lookup p e.
Proof.
  unfold getSFTP. destruct (dynamic p).
  - pose proof (getClient_dials lookup env p ps e).
    by destruct (getClient _ _ _ _) as [[r p'] ev].
  - repeat case_match; by intros ?%elem_of_nil_ev.
Qed.

(** C8. Requests reach only allowed hosts: whatever a request asks for, a connection
    it makes goes to "host:port" of a host the allowlist admits, only in dynamic
    mode, and with the configured user, credentials and host-key check. *)
Theorem HandleRequest_dials_allowed w p req addr cfg c :
  Dialed addr cfg c ∈ (HandleRequest w p req).2 →
  dynamic p = true ∧ sshConfig p = Some cfg
  ∧ ∃ host port, addr = JoinHostPort host (Itoa port)
                 ∧ isHostAllowed (sw_lookup w) p host = true.
Proof.
  intros Hin. change (dial_ok (sw_lookup w) p (Dialed addr cfg c)).
  unfold HandleRequest, handleExec, handleUpload, handleDownload, handleListDir in Hin.
  pose proof (getClient_dials (sw_lookup w) (sw_pool w) p (req_Params req)) as Hc.
  pose proof (getSFTP_dials (sw_lookup w) (sw_pool w) (sw_newSftp w) p (req_Params req)) as Hs.
  destruct (getClient _ _ _ _) as [[rc pc] evc], (getSFTP _ _ _ _ _) as [[rs ps] evs].
  repeat case_match; simplify_eq; simpl in *; simplify_eq;
    first [by apply elem_of_nil_ev in Hin|by apply Hc in Hin|by apply Hs in Hin].
Qed.

(** ** The meaning of the allowlist *)

Lemma parse_allowed_v4 h v n : v4_prefix h = Some (v, n) → parse_allowed h = inl (v4_net v n).
Proof.
  intros Hp. pose proof (v4_prefix_range h v n Hp) as [Hv Hn].
  unfold v4_prefix in Hp. unfold parse_allowed, ParseCIDR.
  destruct (Cut h "/") as [[a m] []].
  - destruct (parseIPv4 a) as [v'|] eqn:Ea; [|done]. destruct (dtoi m) as [n'|] eqn:Em; [|done].
    destruct (Z.ltb_spec 32 n'); [done|]. injection Hp as -> ->.
    rewrite (ParseAddr_v4 a v Ea). cbn [Zone BitLen String.eqb negb orb].
    by rewrite (proj2 (Z.ltb_ge 32 n)) by lia.
  - destruct (parseIPv4 h) as [v'|] eqn:Eh; [|done]. injection Hp as -> <-.
    rewrite (ParseIP_v4 h v Eh), To4_v4 by done. unfold v4_net, ip_mask, CIDRMask, As16.
    cbn [ip_len ip_val]. change (32 / 8 =? 4) with true. cbn iota.
    rewrite To4_v4 by done. cbn [ip_val]. do 2 f_equal.
    change (32 - 32) with 0. rewrite Z.shiftl_0_r, Z.land_ones, Z.mod_small by lia. done.
Qed.

(** An allowlist of IPv4 networks and addresses admits exactly the addresses they
    cover: a numeric host is allowed if and only if it shares the leading n bits
    with some entry a.b.c.d/n (all 32 for a bare address). *)
Theorem isHostAllowed_v4 lookup p hosts host w :
  hosts ≠ [] → Forall (λ h, is_Some (v4_prefix h)) hosts → parseIPv4 host = Some w →
  isHostAllowed lookup (parseAllowedHosts p hosts) host = true ↔
  ∃ h v n, h ∈ hosts ∧ v4_prefix h = Some (v, n) ∧ v / 2 ^ (32 - n) = w / 2 ^ (32 - n).
Proof.
  intros Hne Hall Hw. pose proof (parseIPv4_range _ _ Hw) as Hwr.
  assert (allowed_names hosts = []) as Hnames.
  { clear Hne. induction Hall as [|h hosts [[v n] Hh] _ IH]; [done|].
    unfold allowed_names. simpl. by rewrite (parse_allowed_v4 h v n Hh). }
  assert (∀ net, net ∈ allowed_nets hosts ↔
            ∃ h v n, h ∈ hosts ∧ v4_prefix h = Some (v, n) ∧ net = v4_net v n) as Hnets.
  { intros net. unfold allowed_nets. rewrite list_elem_of_omap. rewrite Forall_forall in Hall.
    split.
    - intros (h & Hin & Hh). destruct (Hall h Hin) as [[v n] Hp].
      rewrite (parse_allowed_v4 h v n Hp) in Hh. injection Hh as <-. eauto 6.
    - intros (h & v & n & Hin & Hp & ->). exists h. split; [done|].
      by rewrite (parse_allowed_v4 h v n Hp). }
  unfold isHostAllowed, parseAllowedHosts. cbn [allowedNets allowedHosts]. rewrite Hnames.
  destruct (allowed_nets hosts) as [|n0 nets] eqn:En.
  { exfalso. destruct hosts as [|h hosts]; [done|].
    apply Forall_cons in Hall as [[[v n] Hh] _].
    apply (not_elem_of_nil (v4_net v n)), Hnets. exists h, v, n. split; [by left|done]. }
  change (existsb (String.eqb host) []) with false. cbn iota.
  rewrite (ParseIP_v4 host w Hw).
  rewrite existsb_exists. split.
  - intros (net & Hin%list_elem_of_In%Hnets & Hc).
    destruct Hin as (h & v & n & Hin & Hp & ->). exists h, v, n. split_and!; [done..|].
    destruct (v4_prefix_range _ _ _ Hp). by apply Contains_v4 in Hc.
  - intros (h & v & n & Hin & Hp & Heq). exists (v4_net v n). split.
    + apply list_elem_of_In, Hnets. eauto 6.
    + destruct (v4_prefix_range _ _ _ Hp). by apply Contains_v4.
Qed.

Lemma isHostAllowed_v4_witness :
  isHostAllowed (λ _, Ok []) (parseAllowedHosts New ["10.0.0.0/8"; "192.168.1.7"]) "10.200.3.4" = true.
Proof.
  apply (isHostAllowed_v4 (λ _, Ok []) New ["10.0.0.0/8"; "192.168.1.7"] "10.200.3.4" 180880132).
  - done.
  - repeat constructor; by eexists.
  - vm_compute. reflexivity.
  - exists "10.0.0.0/8", 167772160, 8. split_and!; [by left|vm_compute; reflexivity..].
Defined.

(** ** Commands *)

Lemma float_to_int_pos f :
  float_pos f = true → float_to_int f = minInt64 ∨ 0 ≤ float_to_int f ≤ maxInt64.
Proof.
  destruct f as [s|s| |s m e]; simpl; try done; [by left|]. intros Hs%negb_true_iff. subst s.
  case_bool_decide as Hr; [|by left]. right. unfold in_int64 in Hr. simpl in *.
  case_match; [split; [lia|apply Hr]|]. split; [|apply Hr].
  apply Z.div_pos; [lia|]. assert (0 < 2 ^ (- e)) by (apply Z.pow_pos_nonneg; lia). lia.
Qed.

(** Commands are bounded in time and output, whatever the request says: the
    timeout is between zero and two minutes for every float64 in timeout_ms, also
    beyond the range of int, and a successful response
    carries prefixes of the two streams no longer than max_output_bytes. *)
Theorem handleExec_bounded lookup env session p ps :
  0 ≤ exec_timeout ps ≤ 120 * 1000000000
  ∧ ∀ resp p' ev, handleExec lookup env session p ps = (Ok resp, p', ev) →
    ∃ c code, resp = ok_response (JObj [
        ("exit_code", JNum (Itoa code));
        ("stderr", JStr (read_limited (MaxOutputBytes (config p')) (se_stderr (session c))));
        ("stdout", JStr (read_limited (MaxOutputBytes (config p')) (se_stdout (session c))))])
      ∧ (∀ out, Z.of_nat (String.length (read_limited (MaxOutputBytes (config p')) out))
               ≤ Z.max 0 (MaxOutputBytes (config p')))
      ∧ se_wait (session c) (exec_timeout ps) = Exited code.
Proof.
  split.
  - unfold exec_timeout, exec_timeout_ms, positive_number.
    destruct (as_float (ps !! "timeout_ms")) as [f|]; [|by vm_compute].
    destruct (float_pos f) eqn:Ef; [|by vm_compute].
    destruct (float_to_int_pos f Ef) as [->|Hr]; [by vm_compute|].
    destruct (Z.ltb_spec maxTimeoutMs (float_to_int f)); [by vm_compute|].
    unfold maxTimeoutMs in *. rewrite wrap64_id; [lia|].
    unfold in_int64, minInt64, maxInt64. lia.
  - intros resp p' ev. unfold handleExec. case_match; [done|].
    destruct (getClient lookup env p ps) as [[r p1] ev1]. intros [= Hr <- <-].
    apply bind_Ok in Hr as (c & _ & Hr). cbn beta in Hr.
    do 4 (apply bind_Ok in Hr as (? & _ & Hr)).
    destruct (se_wait (session c) (exec_timeout ps)) as [|code|] eqn:Ew; try done.
    injection Hr as <-. exists c, code. split_and!; [done| |done].
    intros out. unfold read_limited.
    assert (String.length (String.substring 0 (Z.to_nat (MaxOutputBytes (config p1))) out)
            ≤ Z.to_nat (MaxOutputBytes (config p1)))%nat as Hl; [|lia].
    generalize (Z.to_nat (MaxOutputBytes (config p1))). clear.
    induction out as [|c s IH]; intros [|i]; simpl; try lia. specialize (IH i). lia.
Qed.

(** ** Locks

    [getPooledClient] takes poolMu and then, before it dials, mu for reading;
    [Close] takes mu for writing and then, in [closeAllLocked], poolMu. *)

Inductive lock_act := LockPool | UnlockPool | RLockMu | RUnlockMu | LockMu | UnlockMu.

Definition getPooledClient_locks : list lock_act := [LockPool; RLockMu; RUnlockMu; UnlockPool].
Definition Close_locks : list lock_act := [LockMu; LockPool; UnlockPool; UnlockMu].

(** The two locks: whether poolMu is held, the readers of mu and whether it is held
    for writing. *)
Record locks := MkLocks { pool_held : bool; readers : nat; writer : bool }.

Definition lock_do (a : lock_act) (l : locks) : option locks :=
  match a with
  | LockPool => if pool_held l then None else Some (MkLocks true (readers l) (writer l))
  | UnlockPool => Some (MkLocks false (readers l) (writer l))
  | RLockMu => if writer l then None else Some (MkLocks (pool_held l) (S (readers l)) (writer l))
  | RUnlockMu => Some (MkLocks (pool_held l) (pred (readers l)) (writer l))
  | LockMu => if writer l || negb (readers l =? 0)%nat then None
              else Some (MkLocks (pool_held l) (readers l) true)
  | UnlockMu => Some (MkLocks (pool_held l) (readers l) false)
  end.

(** A state: the locks and what each goroutine still has to do. *)
Definition lock_state : Type := locks * list (list lock_act).

Inductive lock_step : lock_state → lock_state → Prop :=
  | lock_move l l' threads i a rest :
      threads !! i = Some (a :: rest) → lock_do a l = Some l' →
      lock_step (l, threads) (l', <[i := rest]> threads).

(** Some goroutine has not finished and none can move. *)
Definition deadlocked (s : lock_state) : Prop :=
  (∃ t, t ∈ s.2 ∧ t ≠ []) ∧ ∀ s', ¬ lock_step s s'.

(** C38. A request and a shutdown of the same dynamic proxy can deadlock: the request
    holds the pool's lock and waits to read the configuration, while [Close] holds
    the configuration's lock and waits for the pool's. [Register] and [Remove] call
    [Close] with the registry locked, so the agent then serves nothing at all. *)
Theorem ssh_close_deadlock :
  ∃ s, rtc lock_step (MkLocks false 0 false, [getPooledClient_locks; Close_locks]) s
       ∧ deadlocked s.
Proof.
  exists (MkLocks true 0 true, [[RLockMu; RUnlockMu; UnlockPool]; [LockPool; UnlockPool; UnlockMu]]).
  split.
  - eapply rtc_l; [eapply (lock_move _ (MkLocks true 0 false) _ 0%nat LockPool); reflexivity|].
    eapply rtc_l; [eapply (lock_move _ (MkLocks true 0 true) _ 1%nat LockMu); reflexivity|].
    apply rtc_refl.
  - split; [exists [RLockMu; RUnlockMu; UnlockPool]; split; [by left|done]|].
    intros s' Hs. inversion Hs as [l l' threads i a rest Hi Hd]; subst.
    destruct i as [|[|i]]; simpl in Hi; [injection Hi as <- <-; done..|by rewrite lookup_nil in Hi].
Qed.

(** ** A concrete proxy *)

Definition demo_ssh : Proxy :=
  parseAllowedHosts
    (MkProxy None None (MkConfig "" 22 1048576 ["10.0.0.0/8"] 0 0 "" "") true
       (Some (MkClientConfig "ops" [Password "pw"] InsecureIgnoreHostKey)) ∅ [] [] true)
    ["10.0.0.0/8"].

Definition demo_session : session_env :=
  MkSessionEnv (Ok tt) (Ok tt) (Ok tt) (λ _, Ok tt) "up 3 days" "" (λ _, Exited 0).

Definition demo_pool_env : pool_env := MkPoolEnv (λ _, true) (λ _ _, Ok 7%nat) 0.

Definition demo_world : ssh_world :=
  MkSshWorld (λ _, Ok []) demo_pool_env (λ _, demo_session) (λ _, Ok 0%nat)
    (λ _, MkSftpEnv (λ _, Ok tt) (λ _, Ok 0) (λ _, Ok tt) (λ _, Ok "") (λ _, Ok [])).

Definition demo_params : params :=
  list_to_map [("host", AStr "10.1.2.3"); ("command", AStr "uptime")].

Definition demo_request : ActionRequest :=
  MkRequest "r1" "d" "ssh_command" demo_params "" "" ∅ "".

Lemma HandleRequest_dials_allowed_witness :
  ∃ host port, "10.1.2.3:22" = JoinHostPort host (Itoa port)
               ∧ isHostAllowed (sw_lookup demo_world) demo_ssh host = true.
Proof.
  apply (HandleRequest_dials_allowed demo_world demo_ssh demo_request "10.1.2.3:22"
           (MkClientConfig "ops" [Password "pw"] InsecureIgnoreHostKey) 7%nat).
  vm_compute. by left.
Defined.

(** The command of the example returns its output. *)
Example handleExec_demo :
  (HandleRequest demo_world demo_ssh demo_request).1.1 =
  Ok (ok_response (JObj [("exit_code", JNum "0"); ("stderr", JStr ""); ("stdout", JStr "up 3 days")])).
Proof. vm_compute. reflexivity. Qed.
