(* ===== verification/SshCleanup.v ===== *)
(** * pkg/proxy/ssh/proxy.go: the goroutines that clean up the pool

    [Configure] in dynamic mode starts one, [closeAllLocked] ends it by closing a
    channel that the goroutine has read from the proxy when it began to run. The work
    of a tick is [cleanupExpiredConnections] of [Ssh]. *)

From S2P Require Import Prelude Ssh.
#[local] Open Scope nat_scope.

(** Where a [poolCleanupLoop] is: before it has read the channel, in the select with
    the channel it read, at its end. A nil channel is never ready. *)
Inductive loop_pc := Spawned | Selecting (done : option nat) | LoopEnded.

Record cleanups := MkCleanups {
  cleanupDone : option nat;          (* channels by number *)
  made : nat;
  closed_chans : list nat;
  loops : list loop_pc;
}.

Definition no_cleanups : cleanups := MkCleanups None 0 [] [].

(** The first part of [closeAllLocked]; closing a channel twice panics. *)
Definition stop_cleanup (c : cleanups) : cleanups :=
  match cleanupDone c with
  | None => c
  | Some d =>
      MkCleanups None (made c) (if decide (d ∈ closed_chans c) then closed_chans c else closed_chans c ++ [d]) (loops c)
  end.

(** The end of [Configure] in dynamic mode. *)
Definition start_cleanup (c : cleanups) : cleanups :=
  MkCleanups (Some (made c)) (S (made c)) (closed_chans c) (loops c ++ [Spawned]).

Definition set_loop (c : cleanups) (i : nat) (pc : loop_pc) : cleanups :=
  MkCleanups (cleanupDone c) (made c) (closed_chans c) (<[i := pc]> (loops c)).

(** One goroutine takes a step, holding the lock it needs. *)
Inductive cleanup_step : cleanups → cleanups → Prop :=
  | cleanup_configure c : cleanup_step c (start_cleanup (stop_cleanup c))
  | cleanup_close c : cleanup_step c (stop_cleanup c)          (* also a static or failed [Configure] *)
  | cleanup_capture c i :
      loops c !! i = Some Spawned → cleanup_step c (set_loop c i (Selecting (cleanupDone c)))
  | cleanup_tick c i done : loops c !! i = Some (Selecting done) → cleanup_step c (set_loop c i (Selecting done))
  | cleanup_stop c i d :
      loops c !! i = Some (Selecting (Some d)) → d ∈ closed_chans c → cleanup_step c (set_loop c i LoopEnded).

(** A channel that a loop waits on is the proxy's, or closed. *)
Record chans_ok (c : cleanups) : Prop := {
  co_current : ∀ d, cleanupDone c = Some d → d < made c ∧ d ∉ closed_chans c;
  co_closed : NoDup (closed_chans c) ∧ ∀ d, d ∈ closed_chans c → d < made c;
  co_waits : ∀ i d, loops c !! i = Some (Selecting (Some d)) → cleanupDone c = Some d ∨ d ∈ closed_chans c;
}.

Lemma chans_ok_stop c : chans_ok c → chans_ok (stop_cleanup c).
Proof.
  intros [Hc [Hn Hm] Hw]. unfold stop_cleanup. destruct (cleanupDone c) as [d|] eqn:E; [|by constructor; rewrite ?E].
  destruct (Hc d eq_refl) as [Hd Hnd]. rewrite decide_False by done. constructor; cbn; [done|split|].
  - apply NoDup_app. split_and!; [done|set_solver|apply NoDup_singleton].
  - intros d' [?|Hx%list_elem_of_singleton]%elem_of_app; [auto|subst; auto].
  - intros i d' Hi. right. destruct (Hw i d' Hi) as [[= ->]|?]; set_solver.
Qed.

Lemma chans_ok_loop c i pc :
  (∀ d, pc = Selecting (Some d) → cleanupDone c = Some d ∨ d ∈ closed_chans c) →
  chans_ok c → chans_ok (set_loop c i pc).
Proof.
  intros Hp [Hc Hm Hw]. constructor; cbn; [done|done|]. intros j d Hj.
  apply list_lookup_insert_Some in Hj as [(_ & -> & _)|[_ Hj]]; eauto.
Qed.

Lemma chans_ok_step c c' : cleanup_step c c' → chans_ok c → chans_ok c'.
Proof.
  intros Hs Hc. destruct Hs as [c|c|c i Hi|c i done Hi|c i d Hi Hd].
  - assert (cleanupDone (stop_cleanup c) = None) as He by (unfold stop_cleanup; by destruct (cleanupDone c) eqn:E).
    apply chans_ok_stop in Hc as [_ [Hn Hm] Hw]. rewrite He in Hw. constructor; cbn; [|split; [done|]|].
    + intros d [= <-]. split; [lia|]. intros ?%Hm. lia.
    + intros d ?%Hm. lia.
    + intros i d Hi. apply lookup_app_Some in Hi as [Hi|[_ Hi]].
      * right. by destruct (Hw i d Hi).
      * by apply list_lookup_singleton_Some in Hi as [_ ?].
  - by apply chans_ok_stop.
  - apply chans_ok_loop; [|done]. intros d [= ?]. auto.
  - apply chans_ok_loop; [|done]. intros d [= ->]. by apply (co_waits c Hc i).
  - by apply chans_ok_loop.
Qed.

(** A loop that has read its channel is ended by the next [Close] or [Configure]: in
    every interleaving the channel it waits on is the proxy's or is closed, and no
    channel is closed twice. *)
Theorem ssh_cleanup_stopped c i d :
  rtc cleanup_step no_cleanups c → loops c !! i = Some (Selecting (Some d)) →
  NoDup (closed_chans c)
  ∧ ∃ c', cleanup_step (stop_cleanup c) c' ∧ loops c' !! i = Some LoopEnded.
Proof.
  intros Hr Hi. assert (chans_ok c) as Hc.
  { eapply (rtc_invariant _ chans_ok); [|exact Hr|]; [intros ??; apply chans_ok_step|].
    constructor; cbn; [done|split; [constructor|]|done]. intros ? []%not_elem_of_nil. }
  split; [apply Hc|]. exists (set_loop (stop_cleanup c) i LoopEnded).
  assert (loops (stop_cleanup c) = loops c) as Hl by (unfold stop_cleanup; by destruct (cleanupDone c)).
  assert (d ∈ closed_chans (stop_cleanup c)) as Hd.
  { unfold stop_cleanup. destruct (co_waits c Hc i d Hi) as [->|Hd]; [|destruct (cleanupDone c)]; cbn; try case_decide;
      set_solver. }
  split; [by apply cleanup_stop with d; [rewrite Hl|]|]. cbn. rewrite Hl. apply list_lookup_insert_eq.
  by eapply lookup_lt_Some.
Qed.

Definition leaked : cleanups := MkCleanups None 1 [0] [Selecting None].

Lemma leaked_forever c c' i :
  loops c !! i = Some (Selecting None) → rtc cleanup_step c c' → loops c' !! i = Some (Selecting None).
Proof.
  intros Hi Hr. revert Hi. apply (rtc_invariant cleanup_step (λ c, loops c !! i = Some (Selecting None)) c c'); [|done].
  intros a b Hs Ha. assert (loops (stop_cleanup a) = loops a) as Hl by (unfold stop_cleanup; by destruct (cleanupDone a)).
  destruct Hs as [a|a|a j Hj|a j dn Hj|a j d Hj _]; cbn [start_cleanup set_loop loops]; rewrite ?Hl; try exact Ha.
  - by apply lookup_app_l_Some.
  - destruct (decide (i = j)) as [->|]; [congruence|]. by rewrite list_lookup_insert_ne.
  - destruct (decide (i = j)) as [->|]; [|by rewrite list_lookup_insert_ne].
    rewrite Ha in Hj. injection Hj as <-. apply list_lookup_insert_eq. by eapply lookup_lt_Some.
  - destruct (decide (i = j)) as [->|]; [congruence|]. by rewrite list_lookup_insert_ne.
Qed.

(** A proxy that is closed as soon as it is configured, as a test of a datasource
    does, can leave its goroutine running for good: the goroutine reads the channel
    after [Close] has taken it away, and no later operation ends it. *)
Theorem ssh_cleanup_leaks :
  rtc cleanup_step no_cleanups leaked
  ∧ ∀ c, rtc cleanup_step leaked c → loops c !! 0 = Some (Selecting None).
Proof.
  split; [|intros c; by apply leaked_forever].
  eapply rtc_l; [apply cleanup_configure|]. eapply rtc_l; [apply cleanup_close|].
  eapply rtc_l; [by apply (cleanup_capture _ 0)|]. apply rtc_refl.
Qed.
