(* ===== verification/Secrets.v ===== *)
(** * pkg/secrets: credentials

    [Manager] (manager.go) resolves credentials from providers through a cache;
    [CloudPushStore] (cloud_push.go) keeps pushed credentials encrypted on disk.
    The providers, AES-GCM and the file system are parameters. *)

From S2P Require Import Prelude GoStrings GoJson GoJsonFacts GoTime.

Notation creds := (gmap string string) (only parsing).

(** ** Manager *)

Record cacheEntry := MkCacheEntry { ce_values : creds; ce_expires : Z }.

(** A provider that works here is known by its name; what its [GetSecret] returns is
    an argument of the calls. *)
Record Provider := MkProvider { prov_Name : string; prov_Available : bool }.

Record Manager := MkManager {
  providers : gset string;
  cache : gmap string cacheEntry;
  cacheTTL : Z;
}.

Definition NewManager (ps : list Provider) : Manager :=
  MkManager (foldl (λ m p, if prov_Available p then {[prov_Name p]} ∪ m else m) ∅ ps)
    ∅ (5 * Minute).

Definition cacheKey (source ref : string) : string := source +:+ ":" +:+ ref.

Definition availableProviders (m : Manager) : list string := elements (providers m).

Definition set_cache (m : Manager) (c : gmap string cacheEntry) : Manager :=
  MkManager (providers m) c (cacheTTL m).

(** A cached secret that has not expired. *)
Definition cache_hit (m : Manager) (now : Z) (source ref : string) : option creds :=
  match cache m !! cacheKey source ref with
  | Some entry => if (now <? ce_expires entry)%Z then Some (ce_values entry) else None
  | None => None
  end.

(** [now] is the clock when the cache is checked, [fetched] when a fetched secret is
    stored; [GetSecret] is what the provider of a source answers. *)
Definition Resolve (GetSecret : string → string → result creds) (m : Manager) (now fetched : Z)
    (source ref : string) : result creds * Manager :=
  if String.eqb source "cloud_push" || String.eqb source "local" then
    (Err (errorf ("source " +:+ Quote source +:+ " should be resolved by caller, not secret manager")), m)
  else
    match cache_hit m now source ref with
    | Some values => (Ok values, m)
    | None =>
        let m := set_cache m (delete (cacheKey source ref) (cache m)) in
        if bool_decide (source ∈ providers m) then
          match GetSecret source ref with
          | Err e => (Err (wrapf ("fetching secret from " +:+ source +:+ ": ") e), m)
          | Ok values =>
              (Ok values, set_cache m (<[cacheKey source ref :=
                                          MkCacheEntry values (fetched + cacheTTL m)%Z]> (cache m)))
          end
        else
          (Err (errorf ("unknown credential source: " +:+ Quote source +:+ " (available: ["
                        +:+ Join (availableProviders m) " " +:+ "])")), m)
    end.

Definition InvalidateCache (m : Manager) (source ref : string) : Manager :=
  set_cache m (delete (cacheKey source ref) (cache m)).

(** ** CloudPushStore *)

(** AES-256-GCM (crypto/aes, crypto/cipher) and SHA-256. *)
Class AesGcm := {
  gcm_Seal : string → string → string → string;          (* key, nonce, plaintext *)
  gcm_Open : string → string → string → option string;   (* key, nonce, ciphertext *)
  sha256_Sum : string → string;
}.

Definition gcm_NonceSize : nat := 12.

(** What crypto/cipher documents of an AEAD: [Open] inverts [Seal]. *)
Class AesGcmLaws `{AesGcm} := {
  gcm_Open_Seal : ∀ key nonce plaintext,
    gcm_Open key nonce (gcm_Seal key nonce plaintext) = Some plaintext;
}.

Section store.
Context `{AesGcm}.

(** [nonce] is what the system's randomness returned. *)
Definition encryptAESGCM (key nonce plaintext : string) : string :=
  nonce +:+ gcm_Seal key nonce plaintext.

Definition decryptAESGCM (key ciphertext : string) : result string :=
  if String.length ciphertext <? gcm_NonceSize then Err (errorf "ciphertext too short")
  else
    match gcm_Open key (String.substring 0 gcm_NonceSize ciphertext)
            (String.substring gcm_NonceSize (String.length ciphertext) ciphertext) with
    | Some p => Ok p
    | None => Err (errorf "cipher: message authentication failed")
    end.

Record CloudPushStore := MkStore { st_creds : gmap string creds; st_key : string }.

(** The credentials file: absent, or its content. *)
Definition disk := option string.

Definition marshal_creds (m : gmap string creds) : json :=
  marshal_raw_map ((λ c, marshal_raw_map (JStr <$> c)) <$> m).

(** [json.Unmarshal] into the (empty) map of the store. *)
Definition unmarshal_creds (j : json) : option (gmap string creds) :=
  match unmarshal_raw_map j with
  | Some m =>
      if bool_decide (map_Forall (λ _ v, (dec_string_map None v).2 = true) m)
      then Some ((λ v, default ∅ (dec_string_map None v).1) <$> m)
      else None
  | None => None
  end.

(** os.WriteFile opens the file and empties it before it writes: an error leaves what
    was written by then, the whole of it if only the close fails. An agent that dies
    while it writes leaves the same. *)
Inductive write_outcome :=
  | Written
  | NotOpened (e : error)
  | CutOff (e : error) (n : nat).   (* the bytes written *)

(** [mkdir] and [write] are the outcomes of the file system calls. *)
Definition saveToDisk (s : CloudPushStore) (nonce : string) (mkdir : result unit) (write : write_outcome) (d : disk)
  : result unit * disk :=
  let plaintext := json_print (marshal_creds (st_creds s)) in
  let encrypted := encryptAESGCM (st_key s) nonce plaintext in
  match mkdir with
  | Err e => (Err (wrapf "creating data dir: " e), d)
  | Ok _ =>
      match write with
      | NotOpened e => (Err e, d)
      | CutOff e n => (Err e, Some (String.substring 0 n encrypted))
      | Written => (Ok tt, Some encrypted)
      end
  end.

Definition Set_creds (s : CloudPushStore) (nonce : string) (mkdir : result unit) (write : write_outcome) (d : disk)
    (datasourceID : string) (c : creds) : result unit * CloudPushStore * disk :=
  let s := MkStore (<[datasourceID := c]> (st_creds s)) (st_key s) in
  let '(r, d) := saveToDisk s nonce mkdir write d in (r, s, d).

Definition Get_creds (s : CloudPushStore) (datasourceID : string) : option creds :=
  st_creds s !! datasourceID.

Definition Delete_creds (s : CloudPushStore) (nonce : string) (mkdir : result unit) (write : write_outcome) (d : disk)
    (datasourceID : string) : result unit * CloudPushStore * disk :=
  let s := MkStore (delete datasourceID (st_creds s)) (st_key s) in
  let '(r, d) := saveToDisk s nonce mkdir write d in (r, s, d).

(** [None] stands for the error that the file does not exist. *)
Definition loadFromDisk (s : CloudPushStore) (d : disk) : option (result CloudPushStore) :=
  match d with
  | None => None
  | Some data => Some (
      plaintext ← wrap_err "decrypting: " (decryptAESGCM (st_key s) data);
      match json_parse plaintext ≫= unmarshal_creds with
      | Some m => Ok (MkStore m (st_key s))
      | None => Err (errorf "json")
      end)
  end.

Definition NewCloudPushStore (accessSecret : string) (d : disk) : result CloudPushStore :=
  let store := MkStore ∅ (sha256_Sum accessSecret) in
  match loadFromDisk store d with
  | None => Ok store
  | Some r => wrap_err "loading credentials: " r
  end.
End store.

(** ** The cache *)

(** An answer of a provider: source, ref, when it was stored, values. *)
Definition fetch : Type := string * string * Z * creds.

(** A call of [Resolve] or an invalidation; the log records the providers' answers. *)
Inductive mgr_step : Manager * list fetch → Manager * list fetch → Prop :=
  | mgr_hit GetSecret m log now fetched source ref v :
      cache_hit m now source ref = Some v →
      mgr_step (m, log) ((Resolve GetSecret m now fetched source ref).2, log)
  | mgr_fetch GetSecret m log now fetched source ref v :
      cache_hit m now source ref = None → GetSecret source ref = Ok v →
      mgr_step (m, log)
        ((Resolve GetSecret m now fetched source ref).2, (source, ref, fetched, v) :: log)
  | mgr_failed GetSecret m log now fetched source ref e :
      cache_hit m now source ref = None → GetSecret source ref = Err e →
      mgr_step (m, log) ((Resolve GetSecret m now fetched source ref).2, log)
  | mgr_invalidate m log source ref : mgr_step (m, log) (InvalidateCache m source ref, log).

(** Every entry of the cache is an answer on record, for its own source and ref. *)
Definition cache_ok (s : Manager * list fetch) : Prop :=
  cacheTTL s.1 = (5 * Minute)%Z ∧
  ∀ key e, cache s.1 !! key = Some e →
    ∃ source ref t, key = cacheKey source ref ∧ (source, ref, t, ce_values e) ∈ s.2
                    ∧ ce_expires e = (t + 5 * Minute)%Z.

Lemma cache_ok_delete m log key :
  cache_ok (m, log) → cache_ok (set_cache m (delete key (cache m)), log).
Proof.
  intros [Ht Hc]. split; [done|]. intros k e Hk. simpl in Hk.
  apply lookup_delete_Some in Hk as [_ Hk]. by apply Hc in Hk.
Qed.

Lemma cache_ok_log m log f : cache_ok (m, log) → cache_ok (m, f :: log).
Proof.
  intros [Ht Hc]. split; [done|]. intros k e Hk.
  destruct (Hc k e Hk) as (s & r & t & ? & ? & ?). exists s, r, t. split_and!; [done|by right|done].
Qed.

Lemma cache_ok_step s s' : mgr_step s s' → cache_ok s → cache_ok s'.
Proof.
  intros [G m log now ft src ref v Hh|G m log now ft src ref v Hh Hg
         |G m log now ft src ref e Hh Hg|m log src ref] Hok; [| | |by apply cache_ok_delete].
  - unfold Resolve. rewrite Hh. by case_match.
  - unfold Resolve. rewrite Hh, Hg. case_match; [by apply cache_ok_log|].
    case_bool_decide; [|by apply cache_ok_log, cache_ok_delete].
    apply cache_ok_delete with (key := cacheKey src ref) in Hok as [Ht Hc].
    split; [done|]. intros k e Hk. simpl in Hk, Ht.
    apply lookup_insert_Some in Hk as [[<- <-]|[_ Hk]].
    + exists src, ref, ft. rewrite Ht. split_and!; [done|by left|done].
    + destruct (Hc k e Hk) as (s1 & r1 & t & ? & ? & ?). exists s1, r1, t.
      split_and!; [done|by right|done].
  - unfold Resolve. rewrite Hh, Hg. repeat case_match; try done; by apply cache_ok_delete.
Qed.

(** A source name without ':' is determined by the key, and so is the ref. *)
Lemma cacheKey_inj s1 r1 s2 r2 :
  Contains s1 ":" = false → Contains s2 ":" = false →
  cacheKey s1 r1 = cacheKey s2 r2 → s1 = s2 ∧ r1 = r2.
Proof.
  unfold cacheKey. intros H1 H2 E.
  assert (∀ s r, Contains s ":" = false → cut (s +:+ ":" +:+ r) ":" = Some (s, r)) as Hcut.
  { induction s as [|c s IH]; intros r Hs; [reflexivity|].
    rewrite app_cons. cbn [cut]. unfold Contains in *. cbn [cut strip_prefix] in *.
    destruct (_ =?c _) eqn:Ec; [done|]. rewrite IH; [done|]. by destruct (cut s ":") as [[]|]. }
  pose proof (Hcut s1 r1 H1) as Hc1. rewrite E, (Hcut s2 r2 H2) in Hc1. by simplify_eq.
Qed.

Definition sources_plain (log : list fetch) : Prop :=
  Forall (λ f, Contains f.1.1.1 ":" = false) log.

(** C26. Resolved credentials are what a provider answered, and not long ago: in any
    history of lookups and invalidations, when [Resolve] returns values for a source
    and reference they are those its provider has just returned for this reference,
    or an answer on record for the same source and reference stored less than five
    minutes before. Source names contain no colon, as the providers' do not. *)
Theorem Resolve_fresh GetSecret ps m log now fetched source ref v :
  rtc mgr_step (NewManager ps, []) (m, log) →
  sources_plain log → Contains source ":" = false →
  (Resolve GetSecret m now fetched source ref).1 = Ok v →
  GetSecret source ref = Ok v
  ∨ ∃ t, (source, ref, t, v) ∈ log ∧ (now < t + 5 * Minute)%Z.
Proof.
  intros Hsteps Hplain Hsrc Hr.
  assert (cache_ok (m, log)) as [_ Hok].
  { remember (NewManager ps, []) as s0 eqn:E0. remember (m, log) as s eqn:E.
    assert (cache_ok s0) as H0.
    { subst. split; [done|]. intros k e Hk. simpl in Hk. by rewrite lookup_empty in Hk. }
    clear - Hsteps H0. induction Hsteps as [|x y z Hxy _ IH]; [done|].
    apply IH. by eapply cache_ok_step. }
  unfold Resolve in Hr. case_match; [done|].
  destruct (cache_hit m now source ref) as [v'|] eqn:Eh.
  - right. injection Hr as ->. unfold cache_hit in Eh.
    destruct (cache m !! cacheKey source ref) as [e|] eqn:Ec; [|done].
    destruct (Z.ltb_spec now (ce_expires e)); [|done]. injection Eh as <-.
    destruct (Hok _ _ Ec) as (s & r & t & Hk & Hin & Hexp). simpl in Hin.
    assert (Contains s ":" = false) as Hs.
    { unfold sources_plain in Hplain. rewrite Forall_forall in Hplain. by apply Hplain in Hin. }
    destruct (cacheKey_inj _ _ _ _ Hsrc Hs Hk) as [-> ->]. exists t. split; [done|lia].
  - left. case_bool_decide; [|done]. by destruct (GetSecret source ref); simplify_eq.
Qed.

(** A provider answers once; three minutes later the cache does. *)
Lemma Resolve_fresh_witness :
  let get := λ _ _, Ok {["password" := "pw"]} in
  let m := (Resolve get (NewManager [MkProvider "aws_sm" true]) 0 0 "aws_sm" "db").2 in
  let later := (3 * Minute)%Z in
  ∃ t, ("aws_sm", "db", t, {["password" := "pw"]}) ∈ [("aws_sm", "db", 0%Z, {["password" := "pw"]} : creds)]
       ∧ (later < t + 5 * Minute)%Z.
Proof.
  intros get m later.
  destruct (Resolve_fresh (λ _ _, Err (errorf "down")) [MkProvider "aws_sm" true] m
    [("aws_sm", "db", 0%Z, {["password" := "pw"]})] later later "aws_sm" "db" {["password" := "pw"]})
    as [Hbad|Hin].
  - eapply rtc_l; [|apply rtc_refl].
    apply (mgr_fetch get (NewManager [MkProvider "aws_sm" true]) [] 0 0 "aws_sm" "db"); reflexivity.
  - by repeat constructor.
  - reflexivity.
  - vm_compute. reflexivity.
  - done.
  - exact Hin.
Defined.

(** ** The credentials file *)

Lemma dec_string_map_obj l :
  Forall (λ kv : string * json, ∃ s, kv.2 = JStr s) l →
  ∃ m, dec_string_map None (JObj l) = (Some m, true) ∧ JStr <$> m = members_map l.
Proof.
  induction l as [|[k v] l IH] using rev_ind; intros Hl.
  - exists ∅. split; [done|]. by rewrite fmap_empty.
  - apply Forall_app in Hl as [Hl [[s Hs] _]%Forall_cons]. simpl in Hs. subst v.
    destruct (IH Hl) as (m & Hm & Hf). exists (<[k:=s]> m).
    rewrite members_map_snoc, fmap_insert, Hf. split; [|done].
    unfold dec_string_map in *. rewrite foldl_app.
    destruct (foldl _ _ l) as [m' ok]. by simplify_eq/=.
Qed.

Lemma dec_creds_one (c : creds) : dec_string_map None (marshal_raw_map (JStr <$> c)) = (Some c, true).
Proof.
  change (marshal_raw_map (JStr <$> c)) with (JObj (sorted_members (JStr <$> c))).
  destruct (dec_string_map_obj (sorted_members (JStr <$> c))) as (m & -> & Hm).
  - apply Forall_forall. intros [k v] Hin. apply elem_of_sorted_members in Hin.
    apply lookup_fmap_Some in Hin as (s & <- & _). by exists s.
  - do 2 f_equal. pose proof (unmarshal_marshal_raw_map (JStr <$> c)) as Hu.
    change (unmarshal_raw_map (marshal_raw_map (JStr <$> c)))
      with (Some (members_map (sorted_members (JStr <$> c)))) in Hu.
    injection Hu as Hu. rewrite Hu in Hm.
    apply (map_fmap_inj JStr) in Hm; [done|]. by intros ?? [= ->].
Qed.

Lemma unmarshal_marshal_creds m : unmarshal_creds (marshal_creds m) = Some m.
Proof.
  unfold unmarshal_creds, marshal_creds. rewrite unmarshal_marshal_raw_map.
  rewrite bool_decide_eq_true_2.
  - f_equal. rewrite <- map_fmap_compose. apply map_eq. intros k. rewrite lookup_fmap.
    destruct (m !! k) as [c|]; [|done].
    change (Some (default ∅ (dec_string_map None (marshal_raw_map (JStr <$> c))).1) = Some c).
    by rewrite dec_creds_one.
  - intros k v Hk. apply lookup_fmap_Some in Hk as (c & <- & _). by rewrite dec_creds_one.
Qed.

Definition creds_valid (m : gmap string creds) : Prop :=
  map_Forall (λ id c, valid_utf8 id = true ∧
    map_Forall (λ k v, valid_utf8 k = true ∧ valid_utf8 v = true) c) m.

Lemma marshal_creds_wf m : creds_valid m → wf_json (marshal_creds m) = true.
Proof.
  intros Hm. apply marshal_raw_map_wf. intros id v Hid.
  apply lookup_fmap_Some in Hid as (c & <- & Hc). destruct (Hm id c Hc) as [Hi Hcv].
  split; [done|]. apply marshal_raw_map_wf. intros k w Hk.
  apply lookup_fmap_Some in Hk as (x & <- & Hx). by apply Hcv in Hx.
Qed.

Lemma substring_prefix a b : String.substring 0 (String.length a) (a +:+ b) = a.
Proof.
  induction a as [|c a IH]; [by destruct b|]. rewrite app_cons. simpl. by f_equal.
Qed.

Lemma substring_whole s n : String.length s ≤ n → String.substring 0 n s = s.
Proof.
  revert n. induction s as [|c s IH]; intros [|n] Hn; simpl in *; try done; [lia|].
  rewrite IH by lia. done.
Qed.

Lemma substring_suffix a b n :
  String.length b ≤ n → String.substring (String.length a) n (a +:+ b) = b.
Proof.
  intros Hn. induction a as [|c a IH]; [by apply substring_whole|]. rewrite app_cons. exact IH.
Qed.

Lemma substring_app_ge a b n :
  String.length a ≤ n → String.substring 0 n (a +:+ b) = a +:+ String.substring 0 (n - String.length a) b.
Proof.
  revert n. induction a as [|c a IH]; intros n Hn; [by rewrite Nat.sub_0_r|].
  destruct n as [|n]; [simpl in Hn; lia|]. rewrite app_cons. simpl in *. by rewrite IH by lia.
Qed.

Lemma length_substring_le s n : String.length (String.substring 0 n s) ≤ n.
Proof.
  revert n. induction s as [|c s IH]; intros [|n]; simpl; try lia. specialize (IH n). lia.
Qed.

Section recovery.
Context `{AesGcmLaws}.

Lemma decrypt_encrypt key nonce plaintext :
  String.length nonce = gcm_NonceSize →
  decryptAESGCM key (encryptAESGCM key nonce plaintext) = Ok plaintext.
Proof.
  intros Hn. unfold decryptAESGCM, encryptAESGCM. rewrite length_app_str, Hn.
  rewrite (proj2 (Nat.ltb_ge _ _)) by lia. rewrite <- Hn at 1 2.
  rewrite substring_prefix, substring_suffix by lia. by rewrite gcm_Open_Seal.
Qed.

(** The file holds the credentials [m]. *)
Definition disk_holds (key : string) (d : disk) (m : gmap string creds) : Prop :=
  ∃ nonce, String.length nonce = gcm_NonceSize
           ∧ d = Some (encryptAESGCM key nonce (json_print (marshal_creds m))).

Lemma load_holds s d m :
  creds_valid m → disk_holds (st_key s) d m → loadFromDisk s d = Some (Ok (MkStore m (st_key s))).
Proof.
  intros Hm (nonce & Hn & ->). unfold loadFromDisk. rewrite decrypt_encrypt by done.
  unfold wrap_err, mbind, result_bind.
  rewrite json_parse_print by (by apply marshal_creds_wf). unfold option_bind.
  by rewrite unmarshal_marshal_creds.
Qed.
End recovery.

(** A change of the store, with the nonce drawn and what the file system answers. *)
Inductive store_op :=
  | StoreSet (id : string) (c : creds) (nonce : string) (mkdir : result unit) (write : write_outcome)
  | StoreDelete (id nonce : string) (mkdir : result unit) (write : write_outcome).

(** What became of the file: the credentials of the last save that succeeded, if any,
    or what a later one left that was cut off. *)
Inductive last_write :=
  | Intact (saved : option (gmap string creds))
  | Torn (m : gmap string creds) (nonce : string) (n : nat).

(** The store, the file, and what became of it. *)
Definition store_state : Type := CloudPushStore * disk * last_write.

Definition op_outcome (op : store_op) : string * result unit * write_outcome :=
  match op with
  | StoreSet _ _ nonce mkdir write | StoreDelete _ nonce mkdir write => (nonce, mkdir, write)
  end.

Definition store_step `{AesGcm} (s : store_state) (op : store_op) : store_state :=
  let '(st, d, last) := s in
  let '(r, st', d') :=
    match op with
    | StoreSet id c nonce mkdir write => Set_creds st nonce mkdir write d id c
    | StoreDelete id nonce mkdir write => Delete_creds st nonce mkdir write d id
    end in
  (st', d', if is_ok r then Intact (Some (st_creds st'))
            else match op_outcome op with
                 | (nonce, Ok _, CutOff _ n) => Torn (st_creds st') nonce n
                 | _ => last
                 end).

Definition store_op_ok (op : store_op) : Prop :=
  match op with
  | StoreSet id c nonce _ _ =>
      String.length nonce = gcm_NonceSize ∧ valid_utf8 id = true
      ∧ map_Forall (λ k v, valid_utf8 k = true ∧ valid_utf8 v = true) c
  | StoreDelete _ nonce _ _ => String.length nonce = gcm_NonceSize
  end.

(** The encrypted credentials. *)
Definition cred_file `{AesGcm} (key nonce : string) (m : gmap string creds) : string :=
  encryptAESGCM key nonce (json_print (marshal_creds m)).

Definition file_ok `{AesGcm} (key : string) (d : disk) (last : last_write) : Prop :=
  match last with
  | Intact None => d = None
  | Intact (Some m) => creds_valid m ∧ disk_holds key d m
  | Torn m nonce n =>
      creds_valid m ∧ String.length nonce = gcm_NonceSize
      ∧ d = Some (String.substring 0 n (cred_file key nonce m))
  end.

Definition store_ok `{AesGcm} (key : string) (s : store_state) : Prop :=
  let '(st, d, last) := s in
  st_key st = key ∧ creds_valid (st_creds st) ∧ file_ok key d last.

Lemma saveToDisk_spec `{AesGcm} st nonce mkdir write d last :
  String.length nonce = gcm_NonceSize → creds_valid (st_creds st) → file_ok (st_key st) d last →
  let '(r, d') := saveToDisk st nonce mkdir write d in
  file_ok (st_key st) d' (if is_ok r then Intact (Some (st_creds st))
                          else match mkdir, write with Ok _, CutOff _ n => Torn (st_creds st) nonce n | _, _ => last end).
Proof.
  intros Hn Hc Hd. unfold saveToDisk. destruct mkdir, write; simpl; try done. split; [done|]. by exists nonce.
Qed.

Lemma store_step_ok `{AesGcm} key s op :
  store_op_ok op → store_ok key s → store_ok key (store_step s op).
Proof.
  destruct s as [[st d] last]. intros Hop (<- & Hv & Hs).
  destruct op as [id c nonce mkdir write|id nonce mkdir write]; unfold store_step, Set_creds, Delete_creds, op_outcome.
  - destruct Hop as (Hn & Hid & Hc). set (st' := MkStore (<[id:=c]> (st_creds st)) (st_key st)).
    assert (creds_valid (st_creds st')) as Hv' by by apply map_Forall_insert_2.
    pose proof (saveToDisk_spec st' nonce mkdir write d last Hn Hv' Hs) as Hd.
    destruct (saveToDisk _ _ _ _ _) as [r d']. by destruct mkdir, write.
  - set (st' := MkStore (delete id (st_creds st)) (st_key st)).
    assert (creds_valid (st_creds st')) as Hv' by by apply map_Forall_delete.
    pose proof (saveToDisk_spec st' nonce mkdir write d last Hop Hv' Hs) as Hd.
    destruct (saveToDisk _ _ _ _ _) as [r d']. by destruct mkdir, write.
Qed.

Lemma store_ok_reached `{AesGcm} key ops :
  Forall store_op_ok ops → store_ok key (foldl store_step (MkStore ∅ key, None, Intact None) ops).
Proof.
  intros Hops. assert (store_ok key (MkStore ∅ key, None, Intact None)) as H1
    by (split_and!; [done|apply map_Forall_empty|done]).
  revert H1. generalize (MkStore ∅ key, @None string, Intact None) as s0.
  induction Hops as [|op ops Hop _ IH]; intros s0 Hs0; [done|].
  simpl. by apply IH, store_step_ok.
Qed.

(** Reading back what a write that was cut off has left. *)
Lemma decrypt_short `{AesGcm} key data :
  String.length data < gcm_NonceSize → decryptAESGCM key data = Err (errorf "ciphertext too short").
Proof. intros Hn. unfold decryptAESGCM. by rewrite (proj2 (Nat.ltb_lt _ _) Hn). Qed.

Lemma decrypt_cut `{AesGcm} key nonce plaintext n :
  String.length nonce = gcm_NonceSize → gcm_NonceSize ≤ n →
  gcm_Open key nonce (String.substring 0 (n - gcm_NonceSize) (gcm_Seal key nonce plaintext)) = None →
  decryptAESGCM key (String.substring 0 n (encryptAESGCM key nonce plaintext))
  = Err (errorf "cipher: message authentication failed").
Proof.
  intros Hn Hge Ho. unfold decryptAESGCM, encryptAESGCM.
  rewrite substring_app_ge by lia. rewrite Hn. revert Ho.
  generalize (String.substring 0 (n - gcm_NonceSize) (gcm_Seal key nonce plaintext)). intros sealed Ho.
  rewrite length_app_str, Hn, (proj2 (Nat.ltb_ge _ _)) by lia.
  rewrite <- Hn at 1 2. rewrite substring_prefix, substring_suffix by lia. by rewrite Ho.
Qed.

(** C24. Pushed credentials survive a restart: after any sequence of updates and
    deletions, some of which may fail, a new store opened with the same access secret
    holds exactly the credentials of the last save that succeeded, unless a later save
    emptied the file and failed to write all of it. Then the file holds a beginning of
    what was to be written, and what was saved before is lost: the store cannot be
    opened when that is shorter than a nonce, or when the cipher does not accept it, and
    holds what was to be saved when only the close of the file has failed. The next save
    that succeeds repairs it. *)
Theorem CloudPushStore_recovers `{AesGcmLaws} accessSecret ops :
  Forall store_op_ok ops →
  let key := sha256_Sum accessSecret in
  let '(_, d, last) := foldl store_step (MkStore ∅ key, None, Intact None) ops in
  let opened := NewCloudPushStore accessSecret d in
  let refused e := opened = Err (wrapf "loading credentials: " (wrapf "decrypting: " (errorf e))) in
  match last with
  | Intact saved => opened = Ok (MkStore (default ∅ saved) key)
  | Torn m nonce n =>
      let file := cred_file key nonce m in
      d = Some (String.substring 0 n file)
      ∧ (n < gcm_NonceSize → refused "ciphertext too short")
      ∧ (gcm_NonceSize ≤ n →
         gcm_Open key nonce (String.substring 0 (n - gcm_NonceSize)
                               (gcm_Seal key nonce (json_print (marshal_creds m)))) = None →
         refused "cipher: message authentication failed")
      ∧ (String.length file ≤ n → opened = Ok (MkStore m key))
  end.
Proof.
  intros Hops key. pose proof (store_ok_reached key ops Hops) as Hok.
  destruct (foldl _ _ ops) as [[st d] last]. destruct Hok as (_ & _ & Hs).
  unfold NewCloudPushStore. destruct last as [[m|]|m nonce n]; cbn [file_ok] in Hs.
  - destruct Hs as [Hm Hd]. by rewrite (load_holds (MkStore ∅ key) d m Hm Hd).
  - by subst d.
  - destruct Hs as (Hm & Hn & ->). split_and!; [done|..].
    + intros Hlt. unfold loadFromDisk. rewrite decrypt_short; [done|].
      eapply Nat.le_lt_trans; [apply length_substring_le|done].
    + intros Hge Ho. unfold loadFromDisk, cred_file. by rewrite decrypt_cut.
    + intros Hle. rewrite substring_whole by done.
      assert (disk_holds key (Some (cred_file key nonce m)) m) as Hd by by exists nonce.
      by rewrite (load_holds (MkStore ∅ key) _ m Hm Hd).
Qed.

(** A cipher for the witness: the identity. *)
#[local] Instance plain_gcm : AesGcm := {|
  gcm_Seal _ _ p := p; gcm_Open _ _ c := Some c; sha256_Sum s := s |}.
#[local] Instance plain_gcm_laws : AesGcmLaws.
Proof. by split. Qed.

Definition demo_store_ops : list store_op :=
  [StoreSet "d1" {["password" := "pw"]} "123456789012" (Ok tt) Written;
   StoreSet "d2" {["password" := "pw"]} "123456789012" (Ok tt) (NotOpened (errorf "permission denied"))].

Lemma demo_store_ops_ok : Forall store_op_ok demo_store_ops.
Proof.
  assert (∀ id m w, valid_utf8 id = true →
    store_op_ok (StoreSet id {["password" := "pw"]} "123456789012" m w)) as H.
  { intros id m w Hid. split_and!; [done..|]. by apply map_Forall_singleton. }
  apply Forall_cons; split; [by apply H|]. apply Forall_cons; split; [by apply H|]. apply Forall_nil.
  done.
Qed.

(** The first save stands, until the disk is full. *)
Lemma CloudPushStore_recovers_witness :
  let key := sha256_Sum "s" in
  let '(_, d, last) := foldl store_step (MkStore ∅ key, None, Intact None) demo_store_ops in
  last = Intact (Some {["d1" := {["password" := "pw"]}]})
  ∧ NewCloudPushStore "s" d = Ok (MkStore {["d1" := {["password" := "pw"]}]} key).
Proof. split; [done|]. exact (CloudPushStore_recovers "s" demo_store_ops demo_store_ops_ok). Defined.
