(* ===== verification/Providers.v ===== *)
(** * pkg/secrets/aws_sm.go, gcp_sm.go, azure_kv.go: cloud secret stores

    Each provider creates its client on the first request, behind a [sync.Once], and
    reads a secret as a JSON object of strings. The vendors' libraries are what an
    environment answers; a client is known by a number, and using one that was never
    created panics. *)

From S2P Require Import Prelude GoStrings GoJson GoJsonFacts Secrets.
#[local] Open Scope Z_scope.

(** [json.Unmarshal] into a [map[string]string]; [null] leaves the map nil. *)
Definition unmarshal_secret (s : string) : result (gmap string string) :=
  match json_parse s with
  | None => Err json_error
  | Some j =>
      let '(m, ok) := dec_string_map None j in
      if (ok : bool) then Ok (default ∅ m) else Err json_error
  end.

(** ** AWS Secrets Manager *)

Record AWSSM := MkAWSSM {
  aws_region : string;
  aws_client : option nat;
  aws_initOnce : bool;                     (* the function has run *)
  aws_initErr : option error;
}.

Definition NewAWSSM (region : string) : AWSSM := MkAWSSM region None false None.

Record aws_env := MkAwsEnv {
  LoadDefaultConfig : string → result nat;
  GetSecretValue : nat → string → result (option string);
}.

Definition aws_ensureClient (w : aws_env) (a : AWSSM) : option error * AWSSM :=
  let a := if aws_initOnce a then a
           else match LoadDefaultConfig w (aws_region a) with
                | Err err => MkAWSSM (aws_region a) (aws_client a) true (Some err)
                | Ok c => MkAWSSM (aws_region a) (Some c) true (aws_initErr a)
                end in
  (aws_initErr a, a).

(** A request with a client. *)
Definition aws_read (w : aws_env) (c : nat) (ref : string) : result (gmap string string) :=
  match GetSecretValue w c ref with
  | Err err => Err (wrapf ("aws_sm: GetSecretValue(" +:+ ref +:+ "): ") err)
  | Ok None =>
      Err (errorf ("aws_sm: secret " +:+ ref +:+ " has no string value (binary secrets not supported)"))
  | Ok (Some s) =>
      wrap_err ("aws_sm: secret " +:+ ref +:+ " is not valid JSON key-value: ") (unmarshal_secret s)
  end.

Definition aws_GetSecret (w : aws_env) (a : AWSSM) (ref : string)
  : outcome (result (gmap string string)) * AWSSM :=
  let '(err, a) := aws_ensureClient w a in
  match err, aws_client a with
  | Some err, _ => (Return (Err (wrapf "aws_sm: init client: " err)), a)
  | None, None => (Panic, a)
  | None, Some c =>
      (Return (aws_read w c ref), a)
  end.

(** ** Google Secret Manager *)

Record GCPSM := MkGCPSM {
  gcp_projectID : string;
  gcp_credentialsFile : string;
  gcp_client : option nat;
  gcp_initOnce : bool;
  gcp_initErr : option error;
}.

Definition NewGCPSM (projectID credentialsFile : string) : GCPSM :=
  MkGCPSM projectID credentialsFile None false None.

(** A response without a payload is [Ok None]. *)
Record gcp_env := MkGcpEnv {
  gcp_ReadFile : string → result string;
  NewCredentialsFromJSON : string → string → result string;      (* type, file *)
  gcp_NewClient : option string → result nat;                     (* the credentials option *)
  AccessSecretVersion : nat → string → result (option string);
}.

(** The credential type a file declares. *)
Definition head_field (t : string) (k : string) (v : json) : string * bool :=
  if key_is "type" k then dec_string t v else (t, true).

Definition loadCredentialsFile (w : gcp_env) (path : string) : result string :=
  b ← gcp_ReadFile w path;
  head ← match json_parse b with
         | None => Err (wrapf "parsing credentials file: " json_error)
         | Some j => let '(t, ok) := dec_struct head_field "" j in
                     if (ok : bool) then Ok t else Err (wrapf "parsing credentials file: " json_error)
         end;
  _ ← fail_if (String.eqb head "") (errorf ("credentials file has no " +:+ Quote "type" +:+ " field"));
  NewCredentialsFromJSON w head b.

Definition gcp_init (w : gcp_env) (g : GCPSM) : result nat :=
  opts ← if String.eqb (gcp_credentialsFile g) "" then Ok None
         else Some <$> wrap_err ("gcp_sm: load credentials from " +:+ gcp_credentialsFile g +:+ ": ")
                         (loadCredentialsFile w (gcp_credentialsFile g));
  gcp_NewClient w opts.

Definition gcp_ensureClient (w : gcp_env) (g : GCPSM) : option error * GCPSM :=
  let g := if gcp_initOnce g then g
           else match gcp_init w g with
                | Err err => MkGCPSM (gcp_projectID g) (gcp_credentialsFile g) (gcp_client g) true (Some err)
                | Ok c => MkGCPSM (gcp_projectID g) (gcp_credentialsFile g) (Some c) true (gcp_initErr g)
                end in
  (gcp_initErr g, g).

(** A response without a payload is dereferenced. *)
Definition gcp_read (w : gcp_env) (c : nat) (ref : string) : outcome (result (gmap string string)) :=
  match AccessSecretVersion w c ref with
  | Err err => Return (Err (wrapf ("gcp_sm: AccessSecretVersion(" +:+ ref +:+ "): ") err))
  | Ok None => Panic
  | Ok (Some data) =>
      Return (wrap_err ("gcp_sm: secret " +:+ ref +:+ " is not valid JSON key-value: ")
                (unmarshal_secret data))
  end.

Definition gcp_GetSecret (w : gcp_env) (g : GCPSM) (ref : string)
  : outcome (result (gmap string string)) * GCPSM :=
  let '(err, g) := gcp_ensureClient w g in
  match err, gcp_client g with
  | Some err, _ => (Return (Err (wrapf "gcp_sm: init client: " err)), g)
  | None, None => (Panic, g)
  | None, Some c => (gcp_read w c ref, g)
  end.

(** ** Azure Key Vault *)

Record AzureKV := MkAzureKV {
  az_vaultURL : string;
  az_tenantID : string;
  az_clientID : string;
  az_client : option nat;
  az_initOnce : bool;
  az_initErr : option error;
}.

Definition NewAzureKV (vaultURL tenantID clientID : string) : AzureKV :=
  MkAzureKV vaultURL tenantID clientID None false None.

Record azure_env := MkAzureEnv {
  NewManagedIdentityCredential : string → result string;
  NewDefaultAzureCredential : string → result string;
  azure_NewClient : string → string → result nat;
  azure_Get : nat → string → result (option string);
}.

Definition azure_init (w : azure_env) (a : AzureKV) : result nat :=
  cred ← wrap_err "azure credential: "
           (if negb (String.eqb (az_clientID a) "") then NewManagedIdentityCredential w (az_clientID a)
            else NewDefaultAzureCredential w (az_tenantID a));
  wrap_err "azure kv client: " (azure_NewClient w (az_vaultURL a) cred).

Definition azure_ensureClient (w : azure_env) (a : AzureKV) : option error * AzureKV :=
  let set c err := MkAzureKV (az_vaultURL a) (az_tenantID a) (az_clientID a) c true err in
  let a := if az_initOnce a then a
           else match azure_init w a with
                | Err err => set (az_client a) (Some err)
                | Ok c => set (Some c) (az_initErr a)
                end in
  (az_initErr a, a).

Definition azure_read (w : azure_env) (c : nat) (ref : string) : result (gmap string string) :=
  match azure_Get w c ref with
  | Err err => Err (wrapf ("azure_kv: GetSecret(" +:+ ref +:+ "): ") err)
  | Ok None => Err (errorf ("azure_kv: secret " +:+ ref +:+ " has nil value"))
  | Ok (Some s) =>
      wrap_err ("azure_kv: secret " +:+ ref +:+ " is not valid JSON key-value: ") (unmarshal_secret s)
  end.

Definition azure_GetSecret (w : azure_env) (a : AzureKV) (ref : string)
  : outcome (result (gmap string string)) * AzureKV :=
  let '(err, a) := azure_ensureClient w a in
  match err, az_client a with
  | Some err, _ => (Return (Err (wrapf "azure_kv: init client: " err)), a)
  | None, None => (Panic, a)
  | None, Some c =>
      (Return (azure_read w c ref), a)
  end.

(** ** The Provider interface *)

Class SecretProvider (P E : Type) := {
  Name : P → string;
  Available : P → bool;
  GetSecret : E → P → string → outcome (result (gmap string string)) * P;
}.

#[export] Instance AWSSM_Provider : SecretProvider AWSSM aws_env := {|
  Name _ := "aws_sm"; Available a := negb (String.eqb (aws_region a) ""); GetSecret := aws_GetSecret |}.
#[export] Instance GCPSM_Provider : SecretProvider GCPSM gcp_env := {|
  Name _ := "gcp_sm"; Available g := negb (String.eqb (gcp_projectID g) ""); GetSecret := gcp_GetSecret |}.
#[export] Instance AzureKV_Provider : SecretProvider AzureKV azure_env := {|
  Name _ := "azure_kv"; Available a := negb (String.eqb (az_vaultURL a) ""); GetSecret := azure_GetSecret |}.

(** What a manager knows of it. *)
Definition provider_of {P E} `{SecretProvider P E} (p : P) : Provider := MkProvider (Name p) (Available p).

(** Requests in turn, each in the environment of its time. *)
Fixpoint requests {P E} `{SecretProvider P E} (p : P) (l : list (E * string))
  : list (outcome (result (gmap string string))) * P :=
  match l with
  | [] => ([], p)
  | (w, ref) :: l =>
      let '(r, p) := GetSecret w p ref in
      let '(rs, p) := requests p l in
      (r :: rs, p)
  end.

(** ** Lazy initialisation *)

(** What every provider does with its [sync.Once]: the attempts at creating the client
    and reading a secret with it. *)
Class LazyProvider (P E : Type) `{SecretProvider P E} := {
  initialise : E → P → result nat;
  read : E → nat → string → outcome (result (gmap string string));
  tried : P → bool;
  handle : P → option nat;
  kept_error : P → option error;
  fresh : P → Prop;
  fresh_untried : ∀ p, fresh p → tried p = false ∧ handle p = None ∧ kept_error p = None;
  GetSecret_first : ∀ w p ref, fresh p →
    match initialise w p with
    | Err e => (GetSecret w p ref).1 = Return (Err (wrapf (Name p +:+ ": init client: ") e))
        ∧ tried (GetSecret w p ref).2 = true ∧ kept_error (GetSecret w p ref).2 = Some e
    | Ok c => (GetSecret w p ref).1 = read w c ref
        ∧ tried (GetSecret w p ref).2 = true ∧ kept_error (GetSecret w p ref).2 = None
        ∧ handle (GetSecret w p ref).2 = Some c
    end;
  GetSecret_name : ∀ w p ref, Name (GetSecret w p ref).2 = Name p;
  GetSecret_failed : ∀ w p ref e, tried p = true → kept_error p = Some e →
    GetSecret w p ref = (Return (Err (wrapf (Name p +:+ ": init client: ") e)), p);
  GetSecret_ready : ∀ w p ref c, tried p = true → kept_error p = None → handle p = Some c →
    GetSecret w p ref = (read w c ref, p);
}.

(** The provider read off its requests: the first one initialises it, and its outcome
    is final. *)
Definition requests_spec {P E} `{LazyProvider P E} (p : P) (l : list (E * string))
  : list (outcome (result (gmap string string))) :=
  match l with
  | [] => []
  | (w, _) :: _ =>
      match initialise w p with
      | Err e => map (λ _, Return (Err (wrapf (Name p +:+ ": init client: ") e))) l
      | Ok c => map (λ '(w, ref), read w c ref) l
      end
  end.

Lemma requests_failed {P E} `{LazyProvider P E} p l e :
  tried p = true → kept_error p = Some e →
  (requests p l).1 = map (λ _, Return (Err (wrapf (Name p +:+ ": init client: ") e))) l.
Proof.
  intros Ht He. induction l as [|[w ref] l IH]; [done|]. simpl.
  rewrite (GetSecret_failed w p ref e) by done. destruct (requests p l) as [rs p'].
  simpl in *. by rewrite IH.
Qed.

Lemma requests_ready {P E} `{LazyProvider P E} p l c :
  tried p = true → kept_error p = None → handle p = Some c →
  (requests p l).1 = map (λ '(w, ref), read w c ref) l.
Proof.
  intros Ht He Hc. induction l as [|[w ref] l IH]; [done|]. simpl.
  rewrite (GetSecret_ready w p ref c) by done. destruct (requests p l) as [rs p'].
  simpl in *. by rewrite IH.
Qed.

Lemma requests_lazy {P E} `{LazyProvider P E} p l :
  fresh p → (requests p l).1 = requests_spec p l.
Proof.
  intros Hf. destruct l as [|[w ref] l]; [done|]. simpl.
  pose proof (GetSecret_first w p ref Hf) as Hg. pose proof (GetSecret_name w p ref) as Hn.
  destruct (GetSecret w p ref) as [r p1]. simpl in Hg, Hn. destruct (initialise w p) as [c|e].
  - destruct Hg as (-> & Ht & He & Hc). pose proof (requests_ready p1 l c Ht He Hc) as Hr.
    destruct (requests p1 l). simpl in *. by rewrite Hr.
  - destruct Hg as (-> & Ht & He). pose proof (requests_failed p1 l e Ht He) as Hr.
    destruct (requests p1 l). simpl in *. by rewrite Hr, Hn.
Qed.

#[export, program] Instance AWSSM_Lazy : LazyProvider AWSSM aws_env := {|
  initialise w a := LoadDefaultConfig w (aws_region a);
  read w c ref := Return (aws_read w c ref);
  tried := aws_initOnce; handle := aws_client; kept_error := aws_initErr;
  fresh a := ∃ region, a = NewAWSSM region |}.
Next Obligation. by intros ? [? ->]. Qed.
Next Obligation.
  intros w p ref [r ->]. simpl. unfold aws_GetSecret, aws_ensureClient. simpl.
  destruct (LoadDefaultConfig w r); split_and!; reflexivity.
Qed.
Next Obligation. done. Qed.
Next Obligation.
  intros w p ref e Ht He. simpl. unfold aws_GetSecret, aws_ensureClient. rewrite Ht, He. reflexivity.
Qed.
Next Obligation.
  intros w p ref c Ht He Hc. simpl. unfold aws_GetSecret, aws_ensureClient. by rewrite Ht, He, Hc.
Qed.

#[export, program] Instance GCPSM_Lazy : LazyProvider GCPSM gcp_env := {|
  initialise := gcp_init;
  read := gcp_read;
  tried := gcp_initOnce; handle := gcp_client; kept_error := gcp_initErr;
  fresh g := ∃ project file, g = NewGCPSM project file |}.
Next Obligation. by intros ? (? & ? & ->). Qed.
Next Obligation.
  intros w p ref (pr & f & ->). simpl. unfold gcp_GetSecret, gcp_ensureClient. simpl.
  destruct (gcp_init w _); simpl; split_and!; reflexivity.
Qed.
Next Obligation. done. Qed.
Next Obligation.
  intros w p ref e Ht He. simpl. unfold gcp_GetSecret, gcp_ensureClient. rewrite Ht, He. reflexivity.
Qed.
Next Obligation.
  intros w p ref c Ht He Hc. simpl. unfold gcp_GetSecret, gcp_ensureClient. by rewrite Ht, He, Hc.
Qed.

#[export, program] Instance AzureKV_Lazy : LazyProvider AzureKV azure_env := {|
  initialise := azure_init;
  read w c ref := Return (azure_read w c ref);
  tried := az_initOnce; handle := az_client; kept_error := az_initErr;
  fresh a := ∃ url tenant client, a = NewAzureKV url tenant client |}.
Next Obligation. by intros ? (? & ? & ? & ->). Qed.
Next Obligation.
  intros w p ref (u & t & cl & ->). simpl. unfold azure_GetSecret, azure_ensureClient. simpl.
  destruct (azure_init w _); split_and!; reflexivity.
Qed.
Next Obligation. done. Qed.
Next Obligation.
  intros w p ref e Ht He. simpl. unfold azure_GetSecret, azure_ensureClient. rewrite Ht, He. reflexivity.
Qed.
Next Obligation.
  intros w p ref c Ht He Hc. simpl. unfold azure_GetSecret, azure_ensureClient. by rewrite Ht, He, Hc.
Qed.

(** ** Theorems *)

(** C25. A provider's first request decides for good: over any sequence of requests,
    whatever the vendor's services answer at each, every provider behaves as one that
    was initialised in the environment of the first request. If that failed, every
    later request fails with the same error, even when creating the client would have
    succeeded by then; if it succeeded, no later request can lose the client. *)
Theorem provider_init_final region project file url tenant client :
  (∀ l : list (aws_env * string),
     (requests (NewAWSSM region) l).1 = requests_spec (NewAWSSM region) l)
  ∧ (∀ l : list (gcp_env * string),
     (requests (NewGCPSM project file) l).1 = requests_spec (NewGCPSM project file) l)
  ∧ (∀ l : list (azure_env * string),
     (requests (NewAzureKV url tenant client) l).1 = requests_spec (NewAzureKV url tenant client) l).
Proof. split_and!; intros l; apply requests_lazy; by repeat eexists. Qed.

(** An outage at the first request only. *)
Definition aws_up : aws_env := MkAwsEnv (λ _, Ok 1%nat) (λ _ _, Ok (Some "{}")).
Definition aws_down : aws_env := MkAwsEnv (λ _, Err (errorf "deadline exceeded")) (λ _ _, Ok (Some "{}")).

Example outage_sticks :
  (requests (NewAWSSM "eu-west-1") [(aws_down, "db"); (aws_up, "db")]).1
  = replicate 2 (Return (Err (errorf "aws_sm: init client: deadline exceeded"))).
Proof. reflexivity. Qed.

(** A secret that was stored as a JSON object of strings. *)
Definition secret_text (c : gmap string string) : string := json_print (marshal_raw_map (JStr <$> c)).

Definition secret_valid (c : gmap string string) : Prop :=
  map_Forall (λ k v, valid_utf8 k = true ∧ valid_utf8 v = true) c.

Lemma unmarshal_secret_text c : secret_valid c → unmarshal_secret (secret_text c) = Ok c.
Proof.
  intros Hc. unfold unmarshal_secret, secret_text. rewrite json_parse_print.
  - by rewrite dec_creds_one.
  - apply marshal_raw_map_wf. intros k v. rewrite lookup_fmap, fmap_Some. intros (s & Hs & ->).
    by apply Hc in Hs.
Qed.

(** Secrets round trip: whatever credentials a store keeps as a JSON object, each
    provider, once its client is up, returns exactly them. *)
Theorem provider_secret_roundtrip c ref cl :
  secret_valid c →
  (∀ w region, LoadDefaultConfig w region = Ok cl → GetSecretValue w cl ref = Ok (Some (secret_text c)) →
     (aws_GetSecret w (NewAWSSM region) ref).1 = Return (Ok c))
  ∧ (∀ w project, gcp_NewClient w None = Ok cl → AccessSecretVersion w cl ref = Ok (Some (secret_text c)) →
     (gcp_GetSecret w (NewGCPSM project "") ref).1 = Return (Ok c))
  ∧ (∀ w url tenant cred, NewDefaultAzureCredential w tenant = Ok cred → azure_NewClient w url cred = Ok cl →
     azure_Get w cl ref = Ok (Some (secret_text c)) →
     (azure_GetSecret w (NewAzureKV url tenant "") ref).1 = Return (Ok c)).
Proof.
  intros Hc. split_and!.
  - intros w region Hi Hg. unfold aws_GetSecret, aws_ensureClient, aws_read. cbn. rewrite Hi. cbn.
    by rewrite Hg, unmarshal_secret_text.
  - intros w project Hi Hg. unfold gcp_GetSecret, gcp_ensureClient, gcp_init, gcp_read. cbn. rewrite Hi. cbn.
    by rewrite Hg, unmarshal_secret_text.
  - intros w url tenant cred Hcr Hi Hg.
    unfold azure_GetSecret, azure_ensureClient, azure_init, azure_read. cbn. rewrite Hcr. cbn. rewrite Hi. cbn.
    by rewrite Hg, unmarshal_secret_text.
Qed.

Definition demo_secret : gmap string string := {["password" := "p@ss"]}.

Lemma provider_secret_roundtrip_witness :
  (aws_GetSecret (MkAwsEnv (λ _, Ok 7%nat) (λ _ _, Ok (Some (secret_text demo_secret))))
     (NewAWSSM "eu-west-1") "db").1 = Return (Ok demo_secret).
Proof.
  refine (proj1 (provider_secret_roundtrip demo_secret "db" 7 _) _ _ _ _); [|reflexivity..].
  apply map_Forall_singleton. by vm_compute.
Defined.
