(* ===== verification/SshAccess.v ===== *)
(** * pkg/proxy/discovery/ssh_access.go: shell access to discovered hosts

    A discovery datasource may opt into a sibling SSH datasource over the same
    scope. Its configuration is derived here and given to [Ssh.Configure]. *)

From S2P Require Import Prelude GoStrings GoJson GoAny NetIP Registry Ssh.

Definition SSHAccessSuffix : string := ":ssh".

Definition SSHAccessEnabled (cfg : gmap string any) : bool := default false (as_bool (cfg !! "ssh_access")).

(** Non-empty strings of a []string or a []any. *)
Definition stringSlice (v : option any) : list string :=
  match v with
  | Some (AStrs l) => List.filter (λ s, negb (String.eqb s "")) l
  | Some (AList l) =>
      list_omap _ _ (λ e, match e with
                          | AStr s => if String.eqb s "" then None else Some s
                          | _ => None
                          end) l
  | _ => []
  end.

Definition SSHAccessConfig (cfg : gmap string any) (signingEnabled : bool)
  : result (gmap string any) :=
  if negb signingEnabled then
    Err (errorf "ssh_access requires signing_public_key so commands are verified")
  else
    let knownHosts := as_string (cfg !! "known_hosts_file") in
    if String.eqb knownHosts "" then
      Err (errorf "ssh_access requires known_hosts_file so host keys are verified")
    else
      match stringSlice (cfg !! "allowed_cidrs") with
      | [] => Err (errorf "ssh_access requires a non-empty allowed_cidrs scope")
      | cidrs =>
          let out : gmap string any :=
            <["known_hosts" := AStr knownHosts]> (<["allowed_hosts" := AStrs cidrs]>
              {["host" := AStr ""]}) in
          let out := match cfg !! "port" with Some port => <["port" := port]> out | None => out end in
          let out := match cfg !! "max_output_bytes" with
                     | Some n => <["max_output_bytes" := n]> out
                     | None => out
                     end in
          Ok out
      end.

(** The sibling's entry and its configured proxy. *)
Definition SSHAccessSibling `{SshLib} (discovery : DatasourceEntry) (cfg : gmap string any)
    (creds : gmap string string) (signingEnabled : bool) : result (DatasourceEntry * Proxy) :=
  sshCfg ← SSHAccessConfig cfg signingEnabled;
  let id := ent_ID discovery +:+ SSHAccessSuffix in
  let '(r, p, _) := Configure (λ _, Ok tt) (λ _ _, Err (errorf "no dial in dynamic mode"))
                      New sshCfg creds in
  _ ← wrap_err "configuring ssh access: " r;
  Ok (MkEntry id "ssh" "ssh-proxy" (ent_Name discovery +:+ "-ssh")
        (ent_CredentialSource discovery) (ent_CredentialRef discovery), p).

(** ** What the sibling allows *)

(** The members the derived configuration is marshalled to, in key order. *)
Definition derived_members (kh : string) (cidrs : list string) (port mo : option json)
  : list (string * json) :=
  [("allowed_hosts", JArr (map JStr cidrs)); ("host", JStr ""); ("known_hosts", JStr kh)]
  ++ match mo with Some j => [("max_output_bytes", j)] | None => [] end
  ++ match port with Some j => [("port", j)] | None => [] end.

Definition derived_config (kh : string) (cidrs : list string) (port mo : option any)
  : gmap string any :=
  let out : gmap string any :=
    <["known_hosts" := AStr kh]> (<["allowed_hosts" := AStrs cidrs]> {["host" := AStr ""]}) in
  let out := match port with Some p => <["port" := p]> out | None => out end in
  match mo with Some n => <["max_output_bytes" := n]> out | None => out end.

Lemma any_map_derived kh cidrs port mo :
  any_map (derived_config kh cidrs port mo) =
  AMap ([("allowed_hosts", AStrs cidrs); ("host", AStr ""); ("known_hosts", AStr kh)]
        ++ match mo with Some n => [("max_output_bytes", n)] | None => [] end
        ++ match port with Some p => [("port", p)] | None => [] end).
Proof. destruct port, mo; vm_compute; reflexivity. Qed.

Lemma marshal_derived kh cidrs port mo j :
  marshal_any_map (derived_config kh cidrs port mo) = Some j →
  ∃ jp jm, j = JObj (derived_members kh cidrs jp jm).
Proof.
  unfold marshal_any_map. rewrite any_map_derived.
  destruct port as [p|], mo as [n|]; cbn [marshal_any foldr app].
  - destruct (marshal_any n) as [jn|]; [|done]. destruct (marshal_any p) as [jp|]; [|done].
    intros [= <-]. by exists (Some jp), (Some jn).
  - destruct (marshal_any p) as [jp|]; [|done]. intros [= <-]. by exists (Some jp), None.
  - destruct (marshal_any n) as [jn|]; [|done]. intros [= <-]. by exists None, (Some jn).
  - intros [= <-]. by exists None, None.
Qed.

(** The three fields of interest. *)
Definition scope (c : Config) : string * list string * string := (Host c, AllowedHosts c, KnownHosts c).

Lemma Config_field_allowed c l :
  (Config_field c "allowed_hosts" (JArr (map JStr l))).1 =
  MkConfig (Host c) (Port c) (MaxOutputBytes c) l (PoolTTL c) (PoolMaxSize c) (KnownHosts c) (HostKey c).
Proof.
  destruct c. unfold Config_field. eval_keys. unfold dec_string_list.
  assert (map (λ x, (dec_string "" x).1) (map JStr l) = l) as ->
    by (rewrite map_map; apply map_id). reflexivity.
Qed.

Lemma Config_field_host c s :
  (Config_field c "host" (JStr s)).1 =
  MkConfig s (Port c) (MaxOutputBytes c) (AllowedHosts c) (PoolTTL c) (PoolMaxSize c) (KnownHosts c)
    (HostKey c).
Proof. destruct c. unfold Config_field. eval_keys. reflexivity. Qed.

Lemma Config_field_known c s :
  (Config_field c "known_hosts" (JStr s)).1 =
  MkConfig (Host c) (Port c) (MaxOutputBytes c) (AllowedHosts c) (PoolTTL c) (PoolMaxSize c) s
    (HostKey c).
Proof. destruct c. unfold Config_field. eval_keys. reflexivity. Qed.

Lemma Config_field_numbers c k v :
  k = "port" ∨ k = "max_output_bytes" → scope (Config_field c k v).1 = scope c.
Proof.
  destruct c. intros [->| ->]; unfold Config_field; eval_keys; by destruct (dec_int _ v).
Qed.

(** The state after decoding a list of members. *)
Definition decoded (c : Config) (l : list (string * json)) : Config :=
  foldl (λ c '(k, v), (Config_field c k v).1) c l.

Lemma dec_struct_decoded l c ok :
  (foldl (λ '(a, ok) '(k, x), let '(a', ok') := Config_field a k x in (a', ok && ok')) (c, ok) l).1
  = decoded c l.
Proof.
  revert c ok. induction l as [|[k v] l IH]; intros c ok; [done|].
  simpl. destruct (Config_field c k v) as [c' ok']. apply IH.
Qed.

(** Decoding keeps the host empty, the allowlist and the known-hosts file. *)
Lemma decode_derived kh cidrs jp jm cfg ok :
  dec_struct Config_field zero_config (JObj (derived_members kh cidrs jp jm)) = (cfg, ok) →
  scope cfg = ("", cidrs, kh).
Proof.
  intros H. apply (f_equal fst) in H. unfold dec_struct in H. rewrite dec_struct_decoded in H.
  cbn [fst] in H. subst cfg. unfold derived_members, decoded. rewrite !foldl_app. cbn [foldl].
  rewrite Config_field_allowed, Config_field_host, Config_field_known.
  destruct jm as [m|], jp as [q|]; cbn [foldl]; rewrite ?Config_field_numbers by auto; reflexivity.
Qed.

Lemma parse_allowed_cases hosts :
  hosts ≠ [] → allowed_nets hosts ≠ [] ∨ allowed_names hosts ≠ [].
Proof.
  destruct hosts as [|h hosts]; [done|]. intros _. unfold allowed_nets, allowed_names. simpl.
  destruct (parse_allowed h); [by left|by right].
Qed.

Lemma SSHAccessConfig_Ok cfg signing out :
  SSHAccessConfig cfg signing = Ok out →
  signing = true ∧ as_string (cfg !! "known_hosts_file") ≠ ""
  ∧ stringSlice (cfg !! "allowed_cidrs") ≠ []
  ∧ out = derived_config (as_string (cfg !! "known_hosts_file"))
            (stringSlice (cfg !! "allowed_cidrs")) (cfg !! "port") (cfg !! "max_output_bytes").
Proof.
  unfold SSHAccessConfig. destruct signing; [|done]. cbn [negb].
  destruct (String.eqb_spec (as_string (cfg !! "known_hosts_file")) ""); [done|].
  destruct (stringSlice (cfg !! "allowed_cidrs")); [done|]. by intros [= <-].
Qed.

(** C33. Shell access is never unrestricted: whenever a discovery datasource's SSH
    sibling comes up, requests are signed, it runs in dynamic mode with a non-empty
    allowlist taken from the discovery scope (the "no allowlist, all hosts" case
    cannot arise), and it verifies host keys against the configured known-hosts file;
    its datasource is the discovery one's with ":ssh" appended. *)
Theorem SSHAccessSibling_restricted `{SshLib} d cfg creds signing entry p :
  SSHAccessSibling d cfg creds signing = Ok (entry, p) →
  signing = true
  ∧ dynamic p = true
  ∧ (allowedNets p ≠ [] ∨ allowedHosts p ≠ [])
  ∧ allowedNets p = allowed_nets (stringSlice (cfg !! "allowed_cidrs"))
  ∧ allowedHosts p = allowed_names (stringSlice (cfg !! "allowed_cidrs"))
  ∧ (∃ cc, sshConfig p = Some cc ∧
      cc_HostKeyCallback cc = KnownHostsFile (as_string (cfg !! "known_hosts_file"))
      ∧ as_string (cfg !! "known_hosts_file") ≠ "")
  ∧ ent_ID entry = ent_ID d +:+ ":ssh" ∧ ent_ProxyType entry = "ssh-proxy".
Proof.
  unfold SSHAccessSibling. intros H1.
  apply bind_Ok in H1 as (out & (-> & Hkh & Hcs & ->)%SSHAccessConfig_Ok & H1). revert H1.
  revert Hkh. set (kh := as_string (cfg !! "known_hosts_file")). intros Hkh.
  set (cidrs := stringSlice (cfg !! "allowed_cidrs")) in *.
  unfold Configure. cbn [closeAllLocked New sftp client pool].
  destruct (marshal_any_map _) as [j|] eqn:Ej; [|done].
  apply marshal_derived in Ej as (jp & jm & ->).
  destruct (dec_struct _ _ _) as [c ok] eqn:Ed. apply decode_derived in Ed.
  unfold scope in Ed. injection Ed as Hhost Hallow Hknown.
  destruct ok; [|done]. cbn [negb].
  destruct (buildAuthMethods creds) as [auth|]; [|done].
  destruct (String.eqb (cred creds "username") ""); [done|].
  unfold hostKeyCallback. cbn [KnownHosts Host AllowedHosts]. rewrite Hknown, Hhost, Hallow.
  rewrite (proj2 (String.eqb_neq kh "") Hkh). cbn [negb String.eqb].
  destruct (knownhosts_New kh) as [u|]; [|done]. cbn.
  intros [= <- <-]. cbn. split_and!; try done.
  - by apply parse_allowed_cases.
  - by eexists.
Qed.

(** Key material that always parses. *)
#[local] Instance lenient_ssh : SshLib := {|
  knownhosts_New _ := Ok tt; ParseAuthorizedKey k := Ok k; ParsePrivateKey k := Ok k;
  ParsePrivateKeyWithPassphrase k _ := Ok k |}.

Definition demo_discovery : gmap string any :=
  list_to_map [("known_hosts_file", AStr "/etc/ssh/known_hosts");
               ("allowed_cidrs", AStrs ["10.0.0.0/8"]); ("port", AInt 2222)].

Definition demo_sibling : result (DatasourceEntry * Proxy) :=
  SSHAccessSibling (MkEntry "net" "discovery" "discovery-proxy" "lan" "local" "") demo_discovery
    (list_to_map [("username", "ops"); ("password", "pw")]) true.

Lemma SSHAccessSibling_restricted_witness :
  match demo_sibling with
  | Ok (entry, p) => allowedNets p ≠ [] ∨ allowedHosts p ≠ []
  | Err _ => False
  end.
Proof.
  destruct demo_sibling as [[entry p]|e] eqn:E; [|by vm_compute in E].
  unfold demo_sibling in E. by apply SSHAccessSibling_restricted in E as (_ & _ & ? & _).
Defined.
