(* ===== verification/When.v ===== *)
(** * Discovery: collector guards and host facts

    The [when] language of content packs (src/pkg/proxy/discovery/when.go) and the
    facts probed from a host that guards are evaluated against (facts.go). *)

From S2P Require Import Prelude GoStrings.

(** ** Guards *)

Record comparison := MkComparison { fact : string; op : string; value : string }.

#[global] Instance comparison_eq_dec : EqDecision comparison.
Proof. solve_decision. Defined.

(** OR terms, each a list of AND terms. *)
Record whenExpr := MkWhen { or_terms : list (list comparison) }.

Definition knownFacts : list string := ["os_family"; "os_id"; "os_major"; "arch"].

Definition quotes : string := String dq "'".

Definition unquote (s : string) : result string :=
  match s, unsnoc s with
  | String first (String _ _ as rest), Some (_, last) =>
      if negb (Contains quotes (str1 first)) || negb (Ascii.eqb first last)
      then Err (errorf "value must be quoted")
      else
        let inner := match unsnoc rest with Some (i, _) => i | None => "" end in
        if ContainsAny inner quotes then Err (errorf "value contains a quote character")
        else Ok inner
  | _, _ => Err (errorf "value must be quoted")
  end.

Definition parseComparison (s : string) : result comparison :=
  let s := TrimSpace s in
  op ← (if Contains s "==" then Ok "=="
        else if Contains s "!=" then Ok "!="
        else Err (errorf ("when expression " +:+ Quote s +:+ ": expected == or !=")));
  match SplitN2 s op with
  | [part0; part1] =>
      let fact := TrimSpace part0 in
      let rawVal := TrimSpace part1 in
      if negb (bool_decide (fact ∈ knownFacts))
      then Err (errorf ("when expression references unknown fact " +:+ Quote fact))
      else
        value ← wrap_err ("when expression " +:+ Quote s +:+ ": ") (unquote rawVal);
        Ok (MkComparison fact op value)
  | _ => Err (errorf "unreachable: the operator occurs in s")
  end.

Definition parseWhen (s : string) : result whenExpr :=
  let s := TrimSpace s in
  if String.eqb s "" then Err (errorf "empty when expression")
  else
    terms ← mapM (λ orPart, mapM parseComparison (Split orPart "&&")) (Split s "||");
    Ok (MkWhen terms).

Definition compare_fact (c : comparison) (got : string) : bool :=
  if String.eqb (op c) "==" then String.eqb got (value c)
  else if String.eqb (op c) "!=" then negb (String.eqb got (value c))
  else false.

(** The inner loop: stops at the first comparison that does not match. *)
Fixpoint eval_and (facts : gmap string string) (ands : list comparison) : result bool :=
  match ands with
  | [] => Ok true
  | c :: ands' =>
      match facts !! fact c with
      | None => Err (errorf ("fact " +:+ Quote (fact c) +:+ " not available for this host"))
      | Some got => if compare_fact c got then eval_and facts ands' else Ok false
      end
  end.

Fixpoint eval_or (facts : gmap string string) (terms : list (list comparison)) : result bool :=
  match terms with
  | [] => Ok false
  | ands :: terms' =>
      all ← eval_and facts ands;
      if (all : bool) then Ok true else eval_or facts terms'
  end.

Definition eval (e : whenExpr) (facts : gmap string string) : result bool :=
  eval_or facts (or_terms e).

(** ** Facts *)

Definition factsProbe : string :=
  "cat /etc/os-release 2>/dev/null; echo " +:+ str1 dq +:+ "---" +:+ str1 dq +:+ "; uname -m".

Definition parseOSRelease (s : string) : gmap string string :=
  foldl (λ kv line,
    let line := TrimSpace line in
    if String.eqb line "" || HasPrefix line "#" then kv
    else
      match Cut line "=" with
      | (key, val, true) => <[TrimSpace key := Trim (TrimSpace val) quotes]> kv
      | _ => kv
      end) ∅ (Split s newline).

Definition osFamilyByID (id : string) : option string :=
  if bool_decide (id ∈ ["rhel"; "centos"; "rocky"; "almalinux"; "ol"; "oracle"; "amzn"; "fedora"])
  then Some "rhel"
  else if bool_decide (id ∈ ["debian"; "ubuntu"; "linuxmint"; "raspbian"]) then Some "debian"
  else if bool_decide (id ∈ ["sles"; "sled"; "opensuse"; "opensuse-leap"; "opensuse-tumbleweed"])
  then Some "suse"
  else if String.eqb id "alpine" then Some "alpine"
  else None.

Fixpoint family_like (l : list string) : string :=
  match l with
  | [] => ""
  | like :: l' =>
      match osFamilyByID like with
      | Some fam => fam
      | None => if HasPrefix like "suse" then "suse" else family_like l'
      end
  end.

Definition osFamily (id idLike : string) : string :=
  match osFamilyByID id with
  | Some fam => fam
  | None => family_like (Fields idLike)
  end.

(** [if v != "" { facts[k] = v }]. *)
Definition set_fact (k v : string) (facts : gmap string string) : gmap string string :=
  if String.eqb v "" then facts else <[k := v]> facts.

Definition parseFacts (probeOutput : string) : gmap string string :=
  let '(osRelease, arch, _) := Cut probeOutput (newline +:+ "---" +:+ newline) in
  let facts := set_fact "arch" (TrimSpace arch) ∅ in
  let kv := parseOSRelease osRelease in
  let id := default "" (kv !! "ID") in
  let facts := set_fact "os_id" id facts in
  let v := default "" (kv !! "VERSION_ID") in
  let facts :=
    if String.eqb v "" then facts else set_fact "os_major" (Cut v ".").1.1 facts in
  set_fact "os_family" (osFamily id (default "" (kv !! "ID_LIKE"))) facts.

Example facts_rocky :
  parseFacts ("ID=" +:+ str1 dq +:+ "rocky" +:+ str1 dq +:+ newline +:+ "VERSION_ID=9.3" +:+ newline
              +:+ "---" +:+ newline +:+ "x86_64" +:+ newline)
  = list_to_map [("arch", "x86_64"); ("os_id", "rocky"); ("os_major", "9"); ("os_family", "rhel")].
Proof. vm_compute. reflexivity. Qed.

Example when_or :
  parseWhen ("os_family == 'rhel' && os_major != '7' || arch=='x'")
  = Ok (MkWhen [[MkComparison "os_family" "==" "rhel"; MkComparison "os_major" "!=" "7"];
                [MkComparison "arch" "==" "x"]]).
Proof. vm_compute. reflexivity. Qed.

(** Without /etc/os-release the output starts with the separator, and the
    architecture is lost. *)
Example facts_no_release : parseFacts ("---" +:+ newline +:+ "x86_64" +:+ newline) = ∅.
Proof. vm_compute. reflexivity. Qed.

(** A guard on a fact that was not probed is decided by the comparison before it. *)
Example eval_short_circuits :
  let e := MkWhen [[MkComparison "os_id" "==" "sles"; MkComparison "arch" "==" "x86_64"];
                   [MkComparison "os_id" "==" "rocky"]] in
  eval e {["os_id" := "rocky"]} = Ok true ∧ eval e {["os_id" := "alpine"]} = Ok false.
Proof. split; vm_compute; reflexivity. Qed.
