(* ===== verification/WhenFacts.v ===== *)
(** * Discovery: the guard language means what it says

    A guard printed in the documented syntax parses back to itself, and the verdict
    of the evaluator is that of the formula it denotes. *)

From S2P Require Import Prelude GoStrings GoJsonFacts When.

(** ** Doubled separators *)

(** The two-character separators of the language: the same character twice. *)
Notation twice c := (String c (String c "")).

Definition free (c : ascii) (s : string) : Prop := Contains s (twice c) = false.

Lemma free_cut c s : free c s ↔ cut s (twice c) = None.
Proof. unfold free, Contains. destruct (cut s (twice c)) as [[]|]; naive_solver. Qed.

Lemma cut_cons x s sep :
  cut (String x s) sep
  = match strip_prefix sep (String x s) with
    | Some r => Some ("", r)
    | None => match cut s sep with Some (a, b) => Some (String x a, b) | None => None end
    end.
Proof. reflexivity. Qed.

Lemma strip_twice c x s :
  strip_prefix (twice c) (String x s)
  = match s with
    | String y r => if (c =?c x) && (c =?c y) then Some r else None
    | "" => None
    end.
Proof. simpl. destruct (c =?c x); destruct s as [|y r]; simpl; by try destruct (c =?c y). Qed.

(** The cut at a separator that follows text free of it. *)
Lemma cut_sep a c m b :
  m ≠ c → free c a → cut (a +:+ String m (twice c +:+ b)) (twice c) = Some (a +:+ str1 m, b).
Proof.
  intros Hm. rewrite free_cut. induction a as [|x a IH]; intros Ha.
  - rewrite !app_cons, !app_nil_l, cut_cons, strip_twice.
    destruct (Ascii.eqb_spec c m); [congruence|]. cbn [andb].
    rewrite cut_cons, strip_twice. by rewrite Ascii.eqb_refl.
  - rewrite cut_cons, strip_twice in Ha. rewrite (app_cons x a), cut_cons, strip_twice.
    destruct a as [|y a].
    + rewrite app_nil_l in *. replace (c =?c m) with false; [|symmetry; apply Ascii.eqb_neq; congruence].
      rewrite andb_false_r. by rewrite IH.
    + rewrite (app_cons y a) in *. destruct ((c =?c x) && (c =?c y)); [done|].
      rewrite IH; [done|].
      by destruct (cut (String y a) (twice c)) as [[]|].
Qed.

Lemma free_cons c m s : m ≠ c → free c s → free c (String m s).
Proof.
  rewrite !free_cut. intros Hm Hs. rewrite cut_cons, strip_twice, Hs.
  destruct s; [done|]. by destruct (Ascii.eqb_spec c m).
Qed.

Lemma free_prefix c p s : all_chars (λ x, negb (x =?c c)) p = true → free c s → free c (p +:+ s).
Proof.
  intros Hp Hs. induction p as [|x p IH]; [done|]. simpl in Hp. bool_to_prop.
  destruct Hp as [Hx Hp]. rewrite app_cons. apply free_cons; [by apply Ascii.eqb_neq|by apply IH].
Qed.

Lemma free_app a c m b : m ≠ c → free c a → free c b → free c (a +:+ String m b).
Proof.
  intros Hm Ha Hb. induction a as [|x a IH]; [by apply free_cons|].
  rewrite app_cons. apply free_cut. rewrite free_cut, cut_cons, strip_twice in Ha.
  rewrite cut_cons, strip_twice. rewrite !free_cut in IH.
  destruct a as [|y a].
  - rewrite app_nil_l in *. replace (c =?c m) with false; [|symmetry; apply Ascii.eqb_neq; congruence].
    rewrite andb_false_r. rewrite IH; done.
  - rewrite app_cons in *. destruct ((c =?c x) && (c =?c y)); [done|].
    rewrite IH; [done|]. by destruct (cut (String y a) (twice c)) as [[]|].
Qed.

(** Text with at most one blank added on each side. *)
Definition blank (s : string) : Prop := s = "" ∨ s = " ".
Definition padded (x p : string) : Prop := ∃ a b, blank a ∧ blank b ∧ x = a +:+ p +:+ b.

Definition sep_pad (c : ascii) : string := " " +:+ twice c +:+ " ".

Lemma free_blank c a p b :
  chr 32 ≠ c → blank a → blank b → free c p → free c (a +:+ p +:+ b).
Proof.
  intros Hc Ha Hb Hp.
  assert (free c (p +:+ b)).
  { destruct Hb as [-> | ->]; [by rewrite app_nil_r|]. by apply (free_app p c (chr 32) ""). }
  destruct Ha as [-> | ->]; [done|]. by apply free_cons.
Qed.

(** Splitting a joined list gives its elements back, padded. *)
Lemma Split_pad c l pre post :
  chr 32 ≠ c → l ≠ [] → Forall (free c) l → blank pre → blank post →
  Forall2 padded (Split (pre +:+ Join l (sep_pad c) +:+ post) (twice c)) l.
Proof.
  intros Hc Hl Hf Hpre Hpost. revert pre Hpre Hl. induction Hf as [|p l Hp Hf IH]; [done|].
  intros pre Hpre _. destruct l as [|q l].
  - simpl Join. rewrite Split_unfold by done.
    rewrite (proj1 (free_cut c _)) by (by apply free_blank).
    constructor; [by exists pre, post|constructor].
  - rewrite Join_cons by done. unfold sep_pad at 1.
    replace (pre +:+ (p +:+ (" " +:+ twice c +:+ " ") +:+ Join (q :: l) (sep_pad c)) +:+ post)
      with ((pre +:+ p) +:+ String (chr 32) (twice c +:+ (" " +:+ Join (q :: l) (sep_pad c) +:+ post)))
      by (rewrite !app_assoc; reflexivity).
    rewrite Split_unfold by done. rewrite cut_sep; [| done |].
    + constructor.
      * exists pre, " ". rewrite app_assoc. split_and!; [done|by right|done].
      * apply IH; [by right|done].
    + rewrite <- (app_nil_r (pre +:+ p)), app_assoc. apply free_blank; [done..|by left|done].
Qed.

(** ** Trimming *)

Definition visible (c : ascii) : bool := (code c <? 128)%Z && negb (is_space (str1 c)).

Lemma drop_while_end_app {A} (P : A → bool) l k :
  forallb P k = true → drop_while_end P (l ++ k) = drop_while_end P l.
Proof.
  intros Hk. unfold drop_while_end. f_equal. rewrite reverse_app.
  assert (Forall (λ x, P x = true) (reverse k)) as Hr.
  { apply Forall_reverse, Forall_forall. intros z Hz. rewrite forallb_forall in Hk.
    apply Hk. by apply list_elem_of_In. }
  induction Hr as [|z k' Hz _ IH]; [done|]. simpl. by rewrite Hz.
Qed.

Lemma drop_while_end_keep {A} (P : A → bool) l x : P x = false → drop_while_end P (l ++ [x]) = l ++ [x].
Proof.
  intros Hx. unfold drop_while_end. rewrite reverse_app. simpl. rewrite Hx.
  change (x :: reverse l) with (reverse [x] ++ reverse l). by rewrite <- reverse_app, reverse_involutive.
Qed.

Lemma TrimSpace_pad a x q y b :
  blank a → blank b → visible x = true → visible y = true → valid_utf8 q = true →
  TrimSpace (a +:+ (String x (q +:+ str1 y)) +:+ b) = String x (q +:+ str1 y).
Proof.
  intros Ha Hb Hx Hy Hq. unfold visible in *. bool_to_prop. destruct Hx as [Hx Sx], Hy as [Hy Sy].
  assert (runes (str1 y +:+ b) = str1 y :: runes b) as Hyb.
  { simpl. by replace (code y <? 128)%Z with true by (symmetry; by apply Z.ltb_lt). }
  assert (runes ((String x (q +:+ str1 y)) +:+ b) = (str1 x :: runes q ++ [str1 y]) ++ runes b) as Hmid.
  { rewrite app_cons, app_assoc. simpl.
    replace (code x <? 128)%Z with true by (symmetry; by apply Z.ltb_lt).
    rewrite runes_app, Hyb by done. simpl. by rewrite <- List.app_assoc. }
  assert (drop_while is_space (runes (a +:+ (String x (q +:+ str1 y)) +:+ b))
          = (str1 x :: runes q ++ [str1 y]) ++ runes b) as Hfront.
  { destruct Ha as [-> | ->]; [rewrite app_nil_l, Hmid; cbn [drop_while app]; by rewrite Sx|].
    change (" " +:+ ?r) with (String (chr 32) r).
    change (runes (String (chr 32) ?r)) with (str1 (chr 32) :: runes r).
    rewrite Hmid. cbn [drop_while app]. change (is_space (str1 (chr 32))) with true. by rewrite Sx. }
  unfold TrimSpace. rewrite Hfront, drop_while_end_app by (by destruct Hb as [-> | ->]).
  rewrite app_comm_cons, drop_while_end_keep by done.
  rewrite concat_str_app, concat_str_cons, concat_runes. by rewrite app_assoc.
Qed.

(** ** Parsing what is printed *)

Definition print_cmp (c : comparison) : string :=
  fact c +:+ " " +:+ op c +:+ " " +:+ str1 dq +:+ value c +:+ str1 dq.
Definition print_and (ands : list comparison) : string :=
  Join (map print_cmp ands) (sep_pad (chr 38)).
Definition print_when (e : whenExpr) : string :=
  Join (map print_and (or_terms e)) (sep_pad (chr 124)).

(** A literal may hold anything but quotes and the separators; a "!=" one no "==". *)
Definition wf_cmp (c : comparison) : bool :=
  bool_decide (fact c ∈ knownFacts) && bool_decide (op c ∈ ["=="; "!="])
  && valid_utf8 (value c) && negb (ContainsAny (value c) quotes)
  && negb (Contains (value c) "||") && negb (Contains (value c) "&&")
  && (String.eqb (op c) "==" || negb (Contains (value c) "==")).

Definition wf_when (e : whenExpr) : bool :=
  negb (bool_decide (or_terms e = []))
  && forallb (λ t, negb (bool_decide (t = [])) && forallb wf_cmp t) (or_terms e).

Lemma unsnoc_snoc s c : unsnoc (s +:+ str1 c) = Some (s, c).
Proof. induction s as [|x s IH]; [done|]. rewrite app_cons. simpl. by rewrite IH. Qed.

Lemma unquote_quoted v :
  ContainsAny v quotes = false → unquote (str1 dq +:+ v +:+ str1 dq) = Ok v.
Proof.
  intros Hv. change (str1 dq +:+ ?r) with (String dq r).
  pose proof (unsnoc_snoc (String dq v) dq) as E. rewrite app_cons in E.
  pose proof (unsnoc_snoc v dq) as E'. unfold unquote.
  rewrite E'. destruct (v +:+ str1 dq) as [|r rest]; [done|]. rewrite E.
  change (negb (Contains quotes (str1 dq)) || negb (dq =?c dq)) with false.
  cbv iota. by rewrite Hv.
Qed.

(** The printed form starts with a letter and ends with the quote. *)
Lemma known_fact_shape f :
  f ∈ knownFacts → ∃ x r, f = String x r ∧ visible x = true ∧ valid_utf8 r = true
    ∧ ∀ c, c ∈ [chr 38; chr 124] → all_chars (λ x, negb (x =?c c)) f = true.
Proof.
  intros Hf. repeat (apply elem_of_cons in Hf as [-> | Hf]; [by
    (eexists _, _; split_and!; [reflexivity|vm_compute; reflexivity|vm_compute; reflexivity|];
     intros c Hc; repeat (apply elem_of_cons in Hc as [-> | Hc]; [vm_compute; reflexivity|]);
     by apply not_elem_of_nil in Hc)|]).
  by apply not_elem_of_nil in Hf.
Qed.

Record printed (c : comparison) : Prop := {
  pr_fact : fact c ∈ knownFacts;
  pr_op : op c = "==" ∨ op c = "!=" ∧ free (chr 61) (value c);
  pr_utf8 : valid_utf8 (value c) = true;
  pr_quotes : ContainsAny (value c) quotes = false;
  pr_or : free (chr 124) (value c);
  pr_and : free (chr 38) (value c);
}.

Lemma wf_cmp_printed c : wf_cmp c = true → printed c.
Proof.
  unfold wf_cmp. bool_to_prop. intros ((((((Hf & Ho) & Hu) & Hq) & H1) & H2) & H3).
  constructor; try done. apply elem_of_cons in Ho as [Ho|Ho]; [by left|].
  apply list_elem_of_singleton in Ho. rewrite Ho in H3. right. split; [done|].
  destruct H3 as [H3|H3]; [by vm_compute in H3|done].
Qed.

(** Text that trimming leaves alone: a letter first, a quote last. *)
Definition shaped (s : string) : Prop :=
  ∃ y q, s = String y (q +:+ str1 dq) ∧ visible y = true ∧ valid_utf8 q = true.

Lemma TrimSpace_shaped x p : shaped p → padded x p → TrimSpace x = p.
Proof. intros (y & q & -> & Hy & Hq) (a & b & Ha & Hb & ->). by apply TrimSpace_pad. Qed.

Lemma shaped_app s m t : valid_utf8 m = true → shaped s → shaped t → shaped (s +:+ m +:+ t).
Proof.
  intros Hm (y & q & -> & Hy & Hq) (y' & q' & -> & Hy' & Hq').
  exists y, (q +:+ str1 dq +:+ m +:+ str1 y' +:+ q'). split_and!; [by rewrite !app_cons, !app_assoc|done|].
  repeat (apply valid_utf8_app; [done|]). apply valid_utf8_app; [|done].
  unfold visible in Hy'. bool_to_prop. apply valid_utf8_ascii. simpl.
  rewrite andb_true_r. apply Z.ltb_lt, Hy'.
Qed.

Lemma shaped_join l c :
  l ≠ [] → Forall shaped l → c ∈ [chr 38; chr 124] → shaped (Join l (sep_pad c)).
Proof.
  intros Hne H Hc. induction H as [|s l Hs Hl IH]; [done|]. destruct l as [|t l]; [done|].
  rewrite Join_cons by done. apply shaped_app; [|done|by apply IH].
  apply elem_of_cons in Hc as [-> |Hc]; [done|by apply list_elem_of_singleton in Hc as ->].
Qed.

Lemma shaped_cmp c : printed c → shaped (print_cmp c).
Proof.
  intros [Hf Ho Hu _ _ _]. destruct (known_fact_shape _ Hf) as (y & r & E & Hy & Hr & _).
  exists y, (r +:+ " " +:+ op c +:+ " " +:+ str1 dq +:+ value c). split_and!; [|done|].
  - unfold print_cmp. rewrite E. by rewrite !app_assoc, app_cons.
  - repeat (apply valid_utf8_app; [first [done | by destruct Ho as [-> | [-> _]]]|]). done.
Qed.

(** Find the operator: after the fact and a blank. *)
Lemma cut_op f o rest :
  f ∈ knownFacts → o = "==" ∨ o = "!=" →
  cut (f +:+ " " +:+ o +:+ rest) o = Some (f +:+ " ", rest).
Proof.
  intros Hf Ho. repeat (apply elem_of_cons in Hf as [-> | Hf];
    [by destruct Ho as [-> | ->]; destruct rest|]). by apply not_elem_of_nil in Hf.
Qed.

Lemma no_eq_eq f v :
  f ∈ knownFacts → free (chr 61) v →
  Contains (f +:+ " " +:+ "!=" +:+ " " +:+ str1 dq +:+ v +:+ str1 dq) "==" = false.
Proof.
  intros Hf Hv. change (free (chr 61) (f +:+ " " +:+ "!=" +:+ " " +:+ str1 dq +:+ v +:+ str1 dq)).
  replace (f +:+ " " +:+ "!=" +:+ " " +:+ str1 dq +:+ v +:+ str1 dq)
    with ((f +:+ " !=") +:+ String (chr 32) (String dq (v +:+ str1 dq))) by (by rewrite app_assoc).
  apply free_app; [done| |].
  - repeat (apply elem_of_cons in Hf as [-> | Hf]; [vm_compute; reflexivity|]).
    by apply not_elem_of_nil in Hf.
  - apply free_cons; [done|]. by apply free_app.
Qed.

Lemma parseComparison_print c x : printed c → padded x (print_cmp c) → parseComparison x = Ok c.
Proof.
  intros Hc Hx. unfold parseComparison. rewrite (TrimSpace_shaped x (print_cmp c)) by (by try apply shaped_cmp).
  destruct Hc as [Hf Ho Hu Hq _ _]. destruct c as [f o v]. cbn [fact op value] in *.
  assert (o = "==" ∨ o = "!=") as Ho' by naive_solver.
  pose proof (cut_op f o (" " +:+ str1 dq +:+ v +:+ str1 dq) Hf Ho') as Hcut.
  change (print_cmp (MkComparison f o v))
    with (f +:+ " " +:+ o +:+ " " +:+ str1 dq +:+ v +:+ str1 dq).
  set (s := f +:+ " " +:+ o +:+ " " +:+ str1 dq +:+ v +:+ str1 dq) in *.
  assert ((if Contains s "==" then Ok "=="
           else if Contains s "!=" then Ok "!=" else
             Err (errorf ("when expression " +:+ Quote s +:+ ": expected == or !="))) = Ok o) as ->.
  { assert (Contains s o = true) as Hin by (unfold Contains; by rewrite Hcut).
    destruct Ho as [-> | [-> Hfree]]; [by rewrite Hin|].
    unfold s at 1. rewrite (no_eq_eq f v Hf Hfree). by rewrite Hin. }
  cbn [mbind result_bind]. unfold SplitN2. rewrite Hcut.
  destruct (known_fact_shape f Hf) as (y & r & E & Hy & Hr & _).
  assert (TrimSpace (f +:+ " ") = f) as ->.
  { clear -Hf. repeat (apply elem_of_cons in Hf as [-> | Hf]; [vm_compute; reflexivity|]).
    by apply not_elem_of_nil in Hf. }
  rewrite bool_decide_true by done. cbn [negb].
  pose proof (TrimSpace_pad " " dq v dq "" (or_intror eq_refl) (or_introl eq_refl) eq_refl eq_refl Hu) as Ht.
  rewrite app_nil_r in Ht. change (str1 dq +:+ ?r) with (String dq r). rewrite Ht.
  change (String dq (v +:+ str1 dq)) with (str1 dq +:+ v +:+ str1 dq). by rewrite unquote_quoted.
Qed.

Lemma free_cmp c x : x ∈ [chr 38; chr 124] → printed c → free x (print_cmp c).
Proof.
  intros Hx [Hf Ho _ _ H1 H2]. destruct (known_fact_shape _ Hf) as (y & r & _ & _ & _ & Hall).
  assert (free x (value c)).
  { apply elem_of_cons in Hx as [-> |Hx]; [done|]. by apply list_elem_of_singleton in Hx as ->. }
  assert (dq ≠ x ∧ chr 32 ≠ x ∧ all_chars (λ z, negb (z =?c x)) (op c) = true) as (Hd & Hs & Hop).
  { destruct Ho as [-> | [-> _]];
      (apply elem_of_cons in Hx as [-> |Hx]; [done|by apply list_elem_of_singleton in Hx as ->]). }
  unfold print_cmp. apply free_prefix; [by apply Hall|]. apply free_cons; [done|].
  apply free_prefix; [done|]. apply free_cons; [done|]. apply free_cons; [done|].
  by apply free_app.
Qed.

Lemma free_and ands : Forall printed ands → free (chr 124) (print_and ands).
Proof.
  intros H. unfold print_and. induction H as [|c l Hc Hl IH]; [done|].
  assert (free (chr 124) (print_cmp c)) by (apply free_cmp; [set_solver|done]).
  destruct l as [|d l]; [done|]. cbn [map]. rewrite Join_cons by done.
  unfold sep_pad at 1. rewrite !app_assoc.
  change (" " +:+ ?r) with (String (chr 32) r) at 1. apply free_app; [done..|].
  repeat (apply free_cons; [done|]). exact IH.
Qed.

Lemma mapM_Forall2 {A B} (f : A → result B) xs ys :
  Forall2 (λ x y, f x = Ok y) xs ys → mapM f xs = Ok ys.
Proof.
  induction 1 as [|x y xs ys H _ IH]; [done|]. simpl. by rewrite H; cbn [mbind result_bind]; rewrite IH.
Qed.

Lemma parse_and_print ands x :
  Forall printed ands → ands ≠ [] → padded x (print_and ands) →
  mapM parseComparison (Split x "&&") = Ok ands.
Proof.
  intros Hp Hne (a & b & Ha & Hb & ->). apply mapM_Forall2.
  assert (Forall2 padded (Split (a +:+ print_and ands +:+ b) (twice (chr 38))) (map print_cmp ands)) as H.
  { apply Split_pad; [done|by destruct ands| |done..].
    apply Forall_map. eapply Forall_impl; [exact Hp|]. intros c Hc. apply free_cmp; [set_solver|done]. }
  change (twice (chr 38)) with "&&" in H. clear Hne. revert H.
  generalize (Split (a +:+ print_and ands +:+ b) "&&"). induction Hp as [|c l Hc _ IH]; intros xs H.
  - apply Forall2_nil_inv_r in H as ->. constructor.
  - apply Forall2_cons_inv_r in H as (y & ys & Hy & Hys & ->).
    constructor; [by apply parseComparison_print|by apply IH].
Qed.

Lemma shaped_and ands : ands ≠ [] → Forall printed ands → shaped (print_and ands).
Proof.
  intros Hne H. apply shaped_join; [by destruct ands| |set_solver].
  apply Forall_map. eapply Forall_impl; [exact H|]. apply shaped_cmp.
Qed.

Lemma wf_when_printed e :
  wf_when e = true →
  or_terms e ≠ [] ∧ Forall (λ t, t ≠ [] ∧ Forall printed t) (or_terms e).
Proof.
  unfold wf_when. bool_to_prop. intros [Hne H]. split; [done|].
  rewrite forallb_forall in H. apply Forall_forall. intros t Ht%list_elem_of_In%H.
  bool_to_prop. destruct Ht as [Ht Hc]. split; [done|]. rewrite forallb_forall in Hc.
  apply Forall_forall. intros c Hin%list_elem_of_In. by apply wf_cmp_printed, Hc.
Qed.

Lemma parse_or_print terms xs :
  Forall (λ t, t ≠ [] ∧ Forall printed t) terms → Forall2 padded xs (map print_and terms) →
  mapM (λ orPart, mapM parseComparison (Split orPart "&&")) xs = Ok terms.
Proof.
  intros Ht Hx. apply mapM_Forall2. revert xs Hx.
  induction Ht as [|t l [Hne Ht] _ IH]; intros xs Hx.
  - apply Forall2_nil_inv_r in Hx as ->. constructor.
  - apply Forall2_cons_inv_r in Hx as (y & ys & Hy & Hys & ->).
    constructor; [by apply parse_and_print|by apply IH].
Qed.

(** C29. The guard language round-trips: a guard over the known facts, written with
    one blank around its operators and its literals in double quotes, is read back
    as exactly the comparisons and the and/or structure it was written from. A
    literal may hold anything but quotes and the two connectives, and in a "!="
    comparison not "==" either, since the parser looks for "==" first. *)
Theorem parseWhen_print e : wf_when e = true → parseWhen (print_when e) = Ok e.
Proof.
  intros [Hne Ht]%wf_when_printed.
  assert (Forall shaped (map print_and (or_terms e))) as Hsh.
  { apply Forall_map. eapply Forall_impl; [exact Ht|]. intros t []. by apply shaped_and. }
  assert (shaped (print_when e)) as Hs.
  { apply shaped_join; [by destruct (or_terms e)|done|set_solver]. }
  unfold parseWhen. rewrite (TrimSpace_shaped (print_when e) (print_when e));
    [|done|exists "", ""; split_and!; [by left|by left|by rewrite app_nil_r]].
  assert (String.eqb (print_when e) "" = false) as ->.
  { destruct Hs as (y & q & -> & _). done. }
  rewrite (parse_or_print (or_terms e)); [by destruct e|done|].
  change "||" with (twice (chr 124)). rewrite <- (app_nil_r (print_when e)), <- (app_nil_l (print_when e +:+ "")).
  apply Split_pad; [done|by destruct (or_terms e)| |by left|by left].
  apply Forall_map. eapply Forall_impl; [exact Ht|]. intros t []. by apply free_and.
Qed.

Definition demo_guard : whenExpr :=
  MkWhen [[MkComparison "os_family" "==" "rhel"; MkComparison "os_major" "!=" "7"];
          [MkComparison "os_id" "==" "a|b = c"]].

Lemma parseWhen_print_witness :
  wf_when demo_guard = true ∧ parseWhen (print_when demo_guard) = Ok demo_guard.
Proof. split; [vm_compute; reflexivity|]. apply parseWhen_print. vm_compute. reflexivity. Defined.

(** ** What a guard means *)

(** A comparison holds of a host when its fact is known and compares. *)
Definition holds (facts : gmap string string) (c : comparison) : bool :=
  match facts !! fact c with Some got => compare_fact c got | None => false end.

Definition satisfied (facts : gmap string string) (e : whenExpr) : bool :=
  existsb (forallb (holds facts)) (or_terms e).

Definition probed (facts : gmap string string) (e : whenExpr) : Prop :=
  Forall (Forall (λ c, is_Some (facts !! fact c))) (or_terms e).

Lemma eval_and_spec facts ands :
  match eval_and facts ands with
  | Ok b => b = forallb (holds facts) ands
  | Err _ => ¬ Forall (λ c, is_Some (facts !! fact c)) ands
  end.
Proof.
  induction ands as [|c ands IH]; [done|]. simpl. unfold holds at 1.
  destruct (facts !! fact c) as [got|] eqn:E.
  - destruct (compare_fact c got); [|done]. destruct (eval_and facts ands); [done|].
    by intros [_ H]%Forall_cons.
  - intros [[? H] _]%Forall_cons. congruence.
Qed.

(** An answer is the guard's meaning; only a missing fact stops the evaluation. *)
Lemma eval_spec facts e :
  match eval e facts with
  | Ok b => b = satisfied facts e
  | Err _ => ¬ probed facts e
  end.
Proof.
  unfold eval, satisfied, probed. induction (or_terms e) as [|t l IH]; [done|]. simpl.
  pose proof (eval_and_spec facts t) as Ht. destruct (eval_and facts t) as [b|err]; simpl.
  - rewrite <- Ht. destruct b; [done|]. destruct (eval_or facts l); [done|].
    by intros [_ H]%Forall_cons.
  - by intros [H _]%Forall_cons.
Qed.
