(* ===== verification/Pack.v ===== *)
(** * Discovery: signed content packs

    src/pkg/proxy/discovery/pack.go: parsing and verifying a pack, and choosing the
    collectors of a host; and the signing half of src/cmd/pack.go. The YAML parser
    is a parameter. *)

From S2P Require Import Prelude GoStrings GoBase64 Signing When.

Record Collector := MkCollector {
  ID : string;
  When : string;
  Cmd : string;
  expr : option whenExpr;     (* cached by validate *)
}.

Record Pack := MkPack {
  Version : Z;
  Kind : string;
  Collectors : list Collector;
  PackSignature : string;
}.

Record SkippedCollector := MkSkipped { SkippedID : string; Reason : string }.

Definition KindInventory : string := "inventory".
Definition maxPackBytes : Z := 1048576.

(** gopkg.in/yaml.v3, reading a pack. *)
Class Yaml := { yaml_Unmarshal : string → result Pack }.

(** ** The signed bytes *)

Definition cr : string := str1 (chr 13).
Definition tab : ascii := chr 9.

Fixpoint skip_blanks (s : string) : string :=
  match s with
  | String c s' => if (c =?c chr 32) || (c =?c tab) then skip_blanks s' else s
  | "" => ""
  end.

(** [^signature[ \t]*:] *)
Definition signatureLine (line : string) : bool :=
  match strip_prefix "signature" line with
  | Some rest => HasPrefix (skip_blanks rest) ":"
  | None => false
  end.

Definition normalize_newlines (raw : string) : string :=
  ReplaceAll (ReplaceAll raw (cr +:+ newline) newline) cr newline.

Definition splitSignatureLine (raw : string) : string * nat :=
  let lines := Split (normalize_newlines raw) newline in
  let kept := List.filter (λ line, negb (signatureLine line)) lines in
  (TrimRight (Join kept newline) (" " +:+ str1 tab +:+ newline),
   length (List.filter signatureLine lines)).

Definition SignedBytes (raw : string) : string := (splitSignatureLine raw).1.
Definition countSignatureLines (raw : string) : nat := (splitSignatureLine raw).2.

(** ** Validation *)

(** The loop over the collectors: [i] is the index, [seen] the ids so far. *)
Fixpoint validate_collectors (i : nat) (seen : gset string) (l : list Collector)
  : result (list Collector) :=
  match l with
  | [] => Ok []
  | c :: l' =>
      if String.eqb (ID c) "" then Err (errorf ("collector " +:+ Itoa (Z.of_nat i) +:+ " has no id"))
      else if bool_decide (ID c ∈ seen) then Err (errorf ("duplicate collector id " +:+ Quote (ID c)))
      else if String.eqb (TrimSpace (Cmd c)) ""
      then Err (errorf ("collector " +:+ Quote (ID c) +:+ " has no cmd"))
      else
        c' ← (if String.eqb (When c) "" then Ok c
              else e ← wrap_err ("collector " +:+ Quote (ID c) +:+ ": ") (parseWhen (When c));
                   Ok (MkCollector (ID c) (When c) (Cmd c) (Some e)));
        l'' ← validate_collectors (S i) ({[ID c]} ∪ seen) l';
        Ok (c' :: l'')
  end.

Definition validate (p : Pack) : result Pack :=
  if (Version p <=? 0)%Z
  then Err (errorf ("pack version must be positive, got " +:+ Itoa (Version p)))
  else if negb (String.eqb (Kind p) KindInventory)
  then Err (errorf ("unsupported pack kind " +:+ Quote (Kind p) +:+ " (this build runs "
                    +:+ Quote KindInventory +:+ " packs only)"))
  else if bool_decide (Collectors p = []) then Err (errorf "pack has no collectors")
  else
    l ← validate_collectors 0 ∅ (Collectors p);
    Ok (MkPack (Version p) (Kind p) l (PackSignature p)).

(** ** Verification *)

Section verify_pack.
Context `{Ed25519, Yaml}.

Definition ParseAndVerify (raw pubKey : string) : result Pack :=
  let len := Z.of_nat (String.length raw) in
  _ ← fail_if (len =? 0)%Z (errorf "empty pack");
  _ ← fail_if (maxPackBytes <? len)%Z
        (errorf ("pack too large: " +:+ Itoa len +:+ " bytes (max " +:+ Itoa maxPackBytes +:+ ")"));
  let '(signedBody, n) := splitSignatureLine raw in
  _ ← fail_if (negb (n =? 1)%nat)
        (errorf ("pack must contain exactly one top-level signature line, found "
                 +:+ Itoa (Z.of_nat n)));
  p ← wrap_err "parsing pack: " (yaml_Unmarshal raw);
  _ ← fail_if (negb (String.length pubKey =? PublicKeySize)%nat)
        (errorf "pack verification requires an Ed25519 public key");
  _ ← fail_if (String.eqb (PackSignature p) "") (errorf "pack is unsigned");
  match DecodeString (PackSignature p) with
  | None => Err (wrapf "pack signature is not valid base64: " base64_error)
  | Some sig =>
      if negb (ed_verify pubKey signedBody sig)
      then Err (errorf "pack signature verification failed")
      else validate p
  end.

(** The document [pack sign] writes for a pack. *)
Definition cmdPackSign (priv raw : string) : string :=
  let body := SignedBytes raw in
  body +:+ newline +:+ "signature: " +:+ EncodeToString (ed_sign priv body) +:+ newline.
End verify_pack.

(** ** Selection *)

(** What the loop of Select does with one collector. *)
Inductive verdict := Run | Skip (reason : string) | NoMatch.

Definition select_one (facts : gmap string string) (c : Collector) : verdict :=
  if String.eqb (When c) "" then Run
  else
    match (match expr c with Some e => Ok e | None => parseWhen (When c) end) with
    | Err e => Skip (err_msg e)
    | Ok e =>
        match eval e facts with
        | Err e => Skip (err_msg e)
        | Ok true => Run
        | Ok false => NoMatch
        end
    end.

Definition Select (p : Pack) (facts : gmap string string)
  : list Collector * list SkippedCollector :=
  foldl (λ '(run, skipped) c,
    match select_one facts c with
    | Run => (run ++ [c], skipped)
    | Skip reason => (run, skipped ++ [MkSkipped (ID c) reason])
    | NoMatch => (run, skipped)
    end) ([], []) (Collectors p).
