(* ===== verification/PackFacts.v ===== *)
(** * Discovery: what a pack's signature covers

    Lines and newline normalisation, signing and verifying a pack document, and the
    collectors a verified pack runs on a host. *)

From S2P Require Import Prelude GoStrings GoJsonFacts GoBase64 Signing SigningFacts.
From S2P Require Import SigningTheorems When WhenFacts Pack.

(** ** Splitting at one character *)

Fixpoint split_char (c : ascii) (s : string) : list string :=
  match s with
  | "" => [""]
  | String x s' =>
      if x =?c c then "" :: split_char c s'
      else match split_char c s' with
           | h :: t => String x h :: t
           | [] => [String x ""]
           end
  end.

Lemma split_char_not_nil c s : split_char c s ≠ [].
Proof. destruct s; simpl; [done|]. by repeat case_match. Qed.

Lemma Split_char c s : Split s (str1 c) = split_char c s.
Proof.
  remember (String.length s) as n eqn:Hn. revert s Hn.
  induction (lt_wf n) as [n _ IH]. intros s ->. rewrite Split_unfold by done.
  destruct s as [|x s]; [done|]. cbn [cut]. unfold str1 at 1. cbn [strip_prefix split_char].
  rewrite (Ascii.eqb_sym c x). destruct (x =?c c).
  - f_equal. apply (IH (String.length s)); simpl; [lia|done].
  - pose proof (IH (String.length s) ltac:(simpl; lia) s eq_refl) as E.
    rewrite Split_unfold in E by done. destruct (cut s (str1 c)) as [[a b]|]; by rewrite <- E.
Qed.

(** Appending extends the last line, and then adds lines. *)
Lemma split_char_app c a :
  ∃ init last, split_char c a = init ++ [last] ∧
    ∀ w hd tl, split_char c w = hd :: tl →
      split_char c (a +:+ w) = init ++ (last +:+ hd) :: tl.
Proof.
  induction a as [|x a (init & last & E & IH)]; [by exists [], ""|].
  simpl. destruct (x =?c c) eqn:Ex.
  - exists ("" :: init), last. split; [by rewrite E|]. intros w hd tl Hw.
    by rewrite (IH _ _ _ Hw).
  - destruct init as [|i init].
    + exists [], (String x last). split; [by rewrite E|]. intros w hd tl Hw.
      by rewrite (IH _ _ _ Hw).
    + exists (String x i :: init), last. split; [by rewrite E|]. intros w hd tl Hw.
      by rewrite (IH _ _ _ Hw).
Qed.

Lemma split_char_sep c a b :
  split_char c (a +:+ String c b) = split_char c a ++ split_char c b.
Proof.
  destruct (split_char_app c a) as (init & last & E & H).
  rewrite (H (String c b) "" (split_char c b)); [|simpl; by rewrite Ascii.eqb_refl].
  by rewrite E, app_nil_r, <- List.app_assoc.
Qed.

Lemma split_char_lacks c s : lacks c s → split_char c s = [s].
Proof.
  induction s as [|x s IH]; [done|]. unfold lacks in *. simpl. intros [Hx Hs]%andb_true_iff.
  apply negb_true_iff in Hx. by rewrite Hx, IH.
Qed.

Lemma Join_lacks c l sep : Forall (lacks c) l → lacks c sep → lacks c (Join l sep).
Proof.
  intros Hl Hs. induction Hl as [|x l Hx Hl IH]; [done|]. destruct l as [|y l]; [done|].
  rewrite Join_cons by done. by rewrite !lacks_app.
Qed.

Lemma split_pieces_lack c s d : lacks d s ∨ d = c → Forall (lacks d) (split_char c s).
Proof.
  induction s as [|x s IH]; intros Hd; [by repeat constructor|]. simpl.
  assert (lacks d s ∨ d = c) as Hd'.
  { destruct Hd as [Hd|Hd]; [|by right]. left. by apply andb_true_iff in Hd as [_ Hd]. }
  destruct (Ascii.eqb_spec x c) as [->|Hx]; [constructor; [done|by apply IH]|].
  specialize (IH Hd').
  assert (negb (x =?c d) = true) as Hxd.
  { destruct Hd as [Hd| ->]; [by apply andb_true_iff in Hd as [Hd _]|].
    apply negb_true_iff. by apply Ascii.eqb_neq. }
  destruct (split_char c s) as [|h t]; constructor.
  - unfold lacks. simpl. by rewrite Hxd.
  - done.
  - apply Forall_cons in IH as [Hh _]. unfold lacks in *. simpl. by rewrite Hxd.
  - by apply Forall_cons in IH as [_ Ht].
Qed.

(** ** Newlines *)

(** After normalisation no carriage return is left. *)
Lemma normalize_lacks_cr raw : lacks (chr 13) (normalize_newlines raw).
Proof.
  change (normalize_newlines raw)
    with (Join (Split (ReplaceAll raw (cr +:+ newline) newline) (str1 (chr 13))) newline).
  rewrite Split_char.
  apply Join_lacks; [|done]. apply split_pieces_lack. by right.
Qed.

Lemma normalize_id s : lacks (chr 13) s → normalize_newlines s = s.
Proof.
  intros Hs. unfold normalize_newlines, ReplaceAll.
  assert (cut s (cr +:+ newline) = None) as Hc.
  { destruct (cut s (cr +:+ newline)) as [[a b]|] eqn:E; [|done]. apply cut_Some in E as ->.
    apply lacks_app in Hs as [_ Hs]. by apply lacks_app in Hs as [[=] _]. }
  rewrite (Split_unfold s) by done. rewrite Hc. cbn [Join].
  unfold cr. rewrite Split_char, split_char_lacks by done. done.
Qed.

(** ** Signature lines *)

Lemma skip_blanks_prefix s t : HasPrefix (skip_blanks s) ":" = true →
  HasPrefix (skip_blanks (s +:+ t)) ":" = true.
Proof.
  induction s as [|c s IH]; [done|]. rewrite app_cons. cbn [skip_blanks].
  destruct ((c =?c chr 32) || (c =?c tab)); [done|]. rewrite !HasPrefix_true.
  intros (r & [= -> ->]). by exists (r +:+ t).
Qed.

Lemma strip_prefix_app p s r t : strip_prefix p s = Some r → strip_prefix p (s +:+ t) = Some (r +:+ t).
Proof. rewrite !strip_prefix_Some. intros ->. by rewrite app_assoc. Qed.

Lemma signatureLine_prefix x z : signatureLine x = true → signatureLine (x +:+ z) = true.
Proof.
  unfold signatureLine. destruct (strip_prefix "signature" x) as [r|] eqn:E; [|done].
  rewrite (strip_prefix_app _ _ _ z E). apply skip_blanks_prefix.
Qed.

Definition unsigned_lines (s : string) : Prop :=
  Forall (λ l, signatureLine l = false) (split_char (chr 10) s).

(** Dropping the end of a document makes no new signature line. *)
Lemma unsigned_prefix a w : unsigned_lines (a +:+ w) → unsigned_lines a.
Proof.
  unfold unsigned_lines. destruct (split_char_app (chr 10) a) as (init & last & E & H).
  destruct (split_char (chr 10) w) as [|hd tl] eqn:Ew; [by apply split_char_not_nil in Ew|].
  rewrite (H _ _ _ Ew), E, !Forall_app, Forall_cons. intros [Hi [Hl _]].
  split; [done|]. constructor; [|done].
  destruct (signatureLine last) eqn:Es; [|done]. by rewrite (signatureLine_prefix _ hd Es) in Hl.
Qed.

Lemma split_join_lines l :
  l ≠ [] → Forall (lacks (chr 10)) l → split_char (chr 10) (Join l newline) = l.
Proof.
  intros Hne Hl. induction Hl as [|x l Hx Hl IH]; [done|]. destruct l as [|y l].
  - by apply split_char_lacks.
  - rewrite Join_cons by done. change (newline +:+ ?r) with (String (chr 10) r).
    rewrite split_char_sep, split_char_lacks, IH by done. done.
Qed.

Definition trailing : string := " " +:+ str1 tab +:+ newline.

(** What is signed holds no signature line and no carriage return, and signing it
    again would sign the same. *)
Lemma SignedBytes_clean raw :
  unsigned_lines (SignedBytes raw) ∧ lacks (chr 13) (SignedBytes raw)
  ∧ TrimRight (SignedBytes raw) trailing = SignedBytes raw.
Proof.
  unfold SignedBytes, splitSignatureLine. cbn [fst].
  change (Split (normalize_newlines raw) newline)
    with (Split (normalize_newlines raw) (str1 (chr 10))). rewrite Split_char.
  set (lines := split_char (chr 10) (normalize_newlines raw)).
  set (kept := List.filter (λ line, negb (signatureLine line)) lines).
  destruct (trim_right_spec (λ c, Contains trailing (str1 c)) (Join kept newline)) as (w & E & _).
  change (trim_right _ _) with (TrimRight (Join kept newline) trailing) in E.
  change (" " +:+ str1 tab +:+ newline) with trailing.
  split_and!.
  - apply (unsigned_prefix _ w). rewrite <- E. unfold unsigned_lines.
    destruct (decide (kept = [])) as [-> |Hk]; [by repeat constructor|].
    rewrite split_join_lines; [|done|].
    + apply Forall_forall. intros x [_ Hx%negb_true_iff]%list_elem_of_In%filter_In. done.
    + apply Forall_forall. intros x [Hx _]%list_elem_of_In%filter_In.
      apply list_elem_of_In in Hx. revert x Hx. apply Forall_forall, split_pieces_lack. by right.
  - assert (lacks (chr 13) (Join kept newline)) as H.
    { apply Join_lacks; [|done]. apply Forall_forall. intros x [Hx _]%list_elem_of_In%filter_In.
      apply list_elem_of_In in Hx. revert x Hx. apply Forall_forall, split_pieces_lack.
      left. apply normalize_lacks_cr. }
    rewrite E in H. by apply lacks_app in H as [H _].
  - apply trim_right_idem.
Qed.

Lemma EncodeToString_lacks c s : c ∈ [chr 10; chr 13] → lacks c (EncodeToString s).
Proof.
  intros Hc. apply (all_chars_impl b64_visible); [|apply EncodeToString_visible].
  intros x. unfold b64_visible, in_range. bool_to_prop. intros Hx. apply Ascii.eqb_neq.
  intros ->. apply elem_of_cons in Hc as [-> |Hc]; [by destruct Hx|].
  apply list_elem_of_singleton in Hc as ->. by destruct Hx.
Qed.

Lemma Join_snoc_empty l : l ≠ [] → Join (l ++ [""]) newline = Join l newline +:+ newline.
Proof.
  induction l as [|x l IH]; [done|]. intros _. destruct l as [|y l]; [done|].
  rewrite <- app_comm_cons, !Join_cons, IH by (done || by destruct l). by rewrite !app_assoc.
Qed.

(** Signing leaves the signed bytes as they are and adds one signature line. *)
Lemma split_signed `{Ed25519} priv raw :
  splitSignatureLine (cmdPackSign priv raw) = (SignedBytes raw, 1).
Proof.
  destruct (SignedBytes_clean raw) as (Hu & Hcr & Ht). unfold cmdPackSign.
  set (b64 := EncodeToString (ed_sign priv (SignedBytes raw))).
  assert (∀ c, c ∈ [chr 10; chr 13] → lacks c b64) as Hb by (intros; by apply EncodeToString_lacks).
  set (body := SignedBytes raw) in *. set (sigline := "signature: " +:+ b64).
  replace (body +:+ newline +:+ "signature: " +:+ b64 +:+ newline)
    with (body +:+ String (chr 10) (sigline +:+ String (chr 10) ""))
    by (unfold sigline; by rewrite !app_assoc).
  assert (lacks (chr 10) sigline ∧ lacks (chr 13) sigline) as [Hs10 Hs13].
  { split; apply lacks_app; (split; [done|]); apply Hb; set_solver. }
  assert (signatureLine sigline = true) as Hs by reflexivity.
  unfold splitSignatureLine. rewrite normalize_id.
  2: { apply lacks_app. split; [done|]. apply (lacks_app _ (str1 (chr 10))). split; [done|].
       by apply lacks_app. }
  change newline with (str1 (chr 10)) at 1 4. rewrite Split_char, !split_char_sep, (split_char_lacks _ sigline) by done.
  rewrite !List.filter_app. cbn [List.filter split_char signatureLine strip_prefix]. rewrite Hs. cbn [negb].
  rewrite (filter_all _ (split_char (chr 10) body)), (filter_none _ (split_char (chr 10) body)).
  2: { done. }
  2: { eapply Forall_impl; [exact Hu|]. simpl. intros x ->. done. }
  cbn [app length]. rewrite Join_snoc_empty by apply split_char_not_nil.
  replace (Join (split_char (chr 10) body) newline) with body
    by (symmetry; rewrite <- Split_char; by apply Join_Split).
  f_equal. change (" " +:+ str1 tab +:+ newline) with trailing. rewrite <- Ht at 2. by apply trim_right_app.
Qed.

(** ** Validated packs *)

Record validated (c : Collector) : Prop := {
  vc_id : ID c ≠ "";
  vc_cmd : TrimSpace (Cmd c) ≠ "";
  vc_expr : When c ≠ "" → ∃ e, expr c = Some e ∧ parseWhen (When c) = Ok e;
}.

Lemma validate_collectors_spec i seen l l' :
  validate_collectors i seen l = Ok l' →
  Forall validated l' ∧ NoDup (map ID l') ∧ Forall (λ c, ID c ∉ seen) l'
  ∧ map Cmd l' = map Cmd l ∧ map ID l' = map ID l.
Proof.
  revert i seen l'. induction l as [|c l IH]; intros i seen l' H; simpl in H.
  { injection H as <-. split_and!; constructor. }
  destruct (String.eqb_spec (ID c) ""); [done|]. case_bool_decide; [done|].
  destruct (String.eqb_spec (TrimSpace (Cmd c)) ""); [done|].
  apply bind_Ok in H as (c' & Hc & H). apply bind_Ok in H as (l'' & Hl & [= <-]).
  apply IH in Hl as (Hv & Hnd & Hs & Hcmd & Hid).
  assert (ID c' = ID c ∧ Cmd c' = Cmd c ∧ validated c') as (Eid & Ecmd & Hvc).
  { destruct (String.eqb_spec (When c) "").
    - injection Hc as <-. split_and!; [done..|]. by constructor.
    - apply bind_Ok in Hc as (e & He%wrap_err_Ok & [= <-]). split_and!; [done..|].
      constructor; simpl; [done..|]. eauto. }
  split_and!.
  - by constructor.
  - simpl. rewrite Eid. constructor; [|done]. rewrite list_elem_of_fmap. intros (d & E & Hd).
    rewrite Forall_forall in Hs. apply Hs in Hd. set_solver.
  - constructor; [by rewrite Eid|]. eapply Forall_impl; [exact Hs|]. set_solver.
  - simpl. by rewrite Ecmd, Hcmd.
  - simpl. by rewrite Eid, Hid.
Qed.

Lemma validate_spec p0 p :
  validate p0 = Ok p →
  Forall validated (Collectors p) ∧ NoDup (map ID (Collectors p))
  ∧ map Cmd (Collectors p) = map Cmd (Collectors p0) ∧ Version p = Version p0
  ∧ (0 < Version p)%Z ∧ Collectors p ≠ [].
Proof.
  unfold validate. destruct (Z.leb_spec (Version p0) 0); [done|]. case_match; [done|].
  case_bool_decide as Hne; [done|]. intros (l & Hl & [= <-])%bind_Ok.
  apply validate_collectors_spec in Hl as (Hv & Hnd & _ & Hcmd & Hid). simpl.
  split_and!; try done. intros ->. by destruct (Collectors p0).
Qed.

(** ** Selection *)

Definition is_run (v : verdict) : bool := match v with Run => true | _ => false end.
Definition skip_of (facts : gmap string string) (c : Collector) : option SkippedCollector :=
  match select_one facts c with Skip r => Some (MkSkipped (ID c) r) | _ => None end.

Lemma Select_eq p facts :
  Select p facts = (List.filter (λ c, is_run (select_one facts c)) (Collectors p),
                    list_omap _ _ (skip_of facts) (Collectors p)).
Proof.
  unfold Select.
  assert (∀ l run skipped,
    foldl (λ '(run, skipped) c,
      match select_one facts c with
      | Run => (run ++ [c], skipped)
      | Skip reason => (run, skipped ++ [MkSkipped (ID c) reason])
      | NoMatch => (run, skipped)
      end) (run, skipped) l
    = (run ++ List.filter (λ c, is_run (select_one facts c)) l,
       skipped ++ list_omap _ _ (skip_of facts) l)) as H.
  { induction l as [|c l IH]; intros run skipped; simpl; [by rewrite !List.app_nil_r|].
    unfold skip_of at 1. destruct (select_one facts c); simpl; rewrite IH, <- ?List.app_assoc; done. }
  apply H.
Qed.

(** The verdict on a validated collector, by what its guard means. *)
Lemma select_one_spec facts c :
  validated c →
  match select_one facts c with
  | Run => When c = "" ∨ ∃ e, parseWhen (When c) = Ok e ∧ satisfied facts e = true
  | NoMatch => ∃ e, parseWhen (When c) = Ok e ∧ satisfied facts e = false
  | Skip _ => ∃ e, parseWhen (When c) = Ok e ∧ ¬ probed facts e
  end.
Proof.
  intros [_ _ He]. unfold select_one. destruct (String.eqb_spec (When c) "") as [Hw|Hw]; [by left|].
  destruct (He Hw) as (e & -> & Hp). pose proof (eval_spec facts e) as Hs.
  destruct (eval e facts) as [[]|err]; [right|..]; exists e; naive_solver.
Qed.

(** ** Theorems *)

#[local] Existing Instance toy.
#[local] Existing Instance toy_laws.

(** C27. Signing and verifying agree on what is signed. Whatever line endings,
    trailing blanks or old signature lines a document has, [pack sign] writes one
    with exactly one signature line whose signed bytes are those of the input, so
    signing again signs the same bytes, and [ParseAndVerify] under the signer's
    public key never fails on the signature: once the document is read with the
    signature that was written, its result is that of the content checks. *)
Theorem ParseAndVerify_cmdPackSign `{E : Ed25519} `{!Ed25519Laws} `{Y : Yaml} priv raw p :
  (Z.of_nat (String.length (cmdPackSign priv raw)) ≤ maxPackBytes)%Z →
  String.length (ed_public priv) = PublicKeySize →
  yaml_Unmarshal (cmdPackSign priv raw) = Ok p →
  PackSignature p = EncodeToString (ed_sign priv (SignedBytes raw)) →
  SignedBytes (cmdPackSign priv raw) = SignedBytes raw
  ∧ countSignatureLines (cmdPackSign priv raw) = 1
  ∧ ParseAndVerify (cmdPackSign priv raw) (ed_public priv) = validate p.
Proof.
  intros Hlen Hkey Hyaml Hsig. pose proof (split_signed priv raw) as Hsplit.
  unfold SignedBytes at 1, countSignatureLines. rewrite Hsplit. split_and!; [done..|].
  unfold ParseAndVerify. rewrite Hsplit, Hyaml, Hkey.
  replace (Z.of_nat (String.length (cmdPackSign priv raw)) =? 0)%Z with false
    by (symmetry; apply Z.eqb_neq; unfold cmdPackSign; rewrite !length_app_str; simpl; lia).
  replace (maxPackBytes <? Z.of_nat (String.length (cmdPackSign priv raw)))%Z with false
    by (symmetry; by apply Z.ltb_ge).
  cbn [fail_if mbind result_bind wrap_err negb Nat.eqb PublicKeySize].
  rewrite Hsig, DecodeString_EncodeToString, ed_verify_sign. cbn [negb].
  destruct (String.eqb_spec (EncodeToString (ed_sign priv (SignedBytes raw))) "") as [Hz|]; [|done].
  apply EncodeToString_nonempty in Hz; [done|]. intros Hn.
  pose proof (ed_sign_size priv (SignedBytes raw)) as Hs. by rewrite Hn in Hs.
Qed.

(** A document and a reader of it. *)
Definition demo_pack_raw : string :=
  "version: 3" +:+ cr +:+ newline +:+ "signature : old" +:+ newline +:+ "kind: inventory"
  +:+ newline +:+ " " +:+ newline.
Definition demo_priv : string := pad_to 32 "k".
Definition demo_collectors : list Collector :=
  [MkCollector "uname" "" "uname -a" None; MkCollector "rpm" "os_family == 'rhel'" "rpm -qa" None].
Definition demo_pack (sig : string) : Pack := MkPack 3 KindInventory demo_collectors sig.
#[local] Instance demo_yaml : Yaml := {|
  yaml_Unmarshal raw :=
    match Cut raw (newline +:+ "signature: ") with
    | (_, sig, true) => Ok (demo_pack (TrimSpace sig))
    | _ => Err (errorf "yaml")
    end
|}.
Definition demo_signed_pack : string := cmdPackSign demo_priv demo_pack_raw.
Definition demo_pack_sig : string := EncodeToString (ed_sign demo_priv (SignedBytes demo_pack_raw)).

Lemma ParseAndVerify_cmdPackSign_witness :
  SignedBytes demo_signed_pack = SignedBytes demo_pack_raw
  ∧ countSignatureLines demo_signed_pack = 1
  ∧ ParseAndVerify demo_signed_pack (ed_public demo_priv) = validate (demo_pack demo_pack_sig).
Proof.
  apply (ParseAndVerify_cmdPackSign demo_priv demo_pack_raw (demo_pack demo_pack_sig)).
  - apply Z.leb_le. vm_compute. reflexivity.
  - reflexivity.
  - vm_compute. reflexivity.
  - reflexivity.
Defined.

(** C28. A verified pack runs on a host exactly what its guards say. The collectors
    that run come in pack order and have distinct ids; every collector of the pack
    either runs, and then it has no guard or a guard the host's facts satisfy; or is
    left out, and then the facts refute its guard; or is reported as skipped, and
    then its guard names a fact that was not probed. *)
Theorem Select_sound p0 p facts run skipped :
  validate p0 = Ok p → Select p facts = (run, skipped) →
  run `sublist_of` Collectors p ∧ NoDup (map ID (Collectors p))
  ∧ ∀ c, c ∈ Collectors p →
      (c ∈ run ∧ ID c ∉ map SkippedID skipped
       ∧ (When c = "" ∨ ∃ e, parseWhen (When c) = Ok e ∧ satisfied facts e = true))
      ∨ (c ∉ run ∧ ID c ∉ map SkippedID skipped
         ∧ ∃ e, parseWhen (When c) = Ok e ∧ satisfied facts e = false)
      ∨ (c ∉ run ∧ ID c ∈ map SkippedID skipped
         ∧ ∃ e, parseWhen (When c) = Ok e ∧ ¬ probed facts e).
Proof.
  intros (Hv & Hnd & _)%validate_spec Hsel. rewrite Select_eq in Hsel. injection Hsel as <- <-.
  assert (∀ c, c ∈ Collectors p →
    (c ∈ List.filter (λ c, is_run (select_one facts c)) (Collectors p)
     ↔ is_run (select_one facts c) = true)) as Hrun.
  { intros c Hc. rewrite list_elem_of_In, filter_In, <- list_elem_of_In. naive_solver. }
  assert (∀ c, c ∈ Collectors p →
    (ID c ∈ map SkippedID (list_omap _ _ (skip_of facts) (Collectors p))
     ↔ is_Some (skip_of facts c))) as Hskip.
  { intros c Hc. rewrite list_elem_of_fmap. setoid_rewrite list_elem_of_omap. split.
    - intros (s & E & d & Hd & Hs). replace c with d; [by eexists|].
      assert (ID d = ID c) by (unfold skip_of in Hs; case_match; by simplify_eq/=).
      by apply (NoDup_map_inj ID (Collectors p)).
    - intros [s Hs]. exists s. split; [unfold skip_of in Hs; case_match; by simplify_eq/=|eauto]. }
  split_and!; [by apply filter_sublist|done|]. intros c Hc. rewrite Hrun, Hskip by done.
  rewrite Forall_forall in Hv. pose proof (select_one_spec facts c (Hv c Hc)) as Hone.
  unfold skip_of. destruct (select_one facts c); simpl.
  - left. split_and!; [done| |done]. by intros [].
  - right; right. split_and!; [done|by eexists|done].
  - right; left. split_and!; [done| |done]. by intros [].
Qed.

(** A host that runs Rocky Linux. *)
Definition demo_facts : gmap string string := {["os_family" := "rhel"]}.

Lemma Select_sound_witness :
  ∃ p run skipped, validate (demo_pack "sig") = Ok p ∧ Select p demo_facts = (run, skipped)
    ∧ run `sublist_of` Collectors p ∧ map ID run = ["uname"; "rpm"].
Proof.
  eexists _, _, _. split; [vm_compute; reflexivity|]. split; [vm_compute; reflexivity|].
  split; [|vm_compute; reflexivity].
  refine (proj1 (Select_sound (demo_pack "sig") _ demo_facts _ _ _ _)); vm_compute; reflexivity.
Defined.
