(* ===== verification/Sweep.v ===== *)
(** * Discovery: network sweeps

    src/pkg/proxy/discovery/sweep.go and arp_linux.go. What the network answers is
    the environment: which ports accept a connection, the neighbour cache, reverse
    DNS, and which addresses were done when the context ended. *)

From S2P Require Import Prelude GoStrings GoJson GoAny GoTime NetIP NetPrefix.
#[local] Open Scope Z_scope.

Definition defaultRatePPS : Z := 100.
Definition maxRatePPS : Z := 1000.
Definition defaultProbeTimeoutMs : Z := 1000.
Definition defaultSweepWorkers : Z := 64.
Definition maxSweepWorkers : Z := 512.
Definition maxSweepAddresses : Z := 65536.

Record SweepHost := MkSweepHost {
  HostIP : string;
  MAC : string;
  RDNS : string;
  OpenPorts : list Z;
  Sources : list string;
  CloudIdentity : string;
}.

Record SweepResult := MkSweepResult {
  CIDRs : list string;
  Scanned : Z;
  RatePPS : Z;
  Excluded : Z;
  Hosts : list SweepHost;
}.

Record sweepConfig := MkSweepConfig {
  cidrs : list Prefix;
  exclusions : list Prefix;
  ports : list Z;
  ratePPS : Z;
  probeTimeout : Z;
  workers : Z;
}.

(** ** Parameters of an action *)

Fixpoint strings_of (l : list any) : option (list string) :=
  match l with
  | [] => Some []
  | AStr s :: l' => (s ::.) <$> strings_of l'
  | _ :: _ => None
  end.

Definition stringSliceParam (params : gmap string any) (key : string) : result (list string) :=
  match params !! key with
  | None => Err (errorf (key +:+ " is required"))
  | Some (AStrs l) => Ok l
  | Some (AList l) =>
      match strings_of l with
      | Some out => Ok out
      | None => Err (errorf (key +:+ " must be a list of strings"))
      end
  | Some _ => Err (errorf (key +:+ " must be a list of strings"))
  end.

Definition intParam (params : gmap string any) (key : string) : option Z :=
  match params !! key with
  | Some (AFloat f) => Some (float_to_int f)
  | Some (AInt z) => Some z
  | _ => None
  end.

Fixpoint ints_of (l : list any) : option (list Z) :=
  match l with
  | [] => Some []
  | AFloat f :: l' => (float_to_int f ::.) <$> ints_of l'
  | AInt z :: l' => (z ::.) <$> ints_of l'
  | _ :: _ => None
  end.

Definition intSliceParam (params : gmap string any) (key : string) : result (list Z) :=
  match params !! key with
  | None => Ok []
  | Some (AList l) =>
      match ints_of l with
      | Some out => Ok out
      | None => Err (errorf (key +:+ " must be a list of numbers"))
      end
  | Some _ => Err (errorf (key +:+ " must be a list of numbers"))
  end.

Definition netip_error : error := errorf "netip".

Definition parsePrefixOrAddr (s : string) : result Prefix :=
  match ParsePrefix s with
  | Some p => Ok (Masked p)
  | None =>
      match ParseAddr s with
      | Some a => Ok (PrefixFrom a (BitLen a))
      | None => Err netip_error
      end
  end.

Definition defaultSweepPorts : list Z := [22; 3389; 5985].

(** [raw, ok := params[key]; ok && raw != nil] *)
Definition param_given (params : gmap string any) (key : string) : bool :=
  match params !! key with None | Some ANil => false | Some _ => true end.

(** A positive integer parameter, or the default. *)
Definition pos_param (params : gmap string any) (key : string) (dflt : Z) : Z :=
  match intParam params key with Some v => if 0 <? v then v else dflt | None => dflt end.

Definition sweep_ports (params : gmap string any) : result (list Z) :=
  if param_given params "ports" then
    l ← intSliceParam params "ports";
    match l with
    | [] => Ok defaultSweepPorts
    | _ =>
        match list_find (λ p, p < 1 ∨ 65535 < p) l with
        | Some (_, p) => Err (errorf ("invalid port " +:+ Itoa p))
        | None => Ok l
        end
    end
  else Ok defaultSweepPorts.

Definition parseSweepParams (params : gmap string any) (maxRate : Z) : result sweepConfig :=
  rawCIDRs ← stringSliceParam params "cidrs";
  _ ← fail_if (bool_decide (rawCIDRs = [])) (errorf "cidrs is required");
  nets ← mapM (λ c, match ParsePrefix c with
                    | Some p => Ok (Masked p)
                    | None => Err (wrapf ("invalid CIDR " +:+ Quote c +:+ ": ") netip_error)
                    end) rawCIDRs;
  excl ← (if param_given params "exclusions" then
            rawEx ← stringSliceParam params "exclusions";
            mapM (λ e, wrap_err ("invalid exclusion " +:+ Quote e +:+ ": ") (parsePrefixOrAddr e)) rawEx
          else Ok []);
  ps ← sweep_ports params;
  let rate := Z.min (pos_param params "rate_pps" defaultRatePPS) maxRate in
  let timeoutMs := pos_param params "timeout_ms" defaultProbeTimeoutMs in
  let w := match intParam params "workers" with
           | Some v => if 0 <? v then Z.min v maxSweepWorkers else defaultSweepWorkers
           | None => defaultSweepWorkers
           end in
  Ok (MkSweepConfig nets excl ps rate (wrap64 (timeoutMs * Millisecond)) w).

(** ** Expansion *)

Definition isExcluded (addr : option Addr) (exclusions : list Prefix) : bool :=
  existsb (λ ex, Contains_addr ex addr) exclusions.

(** The loop over the addresses of one prefix: [n] rounds are left, [i] is the index. *)
Fixpoint expand_one (bits size : Z) (excl : list Prefix) (n : nat) (i : Z) (addr : option Addr)
    (addrs : list string) (excluded : Z) : list string * Z :=
  match n with
  | O => (addrs, excluded)
  | S n =>
      if (bits <=? 30) && ((i =? 0) || (i =? size - 1))
      then expand_one bits size excl n (i + 1) (Next addr) addrs excluded
      else if isExcluded addr excl
      then expand_one bits size excl n (i + 1) (Next addr) addrs (excluded + 1)
      else expand_one bits size excl n (i + 1) (Next addr) (addrs ++ [Addr_String addr]) excluded
  end.

Fixpoint expand_all (cidrs excl : list Prefix) (addrs : list string) (excluded : Z)
  : result (list string * Z) :=
  match cidrs with
  | [] => Ok (addrs, excluded)
  | cidr :: cidrs' =>
      if negb (Is4 (p_addr cidr))
      then Err (errorf ("only IPv4 CIDRs are supported, got " +:+ Prefix_String cidr))
      else
        let size := Z.shiftl 1 (32 - p_bits cidr) in
        if maxSweepAddresses <? Z.of_nat (length addrs) + size
        then Err (errorf ("sweep scope exceeds " +:+ Itoa maxSweepAddresses
                          +:+ " addresses; split it into smaller CIDRs"))
        else
          let '(addrs, excluded) :=
            expand_one (p_bits cidr) size excl (Z.to_nat size) 0
              (Some (p_addr (Masked cidr))) addrs excluded in
          expand_all cidrs' excl addrs excluded
  end.

Definition expandCIDRs (cidrs exclusions : list Prefix) : result (list string * Z) :=
  expand_all cidrs exclusions [] 0.

(** ** The sweep *)

Definition burstFor (ratePPS : Z) : Z := Z.max 1 (ratePPS ÷ 10).

(** What the network and the host answer during one sweep. [finished] are the
    addresses whose probes were all done before the context ended, in the order
    their results arrived; [taken] are those the workers took at all. *)
Record sweep_env := {
  probeTCP : string → Z → bool;
  taken : list string → list string;
  finished : list string → list string;
  proc_net_arp : option string;
  lookupAddr : string → option (list string);
}.

Definition trimTrailingDot (s : string) : string :=
  match unsnoc s with
  | Some (i, c) => if c =?c chr 46 then i else s
  | None => s
  end.

(** The lines of a scanner: a carriage return before the end of a line is dropped,
    and so is an empty last line. *)
Definition drop_cr (line : string) : string :=
  match unsnoc line with Some (i, c) => if c =?c chr 13 then i else line | None => line end.
Definition scan_lines (text : string) : list string :=
  let lines := Split text newline in
  let lines := match last lines with Some "" => removelast lines | _ => lines end in
  map drop_cr lines.

Definition arp_line (table : gmap string string) (line : string) : gmap string string :=
  match Fields line with
  | ip :: _ :: _ :: hw :: _ =>
      let mac := ToLower hw in
      if String.eqb mac "" || String.eqb mac "00:00:00:00:00:00" then table
      else <[ip := mac]> table
  | _ => table
  end.

Definition readARPTable (file : option string) : gmap string string :=
  match file with
  | None => ∅
  | Some text => foldl arp_line ∅ (tail (scan_lines text))
  end.

Definition enrichFromARP (file : option string) (hosts : gmap string SweepHost)
  : gmap string SweepHost :=
  let table := readARPTable file in
  map_imap (λ ip h,
    Some (match table !! ip with
          | Some mac => MkSweepHost (HostIP h) mac (RDNS h) (OpenPorts h) (Sources h ++ ["arp"])
                          (CloudIdentity h)
          | None => h
          end)) hosts.

Definition enrichRDNS (lookup : string → option (list string)) (hosts : gmap string SweepHost)
  : gmap string SweepHost :=
  map_imap (λ ip h,
    Some (match lookup ip with
          | Some (name :: _) => MkSweepHost (HostIP h) (MAC h) (trimTrailingDot name) (OpenPorts h)
                                  (Sources h) (CloudIdentity h)
          | _ => h
          end)) hosts.

(** [netip.Addr.Compare], and the order of sortHosts: by address, then the
    unparseable by text. *)
Definition addr_compare (a b : Addr) : comparison :=
  match BitLen a ?= BitLen b with
  | Eq =>
      match a, b with
      | Addr4 v, Addr4 w => v ?= w
      | Addr6 v z, Addr6 w y => match v ?= w with Eq => String.compare z y | c => c end
      | _, _ => Eq
      end
  | c => c
  end.

Definition host_compare (a b : SweepHost) : comparison :=
  match ParseAddr (HostIP a), ParseAddr (HostIP b) with
  | Some x, Some y => addr_compare x y
  | Some _, None => Lt
  | None, Some _ => Gt
  | None, None => String.compare (HostIP a) (HostIP b)
  end.

Definition host_le (a b : SweepHost) : Prop := host_compare a b ≠ Gt.
#[global] Instance host_le_dec : RelDecision host_le.
Proof. intros a b. unfold host_le. destruct (host_compare a b); [left|left|right]; congruence. Defined.

Definition sortHosts (hosts : gmap string SweepHost) : list SweepHost :=
  merge_sort host_le (map_to_list hosts).*2.

(** The responders: an address with an open port. *)
Definition add_responder (env : sweep_env) (ports : list Z) (hosts : gmap string SweepHost)
    (ip : string) : gmap string SweepHost :=
  match List.filter (probeTCP env ip) ports with
  | [] => hosts
  | open => <[ip := MkSweepHost ip "" "" open ["tcp"] ""]> hosts
  end.

(** The result, and the connections attempted: an address and a port each. *)
Definition runSweep (env : sweep_env) (cfg : sweepConfig)
  : result SweepResult * list (string * Z) :=
  match expandCIDRs (cidrs cfg) (exclusions cfg) with
  | Err e => (Err e, [])
  | Ok (addrs, excluded) =>
      let hosts := foldl (add_responder env (ports cfg)) ∅ (finished env addrs) in
      let hosts := enrichFromARP (proc_net_arp env) hosts in
      let hosts := enrichRDNS (lookupAddr env) hosts in
      (Ok (MkSweepResult (map Prefix_String (cidrs cfg)) (Z.of_nat (length addrs)) (ratePPS cfg)
             excluded (sortHosts hosts)),
       flat_map (λ ip, map (pair ip) (ports cfg)) (taken env addrs))
  end.
