(* ===== verification/SweepFacts.v ===== *)
(** * Discovery: a sweep stays where it was sent

    The addresses a sweep expands to, the limits on its parameters, and the order of
    its report. *)

From S2P Require Import Prelude GoStrings GoJson GoAny GoTime NetIP NetPrefix Sweep.
#[local] Open Scope Z_scope.

(** ** The addresses of one prefix *)

Definition addr_at (x : Z) : option Addr := if x =? 4294967296 then None else Some (Addr4 x).

(** Neither network nor broadcast address, in networks that have them. *)
Definition usable (bits size base x : Z) : bool :=
  negb ((bits <=? 30) && ((x =? base) || (x =? base + size - 1))).

Definition excluded_v4 (excl : list Prefix) (x : Z) : bool := isExcluded (Some (Addr4 x)) excl.

Lemma expand_one_spec bits size excl base n i addrs k :
  0 ≤ base → base + size ≤ 4294967296 → 0 ≤ i → i + Z.of_nat n = size →
  expand_one bits size excl n i (addr_at (base + i)) addrs k
  = (addrs ++ map v4_String (List.filter (λ x, negb (excluded_v4 excl x))
                (List.filter (usable bits size base) (seqZ (base + i) (Z.of_nat n)))),
     k + Z.of_nat (length (List.filter (excluded_v4 excl)
                (List.filter (usable bits size base) (seqZ (base + i) (Z.of_nat n)))))).
Proof.
  intros Hb Hs. revert i addrs k. induction n as [|n IH]; intros i addrs k Hi Hn.
  { simpl. by rewrite List.app_nil_r, Z.add_0_r. }
  assert (addr_at (base + i) = Some (Addr4 (base + i))) as Ha
    by (unfold addr_at; destruct (Z.eqb_spec (base + i) 4294967296); [lia|done]).
  assert (Next (addr_at (base + i)) = addr_at (base + (i + 1))) as Hnext
    by (rewrite Ha; cbn [Next]; unfold addr_at; by replace (base + (i + 1)) with (base + i + 1) by lia).
  rewrite seqZ_cons by lia. replace (Z.succ (base + i)) with (base + (i + 1)) by lia.
  replace (Z.pred (Z.of_nat (S n))) with (Z.of_nat n) by lia.
  cbn [expand_one List.filter]. rewrite Hnext.
  assert (usable bits size base (base + i) = negb ((bits <=? 30) && ((i =? 0) || (i =? size - 1)))) as ->.
  { unfold usable. do 2 f_equal. f_equal; apply eq_true_iff_eq; rewrite !Z.eqb_eq; lia. }
  destruct ((bits <=? 30) && ((i =? 0) || (i =? size - 1))); cbn [negb];
    [by rewrite IH by lia|].
  rewrite Ha. cbn [List.filter]. change (isExcluded (Some (Addr4 (base + i))) excl) with (excluded_v4 excl (base + i)).
  destruct (excluded_v4 excl (base + i)); cbn [negb map length]; rewrite IH by lia.
  - f_equal. lia.
  - by rewrite <- List.app_assoc.
Qed.

(** The host addresses of a prefix, and the ones a sweep keeps and drops. *)
Definition prefix_value (p : Prefix) : Z := match p_addr p with Addr4 v => v | Addr6 v _ => v end.
Definition net_base (p : Prefix) : Z := prefix_base (prefix_value p) (p_bits p).
Definition net_size (p : Prefix) : Z := 2 ^ (32 - p_bits p).
Definition host_addrs (p : Prefix) : list Z :=
  List.filter (usable (p_bits p) (net_size p) (net_base p)) (seqZ (net_base p) (net_size p)).
Definition kept (excl : list Prefix) (p : Prefix) : list string :=
  map v4_String (List.filter (λ x, negb (excluded_v4 excl x)) (host_addrs p)).
Definition dropped (excl : list Prefix) (p : Prefix) : Z :=
  Z.of_nat (length (List.filter (excluded_v4 excl) (host_addrs p))).

Lemma net_range p : wf_prefix4 p → 0 ≤ net_base p ∧ 0 < net_size p ∧ net_base p + net_size p ≤ 4294967296.
Proof.
  intros (v & Ev & Hv & Hn). unfold net_base, net_size, prefix_value. rewrite Ev.
  pose proof (prefix_base_range v (p_bits p) Hv Hn). assert (0 < 2 ^ (32 - p_bits p)) by (apply Z.pow_pos_nonneg; lia).
  change (2 ^ 32) with 4294967296 in *. lia.
Qed.

Definition wf_bits (p : Prefix) : Prop :=
  0 ≤ p_bits p ≤ BitLen (p_addr p) ∧ (Is4 (p_addr p) = true → wf_prefix4 p).

Lemma expand_all_spec excl l addrs k addrs' k' :
  Forall wf_bits l → expand_all l excl addrs k = Ok (addrs', k') →
  Forall wf_prefix4 l ∧ addrs' = addrs ++ concat (map (kept excl) l)
  ∧ k' = k + foldr Z.add 0 (map (dropped excl) l)
  ∧ (Z.of_nat (length addrs) ≤ maxSweepAddresses → Z.of_nat (length addrs') ≤ maxSweepAddresses).
Proof.
  intros Hl. revert addrs k. induction Hl as [|p l [Hb H4] Hl IH]; intros addrs k H; simpl in H.
  { injection H as <- <-. split; [done|]. split; [by rewrite List.app_nil_r|]. split; [simpl; lia|done]. }
  destruct (Is4 (p_addr p)) eqn:E4; [|done]. specialize (H4 eq_refl). cbn [negb] in H.
  destruct (net_range p H4) as (Hnb & Hns & Hsum).
  destruct H4 as (v & Ev & Hv & Hn).
  assert (Z.shiftl 1 (32 - p_bits p) = net_size p) as Esz
    by (unfold net_size; rewrite Z.shiftl_mul_pow2 by lia; lia).
  rewrite Esz in H. case_match eqn:Emax; [done|]. apply Z.ltb_ge in Emax.
  assert (Some (p_addr (Masked p)) = addr_at (net_base p + 0)) as Em.
  { unfold Masked. destruct (Z.ltb_spec (p_bits p) 0); [lia|]. cbn [p_addr].
    rewrite Ev, mask_addr4 by done. unfold addr_at, net_base, prefix_value. rewrite Ev, Z.add_0_r.
    unfold net_base, prefix_value in *. rewrite Ev in *.
    destruct (Z.eqb_spec (prefix_base v (p_bits p)) 4294967296); [lia|done]. }
  rewrite Em, expand_one_spec in H by lia.
  rewrite Z.add_0_r, Z2Nat.id in H by lia.
  change (map v4_String _) with (kept excl p) in H at 1.
  change (Z.of_nat (length (List.filter (excluded_v4 excl) _))) with (dropped excl p) in H.
  apply IH in H as (Hw & -> & -> & Hlen). split_and!.
  - constructor; [|done]. by exists v.
  - simpl. by rewrite <- List.app_assoc.
  - simpl. lia.
  - intros _. apply Hlen. rewrite length_app. unfold kept. rewrite length_map.
    pose proof (filter_length_le (λ x, negb (excluded_v4 excl x)) (host_addrs p)).
    pose proof (filter_length_le (usable (p_bits p) (net_size p) (net_base p)) (seqZ (net_base p) (net_size p))) as Hf.
    rewrite length_seqZ in Hf. unfold host_addrs in *. lia.
Qed.

(** Membership in a network, and being one of its host addresses. *)
Definition in_net (p : Prefix) (x : Z) : Prop := Contains_addr p (Some (Addr4 x)) = true.
Definition is_host (p : Prefix) (x : Z) : Prop :=
  30 < p_bits p ∨ (x ≠ net_base p ∧ x ≠ net_base p + net_size p - 1).

Lemma in_net_interval p x :
  wf_prefix4 p → 0 ≤ x < 2 ^ 32 → (in_net p x ↔ net_base p ≤ x < net_base p + net_size p).
Proof.
  intros (v & Ev & Hv & Hn) Hx. unfold in_net, net_base, net_size, prefix_value.
  destruct p as [a n]. cbn [p_addr p_bits] in *. subst a.
  rewrite Contains_addr4, prefix_interval by done. done.
Qed.

Lemma elem_of_host_addrs p x :
  wf_prefix4 p → (x ∈ host_addrs p ↔ 0 ≤ x < 2 ^ 32 ∧ in_net p x ∧ is_host p x).
Proof.
  intros Hp. destruct (net_range p Hp) as (Hb & Hs & Hsum). change 4294967296 with (2 ^ 32) in Hsum.
  unfold host_addrs. rewrite list_elem_of_In, filter_In, <- list_elem_of_In, elem_of_seqZ.
  assert (usable (p_bits p) (net_size p) (net_base p) x = true ↔ is_host p x) as ->.
  { unfold usable, is_host. bool_to_prop. lia. }
  split.
  - intros [Hx Hh]. assert (0 ≤ x < 2 ^ 32) by lia. by rewrite in_net_interval.
  - intros (Hx & Hin & Hh). apply in_net_interval in Hin; [|done..]. done.
Qed.

Lemma elem_of_kept excl p s :
  wf_prefix4 p →
  (s ∈ kept excl p ↔ ∃ x, 0 ≤ x < 2 ^ 32 ∧ in_net p x ∧ is_host p x
                          ∧ Forall (λ e, ¬ in_net e x) excl ∧ s = v4_String x).
Proof.
  intros Hp. unfold kept. rewrite list_elem_of_fmap. f_equiv. intros x.
  rewrite (list_elem_of_In _ x), filter_In, <- list_elem_of_In, elem_of_host_addrs by done.
  unfold excluded_v4, isExcluded, in_net. rewrite negb_true_iff, <- not_true_iff_false, existsb_exists.
  rewrite Forall_forall. setoid_rewrite list_elem_of_In. naive_solver.
Qed.

Lemma filter_partition {A} (f : A → bool) l :
  (length (List.filter (λ x, negb (f x)) l) + length (List.filter f l) = length l)%nat.
Proof. induction l as [|x l IH]; simpl; [done|]. destruct (f x); simpl; lia. Qed.

(** How many host addresses a network has. *)
Definition host_count (p : Prefix) : Z := if p_bits p <=? 30 then net_size p - 2 else net_size p.

Lemma host_addrs_length p : wf_prefix4 p → Z.of_nat (length (host_addrs p)) = host_count p.
Proof.
  intros Hp. destruct (net_range p Hp) as (Hb & Hs & Hsum). destruct Hp as (v & _ & _ & Hn).
  unfold host_addrs, host_count. destruct (Z.leb_spec (p_bits p) 30) as [Hle|Hgt].
  - assert (2 ^ 2 ≤ net_size p) by (apply Z.pow_le_mono_r; lia). change (2 ^ 2) with 4 in *.
    replace (net_size p) with (1 + (net_size p - 2) + 1) at 2 by lia.
    rewrite !seqZ_app by lia. rewrite !List.filter_app, !length_app.
    set (f := usable (p_bits p) (net_size p) (net_base p)).
    assert (f (net_base p) = false ∧ f (net_base p + (1 + (net_size p - 2))) = false) as [F1 F2].
    { unfold f, usable. rewrite !negb_false_iff, !andb_true_iff, !orb_true_iff, !Z.eqb_eq, Z.leb_le. lia. }
    assert (∀ z, seqZ z 1 = [z]) as H1 by (intros z; by rewrite seqZ_cons by lia).
    rewrite !H1. cbn [List.filter]. rewrite F1, F2. cbn [length].
    rewrite (filter_all f (seqZ (net_base p + 1) (net_size p - 2))); [rewrite length_seqZ; lia|].
    apply Forall_seqZ. intros x Hx. unfold f, usable. bool_to_prop. lia.
  - rewrite filter_all; [rewrite length_seqZ; lia|].
    apply Forall_seqZ. intros x Hx. unfold usable. bool_to_prop. lia.
Qed.

(** ** Expansion *)

(** C30. A sweep is expanded to exactly the host addresses of its networks that are
    not excluded: every address it will contact lies in a requested network, is
    neither its network nor its broadcast address (where there are such) and lies in
    no exclusion, and every such address is contacted; no more than 65536 in all. The
    count of excluded addresses is the difference to all host addresses. *)
Theorem expandCIDRs_exact nets excl addrs k :
  Forall wf_bits nets → expandCIDRs nets excl = Ok (addrs, k) →
  Z.of_nat (length addrs) ≤ maxSweepAddresses
  ∧ Z.of_nat (length addrs) + k = foldr Z.add 0 (map host_count nets)
  ∧ ∀ s, s ∈ addrs ↔ ∃ p x, p ∈ nets ∧ 0 ≤ x < 2 ^ 32 ∧ in_net p x ∧ is_host p x
                            ∧ Forall (λ e, ¬ in_net e x) excl ∧ s = v4_String x.
Proof.
  intros Hn (Hw & -> & -> & Hlen)%expand_all_spec; [|done]. cbn [app length] in *.
  split; [apply Hlen; done|]. split.
  - rewrite Z.add_0_l. clear Hn Hlen. induction Hw as [|p l Hp _ IH]; [done|].
    cbn [map concat foldr]. rewrite length_app, <- IH, <- host_addrs_length by done.
    unfold kept at 1, dropped at 1. rewrite length_map.
    pose proof (filter_partition (excluded_v4 excl) (host_addrs p)). lia.
  - intros s. rewrite list_elem_of_In, in_concat. rewrite Forall_forall in Hw. split.
    + intros (l & (p & <- & Hp%list_elem_of_In)%in_map_iff & Hs%list_elem_of_In).
      apply elem_of_kept in Hs as (x & ?); [|by apply Hw]. exists p, x. tauto.
    + intros (p & x & Hp & Hx). exists (kept excl p). split.
      * apply in_map_iff. exists p. by rewrite <- list_elem_of_In.
      * apply list_elem_of_In, elem_of_kept; [by apply Hw|]. exists x. tauto.
Qed.

Definition demo_nets : list Prefix := [MkPrefix (Addr4 167772160) 29; MkPrefix (Addr4 167772416) 31].
Definition demo_excl : list Prefix := [MkPrefix (Addr4 167772162) 31].

Lemma expandCIDRs_exact_witness :
  ∃ addrs k, expandCIDRs demo_nets demo_excl = Ok (addrs, k)
    ∧ Z.of_nat (length addrs) + k = foldr Z.add 0 (map host_count demo_nets)
    ∧ "10.0.0.4" ∈ addrs.
Proof.
  assert (Forall wf_bits demo_nets) as Hwf.
  { repeat constructor; simpl; try lia; intros _; eexists; split; [reflexivity| |reflexivity|]; simpl; lia. }
  assert (expandCIDRs demo_nets demo_excl
          = Ok (["10.0.0.1"; "10.0.0.4"; "10.0.0.5"; "10.0.0.6"; "10.0.1.0"; "10.0.1.1"], 2)) as E
    by (vm_compute; reflexivity).
  eexists _, _. split; [exact E|].
  destruct (expandCIDRs_exact demo_nets demo_excl _ _ Hwf E) as (_ & Hc & _).
  split; [exact Hc|set_solver].
Defined.

(** ** Parameters *)

Lemma Masked_wf p : wf_bits p → wf_bits (Masked p).
Proof.
  intros [Hb H4]. unfold Masked. destruct (Z.ltb_spec (p_bits p) 0); [done|].
  destruct (p_addr p) as [v|v z] eqn:Ea; cbn [BitLen] in Hb.
  - destruct (H4 eq_refl) as (v' & Ev & Hv & Hn). rewrite Ea in Ev. injection Ev as <-.
    rewrite mask_addr4 by done. pose proof (prefix_base_range v (p_bits p) Hv Hn).
    split; [done|]. intros _. eexists. split; [reflexivity|]. cbn [p_bits].
    assert (0 < 2 ^ (32 - p_bits p)) by (apply Z.pow_pos_nonneg; lia). lia.
  - split; [done|]. done.
Qed.

Lemma mapM_Ok {A B} (f : A → result B) l k : mapM f l = Ok k → Forall2 (λ x y, f x = Ok y) l k.
Proof.
  revert k. induction l as [|x l IH]; intros k; simpl; [intros [= <-]; constructor|].
  intros (y & Hy & (k' & Hk & [= <-])%bind_Ok)%bind_Ok. constructor; [done|by apply IH].
Qed.

Lemma sweep_ports_bounds params l :
  sweep_ports params = Ok l → Forall (λ p, 1 ≤ p ≤ 65535) l ∧ l ≠ [].
Proof.
  assert (Forall (λ p, 1 ≤ p ≤ 65535) defaultSweepPorts) as Hd by (repeat constructor; lia).
  unfold sweep_ports. case_match; [|by intros [= <-]].
  intros (k & _ & H')%bind_Ok. destruct k as [|x k]; [by injection H' as <-|].
  destruct (list_find _ (x :: k)) as [[i q]|] eqn:E; [done|]. injection H' as <-. split; [|done].
  apply list_find_None in E. eapply Forall_impl; [exact E|]. simpl. lia.
Qed.

(** What [parseSweepParams] lets through, whatever the request asks for. *)
Lemma parseSweepParams_bounds params maxRate sc :
  parseSweepParams params maxRate = Ok sc →
  Forall wf_bits (cidrs sc) ∧ Forall (λ p, 1 ≤ p ≤ 65535) (ports sc) ∧ ports sc ≠ []
  ∧ ratePPS sc ≤ maxRate ∧ 1 ≤ workers sc ≤ maxSweepWorkers.
Proof.
  unfold parseSweepParams. intros (raw & _ & H)%bind_Ok. apply bind_Ok in H as (? & _ & H).
  apply bind_Ok in H as (nets & Hnets & H). apply bind_Ok in H as (excl & _ & H).
  apply bind_Ok in H as (ps & Hps & [= <-]). cbn [cidrs ports ratePPS workers].
  destruct (sweep_ports_bounds _ _ Hps) as [Hp Hne]. split_and!; [|done|done|lia|..].
  - apply mapM_Ok in Hnets. clear -Hnets. induction Hnets as [|c p l k Hc _ IH]; [done|].
    constructor; [|done]. destruct (ParsePrefix c) as [q|] eqn:E; [|done]. injection Hc as <-.
    apply Masked_wf. by apply ParsePrefix_wf in E.
  - unfold maxSweepWorkers, defaultSweepWorkers. repeat case_match; bool_to_prop; lia.
  - unfold maxSweepWorkers, defaultSweepWorkers. repeat case_match; bool_to_prop; lia.
Qed.

(** ** The report *)

Definition open_ports (env : sweep_env) (ps : list Z) (ip : string) : list Z :=
  List.filter (probeTCP env ip) ps.

Lemma responders_lookup env ps l m ip h :
  foldl (add_responder env ps) m l !! ip = Some h →
  (m !! ip = Some h) ∨ (ip ∈ l ∧ open_ports env ps ip ≠ []
                        ∧ h = MkSweepHost ip "" "" (open_ports env ps ip) ["tcp"] "").
Proof.
  revert m. induction l as [|x l IH]; intros m H; simpl in H; [by left|].
  apply IH in H as [H|(Hin & Ho & ->)]; [|right; split_and!; [by right|done|done]].
  unfold add_responder in H. fold (open_ports env ps x) in H.
  destruct (open_ports env ps x) as [|o os] eqn:Ho; [by left|].
  destruct (decide (x = ip)) as [->|Hne].
  - rewrite lookup_insert_eq in H. injection H as <-. right. rewrite Ho. split_and!; [by left|done|done].
  - rewrite lookup_insert_ne in H by done. by left.
Qed.

Lemma responders_mono env ps l m ip :
  is_Some (m !! ip) → is_Some (foldl (add_responder env ps) m l !! ip).
Proof.
  revert m. induction l as [|x l IH]; intros m H; simpl; [done|]. apply IH.
  unfold add_responder. case_match; [done|].
  destruct (decide (x = ip)) as [->|Hne]; [rewrite lookup_insert_eq|rewrite lookup_insert_ne]; done.
Qed.

Lemma responders_complete env ps l m ip :
  ip ∈ l → open_ports env ps ip ≠ [] → is_Some (foldl (add_responder env ps) m l !! ip).
Proof.
  revert m. induction l as [|x l IH]; intros m Hin Ho; [by apply not_elem_of_nil in Hin|].
  apply elem_of_cons in Hin as [-> |Hin]; simpl; [|by apply IH]. apply responders_mono.
  unfold add_responder. fold (open_ports env ps x). destruct (open_ports env ps x); [done|].
  by rewrite lookup_insert_eq.
Qed.

(** Enrichment changes neither who answered nor on which ports. *)
Definition same_host (h h' : SweepHost) : Prop := HostIP h' = HostIP h ∧ OpenPorts h' = OpenPorts h.

Definition enriched (env : sweep_env) (m : gmap string SweepHost) : gmap string SweepHost :=
  enrichRDNS (lookupAddr env) (enrichFromARP (proc_net_arp env) m).

Lemma enriched_lookup env m ip :
  match m !! ip, enriched env m !! ip with
  | Some h, Some h' => same_host h h'
  | None, None => True
  | _, _ => False
  end.
Proof.
  unfold enriched, enrichRDNS, enrichFromARP, same_host. rewrite !map_lookup_imap.
  destruct (m !! ip); simpl; [|done]. by repeat case_match.
Qed.

(** ** The order of the report *)

Lemma ParseAddr_String x : 0 ≤ x < 2 ^ 32 → ParseAddr (v4_String x) = Some (Addr4 x).
Proof. intros Hx. by apply ParseAddr_v4, parseIPv4_String. Qed.

Lemma addr_compare_opp a b : addr_compare b a = CompOpp (addr_compare a b).
Proof.
  unfold addr_compare. destruct a as [v|v z], b as [w|w y]; cbn [BitLen]; try done.
  - apply Z.compare_antisym.
  - change (128 ?= 128) with Eq. cbn iota. rewrite (Z.compare_antisym v w).
    destruct (v ?= w); simpl; [apply String.compare_antisym|done|done].
Qed.

#[global] Instance host_le_total : Total host_le.
Proof.
  intros a b. unfold host_le, host_compare.
  destruct (ParseAddr (HostIP a)) as [x|], (ParseAddr (HostIP b)) as [y|]; [|by left|by right|].
  - rewrite (addr_compare_opp x y). destruct (addr_compare x y); simpl; [by left|by left|by right].
  - rewrite (String.compare_antisym (HostIP b) (HostIP a)).
    destruct (String.compare (HostIP a) (HostIP b)); simpl; [by left|by left|by right].
Qed.

Lemma host_le_v4 a b x y :
  HostIP a = v4_String x → HostIP b = v4_String y → 0 ≤ x < 2 ^ 32 → 0 ≤ y < 2 ^ 32 →
  host_le a b → x ≤ y.
Proof.
  intros Ea Eb Hx Hy. unfold host_le, host_compare. rewrite Ea, Eb, !ParseAddr_String by done.
  unfold addr_compare. cbn [BitLen]. change (32 ?= 32) with Eq. cbn iota. done.
Qed.

(** Hosts with IPv4 addresses, in order, have increasing addresses. *)
Lemma sorted_hosts l xs :
  Sorted host_le l → Forall2 (λ h x, HostIP h = v4_String x ∧ 0 ≤ x < 2 ^ 32) l xs →
  NoDup xs → StronglySorted Z.lt xs.
Proof.
  intros Hs Hx Hnd. apply Sorted_StronglySorted; [intros a b c; lia|].
  revert Hs Hnd. induction Hx as [|h x l xs [Eh Hh] Hx IH]; intros Hs Hnd; [constructor|].
  apply Sorted_inv in Hs as [Hs Hhd]. apply NoDup_cons in Hnd as [Hni Hnd].
  constructor; [by apply IH|]. destruct Hx as [|h' x' l xs [Eh' Hh'] Hx]; constructor.
  apply HdRel_inv in Hhd. pose proof (host_le_v4 _ _ _ _ Eh Eh' Hh Hh' Hhd).
  assert (x ≠ x') by set_solver. lia.
Qed.

(** An environment that works only on what it is given. *)
Record honest (env : sweep_env) : Prop := {
  honest_taken : ∀ l, taken env l ⊆ l;
  honest_finished : ∀ l, finished env l ⊆ taken env l;
}.

Definition responders (env : sweep_env) (ps : list Z) (addrs : list string) : gmap string SweepHost :=
  enriched env (foldl (add_responder env ps) ∅ (finished env addrs)).

Lemma responders_spec env ps addrs ip h :
  responders env ps addrs !! ip = Some h →
  HostIP h = ip ∧ ip ∈ finished env addrs ∧ open_ports env ps ip ≠ []
  ∧ OpenPorts h = open_ports env ps ip.
Proof.
  unfold responders. intros H.
  pose proof (enriched_lookup env (foldl (add_responder env ps) ∅ (finished env addrs)) ip) as He.
  rewrite H in He. destruct (foldl _ ∅ _ !! ip) as [h0|] eqn:E0; [|done].
  apply responders_lookup in E0 as [E0|(Hin & Ho & ->)]; [by rewrite lookup_empty in E0|].
  destruct He as [-> ->]. done.
Qed.

Lemma responders_dom env ps addrs ip :
  is_Some (responders env ps addrs !! ip) ↔ ip ∈ finished env addrs ∧ open_ports env ps ip ≠ [].
Proof.
  split.
  - intros [h (_ & Hin & Ho & _)%responders_spec]. done.
  - intros [Hin Ho]. destruct (responders_complete env ps _ ∅ ip Hin Ho) as [h Hh].
    pose proof (enriched_lookup env (foldl (add_responder env ps) ∅ (finished env addrs)) ip) as He.
    unfold responders. rewrite Hh in He. by destruct (enriched _ _ !! ip).
Qed.

(** The addresses listed are the keys, once each. *)
Lemma sortHosts_ips m :
  (∀ ip h, m !! ip = Some h → HostIP h = ip) →
  map HostIP (sortHosts m) ≡ₚ (map_to_list m).*1.
Proof.
  intros Hm. unfold sortHosts. rewrite merge_sort_Permutation.
  rewrite map_map. apply (reflexive_eq (R := Permutation)), map_ext_in.
  intros [ip h] Hin%list_elem_of_In%elem_of_map_to_list. by apply Hm.
Qed.

Lemma runSweep_ok env sc r probes :
  runSweep env sc = (Ok r, probes) →
  ∃ addrs, expandCIDRs (cidrs sc) (exclusions sc) = Ok (addrs, Excluded r)
    ∧ Scanned r = Z.of_nat (length addrs)
    ∧ Hosts r = sortHosts (responders env (ports sc) addrs)
    ∧ probes = flat_map (λ ip, map (pair ip) (ports sc)) (taken env addrs).
Proof.
  unfold runSweep. destruct (expandCIDRs _ _) as [[addrs k]|]; [|done]. intros [= <- <-].
  by exists addrs.
Qed.

(** The report of a sweep: the hosts listed are exactly the addresses whose
    probes were done and that accepted a connection on one of the ports, each once,
    with just those open ports, in increasing order of address, whatever order the
    answers came in; and every connection made goes to a port that was asked for on
    an address the request expands to. *)
Theorem runSweep_report env sc r probes :
  honest env → Forall wf_bits (cidrs sc) → runSweep env sc = (Ok r, probes) →
  ∃ addrs xs,
    expandCIDRs (cidrs sc) (exclusions sc) = Ok (addrs, Excluded r)
    ∧ Scanned r = Z.of_nat (length addrs)
    ∧ map HostIP (Hosts r) = map v4_String xs ∧ StronglySorted Z.lt xs
    ∧ (∀ ip, ip ∈ map HostIP (Hosts r)
             ↔ ip ∈ finished env addrs ∧ open_ports env (ports sc) ip ≠ [])
    ∧ Forall (λ h, OpenPorts h = open_ports env (ports sc) (HostIP h)) (Hosts r)
    ∧ (∀ ip port, (ip, port) ∈ probes → ip ∈ addrs ∧ port ∈ ports sc).
Proof.
  intros [Ht Hf] Hw (addrs & He & Hs & Hh & ->)%runSweep_ok.
  set (m := responders env (ports sc) addrs) in *.
  assert (∀ ip h, m !! ip = Some h → HostIP h = ip) as Hkey by (by intros ip h []%responders_spec).
  pose proof (sortHosts_ips m Hkey) as Hperm. rewrite <- Hh in Hperm.
  assert (∀ ip, ip ∈ map HostIP (Hosts r) ↔ is_Some (m !! ip)) as Hdom.
  { intros ip. rewrite Hperm, list_elem_of_fmap. split.
    - intros ([k h] & -> & Hin%elem_of_map_to_list). by eexists.
    - intros [h Hh']. exists (ip, h). by rewrite elem_of_map_to_list. }
  assert (Forall (λ h, ∃ x, HostIP h = v4_String x ∧ 0 ≤ x < 2 ^ 32) (Hosts r)) as Hv4.
  { apply Forall_forall. intros h Hin%(list_elem_of_fmap_2 HostIP).
    apply Hdom, responders_dom in Hin as [Hin _]. apply Hf, Ht in Hin.
    destruct (expand_all_spec _ _ _ _ _ _ Hw He) as (Hw4 & -> & _).
    apply list_elem_of_In, in_concat in Hin as (l & (p & <- & Hp)%in_map_iff & Hin%list_elem_of_In).
    rewrite Forall_forall in Hw4. apply elem_of_kept in Hin; [naive_solver|].
    apply Hw4. by apply list_elem_of_In. }
  exists addrs, (map (λ h, default 0 (parseIPv4 (HostIP h))) (Hosts r)).
  assert (Forall2 (λ h x, HostIP h = v4_String x ∧ 0 ≤ x < 2 ^ 32) (Hosts r)
            (map (λ h, default 0 (parseIPv4 (HostIP h))) (Hosts r))) as Hxs.
  { clear -Hv4. induction Hv4 as [|h l (x & E & Hx) _ IH]; constructor; [|done].
    rewrite E, parseIPv4_String by done. done. }
  assert (map HostIP (Hosts r)
          = map v4_String (map (λ h, default 0 (parseIPv4 (HostIP h))) (Hosts r))) as Eips.
  { rewrite map_map. apply map_ext_in. intros h Hin%list_elem_of_In. rewrite Forall_forall in Hv4.
    destruct (Hv4 h Hin) as (x & E & Hx). by rewrite E, parseIPv4_String. }
  split_and!; [done|done|done| | | |].
  - apply (sorted_hosts (Hosts r)); [rewrite Hh; apply Sorted_merge_sort, _|done|].
    apply (NoDup_fmap_1 v4_String). change (v4_String <$> ?l) with (map v4_String l).
    rewrite <- Eips, Hperm. apply NoDup_fst_map_to_list.
  - intros ip. rewrite Hdom. apply responders_dom.
  - apply Forall_forall. intros h Hin. rewrite Hh in Hin. unfold sortHosts in Hin.
    rewrite merge_sort_Permutation in Hin. apply list_elem_of_fmap in Hin as ([k h'] & -> & Hin).
    apply elem_of_map_to_list, responders_spec in Hin as (Hk & _ & _ & Ho). cbn [snd]. by rewrite Hk, Ho.
  - intros ip port Hin%list_elem_of_In%in_flat_map. destruct Hin as (a & Ha & (q & [= -> ->] & Hq)%in_map_iff).
    apply list_elem_of_In in Ha, Hq. split; [by apply Ht|done].
Qed.

(** A small network on which two hosts answer, the later address first. *)
Definition demo_env : sweep_env := {|
  probeTCP ip port := (String.eqb ip "10.0.0.9" && (port =? 22)) || String.eqb ip "10.0.0.10";
  taken l := l;
  finished l := reverse l;
  proc_net_arp := Some ("IP address" +:+ newline +:+ "10.0.0.9 0x1 0x2 AA:BB:CC:00:11:22 * eth0"
                        +:+ newline);
  lookupAddr _ := None;
|}.
Definition demo_sweep : sweepConfig :=
  MkSweepConfig [MkPrefix (Addr4 167772168) 29] [] [22; 3389] 100 (1000 * Millisecond) 64.

Lemma runSweep_report_witness :
  ∃ r probes, runSweep demo_env demo_sweep = (Ok r, probes)
    ∧ map HostIP (Hosts r) = ["10.0.0.9"; "10.0.0.10"]
    ∧ map MAC (Hosts r) = ["aa:bb:cc:00:11:22"; ""]
    ∧ Forall (λ h, OpenPorts h = open_ports demo_env [22; 3389] (HostIP h)) (Hosts r).
Proof.
  destruct (runSweep demo_env demo_sweep) as [[r|] probes] eqn:E; [|exfalso; revert E; vm_compute; discriminate].
  assert (map HostIP (Hosts r) = ["10.0.0.9"; "10.0.0.10"] ∧ map MAC (Hosts r) = ["aa:bb:cc:00:11:22"; ""]) as [H1 H2].
  { revert E. vm_compute. intros [= <- _]. split; reflexivity. }
  exists r, probes. split; [reflexivity|]. split; [exact H1|]. split; [exact H2|].
  destruct (runSweep_report demo_env demo_sweep r probes) as (_ & _ & _ & _ & _ & _ & _ & Hp & _).
  - split; [done|]. intros l x. simpl. by rewrite elem_of_reverse.
  - constructor; [|constructor]. split; [simpl; lia|]. intros _. exists 167772168. split; [reflexivity|]. simpl. lia.
  - exact E.
  - exact Hp.
Defined.
