(* ===== verification/Arp.v ===== *)
(** * pkg/proxy/discovery/arp_other.go: the neighbour table where there is no /proc/net/arp

    The output of [arp -an], in which BSD prints the octets of an address without
    leading zeros. *)

From S2P Require Import Prelude GoStrings Regex Sweep.
#[local] Open Scope nat_scope.

(** The groups of every match, from left to right, of an expression that matches no
    empty text. *)
Fixpoint submatches (r : re) (fuel : nat) (prev : option string) (s : list string) : list caps :=
  match fuel, s with
  | S fuel, c :: s' =>
      match match_here r prev s with
      | Some (prev', rest, cs) =>
          if length rest <? length s then cs :: submatches r fuel prev' rest
          else cs :: submatches r fuel (Some c) s'
      | None => submatches r fuel (Some c) s'
      end
  | _, _ => []
  end.
Definition FindAllStringSubmatch (r : re) (s : string) : list caps :=
  submatches r (length (runes s)) None (runes s).

Definition hex_or_colon : string → bool := ranges [(48, 58); (65, 70); (97, 102)]%Z.
Definition arpLine : re :=
  rseq [rlit "("; RGroup 1 (rplus (RSet (cor digit (chars ".")))); rlit ") at ";
        RGroup 2 (rplus (RSet hex_or_colon))].

Definition pad_octet (p : string) : string := if String.length p =? 1 then "0" +:+ p else p.
Definition normalizeMAC (mac : string) : string := Join (map pad_octet (Split mac ":")) ":".

Definition arp_match (table : gmap string string) (m : caps) : gmap string string :=
  let ip := group 1 m in
  let mac := ToLower (group 2 m) in
  if String.eqb mac "" || String.eqb mac "00:00:00:00:00:00" then table
  else <[ip := normalizeMAC mac]> table.

(** [None]: the command failed. *)
Definition readARPTable_other (out : option string) : gmap string string :=
  match out with
  | None => ∅
  | Some text => foldl arp_match ∅ (FindAllStringSubmatch arpLine text)
  end.

Example arp_bsd :
  readARPTable_other (Some ("? (10.0.1.15) at a:Bb:cc:d:ee:f on en0 ifscope [ethernet]" +:+ newline
    +:+ "? (10.0.1.16) at (incomplete) on en0 ifscope [ethernet]" +:+ newline))
  = {["10.0.1.15" := "0a:bb:cc:0d:ee:0f"]}.
Proof. vm_compute. reflexivity. Qed.

(** ** The form of an address *)

Definition octet (p : string) : Prop := lacks (chr 58) p ∧ p ≠ "".

Lemma pad_octet_octet p : octet p → octet (pad_octet p) ∧ 2 ≤ String.length (pad_octet p).
Proof.
  intros [Hl Hn]. unfold pad_octet. destruct (Nat.eqb_spec (String.length p) 1) as [E|E]; cbn.
  - change ("0" +:+ p) with (String (chr 48) p). split; [split; [by apply lacks_cons|done]|cbn [String.length]; lia].
  - split; [done|]. destruct p as [|c [|c' p]]; cbn in *; [done|done|lia].
Qed.

Lemma Split_Join_char c l : l ≠ [] → Forall (lacks c) l → Split (Join l (str1 c)) (str1 c) = l.
Proof.
  intros Hn Hl. induction Hl as [|x l Hx Hl IH]; [done|]. destruct l as [|y l].
  - cbn [Join]. rewrite Split_unfold by done. by rewrite cut_char_None.
  - rewrite Join_cons by done. rewrite Split_unfold by done.
    change (str1 c +:+ ?t) with (String c t). rewrite cut_char by done. f_equal. by apply IH.
Qed.

(** Octets are padded to two digits, whether or not they were before: addresses compare
    equal across systems, and normalising again changes nothing. *)
Theorem normalizeMAC_padded l :
  l ≠ [] → Forall octet l →
  normalizeMAC (Join l ":") = Join (pad_octet <$> l) ":"
  ∧ Forall (λ p, 2 ≤ String.length p) (pad_octet <$> l)
  ∧ normalizeMAC (normalizeMAC (Join l ":")) = normalizeMAC (Join l ":").
Proof.
  intros Hn Hl. assert (∀ l, l ≠ [] → Forall octet l → normalizeMAC (Join l ":") = Join (pad_octet <$> l) ":") as Hj.
  { clear. intros l Hn Hl. unfold normalizeMAC. change ":" with (str1 (chr 58)). rewrite Split_Join_char; try done.
    eapply Forall_impl; [exact Hl|]. by intros p [? _]. }
  assert (Forall octet (pad_octet <$> l)) as Ho by (apply Forall_fmap; eapply Forall_impl; [exact Hl|];
    by intros p Hp; apply pad_octet_octet).
  split; [by apply Hj|]. split.
  - apply Forall_fmap. eapply Forall_impl; [exact Hl|]. intros p Hp. by apply pad_octet_octet.
  - rewrite (Hj l Hn Hl), Hj by (done || by destruct l). f_equal. rewrite <- list_fmap_compose. apply list_fmap_ext.
    intros i p Hp. rewrite Forall_lookup in Hl. destruct (pad_octet_octet p (Hl i p Hp)) as [_ H2]. cbn.
    unfold pad_octet at 1. by destruct (Nat.eqb_spec (String.length (pad_octet p)) 1); [lia|].
Qed.

(** The address of an entry nobody answered is left out on Linux; as BSD prints it, it
    is entered, for the test comes before the padding. *)
Theorem arp_zero_entered :
  readARPTable_other (Some "? (10.0.1.9) at 0:0:0:0:0:0 on en0") !! "10.0.1.9" = Some "00:00:00:00:00:00"
  ∧ Sweep.readARPTable (Some ("IP address" +:+ newline +:+ "10.0.1.9 0x1 0x0 00:00:00:00:00:00 * eth0")) !! "10.0.1.9"
    = None.
Proof. split; vm_compute; reflexivity. Qed.
