(* ===== verification/Inventory.v ===== *)
(** * Discovery: collecting from hosts over SSH

    src/pkg/proxy/discovery/executor.go and cloud_identity.go. The environment says
    how each connection and each command went. *)

From S2P Require Import Prelude GoStrings GoJson GoAny GoTime NetIP When Pack Sweep.
From Stdlib Require Import SpecFloat.
#[local] Open Scope Z_scope.

Definition StatusOK : string := "ok".
Definition StatusSSHRefused : string := "ssh-refused".
Definition StatusSSHAuthFailed : string := "ssh-auth-failed".
Definition StatusTimeout : string := "timeout".
Definition StatusError : string := "error".

(** [collectors] and the maps beside it are nil until the facts are known. *)
Record TargetResult := MkTarget {
  Host : string;
  Status : string;
  TargetError : string;
  Facts : gmap string string;
  Collected : gmap string string;
  CollectorExitCodes : gmap string Z;
  CollectorTruncated : gmap string bool;
  CollectorOutputLimitBytes : Z;
  Failed : gmap string string;
  Skipped : list SkippedCollector;
  DurationS : spec_float;
}.

Definition new_target (host status err : string) : TargetResult :=
  MkTarget host status err ∅ ∅ ∅ ∅ 0 ∅ [] (S754_zero false).

Record execConfig := MkExecConfig {
  port : Z;
  concurrency : Z;
  hostTimeout : Z;
  commandTimeout : Z;
  maxOutputBytes : Z;
  dialTimeout : Z;
}.

(** ** One command *)

Inductive wait_result :=
  | WaitOk
  | WaitExit (status : Z)        (* *ssh.ExitError *)
  | WaitErr (e : error).

(** How a command went: the calls that can fail, everything the remote writes to its
    two streams, and whether reading and waiting ended before the timeout. *)
Record command_run := MkRun {
  cr_session : result unit;
  cr_stdout_pipe : result unit;
  cr_stderr_pipe : result unit;
  cr_start : result unit;
  cr_stdout : string;
  cr_stderr : string;
  cr_read : bool;
  cr_wait : option wait_result;
}.

Record command_out := MkOut {
  co_stdout : string;
  co_stderr : string;
  co_exit : Z;
  co_truncated : bool;
}.

(** [io.ReadAll] of a [LimitReader] one byte longer than the cap. *)
Definition read_capped (limit : Z) (stream : string) : string * bool :=
  let got := String.substring 0 (Z.to_nat (wrap64 (limit + 1))) stream in
  if limit <? Z.of_nat (String.length got)
  then (String.substring 0 (Z.to_nat limit) got, true)
  else (got, false).

Definition timed_out : error := errorf "command timed out".

Definition runCommand (r : command_run) (limit : Z) : result command_out :=
  let limit := Z.max limit 0 in
  _ ← wrap_err "new session: " (cr_session r);
  _ ← wrap_err "stdout pipe: " (cr_stdout_pipe r);
  _ ← wrap_err "stderr pipe: " (cr_stderr_pipe r);
  _ ← wrap_err "start: " (cr_start r);
  if negb (cr_read r) then Err timed_out
  else
    let '(out, t1) := read_capped limit (cr_stdout r) in
    let '(errOut, t2) := read_capped limit (cr_stderr r) in
    match cr_wait r with
    | None => Err timed_out
    | Some WaitOk => Ok (MkOut out errOut 0 (t1 || t2))
    | Some (WaitExit code) => Ok (MkOut out errOut code (t1 || t2))
    | Some (WaitErr e) => Err (wrapf "wait: " e)
    end.

(** ** One host *)

Definition classifyDialError (err : error) : string :=
  let msg := ToLower (err_msg err) in
  if Contains msg "unable to authenticate" || Contains msg "no supported methods remain"
     || Contains msg "permission denied" then StatusSSHAuthFailed
  else if Contains msg "connection refused" || Contains msg "no route to host"
          || Contains msg "network is unreachable" || Contains msg "connection reset"
  then StatusSSHRefused
  else if Contains msg "timeout" || Contains msg "deadline exceeded" || Contains msg "i/o timeout"
  then StatusTimeout
  else StatusError.

(** What happens on one host: connecting to an address, how a probe goes, whether the
    host timeout has passed before the n-th collector, and how its command goes. *)
Record host_env := {
  he_connect : string → result unit;
  he_handshake : string → result unit;
  he_probe : string → command_run;
  he_expired : nat → bool;
  he_run : nat → string → command_run;
  he_elapsed : spec_float;
}.

Definition dial (he : host_env) (host : string) (cfg : execConfig) : result unit :=
  let addr := JoinHostPort host (Itoa (port cfg)) in
  _ ← he_connect he addr;
  he_handshake he addr.

Definition set_status (res : TargetResult) (status err : string) : TargetResult :=
  MkTarget (Host res) status err (Facts res) (Collected res) (CollectorExitCodes res)
    (CollectorTruncated res) (CollectorOutputLimitBytes res) (Failed res) (Skipped res)
    (DurationS res).

Definition set_duration (d : spec_float) (res : TargetResult) : TargetResult :=
  MkTarget (Host res) (Status res) (TargetError res) (Facts res) (Collected res)
    (CollectorExitCodes res) (CollectorTruncated res) (CollectorOutputLimitBytes res) (Failed res)
    (Skipped res) d.

(** What a collector's command adds to the result. *)
Definition record_output (res : TargetResult) (id : string) (r : result command_out)
  : TargetResult :=
  match r with
  | Err e =>
      MkTarget (Host res) (Status res) (TargetError res) (Facts res) (Collected res)
        (CollectorExitCodes res) (CollectorTruncated res) (CollectorOutputLimitBytes res)
        (<[id := err_msg e]> (Failed res)) (Skipped res) (DurationS res)
  | Ok o =>
      let out := if String.eqb (co_stderr o) "" then co_stdout o
                 else co_stdout o +:+ newline +:+ "[stderr]" +:+ newline +:+ co_stderr o in
      MkTarget (Host res) (Status res) (TargetError res) (Facts res)
        (<[id := out]> (Collected res)) (<[id := co_exit o]> (CollectorExitCodes res))
        (<[id := co_truncated o]> (CollectorTruncated res)) (CollectorOutputLimitBytes res)
        (Failed res) (Skipped res) (DurationS res)
  end.

(** The loop over the collectors; the commands run are the second component. *)
Fixpoint collect (he : host_env) (limit : Z) (n : nat) (l : list Collector) (res : TargetResult)
  : TargetResult * list string :=
  match l with
  | [] => (set_status res StatusOK "", [])
  | c :: l' =>
      if he_expired he n then (set_status res StatusTimeout "host timeout during collection", [])
      else
        let res := record_output res (ID c) (runCommand (he_run he n (Cmd c)) limit) in
        let '(res, cmds) := collect he limit (S n) l' res in
        (res, Cmd c :: cmds)
  end.

(** The body: the result at the return statement, and the commands run. *)
Definition inventory_body (he : host_env) (host : string) (pack : Pack) (cfg : execConfig)
  : TargetResult * list string :=
  let res := new_target host "" "" in
  match dial he host cfg with
  | Err e => (set_status res (classifyDialError e) (err_msg e), [])
  | Ok _ =>
      match runCommand (he_probe he factsProbe) (maxOutputBytes cfg) with
      | Err e => (set_status res StatusError ("facts probe: " +:+ err_msg e), [factsProbe])
      | Ok o =>
          let facts := parseFacts (co_stdout o) in
          let '(collectors, skipped) := Select pack facts in
          let res := MkTarget host "" "" facts ∅ ∅ ∅ (maxOutputBytes cfg) ∅ skipped (S754_zero false) in
          let '(res, cmds) := collect he (maxOutputBytes cfg) 0 collectors res in
          (res, factsProbe :: cmds)
      end
  end.

(** [return res] in a function with an unnamed result: the caller gets the value
    [res] has at that point, and the deferred functions then run on the variable. *)
Definition return_unnamed {A} (res : A) (deferred : A → A) : A * A := (res, deferred res).

Definition inventoryHost (he : host_env) (host : string) (pack : Pack) (cfg : execConfig)
  : TargetResult * list string :=
  let '(res, cmds) := inventory_body he host pack cfg in
  ((return_unnamed res (set_duration (he_elapsed he))).1, cmds).

(** ** A batch *)

(** For each target, [None] when the context ended before it got a slot. *)
Definition runInventory (env : nat → option host_env) (targets : list string) (pack : Pack)
    (cfg : execConfig) : list (TargetResult * list string) :=
  imap (λ i h,
    match env i with
    | None => (new_target h StatusTimeout "batch cancelled before start", [])
    | Some he => inventoryHost he h pack cfg
    end) targets.

(** ** Cloud identity *)

Definition cloudIdentityDialTimeout : Z := 5 * Second.
Definition cloudIdentityHostTimeout : Z := 10 * Second.
Definition cloudIdentityCommandTimeout : Z := 8 * Second.
Definition cloudIdentityMaxOutputBytes : Z := 4096.

(** The shell script that asks each cloud's metadata service who this host is. *)
Definition cloudIdentityProbeCmd : string :=
  let q := str1 dq in
  Join [
    "";
    "TOKEN=$(curl -s -m 1 -X PUT http://169.254.169.254/latest/api/token -H " +:+ q +:+ "X-aws-ec2-metadata-token-ttl-seconds: 60" +:+ q +:+ " 2>/dev/null)";
    "AWS_ID=$(curl -s -m 1 -H " +:+ q +:+ "X-aws-ec2-metadata-token: $TOKEN" +:+ q +:+ " http://169.254.169.254/latest/meta-data/instance-id 2>/dev/null)";
    "if [ -n " +:+ q +:+ "$AWS_ID" +:+ q +:+ " ]; then";
    "  echo " +:+ q +:+ "provider=aws" +:+ q;
    "  echo " +:+ q +:+ "instance_id=$AWS_ID" +:+ q;
    "  echo " +:+ q +:+ "region=$(curl -s -m 1 -H " +:+ q +:+ "X-aws-ec2-metadata-token: $TOKEN" +:+ q +:+ " http://169.254.169.254/latest/meta-data/placement/region 2>/dev/null)" +:+ q;
    "  echo " +:+ q +:+ "public_ip=$(curl -s -m 1 -H " +:+ q +:+ "X-aws-ec2-metadata-token: $TOKEN" +:+ q +:+ " http://169.254.169.254/latest/meta-data/public-ipv4 2>/dev/null)" +:+ q;
    "  exit 0";
    "fi";
    "GCP_ID=$(curl -s -m 1 -H " +:+ q +:+ "Metadata-Flavor: Google" +:+ q +:+ " http://metadata.google.internal/computeMetadata/v1/instance/id 2>/dev/null)";
    "if [ -n " +:+ q +:+ "$GCP_ID" +:+ q +:+ " ]; then";
    "  ZONE_PATH=$(curl -s -m 1 -H " +:+ q +:+ "Metadata-Flavor: Google" +:+ q +:+ " http://metadata.google.internal/computeMetadata/v1/instance/zone 2>/dev/null)";
    "  echo " +:+ q +:+ "provider=gcp" +:+ q;
    "  echo " +:+ q +:+ "instance_id=$GCP_ID" +:+ q;
    "  echo " +:+ q +:+ "zone=${ZONE_PATH##*/}" +:+ q;
    "  echo " +:+ q +:+ "public_ip=$(curl -s -m 1 -H " +:+ q +:+ "Metadata-Flavor: Google" +:+ q +:+ " http://metadata.google.internal/computeMetadata/v1/instance/network-interfaces/0/access-configs/0/external-ip 2>/dev/null)" +:+ q;
    "  exit 0";
    "fi";
    "AZ_NAME=$(curl -s -m 1 -H " +:+ q +:+ "Metadata: true" +:+ q +:+ " " +:+ q +:+ "http://169.254.169.254/metadata/instance/compute/name?api-version=2021-02-01&format=text" +:+ q +:+ " 2>/dev/null)";
    "if [ -n " +:+ q +:+ "$AZ_NAME" +:+ q +:+ " ]; then";
    "  echo " +:+ q +:+ "provider=azure" +:+ q;
    "  echo " +:+ q +:+ "subscription_id=$(curl -s -m 1 -H " +:+ q +:+ "Metadata: true" +:+ q +:+ " " +:+ q +:+ "http://169.254.169.254/metadata/instance/compute/subscriptionId?api-version=2021-02-01&format=text" +:+ q +:+ " 2>/dev/null)" +:+ q;
    "  echo " +:+ q +:+ "resource_group=$(curl -s -m 1 -H " +:+ q +:+ "Metadata: true" +:+ q +:+ " " +:+ q +:+ "http://169.254.169.254/metadata/instance/compute/resourceGroupName?api-version=2021-02-01&format=text" +:+ q +:+ " 2>/dev/null)" +:+ q;
    "  echo " +:+ q +:+ "name=$AZ_NAME" +:+ q;
    "  echo " +:+ q +:+ "location=$(curl -s -m 1 -H " +:+ q +:+ "Metadata: true" +:+ q +:+ " " +:+ q +:+ "http://169.254.169.254/metadata/instance/compute/location?api-version=2021-02-01&format=text" +:+ q +:+ " 2>/dev/null)" +:+ q;
    "  echo " +:+ q +:+ "public_ip=$(curl -s -m 1 -H " +:+ q +:+ "Metadata: true" +:+ q +:+ " " +:+ q +:+ "http://169.254.169.254/metadata/instance/network/interface/0/ipv4/ipAddress/0/publicIpAddress?api-version=2021-02-01&format=text" +:+ q +:+ " 2>/dev/null)" +:+ q;
    "fi";
    ""] newline.

(** For the hosts with the SSH port open that got a slot: the connection and the
    probe command; the hosts contacted are the second component, with the commands run
    on each. *)
Definition enrichCloudIdentity (env : nat → option host_env) (hosts : list SweepHost)
    (cfg : execConfig) : list SweepHost * list (string * list string) :=
  let step i h :=
    if negb (bool_decide (port cfg ∈ OpenPorts h)) then (h, [])
    else
      match env i with
      | None => (h, [])
      | Some he =>
          match dial he (HostIP h) cfg with
          | Err _ => (h, [(HostIP h, [])])
          | Ok _ =>
              let ran := [(HostIP h, [cloudIdentityProbeCmd])] in
              match runCommand (he_probe he cloudIdentityProbeCmd) (maxOutputBytes cfg) with
              | Err _ => (h, ran)
              | Ok o =>
                  if String.eqb (TrimSpace (co_stdout o)) "" then (h, ran)
                  else (MkSweepHost (HostIP h) (MAC h) (RDNS h) (OpenPorts h) (Sources h) (co_stdout o), ran)
              end
          end
      end in
  let l := imap step hosts in
  (map fst l, concat (map snd l)).
