(* ===== verification/Ldap.v ===== *)
(** * Discovery: computers in a directory

    src/pkg/proxy/discovery/ldap.go. What the directory answers is the environment;
    an operation also returns what was sent to it, in order. *)

From S2P Require Import Prelude GoStrings GoJson GoAny GoTime.
From Stdlib Require Import SpecFloat.
#[local] Open Scope Z_scope.

Definition defaultLDAPPort : Z := 389.
Definition defaultLDAPSPort : Z := 636.
Definition defaultActiveWithinD : Z := 90.
Definition defaultLDAPPageSize : Z := 500.
Definition defaultLDAPTimeoutS : Z := 30.
Definition maxLDAPComputers : Z := 50000.
Definition windowsEpochToUnixSec : Z := 11644473600.

Record LDAPComputer := MkComputer {
  Name : string;
  DNSName : string;
  OS : string;
  OSVersion : string;
  ObjectGUID : string;
  LastLogon : string;
  AccountEnabled : bool;
}.

Record LDAPResult := MkLDAPResult {
  ResultBaseDN : string;
  ActiveWithin : Z;
  Returned : Z;
  SkippedStale : Z;
  Computers : list LDAPComputer;
  LdapDurationS : spec_float;
}.

Record ldapConfig := MkLdapConfig {
  LdapHost : string;
  LdapPort : Z;
  TLS : bool;
  StartTLS : bool;
  SkipVer : bool;
  BaseDN : string;
  TimeoutS : Z;
  PageSize : Z;
  BindDN : string;
  BindPass : string;
  MaxResult : Z;
}.

Definition zero_ldap : ldapConfig := MkLdapConfig "" 0 false false false "" 0 0 "" "" 0.

(** An integer literal that fits a uint32. *)
Definition dec_uint32 (old : Z) (v : json) : Z * bool :=
  match dec_int old v with
  | (z, true) => match v with
                 | JNum _ => if in_range 0 4294967295 z then (z, true) else (old, false)
                 | _ => (z, true)
                 end
  | (_, false) => (old, false)
  end.

(** The members of "ldap"; the bind credentials are tagged "-" and never decoded. *)
Definition ldapConfig_field (c : ldapConfig) (k : string) (v : json) : ldapConfig * bool :=
  let 'MkLdapConfig h po tl st sk bd ti pg dn pw mr := c in
  if key_is "host" k then
    let '(x, ok) := dec_string h v in (MkLdapConfig x po tl st sk bd ti pg dn pw mr, ok)
  else if key_is "port" k then
    let '(x, ok) := dec_int po v in (MkLdapConfig h x tl st sk bd ti pg dn pw mr, ok)
  else if key_is "tls" k then
    let '(x, ok) := dec_bool tl v in (MkLdapConfig h po x st sk bd ti pg dn pw mr, ok)
  else if key_is "start_tls" k then
    let '(x, ok) := dec_bool st v in (MkLdapConfig h po tl x sk bd ti pg dn pw mr, ok)
  else if key_is "insecure_skip_verify" k then
    let '(x, ok) := dec_bool sk v in (MkLdapConfig h po tl st x bd ti pg dn pw mr, ok)
  else if key_is "base_dn" k then
    let '(x, ok) := dec_string bd v in (MkLdapConfig h po tl st sk x ti pg dn pw mr, ok)
  else if key_is "timeout_seconds" k then
    let '(x, ok) := dec_int ti v in (MkLdapConfig h po tl st sk bd x pg dn pw mr, ok)
  else if key_is "page_size" k then
    let '(x, ok) := dec_uint32 pg v in (MkLdapConfig h po tl st sk bd ti x dn pw mr, ok)
  else if key_is "max_results" k then
    let '(x, ok) := dec_int mr v in (MkLdapConfig h po tl st sk bd ti pg dn pw x, ok)
  else (c, true).

(** ** Attributes *)

(** [None] is the zero time; otherwise nanoseconds since 1970. *)
Definition parseADTimestamp (raw : string) : option Z :=
  if String.eqb raw "" || String.eqb raw "0" || String.eqb raw "9223372036854775807" then None
  else
    match Atoi raw with
    | Some ticks => if ticks <=? 0 then None
                    else Some ((ticks ÷ 10000000 - windowsEpochToUnixSec) * Second)
    | None => None
    end.

Definition hexTable : string := "0123456789abcdef".

Definition hex_at (z : Z) : ascii := default (chr 0) (String.get (Z.to_nat z) hexTable).

(** [hex.EncodeToString]. *)
Fixpoint hex_EncodeToString (raw : string) : string :=
  match raw with
  | "" => ""
  | String c raw' => String (hex_at (code c / 16)) (String (hex_at (code c mod 16))
                       (hex_EncodeToString raw'))
  end.

(** The two digits the source writes for byte [i]: [raw[i]>>4] and [raw[i]&0x0f]. *)
Definition guid_pair (raw : string) (i : nat) : list ascii :=
  let b := code (default (chr 0) (String.get i raw)) in
  [hex_at (Z.shiftr b 4); hex_at (Z.land b 15)].

Definition of_chars (l : list ascii) : string := foldr String "" l.

(** The buffer of 36 bytes, in the order it is filled. *)
Definition formatObjectGUID (raw : string) : string :=
  if negb (String.length raw =? 16)%nat then
    if String.eqb raw "" then "" else hex_EncodeToString raw
  else
    let pair := guid_pair raw in
    let dash := [chr 45] in
    of_chars (pair 3%nat ++ pair 2%nat ++ pair 1%nat ++ pair 0%nat ++ dash
              ++ pair 5%nat ++ pair 4%nat ++ dash
              ++ pair 7%nat ++ pair 6%nat ++ dash
              ++ pair 8%nat ++ pair 9%nat ++ dash
              ++ pair 10%nat ++ pair 11%nat ++ pair 12%nat ++ pair 13%nat ++ pair 14%nat ++ pair 15%nat).

Definition isAccountEnabled (uac : string) : bool :=
  if String.eqb uac "" then true
  else match Atoi uac with
       | None => true
       | Some flags => Z.land flags 2 =? 0
       end.

Definition redactLDAPError (err : error) : error :=
  let msg := err_msg err in
  match Index (ToLower msg) "dn:" with
  | Some i => errorf (String.substring 0 i msg +:+ "(dn redacted)")
  | None => err
  end.

(** ** The connection *)

Definition timeoutSeconds (c : ldapConfig) : Z :=
  if 0 <? TimeoutS c then TimeoutS c else defaultLDAPTimeoutS.

(** crypto/tls settings: the server's name and whether its certificate is checked. *)
Record tlsConfig := MkTls { ServerName : string; InsecureSkipVerify : bool }.
Definition tlsConfigFor (cfg : ldapConfig) : tlsConfig := MkTls (LdapHost cfg) (SkipVer cfg).

Inductive ldap_event :=
  | LdapDial (host url : string) (tls : option tlsConfig)
  | LdapStartTLS (tls : tlsConfig)
  | LdapBind (dn pass : string)
  | LdapSearch (base : string) (pageSize timeout : Z)
  | LdapClose.

(** An entry is its attributes, the first value of each. *)
Definition entry := gmap string string.
Definition attribute (e : entry) (k : string) : string := default "" (e !! k).

(** What the directory answers; [le_cancelled] is the error of the context, if it
    has ended, at a failing bind or search. *)
Record ldap_env := {
  le_dial : result unit;
  le_starttls : result unit;
  le_bind : result unit;
  le_search : result (list entry);
  le_cancelled : option error;
  le_now : Z;
  le_elapsed : spec_float;
}.

Definition ldap_url (cfg : ldapConfig) : string :=
  let port := if LdapPort cfg =? 0 then (if TLS cfg then defaultLDAPSPort else defaultLDAPPort)
              else LdapPort cfg in
  (if TLS cfg then "ldaps" else "ldap") +:+ "://" +:+ LdapHost cfg +:+ ":" +:+ Itoa port.

Definition dialLDAP (env : ldap_env) (cfg : ldapConfig) : result unit * list ldap_event :=
  if String.eqb (LdapHost cfg) "" then (Err (errorf "ldap host is required"), [])
  else
    let url := ldap_url cfg in
    let ev := [LdapDial (LdapHost cfg) url (if TLS cfg then Some (tlsConfigFor cfg) else None)] in
    match le_dial env with
    | Err e => (Err (wrapf ("ldap dial " +:+ url +:+ ": ") e), ev)
    | Ok _ =>
        if StartTLS cfg && negb (TLS cfg) then
          let ev := ev ++ [LdapStartTLS (tlsConfigFor cfg)] in
          match le_starttls env with
          | Err e => (Err (wrapf "ldap starttls: " e), ev ++ [LdapClose])
          | Ok _ => (Ok tt, ev)
          end
        else (Ok tt, ev)
    end.

(** ** The query *)

(** [now.AddDate(0, 0, -days)], in a zone without clock changes. *)
Definition add_days (now days : Z) : Z := now + days * 86400 * Second.

Definition stale (cutoff : Z) (lastLogon : option Z) : bool :=
  match lastLogon with Some t => t <? cutoff | None => false end.

Definition computer_of (e : entry) (lastLogon : option Z) : LDAPComputer :=
  MkComputer (attribute e "name") (ToLower (attribute e "dNSHostName"))
    (attribute e "operatingSystem") (attribute e "operatingSystemVersion")
    (formatObjectGUID (attribute e "objectGUID"))
    (match lastLogon with Some t => format_rfc3339_wide t | None => "" end)
    (isAccountEnabled (attribute e "userAccountControl")).

(** The loop over the entries; it stops once [maxResults] computers are kept. *)
Fixpoint keep_computers (cutoff maxResults : Z) (l : list entry) (out : list LDAPComputer)
    (skipped : Z) : list LDAPComputer * Z :=
  match l with
  | [] => (out, skipped)
  | e :: l' =>
      let lastLogon := parseADTimestamp (attribute e "lastLogonTimestamp") in
      if stale cutoff lastLogon then keep_computers cutoff maxResults l' out (skipped + 1)
      else
        let out := out ++ [computer_of e lastLogon] in
        if maxResults <=? Z.of_nat (length out) then (out, skipped)
        else keep_computers cutoff maxResults l' out skipped
  end.

Definition cancelled_or (env : ldap_env) (e : error) : error :=
  match le_cancelled env with
  | Some c => wrapf "ldap discovery cancelled: " c
  | None => e
  end.

Definition runLDAPDiscovery (env : ldap_env) (cfg : ldapConfig) (activeWithinDays : Z)
  : result LDAPResult * list ldap_event :=
  match dialLDAP env cfg with
  | (Err e, ev) => (Err e, ev)
  | (Ok _, ev) =>
      let ev := ev ++ [LdapBind (BindDN cfg) (BindPass cfg)] in
      match le_bind env with
      | Err e => (Err (cancelled_or env (wrapf "ldap bind failed: " (redactLDAPError e))),
                  ev ++ [LdapClose])
      | Ok _ =>
          let pageSize := if PageSize cfg =? 0 then defaultLDAPPageSize else PageSize cfg in
          let maxResults := if (MaxResult cfg <=? 0) || (maxLDAPComputers <? MaxResult cfg)
                            then maxLDAPComputers else MaxResult cfg in
          let ev := ev ++ [LdapSearch (BaseDN cfg) pageSize (timeoutSeconds cfg); LdapClose] in
          match le_search env with
          | Err e => (Err (cancelled_or env (wrapf "ldap search failed: " (redactLDAPError e))), ev)
          | Ok entries =>
              let cutoff := add_days (le_now env) (- activeWithinDays) in
              let '(out, skipped) := keep_computers cutoff maxResults entries [] 0 in
              (Ok (MkLDAPResult (BaseDN cfg) activeWithinDays (Z.of_nat (length out)) skipped out
                     (le_elapsed env)), ev)
          end
      end
  end.
