(* ===== verification/LdapFacts.v ===== *)
(** * Discovery: object GUIDs in canonical form *)

From S2P Require Import Prelude GoStrings GoJson Ldap.
#[local] Open Scope Z_scope.

(** ** The reference *)

(** A number from its bytes, least significant first. *)
Definition little_endian (l : list Z) : Z := foldr (λ b acc, b + 256 * acc) 0 l.
Definition big_endian (l : list Z) : Z := little_endian (reverse l).

(** [%0<n>x]. *)
Fixpoint hex_pad (n : nat) (z : Z) : list ascii :=
  match n with
  | O => []
  | S n => hex_pad n (z / 16) ++ [hex_at (z mod 16)]
  end.

Fixpoint byte_values (s : string) : list Z :=
  match s with "" => [] | String c s' => code c :: byte_values s' end.

(** A GUID as documented: a 32-bit and two 16-bit little-endian numbers, then two and
    six bytes in order, in hexadecimal with dashes between. *)
Definition guid_reference (raw : string) : string :=
  let b := byte_values raw in
  let part i n := take n (drop i b) in
  of_chars (hex_pad 8 (little_endian (part 0 4)%nat) ++ [chr 45]
            ++ hex_pad 4 (little_endian (part 4 2)%nat) ++ [chr 45]
            ++ hex_pad 4 (little_endian (part 6 2)%nat) ++ [chr 45]
            ++ hex_pad 4 (big_endian (part 8 2)%nat) ++ [chr 45]
            ++ hex_pad 12 (big_endian (part 10 6)%nat)).

(** ** Facts *)

Lemma hex_pad_byte n b z :
  0 ≤ b < 256 → hex_pad (S (S n)) (b + 256 * z) = hex_pad n z ++ [hex_at (b / 16); hex_at (b mod 16)].
Proof.
  intros Hb. cbn [hex_pad]. rewrite <- List.app_assoc. cbn [app].
  replace ((b + 256 * z) / 16 / 16) with z by (Z.div_mod_to_equations; lia).
  replace ((b + 256 * z) / 16 mod 16) with (b / 16) by (Z.div_mod_to_equations; lia).
  by replace ((b + 256 * z) mod 16) with (b mod 16) by (Z.div_mod_to_equations; lia).
Qed.

(** The two digits of a byte, by shifting and masking or by division. *)
Lemma pair_digits c :
  [hex_at (Z.shiftr (code c) 4); hex_at (Z.land (code c) 15)]
  = [hex_at (code c / 16); hex_at (code c mod 16)].
Proof.
  rewrite Z.shiftr_div_pow2 by lia. change 15 with (Z.ones 4). rewrite Z.land_ones by lia. done.
Qed.

Lemma hex_at_inj x y : 0 ≤ x < 16 → 0 ≤ y < 16 → hex_at x = hex_at y → x = y.
Proof.
  intros Hx Hy E. assert (∀ z, 0 ≤ z < 16 → hex_val (hex_at z) = Some z) as Hinv.
  { intros z Hz. assert (forallb (λ z, bool_decide (hex_val (hex_at z) = Some z)) (seqZ 0 16) = true) as H
      by (vm_compute; reflexivity).
    rewrite forallb_forall in H. eapply bool_decide_eq_true, H, list_elem_of_In, elem_of_seqZ. lia. }
  apply Hinv in Hx, Hy. rewrite E in Hx. congruence.
Qed.

Lemma pair_inj c d :
  hex_at (code c / 16) = hex_at (code d / 16) → hex_at (code c mod 16) = hex_at (code d mod 16) → c = d.
Proof.
  pose proof (code_range c). pose proof (code_range d). intros H1 H2. apply code_inj.
  apply hex_at_inj in H1, H2; Z.div_mod_to_equations; lia.
Qed.

(** Sixteen bytes. *)
Lemma sixteen (raw : string) :
  String.length raw = 16%nat → ∃ l, length l = 16%nat ∧ raw = of_chars l.
Proof.
  intros H. exists (String.list_ascii_of_string raw). split.
  - rewrite <- H. clear H. induction raw as [|c s IH]; simpl; congruence.
  - clear H. induction raw as [|c s IH]; simpl; congruence.
Qed.

Definition byte_pair (c : ascii) : list ascii := [hex_at (code c / 16); hex_at (code c mod 16)].

(** Both sides on sixteen bytes: the pairs in the order of the canonical form. *)
Definition guid_chars (l : list ascii) : list ascii :=
  match l with
  | [b0; b1; b2; b3; b4; b5; b6; b7; b8; b9; b10; b11; b12; b13; b14; b15] =>
      byte_pair b3 ++ byte_pair b2 ++ byte_pair b1 ++ byte_pair b0 ++ [chr 45]
      ++ byte_pair b5 ++ byte_pair b4 ++ [chr 45] ++ byte_pair b7 ++ byte_pair b6 ++ [chr 45]
      ++ byte_pair b8 ++ byte_pair b9 ++ [chr 45]
      ++ byte_pair b10 ++ byte_pair b11 ++ byte_pair b12 ++ byte_pair b13 ++ byte_pair b14 ++ byte_pair b15
  | _ => []
  end.

Ltac sixteen_bytes l :=
  do 16 (destruct l as [|? l]; [done|]); destruct l; [|done].

Lemma formatObjectGUID_chars l :
  length l = 16%nat → formatObjectGUID (of_chars l) = of_chars (guid_chars l).
Proof.
  intros H. sixteen_bytes l. unfold formatObjectGUID, of_chars at 1.
  cbn [foldr String.length Nat.eqb negb]. f_equal.
  unfold guid_pair. cbn [of_chars foldr String.get from_option default id]. unfold id.
  rewrite !pair_digits. reflexivity.
Qed.

Lemma guid_reference_chars l :
  length l = 16%nat → guid_reference (of_chars l) = of_chars (guid_chars l).
Proof.
  intros H. sixteen_bytes l. unfold guid_reference.
  cbn [of_chars foldr byte_values take drop]. f_equal. unfold big_endian.
  cbn [reverse rev_append little_endian foldr].
  rewrite !hex_pad_byte by apply code_range. reflexivity.
Qed.

Lemma of_chars_inj l k : of_chars l = of_chars k → l = k.
Proof. revert k. induction l as [|c l IH]; intros [|d k] E; simplify_eq/=; [done|]. f_equal. by apply IH. Qed.

(** The hand-unrolled GUID formatter is the documented one, and loses nothing:
    on the 16 bytes of an objectGUID it writes what formatting the three
    little-endian numbers and the trailing bytes with %08x-%04x-%04x-%04x-%012x
    gives, and two different GUIDs never get the same text. *)
Theorem formatObjectGUID_reference raw :
  String.length raw = 16%nat →
  formatObjectGUID raw = guid_reference raw ∧ String.length (formatObjectGUID raw) = 36%nat
  ∧ ∀ raw', String.length raw' = 16%nat → formatObjectGUID raw = formatObjectGUID raw' → raw = raw'.
Proof.
  intros (l & Hl & ->)%sixteen. rewrite formatObjectGUID_chars, guid_reference_chars by done.
  split_and!; [done|by sixteen_bytes l|]. intros raw' (k & Hk & ->)%sixteen.
  rewrite formatObjectGUID_chars by done. intros E%of_chars_inj. f_equal.
  sixteen_bytes l. sixteen_bytes k. unfold guid_chars, byte_pair in E. cbn [app] in E.
  injection E. intros. repeat f_equal; by apply pair_inj.
Qed.

Lemma formatObjectGUID_reference_witness :
  let raw := bytes (seqZ 1 16) in
  formatObjectGUID raw = guid_reference raw
  ∧ formatObjectGUID raw = "04030201-0605-0807-090a-0b0c0d0e0f10".
Proof.
  split; [|vm_compute; reflexivity].
  refine (proj1 (formatObjectGUID_reference (bytes (seqZ 1 16)) _)). reflexivity.
Defined.
