(* ===== verification/Discovery.v ===== *)
(** * Discovery: the datasource proxy

    src/pkg/proxy/discovery/proxy.go: configuration, the scope check, and the three
    actions. The state holds the verified packs; an action returns its response, the
    new state and what it did on the network. *)

From S2P Require Import Prelude GoStrings GoJson GoAny GoTime NetIP NetPrefix Signing Registry Ssh.
From S2P Require Import When Pack Sweep Inventory Ldap.
From Stdlib Require Import SpecFloat.
#[local] Open Scope Z_scope.

Definition defaultPort : Z := 22.
Definition defaultConcurrency : Z := 25.
Definition maxConcurrency : Z := 200.
Definition defaultHostTimeoutS : Z := 120.
Definition defaultCommandTimeS : Z := 60.
Definition defaultMaxOutputBytes : Z := 4194304.
Definition defaultDialTimeoutS : Z := 10.
Definition maxTargetsPerRequest : Z := 5000.

(** ** Configuration *)

Record Config := MkConfig {
  Port : Z;
  Concurrency : Z;
  HostTimeoutS : Z;
  CommandTimeS : Z;
  DialTimeoutS : Z;
  MaxOutputBytes : Z;
  AllowedCIDRs : list string;
  PackPublicKey : string;
  PackDir : string;
  MaxRatePPS : Z;
  LDAP : ldapConfig;
  KnownHostsFilePath : string;
}.

Definition zero_config : Config := MkConfig 0 0 0 0 0 0 [] "" "" 0 zero_ldap "".

Definition Config_field (c : Config) (k : string) (v : json) : Config * bool :=
  let 'MkConfig po co ho cm di mo al pk pd mr ld kh := c in
  if key_is "port" k then
    let '(x, ok) := dec_int po v in (MkConfig x co ho cm di mo al pk pd mr ld kh, ok)
  else if key_is "concurrency" k then
    let '(x, ok) := dec_int co v in (MkConfig po x ho cm di mo al pk pd mr ld kh, ok)
  else if key_is "host_timeout_seconds" k then
    let '(x, ok) := dec_int ho v in (MkConfig po co x cm di mo al pk pd mr ld kh, ok)
  else if key_is "command_timeout_seconds" k then
    let '(x, ok) := dec_int cm v in (MkConfig po co ho x di mo al pk pd mr ld kh, ok)
  else if key_is "dial_timeout_seconds" k then
    let '(x, ok) := dec_int di v in (MkConfig po co ho cm x mo al pk pd mr ld kh, ok)
  else if key_is "max_output_bytes" k then
    let '(x, ok) := dec_int mo v in (MkConfig po co ho cm di x al pk pd mr ld kh, ok)
  else if key_is "allowed_cidrs" k then
    let '(x, ok) := dec_string_list al v in (MkConfig po co ho cm di mo x pk pd mr ld kh, ok)
  else if key_is "pack_public_key" k then
    let '(x, ok) := dec_string pk v in (MkConfig po co ho cm di mo al x pd mr ld kh, ok)
  else if key_is "pack_dir" k then
    let '(x, ok) := dec_string pd v in (MkConfig po co ho cm di mo al pk x mr ld kh, ok)
  else if key_is "max_rate_pps" k then
    let '(x, ok) := dec_int mr v in (MkConfig po co ho cm di mo al pk pd x ld kh, ok)
  else if key_is "ldap" k then
    let '(x, ok) := dec_struct ldapConfig_field ld v in
    (MkConfig po co ho cm di mo al pk pd mr x kh, ok)
  else if key_is "known_hosts_file" k then
    let '(x, ok) := dec_string kh v in (MkConfig po co ho cm di mo al pk pd mr ld x, ok)
  else (c, true).

Definition applyConfigDefaults (c : Config) : Config :=
  let pos d z := if z <=? 0 then d else z in
  MkConfig
    (if Port c =? 0 then defaultPort else Port c)
    (Z.min (pos defaultConcurrency (Concurrency c)) maxConcurrency)
    (pos defaultHostTimeoutS (HostTimeoutS c))
    (pos defaultCommandTimeS (CommandTimeS c))
    (pos defaultDialTimeoutS (DialTimeoutS c))
    (pos defaultMaxOutputBytes (MaxOutputBytes c))
    (AllowedCIDRs c) (PackPublicKey c) (PackDir c)
    (if (MaxRatePPS c <=? 0) || (maxRatePPS <? MaxRatePPS c) then maxRatePPS else MaxRatePPS c)
    (LDAP c) (KnownHostsFilePath c).

(** ** State *)

Record Proxy := MkProxy {
  cfg : Config;
  sshConfig : option ClientConfig;
  packPubKey : option string;
  allowedNets : list IPNet;
  allowedHosts : list string;
  ldapCfg : ldapConfig;
  ldapConfigured : bool;
  packs : gmap Z Pack;
}.

Definition New : Proxy := MkProxy zero_config None None [] [] zero_ldap false ∅.

Definition set_packs (p : Proxy) (m : gmap Z Pack) : Proxy :=
  MkProxy (cfg p) (sshConfig p) (packPubKey p) (allowedNets p) (allowedHosts p) (ldapCfg p)
    (ldapConfigured p) m.

Definition hostKeyCallback `{SshLib} (c : Config) : result HostKeyCallback :=
  if negb (String.eqb (KnownHostsFilePath c) "") then
    _ ← wrap_err ("loading known_hosts_file " +:+ Quote (KnownHostsFilePath c) +:+ ": ")
          (knownhosts_New (KnownHostsFilePath c));
    Ok (KnownHostsFile (KnownHostsFilePath c))
  else Ok InsecureIgnoreHostKey.

Definition buildAuthMethods `{SshLib} (creds : gmap string string) : result (list AuthMethod) :=
  let key := cred creds "private_key" in
  let passphrase := cred creds "passphrase" in
  let password := cred creds "password" in
  keys ←
    (if negb (String.eqb key "") then
       signer ← wrap_err "parsing private key: "
         (if negb (String.eqb passphrase "") then ParsePrivateKeyWithPassphrase key passphrase
          else ParsePrivateKey key);
       Ok [PublicKeys signer]
     else Ok []);
  let methods := keys ++ (if negb (String.eqb password "") then [Password password] else []) in
  match methods with
  | [] => Err (errorf "no ssh auth method provided (need private_key or password)")
  | _ => Ok methods
  end.

(** One entry of allowed_cidrs. The address of a single host keeps its 16 bytes. *)
Definition parse_cidr (c : string) : IPNet + string :=
  match ParseCIDR c with
  | Some (_, ipNet) => inl ipNet
  | None =>
      match ParseIP c with
      | Some ip =>
          let bits := match To4 ip with Some _ => 32 | None => 128 end in
          inl (MkIPNet ip (CIDRMask bits bits))
      | None => inr c
      end
  end.

Definition parseAllowedCIDRs (p : Proxy) (l : list string) : Proxy :=
  MkProxy (cfg p) (sshConfig p) (packPubKey p)
    (list_omap _ _ (λ c, match parse_cidr c with inl n => Some n | inr _ => None end) l)
    (list_omap _ _ (λ c, match parse_cidr c with inl _ => None | inr h => Some h end) l)
    (ldapCfg p) (ldapConfigured p) (packs p).

Definition set_ssh (p : Proxy) (s : option ClientConfig) : Proxy :=
  MkProxy (cfg p) s (packPubKey p) (allowedNets p) (allowedHosts p) (ldapCfg p)
    (ldapConfigured p) (packs p).

(** The SSH settings a configuration asks for; none without a username. *)
Definition ssh_settings `{SshLib} (c : Config) (creds : gmap string string)
  : result (option ClientConfig) :=
  let username := cred creds "username" in
  if String.eqb username "" then Ok None
  else
    auth ← wrap_err "discovery: " (buildAuthMethods creds);
    cb ← wrap_err "discovery: " (hostKeyCallback c);
    Ok (Some (MkClientConfig username auth cb)).

Definition Configure `{SshLib, Ed25519, KeyFormats} (p : Proxy) (conf : gmap string any)
    (creds : gmap string string) : result unit * Proxy :=
  let bad := Err (wrapf "parsing discovery config: " json_error) in
  match marshal_any_map conf with
  | None => (bad, p)
  | Some j =>
      let '(c, ok) := dec_struct Config_field zero_config j in
      if negb ok then (bad, p)
      else
        let c := applyConfigDefaults c in
        let p := MkProxy c None (packPubKey p) (allowedNets p) (allowedHosts p) (ldapCfg p)
                   (ldapConfigured p) (packs p) in
        match ssh_settings c creds with
        | Err e => (Err e, p)
        | Ok s =>
            let p := parseAllowedCIDRs (set_ssh p s) (AllowedCIDRs c) in
            let l := LDAP c in
            let lc := MkLdapConfig (LdapHost l) (LdapPort l) (TLS l) (StartTLS l) (SkipVer l)
                        (BaseDN l) (TimeoutS l) (PageSize l) (cred creds "ldap_bind_dn")
                        (cred creds "ldap_bind_password") (MaxResult l) in
            let p := MkProxy (cfg p) (sshConfig p) (packPubKey p) (allowedNets p) (allowedHosts p)
                       lc (negb (String.eqb (LdapHost l) "")) (packs p) in
            let packKey := if String.eqb (PackPublicKey c) "" then cred creds "pack_public_key"
                           else PackPublicKey c in
            if String.eqb packKey "" then (Ok tt, p)
            else
              match ParsePublicKey packKey with
              | Err e => (Err (wrapf "discovery: invalid pack_public_key: " e), p)
              | Ok pub =>
                  (Ok tt, MkProxy (cfg p) (sshConfig p) (Some pub) (allowedNets p) (allowedHosts p)
                            (ldapCfg p) (ldapConfigured p) (packs p))
              end
        end
  end.

(** ** Scope *)

(** [lookup] is [net.LookupHost]. *)
Definition isTargetAllowed (lookup : string → result (list string)) (p : Proxy) (host : string)
  : bool :=
  let in_nets ip := existsb (λ n, Contains_ip n ip) (allowedNets p) in
  match allowedNets p, allowedHosts p with
  | [], [] => true
  | _, _ =>
      if existsb (λ h, String.eqb h host) (allowedHosts p) then true
      else
        match ParseIP host with
        | Some ip => in_nets ip
        | None =>
            match lookup host with
            | Err _ => false
            | Ok addrs =>
                existsb (λ a, match ParseIP a with Some ip => in_nets ip | None => false end) addrs
            end
        end
  end.

Definition prefixWithinAny (requested : Prefix) (configured : list IPNet) : bool :=
  existsb (λ allowed,
    match To4 (net_ip allowed) with
    | None => false
    | Some ip4 =>
        let allowedPrefix := PrefixFrom (Addr4 (ip_val ip4)) (mask_ones (net_mask allowed)) in
        Contains_addr allowedPrefix (Some (p_addr requested))
        && (p_bits allowedPrefix <=? p_bits requested)
    end) configured.

(** [checked i] says that target [i] got a slot before the context ended. *)
Definition partitionTargetsByScope (lookup : string → result (list string)) (checked : nat → bool)
    (p : Proxy) (targets : list string) : list string * list TargetResult :=
  let verdicts := imap (λ i t, (t, checked i && isTargetAllowed lookup p t)) targets in
  (map fst (List.filter snd verdicts),
   map (λ v, new_target v.1 StatusError "target is outside this datasource's allowed_cidrs")
     (List.filter (λ v, negb v.2) verdicts)).

(** ** Responses *)

(** A map as a JSON object, keys in increasing order, and a member under omitempty. *)
Definition json_map {A} (f : A → json) (m : gmap string A) : json :=
  JObj (foldr (λ '(k, v) l, assoc_insert k (f v) l) [] (map_to_list m)).
Definition omit_map {A} (k : string) (f : A → json) (m : gmap string A) : list (string * json) :=
  if bool_decide (size m = 0%nat) then [] else [(k, json_map f m)].
Definition json_int (z : Z) : json := JNum (Itoa z).

Definition marshal_skipped (s : SkippedCollector) : json :=
  JObj [("id", JStr (SkippedID s)); ("reason", JStr (Reason s))].

(** [None] when a duration is not a JSON number. *)
Definition marshal_target (t : TargetResult) : option json :=
  d ← format_float (DurationS t);
  Some (JObj ([("host", JStr (Host t)); ("status", JStr (Status t))]
    ++ omit_empty "error" (TargetError t)
    ++ omit_map "facts" JStr (Facts t)
    ++ omit_map "collectors" JStr (Collected t)
    ++ omit_map "collector_exit_codes" json_int (CollectorExitCodes t)
    ++ omit_map "collector_truncated" JBool (CollectorTruncated t)
    ++ (if CollectorOutputLimitBytes t =? 0 then []
        else [("collector_output_limit_bytes", json_int (CollectorOutputLimitBytes t))])
    ++ omit_map "collector_errors" JStr (Failed t)
    ++ match Skipped t with
       | [] => []
       | l => [("skipped_collectors", JArr (map marshal_skipped l))]
       end
    ++ [("duration_seconds", JNum d)])).

Definition marshal_sweep_host (h : SweepHost) : json :=
  JObj ([("ip", JStr (HostIP h))] ++ omit_empty "mac" (MAC h) ++ omit_empty "rdns" (RDNS h)
        ++ match OpenPorts h with [] => [] | l => [("open_ports", JArr (map json_int l))] end
        ++ [("sources", JArr (map JStr (Sources h)))]
        ++ omit_empty "cloud_identity" (CloudIdentity h)).

Definition marshal_sweep (r : SweepResult) (elapsed : spec_float) : option json :=
  d ← format_float elapsed;
  Some (JObj [("cidrs", JArr (map JStr (CIDRs r))); ("addresses_scanned", json_int (Scanned r));
              ("rate_pps", json_int (RatePPS r)); ("addresses_excluded", json_int (Excluded r));
              ("hosts", JArr (map marshal_sweep_host (Hosts r))); ("duration_seconds", JNum d)]).

Definition marshal_computer (c : LDAPComputer) : json :=
  JObj ([("name", JStr (Name c))] ++ omit_empty "dns_name" (DNSName c) ++ omit_empty "os" (OS c)
        ++ omit_empty "os_version" (OSVersion c) ++ omit_empty "object_guid" (ObjectGUID c)
        ++ omit_empty "last_logon" (LastLogon c) ++ [("enabled", JBool (AccountEnabled c))]).

Definition marshal_ldap (r : LDAPResult) : option json :=
  d ← format_float (LdapDurationS r);
  Some (JObj [("base_dn", JStr (ResultBaseDN r)); ("active_within_days", json_int (ActiveWithin r));
              ("returned", json_int (Returned r)); ("skipped_stale", json_int (SkippedStale r));
              ("computers", JArr (map marshal_computer (Computers r))); ("duration_seconds", JNum d)]).

(** The response to an action whose result marshals. *)
Definition respond (req : ActionRequest) (what : string) (data : option json) : result ActionResponse :=
  match data with
  | Some j => Ok (MkResponse 200 "" (req_Action req) "" "" (Some j))
  | None => Err (wrapf (what +:+ ": marshalling results: ") json_error)
  end.

(** ** Actions *)

(** What the network, the resolver and the disk do during an action. *)
Record world := {
  d_lookup : string → result (list string);
  d_readFile : string → string → result string;    (* directory, file name *)
  d_checked : nat → bool;
  d_sweep : sweep_env;
  d_identity : nat → option host_env;
  d_hosts : nat → option host_env;
  d_ldap : ldap_env;
  d_elapsed : spec_float;
}.

(** What an action does on the network. *)
Inductive net_event :=
  | Probed (ip : string) (port : Z)
  | RanOn (host : string) (cmds : list string)
  | Identified (ip : string) (cmds : list string)
  | Directory (e : ldap_event).

Definition handleSweep (w : world) (p : Proxy) (req : ActionRequest)
  : result ActionResponse * list net_event :=
  match wrap_err "discovery_sweep: " (parseSweepParams (req_Params req) (MaxRatePPS (cfg p))) with
  | Err e => (Err e, [])
  | Ok sc =>
      match (if bool_decide (allowedNets p = []) then None
             else list_find (λ c, prefixWithinAny c (allowedNets p) = false) (cidrs sc)) with
      | Some (_, requested) =>
          (Err (errorf ("discovery_sweep: " +:+ Prefix_String requested
                        +:+ " is outside this datasource's allowed_cidrs")), [])
      | None =>
          match runSweep (d_sweep w) sc with
          | (Err e, probes) => (Err (wrapf "discovery_sweep: " e), map (uncurry Probed) probes)
          | (Ok r, probes) =>
              let '(hosts, dialed) :=
                match sshConfig p with
                | None => (Hosts r, [])
                | Some _ =>
                    enrichCloudIdentity (d_identity w) (Hosts r)
                      (MkExecConfig (Port (cfg p)) (Concurrency (cfg p)) cloudIdentityHostTimeout
                         cloudIdentityCommandTimeout cloudIdentityMaxOutputBytes
                         cloudIdentityDialTimeout)
                end in
              let r := MkSweepResult (CIDRs r) (Scanned r) (RatePPS r) (Excluded r) hosts in
              (respond req "discovery_sweep" (marshal_sweep r (d_elapsed w)),
               map (uncurry Probed) probes ++ map (uncurry Identified) dialed)
          end
      end
  end.

Definition handleLDAP (w : world) (p : Proxy) (req : ActionRequest)
  : result ActionResponse * list net_event :=
  if negb (ldapConfigured p)
  then (Err (errorf "discovery_ldap: no directory configured on this datasource"), [])
  else
    let given := as_string (req_Params req !! "base_dn") in
    let c := ldapCfg p in
    let c := if String.eqb given "" then c
             else MkLdapConfig (LdapHost c) (LdapPort c) (TLS c) (StartTLS c) (SkipVer c) given
                    (TimeoutS c) (PageSize c) (BindDN c) (BindPass c) (MaxResult c) in
    if String.eqb (BaseDN c) "" then (Err (errorf "discovery_ldap: base_dn is required"), [])
    else
      let activeWithin := pos_param (req_Params req) "active_within_days" defaultActiveWithinD in
      match runLDAPDiscovery (d_ldap w) c activeWithin with
      | (Err e, ev) => (Err (wrapf "discovery_ldap: " e), map Directory ev)
      | (Ok r, ev) => (respond req "discovery_ldap" (marshal_ldap r), map Directory ev)
      end.

Section packs.
Context `{Ed25519, Yaml}.

Definition verifyPack (p : Proxy) (raw : string) : result Pack :=
  match packPubKey p with
  | None => Err (errorf "cannot verify content pack: no pack public key configured")
  | Some pubKey => ParseAndVerify raw pubKey
  end.

Definition pack_file (version : Z) : string := "linux-inventory-v" +:+ Itoa version +:+ ".yaml".

Definition resolvePack (w : world) (p : Proxy) (params : gmap string any) : result Pack * Proxy :=
  match intParam params "content_pack_version" with
  | None => (Err (errorf "content_pack_version is required"), p)
  | Some version =>
      if version <=? 0
      then (Err (errorf ("content_pack_version must be positive, got " +:+ Itoa version)), p)
      else
        match packs p !! version with
        | Some cached => (Ok cached, p)
        | None =>
            if String.eqb (PackDir (cfg p)) ""
            then (Err (errorf ("content pack version " +:+ Itoa version
                               +:+ " not cached and no pack_dir configured")), p)
            else
              match d_readFile w (PackDir (cfg p)) (pack_file version) with
              | Err e => (Err (wrapf ("loading content pack version " +:+ Itoa version +:+ ": ") e), p)
              | Ok raw =>
                  match verifyPack p raw with
                  | Err e => (Err e, p)
                  | Ok pack =>
                      if negb (Version pack =? version)
                      then (Err (errorf ("content pack version mismatch: requested " +:+ Itoa version
                                         +:+ ", pack declares " +:+ Itoa (Version pack))), p)
                      else (Ok pack, set_packs p (<[version := pack]> (packs p)))
                  end
              end
        end
  end.

(** The settings of an inventory run: the request may lower or raise the concurrency
    up to the maximum. *)
Definition exec_config (c : Config) (params : gmap string any) : execConfig :=
  let conc := match intParam params "concurrency" with
              | Some v => if (0 <? v) && (v <=? maxConcurrency) then v else Concurrency c
              | None => Concurrency c
              end in
  MkExecConfig (Port c) conc (wrap64 (HostTimeoutS c * Second)) (wrap64 (CommandTimeS c * Second))
    (MaxOutputBytes c) (wrap64 (DialTimeoutS c * Second)).

Definition handleInventory (w : world) (p : Proxy) (req : ActionRequest)
  : result ActionResponse * Proxy * list net_event :=
  match wrap_err "discovery_inventory: " (stringSliceParam (req_Params req) "targets") with
  | Err e => (Err e, p, [])
  | Ok [] => (Err (errorf "discovery_inventory: targets is required"), p, [])
  | Ok targets =>
      let n := Z.of_nat (length targets) in
      if maxTargetsPerRequest <? n
      then (Err (errorf ("discovery_inventory: " +:+ Itoa n +:+ " targets exceeds limit of "
                         +:+ Itoa maxTargetsPerRequest)), p, [])
      else
        match resolvePack w p (req_Params req) with
        | (Err e, p) => (Err (wrapf "discovery_inventory: " e), p, [])
        | (Ok pack, p) =>
            match sshConfig p with
            | None =>
                (Err (errorf "discovery_inventory: this datasource has no ssh credentials configured"),
                 p, [])
            | Some _ =>
                let '(allowed, rejected) :=
                  partitionTargetsByScope (d_lookup w) (d_checked w) p targets in
                let run := runInventory (d_hosts w) allowed pack (exec_config (cfg p) (req_Params req)) in
                let results := map fst run ++ rejected in
                let data :=
                  l ← mapM marshal_target results;
                  Some (JObj [("content_pack_version", json_int (Version pack)); ("targets", JArr l)]) in
                (respond req "discovery_inventory" data, p,
                 map (λ r, RanOn (Host r.1) r.2) run)
            end
        end
  end.

Definition HandleRequest (w : world) (p : Proxy) (req : ActionRequest)
  : result ActionResponse * Proxy * list net_event :=
  let a := req_Action req in
  if String.eqb a "discovery_inventory" then handleInventory w p req
  else if String.eqb a "discovery_sweep" then let '(r, ev) := handleSweep w p req in (r, p, ev)
  else if String.eqb a "discovery_ldap" then let '(r, ev) := handleLDAP w p req in (r, p, ev)
  else (Err (errorf ("unknown discovery action: " +:+ a)), p, []).
End packs.

Definition Close (p : Proxy) : Proxy := set_packs p ∅.

(** ** Health and metadata *)

Definition HealthCheck (p : Proxy) : result unit :=
  let missing :=
    (if bool_decide (sshConfig p = None) then ["ssh credentials"] else [])
    ++ (if bool_decide (packPubKey p = None) then ["pack_public_key"] else [])
    ++ (if String.eqb (PackDir (cfg p)) "" then ["pack_dir"] else []) in
  match missing, allowedNets p, allowedHosts p with
  | _ :: _, [], [] =>
      Err (errorf ("discovery datasource is unconfigured: no allowed_cidrs, and inventory is missing "
                   +:+ Join missing ", "))
  | _, _, _ => Ok tt
  end.

Definition Actions (p : Proxy) : list string :=
  ["discovery_sweep"]
  ++ (if ldapConfigured p then ["discovery_ldap"] else [])
  ++ (match sshConfig p, packPubKey p with Some _, Some _ => ["discovery_inventory"] | _, _ => [] end).

Definition scope (p : Proxy) : list string := map IPNet_String (allowedNets p) ++ allowedHosts p.

(** [^linux-inventory-v(\d+)\.yaml$]: the digits. *)
Definition packVersionPattern (name : string) : option string :=
  match strip_prefix "linux-inventory-v" name with
  | None => None
  | Some rest =>
      match span is_digit rest with
      | ("", _) => None
      | (ds, tail) => if String.eqb tail ".yaml" then Some ds else None
      end
  end.

(** [readDir] lists names with whether they are directories. *)
Definition packVersions (readDir : string → result (list (string * bool))) (p : Proxy) : list Z :=
  if String.eqb (PackDir (cfg p)) "" then []
  else
    match readDir (PackDir (cfg p)) with
    | Err _ => []
    | Ok entries =>
        merge_sort Z.le
          (list_omap _ _ (λ '(name, isDir),
             if (isDir : bool) then None
             else match packVersionPattern name with
                  | Some ds => match Atoi ds with
                               | Some v => if v <=? 0 then None else Some v
                               | None => None
                               end
                  | None => None
                  end) entries)
    end.

Definition CollectMetadata (readDir : string → result (list (string * bool))) (p : Proxy)
  : gmap string any :=
  let meta := {["actions" := AStrs (Actions p)]} in
  let meta := match packVersions readDir p with
              | [] => meta
              | l => <["pack_versions" := AList (map AInt l)]> meta
              end in
  match scope p with [] => meta | l => <["allowed_cidrs" := AStrs l]> meta end.
