(* ===== verification/DiscoveryFacts.v ===== *)
(** * Discovery: scope, signed commands and complete answers *)

From S2P Require Import Prelude GoStrings GoJson GoAny GoTime GoBase64 NetIP NetPrefix Signing.
From S2P Require Import SigningTheorems Registry Ssh When WhenFacts Pack PackFacts Sweep SweepFacts.
From S2P Require Import Inventory Ldap Discovery.
From Stdlib Require Import SpecFloat.
#[local] Open Scope Z_scope.

(** ** Networks of the allowlist *)

(** The networks [parse_cidr] yields. *)
Inductive cidr_net : IPNet → Prop :=
  | Net4 v n : 0 ≤ v < 2 ^ 32 → 0 ≤ n ≤ 32 → cidr_net (v4_net v n)
  | Host4 v : 0 ≤ v < 2 ^ 32 → cidr_net (MkIPNet (MkIP 16 (v4InV6 v)) (CIDRMask 32 32))
  | Net6 v n : 0 ≤ n ≤ 128 →
      cidr_net (MkIPNet (MkIP 16 (Z.land v (Z.shiftl (Z.ones n) (128 - n)))) (CIDRMask n 128))
  | Host6 v : cidr_net (MkIPNet (MkIP 16 v) (CIDRMask 128 128)).

Lemma parse_cidr_net c n : parse_cidr c = inl n → cidr_net n.
Proof.
  unfold parse_cidr. destruct (ParseCIDR c) as [[ip net]|] eqn:Ec.
  - intros [= <-]. unfold ParseCIDR in Ec. destruct (Cut c "/") as [[a m] []]; [|done].
    destruct (ParseAddr a) as [ad|] eqn:Ea; [|done]. destruct (dtoi m) as [k|] eqn:Ek; [|done].
    destruct (negb (String.eqb (Zone ad) "")); [done|]. cbn [orb] in Ec.
    destruct (Z.ltb_spec (BitLen ad) k); [done|]. injection Ec as _ <-. apply dtoi_range in Ek.
    destruct ad as [v|v z]; cbn [BitLen] in *.
    + apply ParseAddr_range in Ea. by apply (Net4 v k).
    + apply (Net6 v k). lia.
  - destruct (ParseIP c) as [ip|] eqn:Ei; [|done]. unfold ParseIP in Ei.
    destruct (ParseAddr c) as [ad|] eqn:Ea; [|done]. case_match; [|done]. injection Ei as <-.
    destruct (To4 (As16 ad)) as [ip4|] eqn:E4; intros [= <-].
    + destruct ad as [v|v z]; cbn [As16] in *.
      * apply ParseAddr_range in Ea. by constructor.
      * apply To4_16 in E4 as (w & Hw & -> & _). by constructor.
    + destruct ad as [v|v z]; cbn [As16] in *; constructor.
Qed.

Lemma div_pow_coarser x y a b :
  0 ≤ a ≤ b → x / 2 ^ a = y / 2 ^ a → x / 2 ^ b = y / 2 ^ b.
Proof.
  intros Hab E. replace b with (a + (b - a)) by lia. rewrite Z.pow_add_r by lia.
  assert (0 < 2 ^ a) by (apply Z.pow_pos_nonneg; lia).
  assert (0 < 2 ^ (b - a)) by (apply Z.pow_pos_nonneg; lia).
  rewrite <- !Z.div_div by lia. by rewrite E.
Qed.

(** A requested network within an allowed IPv4 one. *)
Lemma within_v4 v n p x :
  0 ≤ v < 2 ^ 32 → 0 ≤ n ≤ 32 → wf_prefix4 p → 0 ≤ x < 2 ^ 32 → in_net p x →
  Contains_addr (PrefixFrom (Addr4 (prefix_base v n)) n) (Some (p_addr p))
    && (p_bits (PrefixFrom (Addr4 (prefix_base v n)) n) <=? p_bits p) = true →
  Contains_ip (v4_net v n) (MkIP 16 (v4InV6 x)) = true.
Proof.
  intros Hv Hn (w & Ew & Hw & Hb) Hx Hin. destruct p as [a b]. cbn [p_addr p_bits] in *. subst a.
  unfold PrefixFrom. cbn [BitLen]. rewrite (proj2 (Z.leb_le 0 n)), (proj2 (Z.leb_le n 32)) by lia.
  cbn [andb p_bits]. rewrite andb_true_iff, Z.leb_le. intros [Hc Hle].
  pose proof (prefix_base_range v n Hv Hn). assert (0 < 2 ^ (32 - n)) by (apply Z.pow_pos_nonneg; lia).
  apply Contains_addr4 in Hc; [|lia|done|done]. unfold in_net in Hin.
  apply Contains_addr4 in Hin; [|done|done|done]. apply Contains_v4; [done..|].
  apply (div_pow_coarser _ _ (32 - b) (32 - n)) in Hin; [|lia]. rewrite <- Hin, <- Hc.
  unfold prefix_base. by rewrite Z.div_mul by lia.
Qed.

Lemma within_sound nets p x :
  Forall cidr_net nets → wf_prefix4 p → 0 ≤ x < 2 ^ 32 → in_net p x →
  prefixWithinAny p nets = true →
  existsb (λ n, Contains_ip n (MkIP 16 (v4InV6 x))) nets = true.
Proof.
  intros Hn Hp Hx Hin. unfold prefixWithinAny. rewrite !existsb_exists. intros (n & Hn' & H).
  exists n. split; [done|]. rewrite Forall_forall in Hn. apply list_elem_of_In, Hn in Hn'.
  destruct Hn' as [v k Hv Hk|v Hv|v k Hk|v].
  - rewrite To4_v4_net in H by done. cbn [net_mask v4_net ip_val] in H. rewrite mask_ones_v4 in H by done.
    by apply (within_v4 v k p x).
  - cbn [net_ip net_mask] in H. rewrite To4_v4, mask_ones_v4 in H by lia. rewrite Contains_single by done.
    apply (within_v4 v 32 p x); [lia..|done|done|done|]. unfold prefix_base.
    change (2 ^ (32 - 32)) with 1. by rewrite Z.div_1_r, Z.mul_1_r.
  - cbn [net_ip net_mask] in H. rewrite mask_ones_v6 in H by done.
    destruct (decide (k ≤ 32)); [rewrite To4_v6_short in H by lia; done|].
    destruct (To4 _); [|done]. unfold PrefixFrom in H. cbn [BitLen] in H.
    rewrite (proj2 (Z.leb_gt k 32)) in H by lia. by rewrite andb_false_r in H.
  - cbn [net_ip net_mask] in H. rewrite mask_ones_v6 in H by lia. by destruct (To4 _).
Qed.

(** ** Runs of a proxy *)

Section runs.
Context `{SshLib, E : Ed25519, KeyFormats, Y : Yaml}.

Inductive operation :=
  | OpConfigure (conf : gmap string any) (creds : gmap string string)
  | OpRequest (w : world) (req : ActionRequest)
  | OpClose.

Definition step (p : Proxy) (o : operation) : Proxy * list net_event :=
  match o with
  | OpConfigure conf creds => ((Configure p conf creds).2, [])
  | OpRequest w req => let '(_, p, ev) := HandleRequest w p req in (p, ev)
  | OpClose => (Close p, [])
  end.

(** From a new proxy, by any operations in any order: the states passed through, each
    with the keys it ever had and everything done on the network so far. *)
Inductive run : Proxy → gset string → list net_event → Prop :=
  | run_new : run New ∅ []
  | run_step p keys ev o p' ev' :
      run p keys ev → step p o = (p', ev') →
      run p' (match packPubKey p' with Some k => {[k]} | None => ∅ end ∪ keys) (ev ++ ev').

(** A pack the verifier accepted under a key. *)
Definition accepted (key : string) (pack : Pack) : Prop :=
  ∃ raw sig p0, countSignatureLines raw = 1%nat ∧ yaml_Unmarshal raw = Ok p0
    ∧ DecodeString (PackSignature p0) = Some sig ∧ ed_verify key (SignedBytes raw) sig = true
    ∧ validate p0 = Ok pack.

Lemma ParseAndVerify_accepted raw key pack : ParseAndVerify raw key = Ok pack → accepted key pack.
Proof.
  unfold ParseAndVerify. intros H'. apply bind_Ok in H' as (? & _ & H').
  apply bind_Ok in H' as (? & _ & H'). destruct (splitSignatureLine raw) as [body n] eqn:Es.
  apply bind_Ok in H' as (? & Hn%fail_if_Ok & H'). apply bind_Ok in H' as (p0 & Hy%wrap_err_Ok & H').
  apply bind_Ok in H' as (? & _ & H'). apply bind_Ok in H' as (? & _ & H').
  destruct (DecodeString (PackSignature p0)) as [sig|] eqn:Ed; [|done].
  destruct (ed_verify key body sig) eqn:Ev; [|done]. cbn [negb] in H'.
  exists raw, sig, p0. unfold countSignatureLines, SignedBytes. rewrite Es. cbn [fst snd].
  apply negb_false_iff, Nat.eqb_eq in Hn. done.
Qed.

(** ** Invariant *)

Record proxy_inv (p : Proxy) (keys : gset string) : Prop := {
  inv_nets : Forall cidr_net (allowedNets p);
  inv_key : ∀ k, packPubKey p = Some k → k ∈ keys;
  inv_packs : ∀ v pack, packs p !! v = Some pack →
                Version pack = v ∧ ∃ key, key ∈ keys ∧ accepted key pack;
}.

Lemma parse_cidrs_net l :
  Forall cidr_net (list_omap _ _ (λ c, match parse_cidr c with inl n => Some n | inr _ => None end) l).
Proof.
  apply Forall_forall. intros n (c & _ & Hc)%list_elem_of_omap.
  destruct (parse_cidr c) eqn:Ec; [|done]. injection Hc as <-. by apply parse_cidr_net in Ec.
Qed.

Lemma Configure_inv p conf creds :
  let p' := (Configure p conf creds).2 in
  packs p' = packs p ∧ (Forall cidr_net (allowedNets p) → Forall cidr_net (allowedNets p'))
  ∧ (packPubKey p' = packPubKey p ∨ is_Some (packPubKey p')).
Proof.
  unfold Configure. destruct (marshal_any_map conf) as [j|]; [|by auto].
  destruct (dec_struct Config_field zero_config j) as [c []]; [|by auto]. cbn [negb].
  destruct (ssh_settings _ creds); [|by auto]. cbn [cfg sshConfig packPubKey allowedNets packs
    parseAllowedCIDRs set_ssh].
  repeat case_match; cbn [fst snd packs allowedNets packPubKey];
    (split; [done|split; [intros _; apply parse_cidrs_net|by eauto]]).
Qed.

Lemma resolvePack_inv w p params keys :
  proxy_inv p keys → proxy_inv (resolvePack w p params).2 keys ∧
  ∀ pack, (resolvePack w p params).1 = Ok pack → ∃ key, key ∈ keys ∧ accepted key pack.
Proof.
  intros Hi. pose proof Hi as [Hn Hk Hp]. unfold resolvePack.
  destruct (intParam params "content_pack_version") as [v|]; [|done]. case_match; [done|].
  destruct (packs p !! v) as [cached|] eqn:Ec.
  { split; [done|]. intros pack [= <-]. by apply (Hp v). }
  case_match; [done|]. destruct (d_readFile _ _ _) as [raw|]; [|done].
  destruct (verifyPack p raw) as [pack|] eqn:Ev; [|done].
  destruct (Version pack =? v) eqn:Eq; [|done]. apply Z.eqb_eq in Eq. cbn [negb fst snd].
  unfold verifyPack in Ev. destruct (packPubKey p) as [key|] eqn:Epk; [|done].
  apply ParseAndVerify_accepted in Ev.
  split; [|intros ? [= <-]; by eauto]. constructor; cbn [set_packs allowedNets packPubKey packs].
  - done.
  - by rewrite Epk.
  - intros v' pack'. destruct (decide (v = v')) as [<-|Hne].
    + rewrite lookup_insert_eq. intros [= <-]. eauto.
    + rewrite lookup_insert_ne by done. apply Hp.
Qed.

(** ** What runs on a host *)

Lemma collect_cmds he limit n l res : (collect he limit n l res).2 `prefix_of` map Cmd l.
Proof.
  revert n res. induction l as [|c l IH]; intros n res; simpl; [done|].
  destruct (he_expired he n); [apply prefix_nil|].
  specialize (IH (S n) (record_output res (ID c) (runCommand (he_run he n (Cmd c)) limit))).
  destruct (collect _ _ _ _ _) as [res' cmds]. cbn [snd] in *. by apply prefix_cons.
Qed.

Lemma collect_host he limit n l res :
  Host (collect he limit n l res).1 = Host res ∧ DurationS (collect he limit n l res).1 = DurationS res.
Proof.
  revert n res. induction l as [|c l IH]; intros n res; simpl; [done|].
  destruct (he_expired he n); [done|].
  specialize (IH (S n) (record_output res (ID c) (runCommand (he_run he n (Cmd c)) limit))).
  destruct (collect _ _ _ _ _) as [res' cmds]. cbn [fst] in *. rewrite !(proj1 IH), !(proj2 IH).
  by destruct (runCommand _ _).
Qed.

(** The probe of the facts first, then the selected collectors in pack order. *)
Lemma inventoryHost_cmds he h pack c :
  ∃ facts, (inventoryHost he h pack c).2 `prefix_of` factsProbe :: map Cmd (Select pack facts).1.
Proof.
  unfold inventoryHost, inventory_body. destruct (dial he h c); [|exists ∅; apply prefix_nil].
  destruct (runCommand (he_probe he factsProbe) _) as [o|]; [|exists ∅; by apply prefix_cons, prefix_nil].
  exists (parseFacts (co_stdout o)). destruct (Select pack _) as [cs sk].
  match goal with |- context [collect ?a ?b ?n ?l ?r] => pose proof (collect_cmds a b n l r) end.
  destruct (collect _ _ _ _ _) as [res cmds]. by apply prefix_cons.
Qed.

Lemma inventoryHost_host he h pack c :
  Host (inventoryHost he h pack c).1 = h ∧ DurationS (inventoryHost he h pack c).1 = S754_zero false.
Proof.
  unfold inventoryHost, inventory_body. destruct (dial he h c); [|done].
  destruct (runCommand (he_probe he factsProbe) _) as [o|]; [|done]. destruct (Select pack _) as [cs sk].
  match goal with |- context [collect ?a ?b ?n ?l ?r] => pose proof (collect_host a b n l r) end.
  by destruct (collect _ _ _ _ _) as [res cmds].
Qed.

Lemma runInventory_hosts env targets pack c :
  map (λ r, Host r.1) (runInventory env targets pack c) = targets
  ∧ Forall (λ r, DurationS r.1 = S754_zero false
                 ∧ ∃ facts, r.2 `prefix_of` factsProbe :: map Cmd (Select pack facts).1)
      (runInventory env targets pack c).
Proof.
  unfold runInventory. revert env. induction targets as [|t l IH]; intros env; [done|].
  rewrite imap_cons. destruct (IH (λ i, env (S i))) as [IH1 IH2]. cbn [map]. split.
  - f_equal; [|exact IH1]. destruct (env 0%nat); [apply inventoryHost_host|done].
  - constructor; [|exact IH2]. destruct (env 0%nat) as [he|].
    + split; [apply inventoryHost_host|apply inventoryHost_cmds].
    + split; [done|]. exists ∅. apply prefix_nil.
Qed.

(** An inventory request: its state is that of resolving the pack, and what it runs
    comes from the pack resolved, on targets that were allowed. *)
Lemma handleInventory_events w p req r p' ev :
  handleInventory w p req = (r, p', ev) →
  (p' = p ∧ ev = []) ∨
  (p' = (resolvePack w p (req_Params req)).2 ∧
   (ev = [] ∨ ∃ pack targets,
     (resolvePack w p (req_Params req)).1 = Ok pack ∧
     ev = map (λ r, RanOn (Host r.1) r.2)
            (runInventory (d_hosts w)
               (partitionTargetsByScope (d_lookup w) (d_checked w) p' targets).1 pack
               (exec_config (cfg p') (req_Params req))))).
Proof.
  unfold handleInventory. destruct (wrap_err _ _) as [[|t l]|e]; [naive_solver| |naive_solver].
  case_match; [naive_solver|].
  destruct (resolvePack w p (req_Params req)) as [[pack|e] q]; [|naive_solver].
  destruct (sshConfig q); [|naive_solver].
  destruct (partitionTargetsByScope (d_lookup w) (d_checked w) q (t :: l)) as [al rej] eqn:Ep.
  intros [= <- <- <-]. right. split; [done|]. right. exists pack, (t :: l). by rewrite Ep.
Qed.

Lemma HandleRequest_state w p req r p' ev :
  HandleRequest w p req = (r, p', ev) → p' = p ∨ p' = (resolvePack w p (req_Params req)).2.
Proof.
  unfold HandleRequest. case_match.
  - intros [[-> _]|[-> _]]%handleInventory_events; auto.
  - case_match; [destruct (handleSweep w p req); naive_solver|].
    case_match; [destruct (handleLDAP w p req)|]; naive_solver.
Qed.

Lemma resolvePack_same w p params :
  let p' := (resolvePack w p params).2 in
  cfg p' = cfg p ∧ allowedNets p' = allowedNets p ∧ allowedHosts p' = allowedHosts p
  ∧ packPubKey p' = packPubKey p.
Proof. unfold resolvePack. by repeat case_match. Qed.

Definition with_key (p : Proxy) (keys : gset string) : gset string :=
  match packPubKey p with Some k => {[k]} | None => ∅ end ∪ keys.

Lemma step_inv p keys o p' ev :
  proxy_inv p keys → step p o = (p', ev) → proxy_inv p' (with_key p' keys).
Proof.
  intros Hi Hs. assert (∀ q, proxy_inv q keys → proxy_inv q (with_key q keys)) as Hw.
  { intros q [Hn Hk Hp]. unfold with_key. constructor; [done| |].
    - intros k Hk'. rewrite Hk'. set_solver.
    - intros v pack (Hv & key & Hkey & Ha)%Hp. split; [done|]. exists key. set_solver. }
  destruct o as [conf creds|w req|]; cbn [step] in Hs.
  - injection Hs as <- <-. destruct (Configure_inv p conf creds) as (Hpk & Hn & _).
    destruct Hi as [Hn' Hk Hp]. unfold with_key. constructor; [by apply Hn| |].
    + intros k ->. set_solver.
    + rewrite Hpk. intros v pack (Hv & key & Hkey & Ha)%Hp. split; [done|]. exists key. set_solver.
  - destruct (HandleRequest w p req) as [[r q] e] eqn:E'. injection Hs as <- <-. apply Hw.
    apply HandleRequest_state in E' as [-> | ->]; [done|]. by apply resolvePack_inv.
  - injection Hs as <- <-. apply Hw. destruct Hi as [Hn Hk _]. constructor; cbn [Close set_packs]; [done|done|].
    intros v pack. simpl. by rewrite lookup_empty.
Qed.

Lemma run_inv p keys ev : run p keys ev → proxy_inv p keys.
Proof.
  induction 1 as [|p keys ev o p' ev' _ IH Hs]; [|by eapply step_inv].
  constructor; simpl; [done|done|]. intros v pack. by rewrite lookup_empty.
Qed.

(** A host was sent a prefix of what a pack accepted under one of the keys selects. *)
Definition signed_run (keys : gset string) (e : net_event) : Prop :=
  match e with
  | RanOn _ cmds =>
      ∃ key pack facts, key ∈ keys ∧ accepted key pack
        ∧ cmds `prefix_of` factsProbe :: map Cmd (Select pack facts).1
  | Identified _ cmds => cmds `prefix_of` [cloudIdentityProbeCmd]
  | _ => True
  end.

(** The commands that an event sends to a host. *)
Definition commands_on (e : net_event) : option (string * list string) :=
  match e with RanOn host cmds | Identified host cmds => Some (host, cmds) | _ => None end.

Lemma signed_run_mono keys keys' e : keys ⊆ keys' → signed_run keys e → signed_run keys' e.
Proof. intros Hk. destruct e; [done| |done|done]. intros (key & pack & facts & ? & ?). exists key. set_solver. Qed.

(** What asking for a cloud identity does: a script fixed in the program, on hosts that
    the sweep found. *)
Lemma enrich_spec env hosts c ip cmds :
  (ip, cmds) ∈ (enrichCloudIdentity env hosts c).2 →
  ip ∈ map HostIP hosts ∧ cmds `prefix_of` [cloudIdentityProbeCmd].
Proof.
  unfold enrichCloudIdentity. cbn [snd]. rewrite list_elem_of_In, in_concat.
  intros (l & ((h' & l') & <- & Hin)%in_map_iff & Hip). cbn [snd] in Hip.
  apply list_elem_of_In, elem_of_lookup_imap in Hin as (i & h & E' & Hh).
  apply list_elem_of_lookup_2 in Hh. repeat case_match; simplify_eq; simpl in Hip; try done;
    destruct Hip as [[= <- <-]|[]]; (split; [by apply list_elem_of_fmap_2|]); done || apply prefix_nil.
Qed.

Lemma HandleRequest_signed w p req r p' ev keys :
  proxy_inv p keys → HandleRequest w p req = (r, p', ev) → Forall (signed_run keys) ev.
Proof.
  intros Hi. unfold HandleRequest. case_match.
  - intros [[_ ->]|[-> [-> | (pack & targets & Hpack & ->)]]]%handleInventory_events; [done|done|].
    apply (resolvePack_inv w p (req_Params req)) in Hi as [_ Hi].
    destruct (Hi pack Hpack) as (key & Hkey & Ha).
    apply Forall_map. eapply Forall_impl; [apply runInventory_hosts|].
    intros [t cmds] [_ [facts Hf]]. cbn [signed_run compose]. by exists key, pack, facts.
  - case_match.
    + destruct (handleSweep w p req) as [r' e] eqn:Es. intros [= <- <- <-].
      assert (∀ l : list (string * Z), Forall (signed_run keys) (map (uncurry Probed) l)) as Hpr
        by (intros l; apply Forall_map, Forall_forall; by intros []).
      unfold handleSweep in Es. repeat case_match; simplify_eq; try done.
      all: apply Forall_app; split; [done|]; try done; apply Forall_map, Forall_forall; intros [ip cmds] Hin; cbn;
        eapply (enrich_spec _ _ _ ip cmds);
        by match goal with E : enrichCloudIdentity _ _ _ = _ |- _ => rewrite E end.
    + case_match; [|by intros [= <- <- <-]]. destruct (handleLDAP w p req) as [r' e] eqn:Es.
      intros [= <- <- <-]. unfold handleLDAP in Es.
      repeat case_match; simplify_eq; try done; apply Forall_map, Forall_forall; by intros [].
Qed.

(** C5. Nothing runs on a host but what is signed, or one of two scripts fixed in the
    program. Whatever configurations, requests and closings a discovery proxy goes
    through, and whatever the disk, the network and the hosts answer, the commands sent
    to a host are either the cloud identity probe of a sweep alone, or, for an
    inventory, the facts probe and after it, in order, commands that a pack selects for
    some facts; that pack has exactly one signature line, its signature over the rest
    verifies under a key this proxy was configured with, and its content passed
    validation. *)
Theorem commands_signed p keys ev e host cmds :
  run p keys ev → e ∈ ev → commands_on e = Some (host, cmds) →
  (e = Identified host cmds ∧ cmds `prefix_of` [cloudIdentityProbeCmd])
  ∨ (e = RanOn host cmds
     ∧ ∃ key pack facts, key ∈ keys ∧ accepted key pack
         ∧ cmds `prefix_of` factsProbe :: map Cmd (Select pack facts).1).
Proof.
  intros Hr Hin Hc. assert (Forall (signed_run keys) ev) as Hall.
  { clear Hin Hc e. induction Hr as [|p keys ev o p' ev' Hr IH Hs]; [done|]. apply Forall_app. split.
    - eapply Forall_impl; [exact IH|]. intros e. apply signed_run_mono. set_solver.
    - pose proof (run_inv _ _ _ Hr) as Hi. destruct o as [conf creds|w req|]; cbn [step] in Hs.
      + by injection Hs as <- <-.
      + destruct (HandleRequest w p req) as [[r q] e] eqn:E'. injection Hs as <- <-.
        eapply Forall_impl; [by eapply HandleRequest_signed|]. intros e'. apply signed_run_mono. set_solver.
      + by injection Hs as <- <-. }
  rewrite Forall_forall in Hall. specialize (Hall _ Hin). destruct e; try done; injection Hc as -> ->; auto.
Qed.

(** ** Scope *)

Definition contacted (e : net_event) : list string :=
  match e with
  | Probed ip _ => [ip]
  | RanOn h _ => [h]
  | Identified ip _ => [ip]
  | Directory (LdapDial host _ _) => [host]
  | Directory _ => []                       (* on the connection that was dialled *)
  end.

Lemma allowed_v4 lookup p x :
  0 ≤ x < 2 ^ 32 → allowedNets p ≠ [] →
  existsb (λ n, Contains_ip n (MkIP 16 (v4InV6 x))) (allowedNets p) = true →
  isTargetAllowed lookup p (v4_String x) = true.
Proof.
  intros Hx Hne Hc. unfold isTargetAllowed. destruct (allowedNets p) as [|n l]; [done|].
  case_match; [done|]. by rewrite (ParseIP_v4 _ x (parseIPv4_String x Hx)).
Qed.

(** Every address a sweep contacts is one its request expands to. *)
Lemma handleSweep_contacts w p req r ev e ip :
  honest (d_sweep w) → handleSweep w p req = (r, ev) → e ∈ ev → ip ∈ contacted e →
  ∃ sc addrs k, parseSweepParams (req_Params req) (MaxRatePPS (cfg p)) = Ok sc
    ∧ expandCIDRs (cidrs sc) (exclusions sc) = Ok (addrs, k) ∧ ip ∈ addrs
    ∧ (allowedNets p = [] ∨ Forall (λ c, prefixWithinAny c (allowedNets p) = true) (cidrs sc)).
Proof.
  intros Hh Hs He Hip. unfold handleSweep in Hs.
  destruct (parseSweepParams _ _) as [sc|] eqn:Esc; cbn [wrap_err] in Hs;
    [|injection Hs as _ <-; by apply not_elem_of_nil in He].
  destruct (parseSweepParams_bounds _ _ _ Esc) as (Hwf & _).
  assert ((if bool_decide (allowedNets p = []) then None
           else list_find (λ c, prefixWithinAny c (allowedNets p) = false) (cidrs sc)) = None →
          allowedNets p = [] ∨ Forall (λ c, prefixWithinAny c (allowedNets p) = true) (cidrs sc)) as Hsc.
  { case_bool_decide; [by left|]. rewrite list_find_None. right.
    eapply Forall_impl; [eassumption|]. intros c Hc. by apply not_false_iff_true. }
  destruct (if bool_decide _ then _ else _) as [[i c]|];
    [injection Hs as _ <-; by apply not_elem_of_nil in He|]. specialize (Hsc eq_refl).
  destruct (runSweep (d_sweep w) sc) as [[rs|err] probes] eqn:Er.
  2: { unfold runSweep in Er. destruct (expandCIDRs _ _) as [[]|]; [done|]. injection Er as _ <-.
       injection Hs as _ <-. by apply not_elem_of_nil in He. }
  destruct (runSweep_ok _ _ _ _ Er) as (addrs & Hex & _ & Hhosts & Hprobes).
  assert (∀ ip, ip ∈ map HostIP (Hosts rs) → ip ∈ addrs) as Hfound.
  { intros a Ha. rewrite Hhosts, sortHosts_ips in Ha by (by intros ? ? []%responders_spec).
    apply list_elem_of_fmap in Ha as ([k h] & -> & (_ & Hin & _)%elem_of_map_to_list%responders_spec).
    destruct Hh as [Ht Hf]. by apply Ht, Hf. }
  exists sc, addrs, (Excluded rs). split_and!; [done|done| |done].
  assert (e ∈ map (uncurry Probed) probes ∨ ∃ a c, e = Identified a c ∧ a ∈ map HostIP (Hosts rs)) as Hcase.
  { destruct (sshConfig p).
    - destruct (enrichCloudIdentity (d_identity w) (Hosts rs) _) as [hs dialed] eqn:Een.
      injection Hs as _ <-. apply elem_of_app in He as [He|He]; [by left|right].
      apply list_elem_of_fmap in He as ([a cs] & -> & Ha). exists a, cs. split; [done|].
      eapply (enrich_spec _ _ _ a cs). by rewrite Een.
    - injection Hs as _ <-. rewrite List.app_nil_r in He. by left. }
  destruct Hcase as [He'|(a & cmds & -> & Ha)].
  - apply list_elem_of_fmap in He' as ([a q] & -> & Ha). simpl in Hip. apply list_elem_of_singleton in Hip as ->.
    rewrite Hprobes in Ha. apply list_elem_of_In, in_flat_map in Ha as (b & Hb & (? & [= -> _] & _)%in_map_iff).
    apply list_elem_of_In in Hb. by apply Hh.
  - simpl in Hip. apply list_elem_of_singleton in Hip as ->. by apply Hfound.
Qed.

Lemma partition_allowed lookup checked p targets t :
  t ∈ (partitionTargetsByScope lookup checked p targets).1 → isTargetAllowed lookup p t = true.
Proof.
  unfold partitionTargetsByScope. cbn [fst]. intros ([t' v] & -> & Hin)%list_elem_of_fmap.
  apply list_elem_of_In, filter_In in Hin as [Hin Hv]. cbn [snd fst] in *.
  apply list_elem_of_In, elem_of_lookup_imap in Hin as (i & t & [= -> ->] & _).
  by apply andb_true_iff in Hv as [_ Hv].
Qed.

(** What the directory action contacts is the server it is configured with. *)
Lemma handleLDAP_contacts w p req r ev e host :
  handleLDAP w p req = (r, ev) → e ∈ ev → host ∈ contacted e → host = LdapHost (ldapCfg p).
Proof.
  intros Hs He Hhost. unfold handleLDAP in Hs. case_match; [injection Hs as _ <-; by apply not_elem_of_nil in He|].
  set (c := if String.eqb (as_string (req_Params req !! "base_dn")) "" then _ else _) in Hs.
  assert (LdapHost c = LdapHost (ldapCfg p)) as <- by (unfold c; by destruct (String.eqb (as_string (req_Params req !! "base_dn")) "")).
  case_match; [injection Hs as _ <-; by apply not_elem_of_nil in He|].
  assert (e ∈ map Directory (runLDAPDiscovery (d_ldap w) c
            (pos_param (req_Params req) "active_within_days" defaultActiveWithinD)).2) as He'
    by (destruct (runLDAPDiscovery _ _ _) as [[]]; by injection Hs as _ <-).
  apply list_elem_of_fmap in He' as (d & -> & Hd). clear Hs He. unfold runLDAPDiscovery, dialLDAP in Hd.
  repeat case_match; simplify_eq; cbn [snd app] in Hd;
    repeat (apply elem_of_cons in Hd as [->|Hd]; [try (by apply not_elem_of_nil in Hhost);
      by apply list_elem_of_singleton in Hhost|]); by apply not_elem_of_nil in Hd.
Qed.

(** C6. A discovery proxy stays within its scope. In any state it can reach, if its
    allowlist names a network (or nothing at all), every address probed, every host
    asked for its cloud identity and every host commands are sent to is one that
    [isTargetAllowed] admits, for every request and whatever the resolver answers; the
    one host that is not held against the allowlist is the directory server, which is
    the configured one. The environment of a sweep is taken to report on addresses it
    was given only. *)
Theorem HandleRequest_in_scope p keys ev0 w req r p' ev e host :
  run p keys ev0 → honest (d_sweep w) →
  allowedNets p ≠ [] ∨ allowedHosts p = [] →
  HandleRequest w p req = (r, p', ev) → e ∈ ev → host ∈ contacted e →
  isTargetAllowed (d_lookup w) p host = true
  ∨ (req_Action req = "discovery_ldap" ∧ host = LdapHost (ldapCfg p)).
Proof.
  intros [Hn _ _]%run_inv Hh Hne Hreq He Hhost. unfold HandleRequest in Hreq. case_match.
  - left. apply handleInventory_events in Hreq as [[_ ->]|[-> [-> | (pack & targets & _ & ->)]]];
      [by apply not_elem_of_nil in He..|].
    destruct (resolvePack_same w p (req_Params req)) as (_ & En & Eh & _).
    apply list_elem_of_fmap in He as (t & -> & Ht). simpl in Hhost. apply list_elem_of_singleton in Hhost as ->.
    apply (list_elem_of_fmap_2 (λ r, Host r.1)) in Ht. change (_ <$> ?l) with (map (λ r, Host r.1) l) in Ht.
    rewrite (proj1 (runInventory_hosts _ _ _ _)) in Ht. apply partition_allowed in Ht.
    unfold isTargetAllowed in *. by rewrite En, Eh in Ht.
  - case_match.
    + left. destruct (handleSweep w p req) as [r' ev'] eqn:Es. injection Hreq as <- <- <-.
      destruct (handleSweep_contacts _ _ _ _ _ _ _ Hh Es He Hhost) as (sc & addrs & k & Esc & Hex & Hin & Hsc).
      destruct (decide (allowedNets p = [])) as [Hz|Hz].
      { destruct Hne as [Hne|Hne]; [done|]. unfold isTargetAllowed. by rewrite Hz, Hne. }
      destruct Hsc as [Hsc|Hsc]; [done|]. destruct (parseSweepParams_bounds _ _ _ Esc) as (Hwf & _).
      destruct (expand_all_spec _ _ _ _ _ _ Hwf Hex) as (Hw4 & -> & _ & _). cbn [app] in Hin.
      apply list_elem_of_In, in_concat in Hin as (l & (c & <- & Hc)%in_map_iff & Hin%list_elem_of_In).
      rewrite Forall_forall in Hw4, Hsc. apply list_elem_of_In in Hc.
      apply elem_of_kept in Hin as (x & Hx & Hnet & _ & _ & ->); [|by apply Hw4].
      apply allowed_v4; [done|done|]. apply (within_sound _ c); [done|by apply Hw4|done|done|by apply Hsc].
    + case_match eqn:Ea; [|injection Hreq as _ _ <-; by apply not_elem_of_nil in He].
      right. split; [by apply String.eqb_eq in Ea|].
      destruct (handleLDAP w p req) as [r' ev'] eqn:Es. injection Hreq as <- <- <-.
      by eapply handleLDAP_contacts.
Qed.

(** Host names in allowed_cidrs do not restrict a sweep. When the allowlist
    names hosts but no network, a sweep request is carried out as it stands: every
    connection its networks and ports ask for is made, also to addresses that the
    same allowlist refuses as inventory targets. *)
Theorem sweep_names_only w p req sc r probes ip port :
  allowedNets p = [] → allowedHosts p ≠ [] → req_Action req = "discovery_sweep" →
  parseSweepParams (req_Params req) (MaxRatePPS (cfg p)) = Ok sc →
  runSweep (d_sweep w) sc = (r, probes) → (ip, port) ∈ probes →
  Probed ip port ∈ (HandleRequest w p req).2.
Proof.
  intros Hn _ Ha Hsc Hr Hin. unfold HandleRequest. rewrite Ha.
  change (String.eqb "discovery_sweep" "discovery_inventory") with false.
  change (String.eqb "discovery_sweep" "discovery_sweep") with true. cbv iota.
  assert (Probed ip port ∈ map (uncurry Probed) probes) as Hp
    by (by apply (list_elem_of_fmap_2 (uncurry Probed) probes (ip, port))).
  unfold handleSweep. rewrite Hsc. cbn [wrap_err]. rewrite Hn, bool_decide_true, Hr by done.
  destruct r as [rs|]; [|exact Hp].
  destruct (match sshConfig p with Some _ => _ | None => _ end) as [hs dialed]. cbn [snd].
  apply elem_of_app. by left.
Qed.

(** ** Answers *)

Lemma filter_split_perm {A} (f : A → bool) l :
  List.filter f l ++ List.filter (λ x, negb (f x)) l ≡ₚ l.
Proof.
  induction l as [|x l IH]; [done|]. simpl. destruct (f x); simpl; [by rewrite IH|].
  rewrite <- Permutation_middle. by rewrite IH.
Qed.

Lemma imap_pair_fst {A B} (f : nat → A → B) l : map fst (imap (λ i x, (x, f i x)) l) = l.
Proof.
  revert f. induction l as [|x l IH]; intros f; [done|]. rewrite imap_cons. cbn [map fst].
  f_equal. apply (IH (λ i, f (S i))).
Qed.

Lemma partition_complete lookup checked p targets :
  let '(allowed, rejected) := partitionTargetsByScope lookup checked p targets in
  allowed ++ map Host rejected ≡ₚ targets ∧ Forall (λ t, DurationS t = S754_zero false) rejected.
Proof.
  unfold partitionTargetsByScope. split; [|apply Forall_map, Forall_forall; by intros].
  set (verdicts := imap _ _). rewrite map_map. cbn [Host new_target].
  rewrite <- map_app, filter_split_perm. unfold verdicts.
  by rewrite imap_pair_fst.
Qed.

Lemma resolvePack_version w p params keys pack q :
  proxy_inv p keys → resolvePack w p params = (Ok pack, q) →
  intParam params "content_pack_version" = Some (Version pack).
Proof.
  intros [_ _ Hpk]. unfold resolvePack.
  destruct (intParam params "content_pack_version") as [v|]; [|done]. case_match; [done|].
  destruct (packs p !! v) as [cached|] eqn:Ec; [intros [= <- _]; by apply Hpk in Ec as [-> _]|].
  case_match; [done|]. destruct (d_readFile _ _ _); [|done]. destruct (verifyPack p _) as [pk|]; [|done].
  destruct (Z.eqb_spec (Version pk) v) as [Ev|]; [|done]. intros [= <- _]. by rewrite Ev.
Qed.

(** An inventory request is answered in full. The response of any reachable
    proxy carries the version that was asked for and exactly one result for every
    target asked about, also for those out of scope, unreachable or cut off by the
    context; and the duration in each of them is zero, since it is assigned after the
    result was returned. *)
Theorem handleInventory_answers p keys ev0 w req targets resp p' ev :
  run p keys ev0 → req_Action req = "discovery_inventory" →
  stringSliceParam (req_Params req) "targets" = Ok targets →
  HandleRequest w p req = (Ok resp, p', ev) →
  ∃ pack results l,
    intParam (req_Params req) "content_pack_version" = Some (Version pack)
    ∧ resp_Result resp = Some (JObj [("content_pack_version", json_int (Version pack)); ("targets", JArr l)])
    ∧ mapM marshal_target results = Some l
    ∧ map Host results ≡ₚ targets
    ∧ Forall (λ t, DurationS t = S754_zero false) results.
Proof.
  intros Hrun Ha Ht. unfold HandleRequest. rewrite Ha.
  change (String.eqb "discovery_inventory" "discovery_inventory") with true. cbv iota.
  unfold handleInventory. rewrite Ht. cbn [wrap_err]. destruct targets as [|t l]; [done|].
  case_match; [done|]. destruct (resolvePack w p (req_Params req)) as [[pack|] q] eqn:Er; [|done].
  destruct (sshConfig q); [|done].
  pose proof (partition_complete (d_lookup w) (d_checked w) q (t :: l)) as Hp.
  destruct (partitionTargetsByScope _ _ q _) as [allowed rejected]. destruct Hp as [Hperm Hrej].
  destruct (runInventory_hosts (d_hosts w) allowed pack (exec_config (cfg q) (req_Params req))) as [Hh Hd].
  set (r := runInventory _ _ _ _) in *. unfold respond.
  destruct (mapM marshal_target (map fst r ++ rejected)) as [js|] eqn:Em; [|done].
  intros [= <- _ _]. exists pack, (map fst r ++ rejected), js. split_and!; [|done|done| |].
  - apply run_inv in Hrun. by eapply resolvePack_version.
  - rewrite map_app, map_map, Hh. done.
  - apply Forall_app. split; [|done]. apply Forall_map. eapply Forall_impl; [exact Hd|]. by intros ? [].
Qed.
End runs.
