(* ===== verification/DiscoveryWitness.v ===== *)
(** * Discovery: the theorems at work on a small network *)

From S2P Require Import Prelude GoStrings GoJson GoAny GoTime GoBase64 NetIP NetPrefix Signing.
From S2P Require Import SigningTheorems Registry Ssh When Pack PackFacts Sweep SweepFacts.
From S2P Require Import Inventory Ldap Discovery DiscoveryFacts.
From Stdlib Require Import SpecFloat.
#[local] Open Scope Z_scope.

#[local] Existing Instance toy.
#[local] Existing Instance demo_yaml.

#[local] Instance demo_ssh_lib : SshLib := {|
  knownhosts_New _ := Ok tt;
  ParseAuthorizedKey k := Ok k;
  ParsePrivateKey k := Ok k;
  ParsePrivateKeyWithPassphrase k _ := Ok k;
|}.

#[local] Instance demo_formats : KeyFormats := {|
  ssh_ParseAuthorizedKey _ := Err (errorf "ssh");
  ssh_ParseRawPrivateKey _ := Err (errorf "ssh");
  pem_Decode _ := None;
  x509_ParsePKIXPublicKey _ := Err (errorf "x509");
  x509_ParsePKCS8PrivateKey _ := Err (errorf "x509");
|}.

Definition demo_command (out : string) : command_run :=
  MkRun (Ok tt) (Ok tt) (Ok tt) (Ok tt) out "" true (Some WaitOk).

(** A host on which everything works; the first of a batch runs Rocky Linux. *)
Definition demo_host : host_env := {|
  he_connect _ := Ok tt;
  he_handshake _ := Ok tt;
  he_probe _ := demo_command ("ID=rocky" +:+ newline +:+ "---" +:+ newline +:+ "x86_64" +:+ newline);
  he_expired _ := false;
  he_run _ _ := demo_command "output";
  he_elapsed := S754_finite false 1 0;
|}.

Definition demo_ldap_env : ldap_env := {|
  le_dial := Ok tt; le_starttls := Ok tt; le_bind := Ok tt; le_search := Ok [];
  le_cancelled := None; le_now := 0; le_elapsed := S754_zero false;
|}.

Definition demo_world : world := {|
  d_lookup _ := Err (errorf "no such host");
  d_readFile _ _ := Ok demo_signed_pack;
  d_checked _ := true;
  d_sweep := demo_env;
  d_identity _ := Some demo_host;
  d_hosts _ := Some demo_host;
  d_ldap := demo_ldap_env;
  d_elapsed := S754_zero false;
|}.

Definition demo_conf : gmap string any :=
  list_to_map [("allowed_cidrs", AStrs ["10.0.0.8/29"]); ("pack_dir", AStr "/packs");
               ("pack_public_key", AStr (EncodeToString demo_priv))].
Definition demo_creds : gmap string string :=
  list_to_map [("username", "scan"); ("password", "pw")].

Definition demo_proxy : Proxy := Eval vm_compute in (Configure New demo_conf demo_creds).2.

Definition demo_request (action : string) (params : list (string * any)) : ActionRequest :=
  MkRequest "r1" "ds1" action (list_to_map params) "" "" ∅ "".
Definition demo_inventory : ActionRequest :=
  demo_request "discovery_inventory"
    [("targets", AStrs ["10.0.0.9"; "192.0.2.1"]); ("content_pack_version", AInt 3)].
Definition demo_sweep_request : ActionRequest :=
  demo_request "discovery_sweep" [("cidrs", AStrs ["10.0.0.8/30"])].

Lemma demo_run : run demo_proxy {[demo_priv]} [].
Proof.
  assert (step New (OpConfigure demo_conf demo_creds) = (demo_proxy, [])) as Hs
    by (cbn [step]; f_equal; vm_compute; reflexivity).
  pose proof (run_step _ _ _ _ _ _ run_new Hs) as H. rewrite (right_id_L ∅ (∪)) in H. exact H.
Qed.

Lemma demo_honest : honest (d_sweep demo_world).
Proof. split; [done|]. intros l x. simpl. by rewrite elem_of_reverse. Qed.

(** Everything an inventory request does on the network. *)
Definition demo_ran : list net_event := [RanOn "10.0.0.9" [factsProbe; "uname -a"; "rpm -qa"]].

Lemma demo_inventory_step :
  (step demo_proxy (OpRequest demo_world demo_inventory)).2 = demo_ran.
Proof. vm_compute. reflexivity. Qed.

Lemma HandleRequest_in_scope_witness :
  ∃ r p' ev, HandleRequest demo_world demo_proxy demo_sweep_request = (r, p', ev)
    ∧ Probed "10.0.0.9" 22 ∈ ev
    ∧ isTargetAllowed (d_lookup demo_world) demo_proxy "10.0.0.9" = true.
Proof.
  destruct (HandleRequest demo_world demo_proxy demo_sweep_request) as [[r p'] ev] eqn:E.
  assert (Probed "10.0.0.9" 22 ∈ ev) as Hin.
  { replace ev with (HandleRequest demo_world demo_proxy demo_sweep_request).2 by (by rewrite E).
    vm_compute. left. }
  exists r, p', ev. split; [reflexivity|]. split; [exact Hin|].
  destruct (HandleRequest_in_scope demo_proxy {[demo_priv]} [] demo_world demo_sweep_request r p' ev
           (Probed "10.0.0.9" 22) "10.0.0.9") as [Ha|[Ha _]]; [| | | | | |exact Ha|discriminate Ha].
  - exact demo_run.
  - exact demo_honest.
  - left. vm_compute. discriminate.
  - exact E.
  - exact Hin.
  - left.
Defined.

(** A proxy whose allowlist names one host. *)
Definition demo_named : Proxy := Eval vm_compute in
  (Configure New {["allowed_cidrs" := AStrs ["db.internal"]]} ∅).2.

Definition demo_scan : sweepConfig :=
  MkSweepConfig [MkPrefix (Addr4 167772168) 30] [] defaultSweepPorts 100 (1000 * Millisecond) 64.
Definition demo_scanned : result SweepResult * list (string * Z) :=
  Eval vm_compute in runSweep demo_env demo_scan.

Lemma sweep_names_only_witness :
  Probed "10.0.0.9" 22 ∈ (HandleRequest demo_world demo_named demo_sweep_request).2
  ∧ isTargetAllowed (d_lookup demo_world) demo_named "10.0.0.9" = false.
Proof.
  split; [|vm_compute; reflexivity].
  apply (sweep_names_only demo_world demo_named demo_sweep_request demo_scan demo_scanned.1 demo_scanned.2).
  - reflexivity.
  - vm_compute. discriminate.
  - reflexivity.
  - vm_compute. reflexivity.
  - vm_compute. reflexivity.
  - left.
Defined.

Lemma commands_signed_witness :
  let cmds := [factsProbe; "uname -a"; "rpm -qa"] in
  (RanOn "10.0.0.9" cmds = Identified "10.0.0.9" cmds ∧ cmds `prefix_of` [cloudIdentityProbeCmd])
  ∨ RanOn "10.0.0.9" cmds = RanOn "10.0.0.9" cmds ∧ ∃ key pack facts, key ∈ ({[demo_priv]} : gset string) ∧ accepted key pack
    ∧ [factsProbe; "uname -a"; "rpm -qa"] `prefix_of` factsProbe :: map Cmd (Select pack facts).1.
Proof.
  destruct (step demo_proxy (OpRequest demo_world demo_inventory)) as [p' ev] eqn:E.
  assert (packPubKey p' = Some demo_priv) as Hk.
  { replace p' with (step demo_proxy (OpRequest demo_world demo_inventory)).1 by (by rewrite E).
    vm_compute. reflexivity. }
  pose proof (run_step _ _ _ _ _ _ demo_run E) as Hr. rewrite Hk in Hr.
  rewrite (idemp_L (∪)) in Hr.
  apply (commands_signed p' {[demo_priv]} ([] ++ ev) _ "10.0.0.9" _ Hr); [|reflexivity].
  pose proof demo_inventory_step as Hev. rewrite E in Hev. cbn [snd] in Hev. rewrite Hev. left.
Defined.

Lemma handleInventory_answers_witness :
  ∃ resp p' ev pack results l,
    HandleRequest demo_world demo_proxy demo_inventory = (Ok resp, p', ev)
    ∧ intParam (req_Params demo_inventory) "content_pack_version" = Some (Version pack)
    ∧ resp_Result resp = Some (JObj [("content_pack_version", json_int (Version pack)); ("targets", JArr l)])
    ∧ mapM marshal_target results = Some l
    ∧ map Host results ≡ₚ ["10.0.0.9"; "192.0.2.1"]
    ∧ Forall (λ t, DurationS t = S754_zero false) results.
Proof.
  destruct (HandleRequest demo_world demo_proxy demo_inventory) as [[[resp|e] p'] ev] eqn:E.
  2: { exfalso. apply (f_equal (λ x, is_ok x.1.1)) in E. revert E. vm_compute. discriminate. }
  exists resp, p', ev.
  destruct (handleInventory_answers demo_proxy {[demo_priv]} [] demo_world demo_inventory
              ["10.0.0.9"; "192.0.2.1"] resp p' ev) as (pack & results & l & H).
  - exact demo_run.
  - reflexivity.
  - reflexivity.
  - exact E.
  - exists pack, results, l. split; [reflexivity|exact H].
Defined.
