(* ===== verification/Handler.v ===== *)
(** * pkg/ws/handler.go: dispatch of relay messages

    [HandleMessage] authenticates a message and hands it to the registry's proxies,
    to the configuration sync or to the configuration test. What proxies, secret
    providers and the file system do is the [world] argument; the handler's state is
    the registry, the credential store with its file, the secret manager's cache and
    the verifier's nonces. *)

From S2P Require Import Prelude GoStrings GoJson GoAny GoTime Signing Errors Registry.
From S2P Require Import Ssh Secrets SshAccess.

Definition signedActions : gset string := list_to_set [
  "datasource_config_sync";
  "db_query"; "db_execute"; "db_metadata";
  "ssh_command"; "ssh_upload"; "ssh_download"; "ssh_list_dir";
  "http_request"; "mcp_request";
  "mongo_query"; "mongo_aggregate"; "mongo_server_status"; "mongo_repl_status";
  "mongo_collection_stats"; "mongo_current_ops"; "mongo_db_stats"; "mongo_list_databases";
  "mongo_list_collections";
  "redis_command"; "redis_info"; "redis_info_section"; "redis_slowlog"; "redis_client_list";
  "redis_memory_stats"; "redis_cluster_info"; "redis_keyspace_stats";
  "kafka_consumer_lag"; "kafka_consumer_groups"; "kafka_consumer_group_describe";
  "kafka_topics"; "kafka_topic_describe"; "kafka_brokers"; "kafka_topic_offsets";
  "test_datasource_config";
  "discovery_sweep"; "discovery_ldap"; "discovery_inventory"].

(** ** State and environment *)

Record Handler := MkHandler {
  h_registry : Registry;
  h_credStore : CloudPushStore;
  h_disk : disk;                     (* the file behind the credential store *)
  h_secretsMgr : Manager;
  h_verifier : option Verifier;
}.

Definition set_registry (h : Handler) (r : Registry) : Handler :=
  MkHandler r (h_credStore h) (h_disk h) (h_secretsMgr h) (h_verifier h).
Definition set_store (h : Handler) (s : CloudPushStore) (d : disk) : Handler :=
  MkHandler (h_registry h) s d (h_secretsMgr h) (h_verifier h).
Definition set_mgr (h : Handler) (m : Manager) : Handler :=
  MkHandler (h_registry h) (h_credStore h) (h_disk h) m (h_verifier h).
Definition set_verifier (h : Handler) (v : option Verifier) : Handler :=
  MkHandler (h_registry h) (h_credStore h) (h_disk h) (h_secretsMgr h) v.

(** The proxy a type creates; a database proxy carries its database type. *)
Inductive proxy_kind :=
  | HttpProxy | DbProxy (dbType : string) | McpProxy | SshProxy | MongoProxy | RedisProxy
  | KafkaProxy | DiscoveryProxy.

(** What the rest of the system does while a message is handled. *)
Record world := MkWorld {
  w_handle : proxyref → ActionRequest → result ActionResponse;
  w_type : proxyref → string;
  w_close : proxyref → result unit;
  w_configure : proxy_kind → gmap string any → gmap string string → result proxyref;
  w_sibling : string → proxyref;               (* the SSH proxy created for an ID *)
  w_getSecret : string → string → result (gmap string string);
  w_save : string → string * result unit * write_outcome;
      (* per datasource: nonce, outcomes of MkdirAll and WriteFile *)
  w_ctxDone : bool;
  w_now : Z;
  w_clock : clock;                             (* the readings in [Verify] *)
}.

(** ** Responses *)

Definition marshal_response (r : ActionResponse) : json :=
  JObj ([("status_code", JNum (Itoa (resp_StatusCode r))); ("request_id", JStr (resp_RequestID r))]
        ++ omit_empty "action" (resp_Action r) ++ omit_empty "error_code" (resp_ErrorCode r)
        ++ omit_empty "data" (resp_Data r)
        ++ match resp_Result r with Some j => [("result", j)] | None => [] end).

(** The payload of an error: fmt.Sprintf with %q. *)
Definition error_data (message : string) : string :=
  "{" +:+ str1 dq +:+ "error" +:+ str1 dq +:+ ": " +:+ Quote message +:+ "}".

Definition buildCodedErrorResponse (requestID : string) (statusCode : Z) (code message : string)
  : string :=
  json_print (marshal_response (MkResponse statusCode requestID "" code (error_data message) None)).

Definition buildErrorResponse (requestID : string) (statusCode : Z) (message : string) : string :=
  buildCodedErrorResponse requestID statusCode "" message.

Definition buildProxyErrorResponse (requestID : string) (err : error) : string :=
  let code := if err_is TagUpstreamUnreachable err then ErrCodeUpstreamUnreachable else "" in
  buildCodedErrorResponse requestID 500 code (err_msg err).

Definition with_request_id (r : ActionResponse) (requestID : string) : ActionResponse :=
  MkResponse (resp_StatusCode r) requestID (resp_Action r) (resp_ErrorCode r) (resp_Data r)
    (resp_Result r).

(** ** Decoding *)

Record envelope := MkMsgEnvelope {
  env_Action : string;
  env_RequestID : string;
  env_DatasourceID : string;
  env_ActionName : string;             (* body.action_name *)
}.

Definition envelope_field (e : envelope) (k : string) (v : json) : envelope * bool :=
  let 'MkMsgEnvelope a r d n := e in
  if key_is "action" k then let '(x, ok) := dec_string a v in (MkMsgEnvelope x r d n, ok)
  else if key_is "request_id" k then let '(x, ok) := dec_string r v in (MkMsgEnvelope a x d n, ok)
  else if key_is "datasource_id" k then let '(x, ok) := dec_string d v in (MkMsgEnvelope a r x n, ok)
  else if key_is "body" k then
    let '(x, ok) :=
      dec_struct (λ s k v, if key_is "action_name" k then dec_string s v else (s, true)) n v in
    (MkMsgEnvelope a r d x, ok)
  else (e, true).

Definition decode_envelope (j : json) : envelope * bool :=
  dec_struct envelope_field (MkMsgEnvelope "" "" "" "") j.

Definition empty_request : ActionRequest := MkRequest "" "" "" ∅ "" "" ∅ "".

Definition request_field (q : ActionRequest) (k : string) (v : json) : ActionRequest * bool :=
  let 'MkRequest r d a p m u hd b := q in
  if key_is "request_id" k then let '(x, ok) := dec_string r v in (MkRequest x d a p m u hd b, ok)
  else if key_is "datasource_id" k then let '(x, ok) := dec_string d v in (MkRequest r x a p m u hd b, ok)
  else if key_is "action" k then let '(x, ok) := dec_string a v in (MkRequest r d x p m u hd b, ok)
  else if key_is "params" k then
    let '(x, ok) := dec_any_map (Some p) v in (MkRequest r d a (default ∅ x) m u hd b, ok)
  else if key_is "method" k then let '(x, ok) := dec_string m v in (MkRequest r d a p x u hd b, ok)
  else if key_is "url" k then let '(x, ok) := dec_string u v in (MkRequest r d a p m x hd b, ok)
  else if key_is "header" k then
    let '(x, ok) := dec_header (Some hd) v in (MkRequest r d a p m u (default ∅ x) b, ok)
  else if key_is "body" k then let '(x, ok) := dec_string b v in (MkRequest r d a p m u hd x, ok)
  else (q, true).

Definition decode_request (j : json) : ActionRequest * bool := dec_struct request_field empty_request j.

(** The legacy action message: request_id, body.action_name, body.action_params. *)
Definition legacy_body_field (b : string * option (gmap string any)) (k : string) (v : json)
  : (string * option (gmap string any)) * bool :=
  if key_is "action_name" k then let '(x, ok) := dec_string b.1 v in ((x, b.2), ok)
  else if key_is "action_params" k then let '(x, ok) := dec_any_map b.2 v in ((b.1, x), ok)
  else (b, true).

Definition legacy_field (s : string * (string * option (gmap string any))) (k : string) (v : json)
  : (string * (string * option (gmap string any))) * bool :=
  if key_is "request_id" k then let '(x, ok) := dec_string s.1 v in ((x, s.2), ok)
  else if key_is "body" k then
    let '(x, ok) := dec_struct legacy_body_field s.2 v in ((s.1, x), ok)
  else (s, true).

Definition decode_legacy (j : json) : (string * (string * option (gmap string any))) * bool :=
  dec_struct legacy_field ("", ("", None)) j.

(** The legacy HTTP message: method, url, header, body. *)
Definition http_field (q : ActionRequest) (k : string) (v : json) : ActionRequest * bool :=
  if key_is "method" k || key_is "url" k || key_is "header" k || key_is "body" k
  then request_field q k v else (q, true).

Definition decode_http (j : json) : ActionRequest * bool := dec_struct http_field empty_request j.

(** ** Requests *)

(** A request given to a proxy, its outcome recorded, and the response. *)
Definition forward (w : world) (h : Handler) (requestID datasourceID : string) (p : proxyref)
    (req : ActionRequest) : string * Handler :=
  let res := w_handle w p req in
  let err := match res with Ok _ => None | Err e => Some e end in
  let h := set_registry h
             (RecordRequestResult (h_registry h) (w_ctxDone w) (w_now w) datasourceID err) in
  match res with
  | Err e => (buildProxyErrorResponse requestID e, h)
  | Ok resp => (json_print (marshal_response (with_request_id resp requestID)), h)
  end.

Definition handleLegacyRequest (w : world) (h : Handler) (msg : json) (requestID : string)
  : string * Handler :=
  let '((reqID, (actionName, actionParams)), ok) := decode_legacy msg in
  if ok && negb (String.eqb actionName "") then
    let params := default ∅ actionParams in
    let datasourceID := as_string (params !! "datasource_id") in
    if String.eqb datasourceID "" then (buildErrorResponse requestID 400 "missing datasource_id", h)
    else
      match Registry.Get (h_registry h) datasourceID with
      | None => (buildCodedErrorResponse requestID 404 ErrCodeDatasourceNotFound
                   ("datasource " +:+ datasourceID +:+ " not found"), h)
      | Some p =>
          let q := match marshal_any_map params with
                   | Some raw => (decode_request raw).1
                   | None => empty_request
                   end in
          let req := MkRequest reqID datasourceID actionName params (req_Method q) (req_URL q)
                       (req_Header q) (req_Body q) in
          forward w h requestID datasourceID p req
      end
  else
    let '(httpReq, ok) := decode_http msg in
    if ok && negb (String.eqb (req_URL httpReq) "") then
      let httpProxies :=
        List.filter (λ p, String.eqb (w_type w p) "http-proxy")
          (list_omap _ _ (Registry.Get (h_registry h)) (Registry.All (h_registry h))) in
      match httpProxies with
      | [] => (buildCodedErrorResponse requestID 404 ErrCodeDatasourceNotFound
                 "no http-proxy datasource configured", h)
      | [p] =>
          match w_handle w p httpReq with
          | Err e => (buildProxyErrorResponse requestID e, h)
          | Ok resp => (json_print (marshal_response (with_request_id resp requestID)), h)
          end
      | _ => (buildCodedErrorResponse requestID 400 ErrCodeAmbiguousDatasource
                (Itoa (Z.of_nat (length httpProxies))
                 +:+ " http-proxy datasources configured; datasource_id is required"), h)
      end
    else (buildErrorResponse requestID 400 "unrecognized message format", h).

Definition handleRequest (w : world) (h : Handler) (msg : json) (requestID datasourceID : string)
  : string * Handler :=
  if String.eqb datasourceID "" then handleLegacyRequest w h msg requestID
  else
    match Registry.Get (h_registry h) datasourceID with
    | None => (buildCodedErrorResponse requestID 404 ErrCodeDatasourceNotFound
                 ("datasource " +:+ datasourceID +:+ " not found"), h)
    | Some p =>
        let '(req, ok) := decode_request msg in
        if ok then forward w h requestID datasourceID p req
        else (buildErrorResponse requestID 400 ("invalid request: " +:+ err_msg json_error), h)
    end.

(** ** Configuration *)

(** One value: strings that spell a boolean or an integer become native. *)
Definition normalize_value (v : any) : any :=
  match v with
  | AStr s =>
      if String.eqb s "true" then ABool true
      else if String.eqb s "false" then ABool false
      else match Atoi s with Some n => AInt n | None => v end
  | _ => v
  end.

Definition normalizeConfigValues (config : gmap string any) : gmap string any :=
  normalize_value <$> config.

(** The kind of proxy, and the configuration with what is injected into it. *)
Definition newProxyByType (proxyType dsType : string) (config : gmap string any)
    (allowedHosts : list string) : result (proxy_kind * gmap string any) :=
  if String.eqb proxyType "http-proxy" then
    Ok (HttpProxy, <["datasource_type" := AStr dsType]> config)
  else if String.eqb proxyType "db-proxy" then
    let dbType := as_string (config !! "db_type") in
    Ok (DbProxy (if String.eqb dbType "" then dsType else dbType), config)
  else if String.eqb proxyType "mcp-proxy" then Ok (McpProxy, config)
  else if String.eqb proxyType "ssh-proxy" then
    Ok (SshProxy, match allowedHosts with
                  | [] => config
                  | _ => <["allowed_hosts" := AStrs allowedHosts]> config
                  end)
  else if String.eqb proxyType "mongo-proxy" then Ok (MongoProxy, config)
  else if String.eqb proxyType "redis-proxy" then Ok (RedisProxy, config)
  else if String.eqb proxyType "kafka-proxy" then Ok (KafkaProxy, config)
  else if String.eqb proxyType "discovery-proxy" then
    Ok (DiscoveryProxy,
        match allowedHosts, config !! "allowed_cidrs" with
        | _ :: _, None => <["allowed_cidrs" := AStrs allowedHosts]> config
        | _, _ => config
        end)
  else Err (errorf ("unknown proxy type: " +:+ proxyType)).

(** A datasource of a push or of a test. *)
Record datasource := MkDatasource {
  ds_ID : string;
  ds_Type : string;
  ds_ProxyType : string;
  ds_Name : string;
  ds_Config : option (gmap string any);
  ds_Credentials : option (gmap string string);
  ds_CredentialSource : string;
  ds_CredentialRef : string;
  ds_AllowedHosts : list string;
}.

Definition zero_datasource : datasource := MkDatasource "" "" "" "" None None "" "" [].

Definition datasource_field (d : datasource) (k : string) (v : json) : datasource * bool :=
  let 'MkDatasource i t pt n c cr cs cf ah := d in
  if key_is "id" k then let '(x, ok) := dec_string i v in (MkDatasource x t pt n c cr cs cf ah, ok)
  else if key_is "type" k then let '(x, ok) := dec_string t v in (MkDatasource i x pt n c cr cs cf ah, ok)
  else if key_is "proxy_type" k then
    let '(x, ok) := dec_string pt v in (MkDatasource i t x n c cr cs cf ah, ok)
  else if key_is "name" k then let '(x, ok) := dec_string n v in (MkDatasource i t pt x c cr cs cf ah, ok)
  else if key_is "config" k then
    let '(x, ok) := dec_any_map c v in (MkDatasource i t pt n x cr cs cf ah, ok)
  else if key_is "credentials" k then
    let '(x, ok) := dec_string_map cr v in (MkDatasource i t pt n c x cs cf ah, ok)
  else if key_is "credential_source" k then
    let '(x, ok) := dec_string cs v in (MkDatasource i t pt n c cr x cf ah, ok)
  else if key_is "credential_ref" k then
    let '(x, ok) := dec_string cf v in (MkDatasource i t pt n c cr cs x ah, ok)
  else if key_is "allowed_hosts" k then
    let '(x, ok) := dec_string_list ah v in (MkDatasource i t pt n c cr cs cf x, ok)
  else (d, true).

(** The fields of a tested datasource: the same without id and name. *)
Definition test_field (d : datasource) (k : string) (v : json) : datasource * bool :=
  if key_is "id" k || key_is "name" k then (d, true) else datasource_field d k v.

(** A push: its action and account are read for logging only. *)
Definition push_field (ds : list datasource) (k : string) (v : json) : list datasource * bool :=
  if key_is "datasources" k then dec_list (dec_struct datasource_field) zero_datasource ds v
  else if key_is "action" k || key_is "account_id" k then (ds, (dec_string "" v).2)
  else (ds, true).

Definition decode_push (j : json) : list datasource * bool := dec_struct push_field [] j.

Definition test_request_field (d : datasource) (k : string) (v : json) : datasource * bool :=
  if key_is "datasource" k then dec_struct test_field d v
  else if key_is "action" k then (d, (dec_string "" v).2)
  else (d, true).

Definition decode_test (j : json) : datasource * bool := dec_struct test_request_field zero_datasource j.

Section sync.
Context `{AesGcm, SshLib}.

(** The credentials of a pushed datasource; [None] skips it. *)
Definition resolve_creds (w : world) (h : Handler) (ds : datasource)
  : option (gmap string string) * Handler :=
  let creds := default ∅ (ds_Credentials ds) in
  if String.eqb (ds_CredentialSource ds) "cloud_push" then
    if negb (bool_decide (creds = ∅)) then
      let '(nonce, mkdir, write) := w_save w (ds_ID ds) in
      let '(r, s, d) := Set_creds (h_credStore h) nonce mkdir write (h_disk h) (ds_ID ds) creds in
      (if is_ok r then Some creds else None, set_store h s d)
    else (Some (default creds (Get_creds (h_credStore h) (ds_ID ds))), h)
  else if negb (String.eqb (ds_CredentialSource ds) "local") then
    let '(r, m) := Resolve (w_getSecret w) (h_secretsMgr h) (w_now w) (w_now w)
                     (ds_CredentialSource ds) (ds_CredentialRef ds) in
    (match r with Ok c => Some c | Err _ => None end, set_mgr h m)
  else (Some creds, h).

Definition ds_entry (ds : datasource) : DatasourceEntry :=
  MkEntry (ds_ID ds) (ds_Type ds) (ds_ProxyType ds) (ds_Name ds) (ds_CredentialSource ds)
    (ds_CredentialRef ds).

Definition register (h : Handler) (id : string) (entry : DatasourceEntry) (p : proxyref) : Handler :=
  set_registry h (Register (h_registry h) id entry p).1.

(** One round of the loop over the pushed datasources. *)
Definition sync_one (w : world) (acc : Handler * gset string) (ds : datasource)
  : Handler * gset string :=
  let '(h, newIDs) := acc in
  let newIDs := {[ds_ID ds]} ∪ newIDs in
  let '(creds, h) := resolve_creds w h ds in
  match creds with
  | None => (h, newIDs)
  | Some creds =>
      let config := normalizeConfigValues (default ∅ (ds_Config ds)) in
      match newProxyByType (ds_ProxyType ds) (ds_Type ds) config (ds_AllowedHosts ds) with
      | Err _ => (h, newIDs)
      | Ok (kind, config) =>
          match w_configure w kind config creds with
          | Err _ => (h, newIDs)
          | Ok p =>
              let h := register h (ds_ID ds) (ds_entry ds) p in
              if String.eqb (ds_ProxyType ds) "discovery-proxy" && SSHAccessEnabled config then
                match SSHAccessSibling (ds_entry ds) config creds (Enabled (h_verifier h)) with
                | Err _ => (h, newIDs)
                | Ok (sibling, _) =>
                    (register h (ent_ID sibling) sibling (w_sibling w (ent_ID sibling)),
                     {[ent_ID sibling]} ∪ newIDs)
                end
              else (h, newIDs)
          end
      end
  end.

(** The datasources a sync removes. *)
Definition stale (newIDs : gset string) (id : string) : bool :=
  negb (bool_decide (id ∈ newIDs)) && negb (HasPrefix id "local:").

Definition remove_stale (w : world) (r : Registry) (newIDs : gset string) : Registry :=
  foldl (λ r id, if stale newIDs id then (Remove (w_close w) r id).1.2 else r) r (Registry.All r).

(** The [bool] tells whether the callback for applied pushes ran. *)
Definition handleConfigSync (w : world) (h : Handler) (msg : json) (requestID : string)
  : result string * Handler * bool :=
  let '(datasources, ok) := decode_push msg in
  if negb ok then (Err (wrapf "unmarshal config push: " json_error), h, false)
  else
    let '(h, newIDs) := foldl (sync_one w) (h, ∅) datasources in
    let h := set_registry h (remove_stale w (h_registry h) newIDs) in
    (Ok (json_print (JObj [("action", JStr "datasource_config_sync_ack");
                           ("request_id", JStr requestID); ("status", JStr "ok")])), h, true).

(** The report of a configuration test. *)
Definition test_result (requestID : string) (err : option string) : string :=
  json_print (JObj ([("action", JStr "test_datasource_config_result")]
    ++ match err with Some e => [("error", JStr e)] | None => [] end
    ++ [("request_id", JStr requestID); ("success", JBool (bool_decide (err = None)))])).

Definition handleTestDatasourceConfig (w : world) (h : Handler) (msg : json) (requestID : string)
  : result string * Handler :=
  let '(ds, ok) := decode_test msg in
  if negb ok then (Err (wrapf "unmarshal test config request: " json_error), h)
  else
    let src := ds_CredentialSource ds in
    let '(creds, h) :=
      if negb (String.eqb src "local") && negb (String.eqb src "cloud_push")
         && negb (String.eqb src "") then
        let '(r, m) := Resolve (w_getSecret w) (h_secretsMgr h) (w_now w) (w_now w) src
                         (ds_CredentialRef ds) in
        (r, set_mgr h m)
      else (Ok (default ∅ (ds_Credentials ds)), h) in
    match creds with
    | Err e => (Ok (test_result requestID
                      (Some ("failed to resolve credentials: " +:+ err_msg e))), h)
    | Ok creds =>
        let config := normalizeConfigValues (default ∅ (ds_Config ds)) in
        match newProxyByType (ds_ProxyType ds) (ds_Type ds) config (ds_AllowedHosts ds) with
        | Err e => (Ok (test_result requestID (Some (err_msg e))), h)
        | Ok (kind, config) =>
            match w_configure w kind config creds with
            | Err e => (Ok (test_result requestID (Some (err_msg e))), h)
            | Ok _ => (Ok (test_result requestID None), h)
            end
        end
    end.
End sync.

(** ** Dispatch *)

Section dispatch.
Context `{AesGcm, SshLib, Ed25519}.

Definition HandleMessage (w : world) (h : Handler) (msg : string)
  : result string * Handler * bool :=
  match json_parse msg with
  | None => (Err (wrapf "unmarshal envelope: " json_error), h, false)
  | Some j =>
      let '(env, ok) := decode_envelope j in
      if negb ok then (Err (wrapf "unmarshal envelope: " json_error), h, false)
      else
        let effectiveAction :=
          if String.eqb (env_Action env) "" then env_ActionName env else env_Action env in
        let '(rejected, h) :=
          match h_verifier h with
          | Some v =>
              if bool_decide (effectiveAction ∈ signedActions) || Enabled (Some v) then
                let '(r, v) := Verify v (w_clock w) msg in
                (negb (is_ok r) && Enabled (Some v), set_verifier h (Some v))
              else (false, h)
          | None => (false, h)
          end in
        if rejected then
          (Ok (buildErrorResponse (env_RequestID env) 403 "signature verification failed"), h, false)
        else if String.eqb (env_Action env) "datasource_config_sync" then
          handleConfigSync w h j (env_RequestID env)
        else if String.eqb (env_Action env) "test_datasource_config" then
          let '(r, h) := handleTestDatasourceConfig w h j (env_RequestID env) in (r, h, false)
        else
          let '(r, h) := handleRequest w h j (env_RequestID env) (env_DatasourceID env) in
          (Ok r, h, false)
  end.
End dispatch.
