(* ===== verification/HandlerFacts.v ===== *)
(** * Correctness of message dispatch *)

From S2P Require Import Prelude GoStrings GoJson GoJsonFacts GoAny GoDecode GoTime GoBase64 Signing.
From S2P Require Import SigningFacts Errors Registry RegistryFacts Ssh Secrets SshAccess.
From S2P Require Import Handler.

#[local] Opaque json_print json_parse Verify.

(** ** Decoding structs *)

(** Decoding fails as soon as one member has the wrong type. *)
Lemma dec_struct_bad {A} (field : A → string → json → A * bool) l old k v :
  (k, v) ∈ l → (∀ a, (field a k v).2 = false) → (dec_struct field old (JObj l)).2 = false.
Proof.
  intros Hin Hbad. unfold dec_struct.
  assert (∀ l a, (foldl (λ '(a, ok) '(k, x), let '(a', ok') := field a k x in (a', ok && ok'))
                    (a, false) l).2 = false) as Hstay.
  { clear. induction l as [|[k v] l IH]; intros a; [done|]. simpl. destruct (field a k v). apply IH. }
  generalize true. revert old. induction l as [|[k' v'] l IH]; intros old b;
    [by apply not_elem_of_nil in Hin|].
  simpl. apply elem_of_cons in Hin as [[= <- <-]|Hin].
  - specialize (Hbad old). destruct (field old k v) as [a' ok']. simpl in Hbad. subst ok'.
    rewrite andb_false_r. apply Hstay.
  - destruct (field old k' v'). by apply IH.
Qed.

(** A message whose "body" is a string is refused before it is dispatched: the
    envelope declares body as an object, so decoding fails, nothing is answered and
    nothing changes. The documented http_request format carries its body that way. *)
Theorem HandleMessage_string_body `{AesGcm, SshLib, Ed25519} w h msg l s :
  json_parse msg = Some (JObj l) → ("body", JStr s) ∈ l →
  HandleMessage w h msg = (Err (wrapf "unmarshal envelope: " json_error), h, false).
Proof.
  intros Hp Hin. unfold HandleMessage. rewrite Hp.
  assert ((decode_envelope (JObj l)).2 = false) as Hf.
  { apply dec_struct_bad with (k := "body") (v := JStr s); [done|].
    intros [a r d n]. unfold envelope_field. eval_keys. reflexivity. }
  destruct (decode_envelope (JObj l)) as [env ok]. simpl in Hf. by subst ok.
Qed.

(** ** Authentication *)

(** C4. Nothing unauthenticated gets through: with a signing key configured, a message
    that [Verify] rejects is answered with 403 (or, if it is no envelope at all, with
    no response); no proxy is called, no datasource, credential or cached secret
    changes, and no configuration is applied. *)
Theorem HandleMessage_rejects `{AesGcm, SshLib, Ed25519} w h v msg :
  h_verifier h = Some v → enabled v = true → is_ok (Verify v (w_clock w) msg).1 = false →
  ∃ r v', HandleMessage w h msg = (r, set_verifier h v', false)
    ∧ (is_ok r = false ∨ ∃ id, r = Ok (buildErrorResponse id 403 "signature verification failed")).
Proof.
  intros Hv Hen Hbad. unfold HandleMessage.
  assert (set_verifier h (Some v) = h) as Hid by (destruct h; simpl in *; by subst).
  destruct (json_parse msg) as [j|]; [|exists (Err (wrapf "unmarshal envelope: " json_error)), (Some v);
    rewrite Hid; split; [done|by left]].
  destruct (decode_envelope j) as [env []]; simpl;
    [|exists (Err (wrapf "unmarshal envelope: " json_error)), (Some v); rewrite Hid; split; [done|by left]].
  rewrite Hv. cbn [Enabled]. rewrite Hen, orb_true_r.
  pose proof (Verify_preserves v (w_clock w) msg) as [Hpres _].
  destruct (Verify v (w_clock w) msg) as [r v']. simpl in Hbad, Hpres |- *.
  rewrite Hbad, Hpres, Hen. simpl. eexists _, (Some v'). split; [done|]. right. eauto.
Qed.

(** ** Keys that differ in case *)

Lemma unmarshal_envelope_snoc l k v env :
  (∀ n, n ∈ envelope_names → key_is n k = false) →
  unmarshal_envelope (JObj l) = Ok env → unmarshal_envelope (JObj (l ++ [(k, v)])) = Ok env.
Proof.
  intros Hk. rewrite !unmarshal_envelope_obj, envelope_types_ok_app.
  assert (envelope_types_ok [(k, v)] = true) as ->.
  { unfold envelope_types_ok. cbn [forallb]. rewrite andb_true_r.
    destruct (existsb (λ n, key_is n k) envelope_names) eqn:E; [|done].
    apply existsb_exists in E as (n & Hn%list_elem_of_In & Hkn). by rewrite Hk in Hkn. }
  rewrite andb_true_r. destruct (envelope_types_ok l); [|done].
  assert (∀ n, n ∈ envelope_names → field_val n "" (l ++ [(k, v)]) = field_val n "" l) as Hf.
  { intros n Hn. rewrite field_val_app. apply field_val_skip.
    intros k' v' [= -> ->]%list_elem_of_singleton. by apply Hk. }
  rewrite !Hf by solve_member. done.
Qed.

Lemma decode_envelope_snoc_action l a :
  decode_envelope (JObj (l ++ [("Action", JStr a)])) =
  (let '(e, ok) := decode_envelope (JObj l) in
   (MkMsgEnvelope a (env_RequestID e) (env_DatasourceID e) (env_ActionName e), ok)).
Proof.
  unfold decode_envelope, dec_struct. rewrite foldl_app. cbn [foldl].
  destruct (foldl _ _ l) as [[a0 r d n] ok]. unfold envelope_field. eval_keys.
  cbn. by rewrite andb_true_r.
Qed.

(** C40. The signature does not bind the action that is dispatched. The signed fields
    are compared with the message by exact key, but the envelope is decoded with
    case-insensitive keys, the last one winning: appending "Action" to an accepted
    message leaves it accepted by [Verify], and the handler then takes the appended
    action in place of the signed one. *)
Theorem HandleMessage_action_confusion `{Ed25519} v c msg l env pj payload a :
  enabled v = true → (Verify v c msg).1 = Ok tt →
  json_parse msg = Some (JObj l) → unmarshal_envelope (JObj l) = Ok env →
  json_parse (SignedPayload env) = Some pj → unmarshal_raw_map pj = Some payload →
  payload !! "Action" = None → valid_utf8 a = true →
  let l' := l ++ [("Action", JStr a)] in
  (Verify v c (json_print (JObj l'))).1 = Ok tt
  ∧ json_parse (json_print (JObj l')) = Some (JObj l')
  ∧ env_Action (decode_envelope (JObj l')).1 = a
  ∧ (decode_envelope (JObj l')).2 = (decode_envelope (JObj l)).2.
Proof.
  intros Hen Hacc Hj Henv Hpj Hpl Hno Ha l'.
  pose proof (json_parse_wf _ _ Hj) as Hwf.
  assert (json_parse (json_print (JObj l')) = Some (JObj l')) as Hparse.
  { apply json_parse_print. unfold l'. cbn [wf_json] in *. rewrite forallb_app, Hwf.
    cbn [forallb fst snd wf_json andb]. rewrite Ha. vm_compute. reflexivity. }
  apply Verify_Ok in Hacc as (env' & t & [(j' & Hj' & Henv') Hsg Hsp Hn Ht Hw Hau Hag] & Hfresh); [|done].
  assert (j' = JObj l) as -> by congruence. assert (env' = env) as -> by congruence.
  split; [|split; [done|]].
  - apply Verify_Ok; [done|]. exists env, t. split; [|done]. split; [|done..|].
    + exists (JObj l'). split; [done|]. apply unmarshal_envelope_snoc; [|done].
      intros n Hin. repeat (apply elem_of_cons in Hin as [->|Hin]; [vm_compute; reflexivity|]).
      by apply not_elem_of_nil in Hin.
    + destruct Hag as (pj' & pl' & mj & fields & H1 & H2 & H3 & H4 & Hag).
      assert (pj' = pj) as -> by congruence. assert (pl' = payload) as -> by congruence.
      assert (mj = JObj l) as -> by congruence. simpl in H4. injection H4 as <-.
      exists pj, payload, (JObj l'), (members_map l'). split_and!; [done..|].
      intros k pv Hk. destruct (Hag k pv Hk) as (mv & x & Hmv & Hx). exists mv, x. split; [|done].
      unfold l'. rewrite members_map_snoc, lookup_insert_ne; [done|]. intros <-. congruence.
  - unfold l'. rewrite decode_envelope_snoc_action. by destruct (decode_envelope (JObj l)).
Qed.

(** ** Error payloads *)

(** Characters that Go's %q writes as JSON does: printable ASCII and the five control
    characters with a common escape. *)
Definition json_safe (c : ascii) : bool :=
  in_range 32 126 (code c) || existsb (Z.eqb (code c)) [8; 9; 10; 12; 13]%Z.

Lemma parse_quote_char c t :
  (code c <? 128)%Z = true →
  parse_str (quote_rune (str1 c) +:+ t) = if json_safe c then prepend (str1 c) (parse_str t) else None.
Proof. destruct c as [[] [] [] [] [] [] [] []]; intros H; try discriminate H; reflexivity. Qed.

Lemma parse_quoted m r :
  all_chars (λ c, (code c <? 128)%Z) m = true →
  parse_str (concat_str (map quote_rune (runes m)) +:+ String dq r)
  = if all_chars json_safe m then Some (m, r) else None.
Proof.
  induction m as [|c m IH]; intros Hm; [reflexivity|].
  cbn [all_chars] in *. apply andb_true_iff in Hm as [Hc Hm].
  cbn [runes]. rewrite Hc. cbn [map]. rewrite concat_str_cons, app_assoc, parse_quote_char, IH by done.
  destruct (json_safe c); [|done]. by destruct (all_chars json_safe m).
Qed.

Lemma parse_quoted_lit m r :
  all_chars (λ c, (code c <? 128)%Z) m = true →
  parse_string_lit (concat_str (map quote_rune (runes m)) +:+ String dq r)
  = if all_chars json_safe m then Some (m, r) else None.
Proof.
  intros Hm. unfold parse_string_lit. rewrite parse_quoted by done.
  destruct (all_chars json_safe m); [|done].
  by rewrite to_valid_utf8_valid by (by apply valid_utf8_ascii).
Qed.

Lemma error_data_shape m :
  error_data m = String (chr 123) (String dq (concat_str (map quote_rune (runes "error"))
    +:+ String dq (": " +:+ String dq (concat_str (map quote_rune (runes m)) +:+ String dq "}")))).
Proof.
  unfold error_data, Quote. rewrite !app_cons, !app_assoc. reflexivity.
Qed.

(** An object with one member whose value is a string. *)
Lemma parse_one_member n X Y k v :
  parse_string_lit X = Some (k, ": " +:+ String dq Y) →
  parse_string_lit Y = (if v is Some v then Some (v, "}") else None) →
  parse_value (S (S (S n))) (String (chr 123) (String dq X)) =
  if v is Some v then Some (JObj [(k, JStr v)], "") else None.
Proof.
  intros HX HY. cbn [parse_value]. rewrite skip_ws_nonws by reflexivity.
  change (chr 123 =?c dq) with false. change (code (chr 123) =? 91)%Z with false.
  change (code (chr 123) =? 123)%Z with true. cbv iota.
  rewrite skip_ws_nonws by reflexivity. change (code dq =? 125)%Z with false. cbv iota.
  cbn [parse_members]. rewrite skip_ws_nonws by reflexivity.
  change (dq =?c dq) with true. cbv iota. rewrite HX.
  change (": " +:+ String dq Y) with (String (chr 58) (String (chr 32) (String dq Y))).
  rewrite skip_ws_nonws by reflexivity. change (code (chr 58) =? 58)%Z with true. cbv iota.
  cbn [parse_value]. change (skip_ws (String (chr 32) (String dq Y))) with (String dq Y). cbv iota.
  change (dq =?c dq) with true. cbv iota.
  rewrite HY. by destruct v.
Qed.

#[local] Transparent json_parse.

(** The payload of an error response is JSON exactly when the message is harmless:
    for an ASCII message, the data of [buildErrorResponse] parses to an object with
    that message under "error" if all characters are printable or common control
    characters, and is not JSON at all otherwise (Go's %q writes \a, \v and \x, which
    JSON does not know). *)
Theorem error_data_json m :
  all_chars (λ c, (code c <? 128)%Z) m = true →
  json_parse (error_data m) =
  if all_chars json_safe m then Some (JObj [("error", JStr m)]) else None.
Proof.
  intros Hm. unfold json_parse. rewrite error_data_shape. cbn [String.length].
  assert (∃ n, String.length (concat_str (map quote_rune (runes "error"))
     +:+ String dq (": " +:+ String dq (concat_str (map quote_rune (runes m)) +:+ String dq "}")))
     = S n) as [n ->] by (by eexists).
  rewrite (parse_one_member _ _ (concat_str (map quote_rune (runes m)) +:+ String dq "}") "error"
             (if all_chars json_safe m then Some m else None));
    [|by rewrite parse_quoted_lit by reflexivity
     |rewrite parse_quoted_lit by done; by destruct (all_chars json_safe m)].
  by destruct (all_chars json_safe m).
Qed.

Lemma error_data_json_witness : json_parse (error_data (str1 (chr 7))) = None.
Proof. exact (error_data_json (str1 (chr 7)) eq_refl). Defined.

(** ** Configuration sync *)

Section sync_facts.
Context `{AesGcm, SshLib} (w : world).

Lemma resolve_creds_registry h ds : h_registry (resolve_creds w h ds).2 = h_registry h.
Proof. unfold resolve_creds. by repeat case_match; simplify_eq. Qed.

Lemma register_slot h id entry p i :
  i ≠ id → abs_slot (h_registry (register h id entry p)) i = abs_slot (h_registry h) i.
Proof.
  intros Hne. unfold abs_slot. simpl.
  by rewrite !lookup_insert_ne, !lookup_delete_ne by done.
Qed.

Lemma register_keeps h id entry p i :
  is_Some (proxies (h_registry h) !! i) →
  is_Some (proxies (h_registry (register h id entry p)) !! i).
Proof.
  intros Hi. simpl. destruct (decide (id = i)) as [->|].
  - rewrite lookup_insert_eq. eauto.
  - by rewrite lookup_insert_ne.
Qed.

(** The IDs a datasource of a push may register. *)
Definition names (ds : datasource) : list string := [ds_ID ds; ds_ID ds +:+ SSHAccessSuffix].

Lemma sibling_id d cfg creds b sib p :
  SSHAccessSibling d cfg creds b = Ok (sib, p) → ent_ID sib = ent_ID d +:+ SSHAccessSuffix.
Proof.
  unfold SSHAccessSibling. intros Hs. apply bind_Ok in Hs as (c & _ & Hs).
  destruct (Configure _ _ _ _ _) as [[r q] ev]. apply bind_Ok in Hs as (u & _ & Hs).
  by injection Hs as <- _.
Qed.

(** What one round leaves alone. *)
Lemma sync_one_spec h ids ds :
  let '(h', ids') := sync_one w (h, ids) ds in
  (∀ i, i ∉ names ds → abs_slot (h_registry h') i = abs_slot (h_registry h) i)
  ∧ (∀ i, is_Some (proxies (h_registry h) !! i) → is_Some (proxies (h_registry h') !! i))
  ∧ (∀ i, i ∈ ids' → i ∈ ids ∨ i ∈ names ds)
  ∧ ids ⊆ ids' ∧ ds_ID ds ∈ ids'.
Proof.
  unfold sync_one. pose proof (resolve_creds_registry h ds) as Hr.
  destruct (resolve_creds w h ds) as [creds h1]. simpl in Hr.
  assert (∀ i, i ∈ {[ds_ID ds]} ∪ ids → i ∈ ids ∨ i ∈ names ds) as Hids.
  { unfold names. set_solver. }
  destruct creds as [creds|]; [|rewrite Hr; split_and!; [done..|set_solver|set_solver]].
  destruct (newProxyByType _ _ _ _) as [[kind config]|];
    [|rewrite Hr; split_and!; [done..|set_solver|set_solver]].
  destruct (w_configure w kind config creds) as [p|];
    [|rewrite Hr; split_and!; [done..|set_solver|set_solver]].
  set (h2 := register h1 (ds_ID ds) (ds_entry ds) p).
  assert (∀ i, i ∉ names ds → abs_slot (h_registry h2) i = abs_slot (h_registry h) i) as Hslot.
  { intros i Hi. unfold h2. rewrite register_slot, Hr; [done|]. unfold names in Hi. set_solver. }
  assert (∀ i, is_Some (proxies (h_registry h) !! i) → is_Some (proxies (h_registry h2) !! i)) as Hkeep.
  { intros i Hi. apply register_keeps. by rewrite Hr. }
  destruct (String.eqb (ds_ProxyType ds) "discovery-proxy" && SSHAccessEnabled config);
    [|split_and!; [done..|set_solver|set_solver]].
  destruct (SSHAccessSibling _ _ _ _) as [[sib q]|] eqn:Es;
    [|split_and!; [done..|set_solver|set_solver]].
  apply sibling_id in Es. simpl in Es. rewrite Es. split_and!.
  - intros i Hi. rewrite register_slot; [by apply Hslot|]. unfold names in Hi. set_solver.
  - intros i Hi. by apply register_keeps, Hkeep.
  - intros i. unfold names. set_solver.
  - set_solver.
  - set_solver.
Qed.

Lemma sync_all_spec dss h ids :
  let '(h', ids') := foldl (sync_one w) (h, ids) dss in
  (∀ i, (∀ ds, ds ∈ dss → i ∉ names ds) → abs_slot (h_registry h') i = abs_slot (h_registry h) i)
  ∧ (∀ i, is_Some (proxies (h_registry h) !! i) → is_Some (proxies (h_registry h') !! i))
  ∧ (∀ i, i ∈ ids' → i ∈ ids ∨ ∃ ds, ds ∈ dss ∧ i ∈ names ds)
  ∧ ids ⊆ ids' ∧ (∀ ds, ds ∈ dss → ds_ID ds ∈ ids').
Proof.
  revert h ids. induction dss as [|ds dss IH]; intros h ids; cbn [foldl].
  { split_and!; try done; [by left|]. by intros ds ?%not_elem_of_nil. }
  pose proof (sync_one_spec h ids ds) as H1.
  destruct (sync_one w (h, ids) ds) as [h1 ids1]. destruct H1 as (A1 & B1 & C1 & D1 & E1).
  specialize (IH h1 ids1). destruct (foldl _ _ dss) as [h2 ids2].
  destruct IH as (A2 & B2 & C2 & D2 & E2). split_and!.
  - intros i Hi. rewrite A2, A1; [done|apply Hi; by left|]. intros ds' Hd. apply Hi. by right.
  - auto.
  - intros i Hi. destruct (C2 i Hi) as [Hi1|(ds' & ? & ?)]; [|right; exists ds'; split; [by right|done]].
    destruct (C1 i Hi1); [by left|right]. exists ds. split; [by left|done].
  - by transitivity ids1.
  - intros ds' [->|Hd]%elem_of_cons; [by apply D2|by apply E2].
Qed.

Lemma Remove_slot r id i :
  i ≠ id → abs_slot (Remove (w_close w) r id).1.2 i = abs_slot r i
           ∧ proxies (Remove (w_close w) r id).1.2 !! i = proxies r !! i.
Proof.
  intros Hne. unfold Remove. repeat case_match; simpl; try done.
  unfold abs_slot. simpl. by rewrite !lookup_delete_ne by done.
Qed.

Lemma Remove_same r id p :
  proxies (Remove (w_close w) r id).1.2 !! id = Some p → ∃ e, w_close w p = Err e.
Proof.
  unfold Remove. destruct (proxies r !! id) as [q|] eqn:Eq; simpl; [|congruence].
  destruct (w_close w q) as [|e] eqn:Ec; simpl.
  - by rewrite lookup_delete_eq.
  - rewrite Eq. intros [= ->]. eauto.
Qed.

Lemma remove_stale_spec r newIDs :
  (∀ i, stale newIDs i = false →
     abs_slot (remove_stale w r newIDs) i = abs_slot r i
     ∧ proxies (remove_stale w r newIDs) !! i = proxies r !! i)
  ∧ (∀ i p, stale newIDs i = true → proxies (remove_stale w r newIDs) !! i = Some p →
       ∃ e, w_close w p = Err e).
Proof.
  unfold remove_stale.
  assert (∀ l r i, stale newIDs i = false ∨ i ∉ l →
    abs_slot (foldl (λ r id, if stale newIDs id then (Remove (w_close w) r id).1.2 else r) r l) i
    = abs_slot r i ∧
    proxies (foldl (λ r id, if stale newIDs id then (Remove (w_close w) r id).1.2 else r) r l) !! i
    = proxies r !! i) as Hskip.
  { clear r. induction l as [|id l IH]; intros r i Hi; [done|]. simpl.
    destruct (IH (if stale newIDs id then (Remove (w_close w) r id).1.2 else r) i) as [-> ->].
    { destruct Hi; [by left|right; set_solver]. }
    destruct (stale newIDs id) eqn:Es; [|done]. apply Remove_slot.
    intros ->. destruct Hi as [|Hi]; [congruence|]. apply Hi. by left. }
  split; [intros i Hi; apply Hskip; by left|].
  intros i p Hi Hp.
  destruct (decide (i ∈ All r)) as [Hin|Hnot].
  - apply list_elem_of_split in Hin as (l1 & l2 & Hl).
    assert (NoDup (All r)) as Hnd by apply NoDup_fst_map_to_list.
    rewrite Hl in Hp, Hnd. rewrite foldl_app in Hp. simpl in Hp. rewrite Hi in Hp.
    apply NoDup_app in Hnd as (_ & _ & [Hn _]%NoDup_cons).
    rewrite (proj2 (Hskip l2 _ i (or_intror Hn))) in Hp. by apply Remove_same in Hp.
  - rewrite (proj2 (Hskip _ _ i (or_intror Hnot))) in Hp. exfalso. apply Hnot.
    apply list_elem_of_fmap. exists (i, p). split; [done|]. by apply elem_of_map_to_list.
Qed.
End sync_facts.

(** C22. A configuration sync makes the registry match the push: afterwards every
    datasource is local, or named by the push (itself or as the SSH sibling of one it
    names), or could not be closed; a local datasource the push does not name is
    exactly as before; and a datasource that stays in the push is never dropped, even
    if its new configuration fails. *)
Theorem handleConfigSync_matches `{AesGcm, SshLib} w h msg requestID ack h' :
  handleConfigSync w h msg requestID = (Ok ack, h', true) →
  let dss := (decode_push msg).1 in
  (∀ id p, proxies (h_registry h') !! id = Some p →
     HasPrefix id "local:" = true ∨ (∃ ds, ds ∈ dss ∧ id ∈ names ds) ∨ ∃ e, w_close w p = Err e)
  ∧ (∀ id, HasPrefix id "local:" = true → (∀ ds, ds ∈ dss → id ∉ names ds) →
     abs_slot (h_registry h') id = abs_slot (h_registry h) id)
  ∧ (∀ ds, ds ∈ dss → is_Some (proxies (h_registry h) !! ds_ID ds) →
     is_Some (proxies (h_registry h') !! ds_ID ds)).
Proof.
  unfold handleConfigSync. destruct (decode_push msg) as [dss []]; simpl; [|done].
  pose proof (sync_all_spec w dss h ∅) as Hs.
  destruct (foldl (sync_one w) (h, ∅) dss) as [h1 ids]. destruct Hs as (A & B & C & _ & E).
  intros [= _ <-]. simpl.
  destruct (remove_stale_spec w (h_registry h1) ids) as [Hk Hr]. split_and!.
  - intros id p Hp. destruct (stale ids id) eqn:Es; [right; right; by eapply Hr|].
    unfold stale in Es. apply andb_false_iff in Es as [Es|Es].
    + apply negb_false_iff, bool_decide_eq_true in Es.
      destruct (C id Es) as [Hem|?]; [set_solver|]. by right; left.
    + left. by apply negb_false_iff.
  - intros id Hl Hn. assert (stale ids id = false) as Hst by (unfold stale; rewrite Hl; apply andb_false_r).
    rewrite (proj1 (Hk id Hst)). by apply A.
  - intros ds Hd Hi.
    assert (stale ids (ds_ID ds) = false) as Hst.
    { unfold stale. rewrite bool_decide_eq_true_2 by (by apply E). done. }
    rewrite (proj2 (Hk _ Hst)). by apply B.
Qed.

(** ** Responses *)






