(* ===== verification/HandlerWitness.v ===== *)
(** * Concrete messages for the theorems on dispatch *)

From S2P Require Import Prelude GoStrings GoJson GoJsonFacts Signing SigningFacts SigningTheorems.
From S2P Require Import Errors Registry RegistryFacts Ssh Secrets SshAccess Handler HandlerFacts.

#[local] Existing Instance toy.
#[local] Existing Instance plain_gcm.
#[local] Existing Instance lenient_ssh.

Definition pong : ActionResponse := MkResponse 200 "" "" "" "PONG" None.

(** Proxy 1 is an HTTP proxy that answers; everything else works too. *)
Definition demo_w : world :=
  MkWorld (λ _ _, Ok pong) (λ _, "http-proxy") (λ _, Ok tt) (λ _ _ _, Ok 2) (λ _, 3)
    (λ _ _, Err (errorf "no provider")) (λ _, ("123456789012", Ok tt, Written)) false 0 demo_clock.

Definition demo_h : Handler :=
  MkHandler (Register (Register NewRegistry "web" demo_entry 1).1 "local:cache" demo_entry 4).1
    (MkStore ∅ "s") None (NewManager []) (Some demo_verifier).

(** The http_request example of docs/request-flow.md. *)
Definition doc_http_request : string := json_print (JObj [
  ("request_id", JStr "abc-123"); ("datasource_id", JStr "web"); ("action", JStr "http_request");
  ("method", JStr "GET"); ("url", JStr "/api/v1/query?query=up");
  ("header", JObj [("Authorization", JArr [JStr "Bearer token"])]); ("body", JStr "")]).

Lemma HandleMessage_string_body_witness :
  HandleMessage demo_w demo_h doc_http_request =
  (Err (wrapf "unmarshal envelope: " json_error), demo_h, false).
Proof.
  apply (HandleMessage_string_body demo_w demo_h doc_http_request (members_of doc_http_request) "").
  - apply members_of_spec. vm_compute. reflexivity.
  - apply list_elem_of_In. vm_compute. do 6 right. by left.
Defined.

(** An unsigned query. *)
Definition unsigned_query : string := json_print (JObj [
  ("request_id", JStr "r1"); ("datasource_id", JStr "web"); ("action", JStr "db_query")]).

Lemma HandleMessage_rejects_witness :
  ∃ r v', HandleMessage demo_w demo_h unsigned_query = (r, set_verifier demo_h v', false)
    ∧ (is_ok r = false ∨ ∃ id, r = Ok (buildErrorResponse id 403 "signature verification failed")).
Proof.
  apply (HandleMessage_rejects demo_w demo_h demo_verifier unsigned_query).
  - reflexivity.
  - reflexivity.
  - vm_compute. reflexivity.
Defined.

(** The signed redis_command, turned into an ssh_command. *)
Lemma HandleMessage_action_confusion_witness :
  let l' := members_of demo_msg ++ [("Action", JStr "ssh_command")] in
  (Verify demo_verifier demo_clock (json_print (JObj l'))).1 = Ok tt
  ∧ env_Action (decode_envelope (JObj l')).1 = "ssh_command".
Proof.
  intros l'.
  destruct (HandleMessage_action_confusion demo_verifier demo_clock demo_msg (members_of demo_msg)
      (envelope_of demo_msg) (JObj (members_of (SignedPayload (envelope_of demo_msg))))
      (fields_of (SignedPayload (envelope_of demo_msg))) "ssh_command") as (H1 & _ & H2 & _).
  - reflexivity.
  - vm_compute. reflexivity.
  - apply members_of_spec. vm_compute. reflexivity.
  - vm_compute. reflexivity.
  - apply members_of_spec. vm_compute. reflexivity.
  - reflexivity.
  - vm_compute. reflexivity.
  - reflexivity.
  - split; [exact H1|exact H2].
Defined.

(** A push that names one datasource. *)
Definition demo_push : json := JObj [
  ("action", JStr "datasource_config_sync");
  ("datasources", JArr [JObj [("id", JStr "db"); ("type", JStr "postgresql");
     ("proxy_type", JStr "db-proxy"); ("credential_source", JStr "local")]])].

Definition synced : Handler := (handleConfigSync demo_w demo_h demo_push "r1").1.2.

Lemma handleConfigSync_matches_witness :
  abs_slot (h_registry synced) "local:cache" = abs_slot (h_registry demo_h) "local:cache".
Proof.
  destruct (handleConfigSync demo_w demo_h demo_push "r1") as [[[ack|e] h'] b] eqn:E;
    [|by vm_compute in E].
  assert (b = true) as -> by (apply (f_equal snd) in E; vm_compute in E; by rewrite <- E).
  pose proof (handleConfigSync_matches demo_w demo_h demo_push "r1" ack h' E) as (_ & H & _).
  unfold synced. rewrite E. cbn [fst snd]. apply H; [reflexivity|].
  intros ds Hd. apply list_elem_of_In in Hd. vm_compute in Hd. destruct Hd as [<-|[]].
  apply not_elem_of_cons. split; [done|]. apply not_elem_of_cons. split; [done|apply not_elem_of_nil].
Defined.

