(* ===== verification/Client.v ===== *)
(** * pkg/ws/client.go: the connection to the relay

    Reconnection with backoff, the queue of outgoing messages, the trigger of health
    reports, and the messages the client composes. *)

From S2P Require Import Prelude GoStrings GoJson GoAny GoBase64 GoTime Registry.
#[local] Open Scope Z_scope.

Definition maxReconnectDelay : Z := 10 * Second.
Definition initialDelay : Z := 3 * Second.
Definition defaultHealthPeriod : Z := 10 * Minute.
Definition initialHealthDelay : Z := 10 * Second.
Definition sendCapacity : nat := 64.

(** The health period [NewClient] chooses. *)
Definition health_period (healthCheckIntervalMin : Z) : Z :=
  if 0 <? healthCheckIntervalMin then wrap64 (healthCheckIntervalMin * Minute)
  else defaultHealthPeriod.

(** ** Reconnecting *)

(** The loop that doubles the ceiling; [n] counts the attempts left. *)
Fixpoint double_ceiling (n : nat) (ceiling limit : Z) : Z :=
  match n with
  | O => ceiling
  | S n =>
      if ceiling <? limit then
        if Z.quot limit 2 <? ceiling then limit
        else double_ceiling n (wrap64 (ceiling * 2)) limit
      else ceiling
  end.

(** [randN n] is the random draw from [0, n). *)
Definition reconnectWait (base limit attempt : Z) (randN : Z → Z) : Z :=
  let ceiling := double_ceiling (Z.to_nat attempt) (Z.min base limit) limit in
  if ceiling <=? 0 then 0
  else if ceiling =? maxInt64 then randN maxInt64
  else randN (ceiling + 1).

(** How one session ended: when it was established ([None] if the dial failed) and
    when it ended. *)
Record session := MkSession { connectedAt : option Z; endedAt : Z }.

(** One round of [Run]: the wait before the next dial and the new attempt count. *)
Definition run_round (attempt : Z) (s : session) (randN : Z → Z) : Z * Z :=
  let attempt :=
    match connectedAt s with
    | Some t => if maxReconnectDelay <=? time_sub (endedAt s) t then 0 else attempt
    | None => attempt
    end in
  (reconnectWait initialDelay maxReconnectDelay attempt randN, wrap64 (attempt + 1)).

(** The waits of a run of sessions. *)
Fixpoint run_waits (attempt : Z) (l : list (session * (Z → Z))) : list Z :=
  match l with
  | [] => []
  | (s, randN) :: l => let '(w, a) := run_round attempt s randN in w :: run_waits a l
  end.

(** ** Outgoing messages *)

(** [Send]: the queue holds 64 messages, a message that does not fit is dropped. *)
Definition Send (queue : list string) (msg : string) : list string :=
  if (length queue <? sendCapacity)%nat then queue ++ [msg] else queue.

(** One iteration of the writer: the oldest message goes out. *)
Definition write_one (queue : list string) : option (string * list string) :=
  match queue with m :: q => Some (m, q) | [] => None end.

(** The value of the Authorization header. *)
Definition auth_header (accessKey accessSecret : string) : string :=
  "Basic " +:+ EncodeToString (accessKey +:+ ":" +:+ accessSecret).

(** pkg/version: set at build time. *)
Record version_info := MkVersion { v_Version : string; v_Commit : string; v_BuildTime : string }.

Definition greeting (v : version_info) : json :=
  JObj [("action", JStr "auth"); ("agent_build_time", JStr (v_BuildTime v));
        ("agent_commit", JStr (v_Commit v)); ("agent_type", JStr "proxy");
        ("agent_version", JStr (v_Version v));
        ("capabilities", JObj (map (λ k, (k, JBool true))
           ["db-proxy"; "discovery-proxy"; "http-proxy"; "kafka-proxy"; "mcp-proxy";
            "mongo-proxy"; "redis-proxy"; "ssh-proxy"]));
        ("protocol_version", JStr "1.0.0"); ("version", JStr (v_Version v))].

Record DatasourceInventoryItem := MkItem {
  it_ID : string; it_Type : string; it_ProxyType : string; it_Name : string }.

Definition marshal_item (i : DatasourceInventoryItem) : json :=
  JObj [("id", JStr (it_ID i)); ("type", JStr (it_Type i)); ("proxy_type", JStr (it_ProxyType i));
        ("name", JStr (it_Name i))].

(** No function set, or nothing to report: nothing is sent. *)
Definition sendInventory (inventoryFn : option (list DatasourceInventoryItem)) (queue : list string)
  : list string :=
  match inventoryFn with
  | None | Some [] => queue
  | Some items =>
      Send queue (json_print (JObj [("action", JStr "datasource_inventory");
                                    ("datasources", JArr (map marshal_item items))]))
  end.

Definition sendMetadata (metadataFn : option (gmap string metadata)) (queue : list string)
  : list string :=
  match metadataFn with
  | None => queue
  | Some m =>
      if bool_decide (m = ∅) then queue
      else
        match marshal_any (AMap [("action", AStr "datasource_metadata");
                                 ("metadata", any_map (any_map <$> m))]) with
        | Some j => Send queue (json_print j)
        | None => queue
        end
  end.

Definition marshal_health (h : DatasourceHealth) : json :=
  let omit k s := if String.eqb s "" then [] else [(k, JStr s)] in
  JObj ([("type", JStr (dh_Type h)); ("proxy_type", JStr (dh_ProxyType h)); ("name", JStr (dh_Name h));
         ("status", JStr (dh_Status h))]
        ++ omit "error" (dh_Error h) ++ omit "error_class" (dh_ErrorClass h)
        ++ [("last_check", JStr (dh_LastCheck h)); ("reachable", JBool (dh_Reachable h));
            ("latency_ms", JNum (Itoa (dh_LatencyMs h)))]
        ++ omit "last_success" (dh_LastSuccess h)).

Definition sendHealthReport (v : version_info) (report : gmap string DatasourceHealth)
    (queue : list string) : list string :=
  if bool_decide (map_to_list report = []) then queue
  else
    Send queue (json_print (JObj [("action", JStr "datasource_health_update");
      ("agent_commit", JStr (v_Commit v)); ("agent_version", JStr (v_Version v));
      ("datasources", marshal_raw_map (marshal_health <$> report))])).

(** ** The health loop *)

(** Where [healthReportLoop] is: in the initial delay, before draining the trigger,
    taking a report, or waiting for the next one. *)
Inductive health_pc := InitialDelay | Draining | Reporting | WaitingTick.

(** The loop and the one-place channel healthNow; [reports] counts the reports begun. *)
Record health_loop := MkLoop { pc : health_pc; healthNow : bool; reports : nat }.

Inductive health_step : health_loop → health_loop → Prop :=
  | hs_trigger l :                                  (* TriggerHealthReport *)
      health_step l (MkLoop (pc l) true (reports l))
  | hs_delay_over b n :                             (* initial delay elapsed *)
      health_step (MkLoop InitialDelay b n) (MkLoop Draining b n)
  | hs_delay_trigger n :                            (* trigger during the delay *)
      health_step (MkLoop InitialDelay true n) (MkLoop Draining false n)
  | hs_drain b n :                                  (* drop a pending trigger, begin *)
      health_step (MkLoop Draining b n) (MkLoop Reporting false (S n))
  | hs_report_done b n :
      health_step (MkLoop Reporting b n) (MkLoop WaitingTick b n)
  | hs_tick b n :
      health_step (MkLoop WaitingTick b n) (MkLoop Draining b n)
  | hs_wait_trigger n :
      health_step (MkLoop WaitingTick true n) (MkLoop Draining false n).

(** ** Backoff *)

Lemma double_ceiling_spec n c limit :
  0 < c ≤ limit → limit ≤ maxInt64 → double_ceiling n c limit = Z.min limit (c * 2 ^ Z.of_nat n).
Proof.
  intros Hc Hl. revert c Hc. induction n as [|n IH]; intros c Hc; cbn [double_ceiling].
  - change (2 ^ Z.of_nat 0) with 1. lia.
  - assert (0 < 2 ^ Z.of_nat n) as Hpow by (apply Z.pow_pos_nonneg; lia).
    rewrite Nat2Z.inj_succ, Z.pow_succ_r by lia.
    destruct (Z.ltb_spec c limit) as [Hlt|Hge].
    + rewrite Z.quot_div_nonneg by lia.
      destruct (Z.ltb_spec (limit / 2) c) as [Hhalf|Hhalf].
      * assert (limit < 2 * c) by (Z.to_euclidean_division_equations; lia). nia.
      * assert (2 * c ≤ limit) by (Z.to_euclidean_division_equations; lia).
        rewrite wrap64_id by (unfold in_int64, minInt64 in *; lia).
        rewrite IH by lia. f_equal. lia.
    + assert (c = limit) as -> by lia. nia.
Qed.

(** What math/rand promises of [Int64N]. *)
Definition rand_ok (randN : Z → Z) : Prop := ∀ n, 0 < n → 0 ≤ randN n < n.

(** The backoff is full jitter over an exponential ceiling, without overflow: for
    positive durations the wait before reconnect number k is drawn uniformly from zero
    to min(limit, base * 2^k), computed exactly for every k although the code doubles
    64-bit integers. *)
Theorem reconnectWait_ceiling base limit attempt randN :
  0 < base ≤ maxInt64 → 0 < limit < maxInt64 → 0 ≤ attempt →
  reconnectWait base limit attempt randN = randN (Z.min limit (base * 2 ^ attempt) + 1).
Proof.
  intros Hb Hl Ha. unfold reconnectWait.
  rewrite double_ceiling_spec, Z2Nat.id by lia.
  assert (0 < 2 ^ attempt) by (apply Z.pow_pos_nonneg; lia).
  replace (Z.min limit (Z.min base limit * 2 ^ attempt)) with (Z.min limit (base * 2 ^ attempt)) by nia.
  assert (0 < Z.min limit (base * 2 ^ attempt)) by nia.
  rewrite (proj2 (Z.leb_gt _ _)) by lia. rewrite (proj2 (Z.eqb_neq _ _)) by lia. done.
Qed.

Lemma reconnectWait_ceiling_witness :
  reconnectWait initialDelay maxReconnectDelay 1 (λ n, n - 1) = (λ n, n - 1) (6 * Second + 1).
Proof.
  exact (reconnectWait_ceiling initialDelay maxReconnectDelay 1 (λ n, n - 1)
           ltac:(split; [reflexivity|discriminate]) ltac:(split; reflexivity) ltac:(discriminate)).
Defined.

Lemma reconnectWait_range attempt randN :
  rand_ok randN → 0 ≤ reconnectWait initialDelay maxReconnectDelay attempt randN ≤ maxReconnectDelay.
Proof.
  intros Hr. unfold reconnectWait.
  rewrite double_ceiling_spec by (unfold initialDelay, maxReconnectDelay, Second, maxInt64; lia).
  set (c := Z.min maxReconnectDelay _).
  assert (c ≤ maxReconnectDelay) by (unfold c; lia).
  destruct (Z.leb_spec c 0); [unfold maxReconnectDelay, Second; lia|].
  destruct (Z.eqb_spec c maxInt64); [unfold maxReconnectDelay, Second, maxInt64 in *; lia|].
  specialize (Hr (c + 1)). lia.
Qed.

Lemma run_round_held attempt s randN t :
  rand_ok randN → connectedAt s = Some t → maxReconnectDelay ≤ time_sub (endedAt s) t →
  0 ≤ (run_round attempt s randN).1 ≤ initialDelay ∧ (run_round attempt s randN).2 = 1.
Proof.
  intros Hr Ht Hheld. unfold run_round. rewrite Ht, (proj2 (Z.leb_le _ _) Hheld). cbn [fst snd].
  split; [|reflexivity]. unfold reconnectWait. cbn [Z.to_nat double_ceiling].
  change (double_ceiling (Z.to_nat 0) (Z.min initialDelay maxReconnectDelay) maxReconnectDelay)
    with initialDelay.
  change (initialDelay <=? 0) with false. change (initialDelay =? maxInt64) with false. cbn iota.
  pose proof (Hr (initialDelay + 1) ltac:(reflexivity)). lia.
Qed.

(** The agent always comes back soon: over any history of sessions the wait before
    a reconnect is at most ten seconds, and after a session that held for ten seconds
    at most three, the backoff starting over. *)
Theorem run_waits_bounded attempt l :
  Forall (λ '(_, randN), rand_ok randN) l →
  Forall (λ w, 0 ≤ w ≤ maxReconnectDelay) (run_waits attempt l)
  ∧ ∀ i s randN t, l !! i = Some (s, randN) → connectedAt s = Some t →
      maxReconnectDelay ≤ time_sub (endedAt s) t →
      ∃ w, run_waits attempt l !! i = Some w ∧ 0 ≤ w ≤ initialDelay.
Proof.
  revert attempt. induction l as [|[s r] l IH]; intros attempt Hl; cbn [run_waits].
  - split; [constructor|]. intros i s randN t Hi. by rewrite lookup_nil in Hi.
  - apply Forall_cons in Hl as [Hr Hl].
    destruct (run_round attempt s r) as [w a] eqn:E. destruct (IH a Hl) as [H1 H2]. split.
    + constructor; [|done]. apply (f_equal fst) in E. simpl in E. subst w.
      unfold run_round. by apply reconnectWait_range.
    + intros [|i] s' r' t Hi Ht Hheld; simpl in *; [|by eapply H2].
      injection Hi as -> ->. exists w. split; [done|].
      pose proof (run_round_held attempt s' r' t Hr Ht Hheld) as [Hw _]. by rewrite E in Hw.
Qed.

Lemma run_waits_bounded_witness :
  ∃ w, run_waits 0 [(MkSession None 0, λ _, 0); (MkSession (Some 0) (60 * Second), λ _, 0)] !! 1%nat
       = Some w ∧ 0 ≤ w ≤ initialDelay.
Proof.
  assert (rand_ok (λ _, 0)) as Hr by (intros n Hn; lia).
  destruct (run_waits_bounded 0 [(MkSession None 0, λ _, 0); (MkSession (Some 0) (60 * Second), λ _, 0)])
    as [_ H].
  - by repeat constructor.
  - apply (H 1%nat (MkSession (Some 0) (60 * Second)) (λ _, 0) 0); [done|done|].
    apply Z.leb_le. vm_compute. reflexivity.
Defined.

(** ** The queue *)

Inductive queue_op := QSend (m : string) | QWrite.

(** What was written so far, and the queue. *)
Definition queue_step (s : list string * list string) (op : queue_op) : list string * list string :=
  match op with
  | QSend m => (s.1, Send s.2 m)
  | QWrite => match write_one s.2 with Some (m, q) => (s.1 ++ [m], q) | None => s end
  end.

Definition sent (ops : list queue_op) : list string :=
  list_omap _ _ (λ op, match op with QSend m => Some m | QWrite => None end) ops.

Lemma queue_step_spec s op :
  (length s.2 ≤ sendCapacity)%nat →
  (length (queue_step s op).2 ≤ sendCapacity)%nat
  ∧ (queue_step s op).1 ++ (queue_step s op).2 `sublist_of` (s.1 ++ s.2) ++ sent [op].
Proof.
  destruct s as [out q], op as [m|]; simpl; intros Hq.
  - unfold Send. destruct (Nat.ltb_spec (length q) sendCapacity); split.
    + rewrite length_app. simpl. lia.
    + by rewrite List.app_assoc.
    + done.
    + rewrite <- (List.app_nil_r (out ++ q)) at 1. apply sublist_app; [done|apply sublist_nil_l].
  - rewrite List.app_nil_r. destruct q as [|m q]; simpl in *; [done|]. split; [lia|].
    by rewrite <- List.app_assoc.
Qed.

(** Responses leave in the order they were queued and none is duplicated or
    invented: after any interleaving of sends and writes, what has been written
    followed by what is queued is a subsequence of what was sent, and at most 64
    messages are queued; only messages sent while 64 were waiting are missing. *)
Theorem send_queue_fifo ops :
  let s := foldl queue_step ([], []) ops in
  (length s.2 ≤ sendCapacity)%nat
  ∧ s.1 ++ s.2 `sublist_of` sent ops
  ∧ ((∀ ops1 m ops2, ops = ops1 ++ QSend m :: ops2 →
        (length (foldl queue_step ([], []) ops1).2 < sendCapacity)%nat) → s.1 ++ s.2 = sent ops).
Proof.
  induction ops as [|op ops IH] using rev_ind; simpl; [split_and!; [simpl; lia|done..]|].
  rewrite foldl_app. simpl. destruct IH as (H1 & H2 & H3).
  assert (sent (ops ++ [op]) = sent ops ++ sent [op]) as -> by apply omap_app.
  destruct (queue_step_spec _ op H1) as [H4 H5]. split_and!; [done| |].
  - etransitivity; [exact H5|]. by apply sublist_app.
  - intros Hroom.
    assert (∀ ops1 m ops2, ops = ops1 ++ QSend m :: ops2 →
      (length (foldl queue_step ([], []) ops1).2 < sendCapacity)%nat) as Hroom'.
    { intros ops1 m ops2 ->. apply (Hroom ops1 m (ops2 ++ [op])). by rewrite <- List.app_assoc. }
    rewrite <- (H3 Hroom'). destruct (foldl queue_step ([], []) ops) as [out q] eqn:E.
    destruct op as [m|]; simpl.
    + specialize (Hroom ops m [] eq_refl). rewrite E in Hroom. simpl in Hroom.
      unfold Send. rewrite (proj2 (Nat.ltb_lt _ _)) by done. by rewrite List.app_assoc.
    + rewrite List.app_nil_r. destruct q as [|m q]; simpl; [done|]. by rewrite <- List.app_assoc.
Qed.

(** ** Triggers *)

(** A trigger that no report has answered yet: it is in the channel, or the loop is
    just about to begin a report. *)
Definition owed (l : health_loop) : Prop := healthNow l = true ∨ pc l = Draining.

Lemma owed_step l l' n :
  health_step l l' → (n ≤ reports l)%nat → (reports l = n → owed l) →
  (n ≤ reports l')%nat ∧ (reports l' = n → owed l').
Proof.
  unfold owed. intros Hs Hn Ho. inversion Hs; subst; simpl in *; split; try lia; intros E; subst;
    try (destruct (Ho eq_refl); [|done]); auto; lia.
Qed.

(** No trigger is lost: after [TriggerHealthReport], whatever else happens, until
    a report has begun the trigger is pending in the channel or the loop is about to
    begin one, so a report that sees the new configuration always follows; and one
    can always be reached. *)
Theorem health_trigger_served l l' :
  rtc health_step (MkLoop (pc l) true (reports l)) l' →
  (reports l' = reports l → owed l')
  ∧ ∃ l'', rtc health_step l' l'' ∧ (reports l < reports l'')%nat.
Proof.
  intros Hs.
  assert ((reports l ≤ reports l')%nat ∧ (reports l' = reports l → owed l')) as [Hle Ho].
  { remember (MkLoop (pc l) true (reports l)) as l0 eqn:E0.
    assert ((reports l ≤ reports l0)%nat) as Hle by (subst; done).
    assert (reports l0 = reports l → owed l0) as Ho by (subst; by left).
    clear E0. revert Hle Ho. induction Hs as [|x y z Hxy _ IH]; intros Hle Ho; [done|].
    destruct (owed_step _ _ _ Hxy Hle Ho). by apply IH. }
  split; [done|].
  assert (∀ b n, rtc health_step (MkLoop Draining b n) (MkLoop Reporting false (S n))) as Hd
    by (intros; eapply rtc_l; [constructor|apply rtc_refl]).
  assert (∀ b n, rtc health_step (MkLoop WaitingTick b n) (MkLoop Reporting false (S n))) as Hw
    by (intros; eapply rtc_l; [apply hs_tick|apply Hd]).
  destruct l' as [[] b n]; simpl in *; exists (MkLoop Reporting false (S n)); (split; [|simpl; lia]);
    [eapply rtc_l; [apply hs_delay_over|apply Hd]|apply Hd
    |eapply rtc_l; [apply hs_report_done|apply Hw]|apply Hw].
Qed.

Lemma health_trigger_served_witness :
  ∃ l'', rtc health_step (MkLoop WaitingTick true 3) l'' ∧ (3 < reports l'')%nat.
Proof. apply (health_trigger_served (MkLoop WaitingTick false 3)), rtc_refl. Defined.
