(* ===== verification/Session.v ===== *)
(** * pkg/ws/client.go: sessions with the relay

    The goroutines of a client over its lifetime: the session's reader, writer, pinger
    and closer, and the message handlers, which outlive the session they were started
    in. Each call on the connection takes time: it starts in one step and returns in
    another, so that calls of several goroutines can overlap. *)

From S2P Require Import Prelude GoStrings Client.
#[local] Open Scope nat_scope.

(** Where [connectAndServe] is: not running, in [readLoop], after it returned, in
    [wg.Wait]. *)
Inductive reader_pc := NoSession | Reading | Returned | Waiting.
Inductive writer_pc := WIdle | WWriting (msg : string) | WDone.
Inductive pinger_pc := PIdle | PWriting | PDone.
Inductive closer_pc := CWaiting | CWriting | CDone.

Record client := MkClient {
  reader : reader_pc;
  writer : writer_pc;
  pinger : pinger_pc;
  closer : closer_pc;
  health : bool;                     (* healthReportLoop runs *)
  metadata : bool;                   (* sendMetadata runs *)
  cancelled : bool;                  (* the session's context *)
  conn_open : bool;
  sendCh : list string;
  handlers : list string;            (* messages being handled *)
  (* history *)
  sessions : nat;
  received : list string;
  handled : list string;
  accepted : list string;            (* messages that [Send] queued *)
  dropped : list string;             (* messages that did not fit *)
  out : list (string * bool);        (* writes that returned, and whether they succeeded *)
}.

Definition new_client : client :=
  MkClient NoSession WDone PDone CDone false false true false [] [] 0 [] [] [] [] [].

(** [Send] from any goroutine. *)
Definition client_Send (c : client) (msg : string) : client :=
  let fits := length (sendCh c) <? sendCapacity in
  MkClient (reader c) (writer c) (pinger c) (closer c) (health c) (metadata c) (cancelled c) (conn_open c)
    (Client.Send (sendCh c) msg) (handlers c) (sessions c) (received c) (handled c)
    (if fits then accepted c ++ [msg] else accepted c)
    (if fits then dropped c else dropped c ++ [msg]) (out c).

Definition set_reader (c : client) (r : reader_pc) : client :=
  MkClient r (writer c) (pinger c) (closer c) (health c) (metadata c) (cancelled c) (conn_open c) (sendCh c) (handlers c)
    (sessions c) (received c) (handled c) (accepted c) (dropped c) (out c).
Definition set_writer (c : client) (w : writer_pc) : client :=
  MkClient (reader c) w (pinger c) (closer c) (health c) (metadata c) (cancelled c) (conn_open c) (sendCh c) (handlers c)
    (sessions c) (received c) (handled c) (accepted c) (dropped c) (out c).
Definition set_pinger (c : client) (p : pinger_pc) : client :=
  MkClient (reader c) (writer c) p (closer c) (health c) (metadata c) (cancelled c) (conn_open c) (sendCh c) (handlers c)
    (sessions c) (received c) (handled c) (accepted c) (dropped c) (out c).
Definition set_closer (c : client) (x : closer_pc) (o : bool) : client :=
  MkClient (reader c) (writer c) (pinger c) x (health c) (metadata c) (cancelled c) o (sendCh c) (handlers c)
    (sessions c) (received c) (handled c) (accepted c) (dropped c) (out c).
Definition cancel (c : client) : client :=
  MkClient (reader c) (writer c) (pinger c) (closer c) (health c) (metadata c) true (conn_open c) (sendCh c) (handlers c)
    (sessions c) (received c) (handled c) (accepted c) (dropped c) (out c).
Definition set_queue (c : client) (q : list string) : client :=
  MkClient (reader c) (writer c) (pinger c) (closer c) (health c) (metadata c) (cancelled c) (conn_open c) q (handlers c)
    (sessions c) (received c) (handled c) (accepted c) (dropped c) (out c).
Definition wrote (c : client) (msg : string) (ok : bool) : client :=
  MkClient (reader c) (writer c) (pinger c) (closer c) (health c) (metadata c) (cancelled c) (conn_open c) (sendCh c) (handlers c)
    (sessions c) (received c) (handled c) (accepted c) (dropped c) (out c ++ [(msg, ok)]).

Definition set_reporters (c : client) (h m : bool) : client :=
  MkClient (reader c) (writer c) (pinger c) (closer c) h m (cancelled c) (conn_open c) (sendCh c) (handlers c)
    (sessions c) (received c) (handled c) (accepted c) (dropped c) (out c).

(** A connection is up and its goroutines start; the reporters only if their functions
    are set. *)
Definition connect (c : client) (healthFn metadataFn : bool) : client :=
  MkClient Reading WIdle PIdle CWaiting healthFn metadataFn false true (sendCh c) (handlers c)
    (S (sessions c)) (received c) (handled c) (accepted c) (dropped c) (out c).

Definition receive (c : client) (msg : string) : client :=
  MkClient (reader c) (writer c) (pinger c) (closer c) (health c) (metadata c) (cancelled c) (conn_open c) (sendCh c)
    (msg :: handlers c) (sessions c) (msg :: received c) (handled c) (accepted c) (dropped c) (out c).

(** A handler is done with a message. *)
Definition finish (c : client) (msg : string) (rest : list string) : client :=
  MkClient (reader c) (writer c) (pinger c) (closer c) (health c) (metadata c) (cancelled c) (conn_open c) (sendCh c)
    rest (sessions c) (received c) (msg :: handled c) (accepted c) (dropped c) (out c).

(** [readLoop] and what [connectAndServe] does around it. *)
Inductive read_step : client → client → Prop :=
  | read_message c msg :
      reader c = Reading → conn_open c = true → read_step c (receive c msg)
  | read_error c : reader c = Reading → read_step c (set_reader c Returned)
  | read_cancel c : reader c = Returned → read_step c (set_reader (cancel c) Waiting)
  | read_end c :
      reader c = Waiting → writer c = WDone → pinger c = PDone → closer c = CDone →
      health c = false → metadata c = false → read_step c (set_reader c NoSession).

(** A goroutine that handles one message; an error or a nil response sends nothing. *)
Inductive handle_step : client → client → Prop :=
  | handle_done c h1 msg h2 resp :
      handlers c = h1 ++ msg :: h2 →
      handle_step c
        match resp with
        | Some r => client_Send (finish c msg (h1 ++ h2)) r
        | None => finish c msg (h1 ++ h2)
        end.

(** [writeLoop]. *)
Inductive write_step : client → client → Prop :=
  | write_stop c : writer c = WIdle → cancelled c = true → write_step c (set_writer c WDone)
  | write_take c msg q :
      writer c = WIdle → write_one (sendCh c) = Some (msg, q) →
      write_step c (set_writer (set_queue c q) (WWriting msg))
  | write_ok c msg :
      writer c = WWriting msg → conn_open c = true → write_step c (set_writer (wrote c msg true) WIdle)
  | write_error c msg :
      writer c = WWriting msg → write_step c (set_writer (wrote c msg false) WDone).

(** [pingLoop]: a ping is a [WriteMessage] as well. *)
Inductive ping_step : client → client → Prop :=
  | ping_stop c : pinger c = PIdle → cancelled c = true → ping_step c (set_pinger c PDone)
  | ping_tick c : pinger c = PIdle → ping_step c (set_pinger c PWriting)
  | ping_ok c : pinger c = PWriting → conn_open c = true → ping_step c (set_pinger c PIdle)
  | ping_error c : pinger c = PWriting → ping_step c (set_pinger c PDone).

(** The goroutine that closes the connection when the context ends: it writes a close
    message first. *)
Inductive close_step : client → client → Prop :=
  | close_start c : closer c = CWaiting → cancelled c = true → close_step c (set_closer c CWriting (conn_open c))
  | close_done c : closer c = CWriting → close_step c (set_closer c CDone false).

(** The reporters: the health loop ends with the context, the metadata are sent once.
    What they send is [step_send]. *)
Inductive report_step : client → client → Prop :=
  | report_health c : health c = true → cancelled c = true → report_step c (set_reporters c false (metadata c))
  | report_metadata c : metadata c = true → report_step c (set_reporters c (health c) false).

(** The client: a session starts when the dial and the greeting succeed; health
    reports, metadata and the inventory are sent at any time; shutting down cancels. *)
Inductive client_step : client → client → Prop :=
  | step_connect c h m : reader c = NoSession → client_step c (connect c h m)
  | step_read c c' : read_step c c' → client_step c c'
  | step_handle c c' : handle_step c c' → client_step c c'
  | step_write c c' : write_step c c' → client_step c c'
  | step_ping c c' : ping_step c c' → client_step c c'
  | step_close c c' : close_step c c' → client_step c c'
  | step_report c c' : report_step c c' → client_step c c'
  | step_send c msg : client_step c (client_Send c msg)
  | step_shutdown c : client_step c (cancel c).

(** ** Messages *)

(** The message a write is under way for. *)
Definition in_flight (c : client) : list string :=
  match writer c with WWriting msg => [msg] | _ => [] end.

Definition lost (c : client) : list (string * bool) := List.filter (λ w, negb w.2) (out c).

(** Every queued message is written in order, being written, or still queued; one write
    fails in a session at most; every message received is handled once. *)
Record accounted (c : client) : Prop := {
  acc_fifo : accepted c = (out c).*1 ++ in_flight c ++ sendCh c;
  acc_bound : length (sendCh c) ≤ sendCapacity;
  acc_lost : length (lost c) + (match writer c with WDone => 0 | _ => 1 end) ≤ sessions c;
  acc_handled : received c ≡ₚ handlers c ++ handled c;
  acc_idle : reader c = NoSession → writer c = WDone ∧ pinger c = PDone ∧ closer c = CDone;
  acc_wait : reader c = Waiting → cancelled c = true;
}.

(** What a step does not touch stays accounted for. *)
Ltac keep_accounted := constructor; unfold in_flight, lost in *; cbn in *; try assumption; try done; try lia.

Lemma accounted_Send c msg : accounted c → accounted (client_Send c msg).
Proof.
  intros [Hf Hb Hl Hh Hi Hw']. unfold client_Send, Client.Send.
  destruct (Nat.ltb_spec (length (sendCh c)) sendCapacity); keep_accounted.
  - by rewrite Hf, <- !List.app_assoc.
  - rewrite length_app. cbn. lia.
Qed.

Lemma accounted_read c c' : read_step c c' → accounted c → accounted c'.
Proof.
  intros Hs [Hf Hb Hl Hh Hi Hw']. destruct Hs; keep_accounted. by rewrite Hh.
Qed.

Lemma accounted_handle c c' : handle_step c c' → accounted c → accounted c'.
Proof.
  intros Hs Hc. destruct Hs as [c h1 msg h2 resp Hm]. assert (accounted (finish c msg (h1 ++ h2))) as Hd.
  { destruct Hc as [Hf Hb Hl Hh Hi Hw']. keep_accounted. rewrite Hh, Hm. solve_Permutation. }
  destruct resp; [by apply accounted_Send|done].
Qed.

Lemma accounted_write c c' : write_step c c' → accounted c → accounted c'.
Proof.
  intros Hs [Hf Hb Hl Hh Hi Hw']. unfold in_flight, lost in *.
  destruct Hs as [c Hw ?|c msg q Hw Hq|c msg Hw ?|c msg Hw]; rewrite Hw in Hf, Hl;
    keep_accounted; try (intros (? & _)%Hi; congruence);
    rewrite ?fmap_app, ?List.filter_app, ?length_app; cbn; try lia;
    try (by rewrite Hf, <- List.app_assoc).
  - by destruct (sendCh c) as [|m l]; [done|]; injection Hq as -> ->.
  - destruct (sendCh c) as [|m l]; [done|]. injection Hq as -> ->. simpl in Hb. lia.
Qed.

Lemma accounted_others c c' : ping_step c c' ∨ close_step c c' ∨ report_step c c' → accounted c → accounted c'.
Proof.
  intros Hs [Hf Hb Hl Hh Hi Hw'].
  destruct Hs as [Hs|[Hs|Hs]]; destruct Hs; keep_accounted; intros (? & ? & ?)%Hi; congruence.
Qed.

Lemma accounted_client_step c c' : client_step c c' → accounted c → accounted c'.
Proof.
  intros Hs Hc. destruct Hs as [c h m Hr| | | | | | |c msg|c].
  - destruct Hc as [Hf Hb Hl Hh Hi Hw']. destruct (Hi Hr) as (Hw & _). unfold in_flight, lost in *.
    rewrite Hw in *. keep_accounted.
  - by eapply accounted_read.
  - by eapply accounted_handle.
  - by eapply accounted_write.
  - eapply accounted_others; eauto.
  - eapply accounted_others; eauto.
  - eapply accounted_others; eauto.
  - by apply accounted_Send.
  - destruct Hc as [Hf Hb Hl Hh Hi Hw']. keep_accounted.
Qed.

Lemma accounted_new : accounted new_client.
Proof. keep_accounted. Qed.

(** C10. No message of the relay's goes missing unnoticed. Over any number of sessions
    and in every interleaving of the goroutines, the messages [Send] queued are, in
    order and each once, those written, the one being written and those still queued,
    also across reconnects; a session loses at most one message to a failed write;
    the queue never exceeds its capacity; and each message received is handled once. *)
Theorem client_messages_accounted c :
  rtc client_step new_client c →
  accepted c = (out c).*1 ++ in_flight c ++ sendCh c
  ∧ length (lost c) ≤ sessions c
  ∧ length (sendCh c) ≤ sendCapacity
  ∧ received c ≡ₚ handlers c ++ handled c.
Proof.
  intros Hr. assert (accounted c) as [Hf Hb Hl Hh _ _].
  { eapply (rtc_invariant _ accounted); [|exact Hr|exact accounted_new].
    intros x y Hs. by apply accounted_client_step. }
  split_and!; try done. destruct (writer c); lia.
Qed.

(** ** Ending a session *)

Lemma steps_writer c :
  cancelled c = true →
  ∃ c', rtc client_step c c' ∧ writer c' = WDone
    ∧ reader c' = reader c ∧ pinger c' = pinger c ∧ closer c' = closer c 
    ∧ health c' = health c ∧ metadata c' = metadata c ∧ cancelled c' = true.
Proof.
  intros Hc. destruct (writer c) as [|msg|] eqn:E.
  - exists (set_writer c WDone). split; [by apply rtc_once, step_write, write_stop|done].
  - exists (set_writer (wrote c msg false) WDone). split; [by apply rtc_once, step_write, write_error|done].
  - by exists c.
Qed.

Lemma steps_pinger c :
  cancelled c = true →
  ∃ c', rtc client_step c c' ∧ pinger c' = PDone
    ∧ reader c' = reader c ∧ writer c' = writer c ∧ closer c' = closer c 
    ∧ health c' = health c ∧ metadata c' = metadata c ∧ cancelled c' = true.
Proof.
  intros Hc. destruct (pinger c) eqn:E.
  - exists (set_pinger c PDone). split; [by apply rtc_once, step_ping, ping_stop|done].
  - exists (set_pinger c PDone). split; [by apply rtc_once, step_ping, ping_error|done].
  - by exists c.
Qed.

Lemma steps_closer c :
  cancelled c = true →
  ∃ c', rtc client_step c c' ∧ closer c' = CDone
    ∧ reader c' = reader c ∧ writer c' = writer c ∧ pinger c' = pinger c 
    ∧ health c' = health c ∧ metadata c' = metadata c ∧ cancelled c' = true.
Proof.
  intros Hc. destruct (closer c) eqn:E.
  - exists (set_closer (set_closer c CWriting (conn_open c)) CDone false). split; [|done].
    eapply rtc_l; [by apply step_close, close_start|]. by apply rtc_once, step_close, close_done.
  - exists (set_closer c CDone false). split; [by apply rtc_once, step_close, close_done|done].
  - by exists c.
Qed.

Lemma steps_reporters c :
  cancelled c = true →
  ∃ c', rtc client_step c c' ∧ health c' = false ∧ metadata c' = false
    ∧ reader c' = reader c ∧ cancelled c' = true.
Proof.
  intros Hc. exists (set_reporters c false false). split; [|done].
  assert (∀ d h, cancelled d = true → metadata d = h → health d = true →
            client_step d (set_reporters d false h)) as Hh
    by (intros d h ? <- ?; by apply step_report, report_health).
  destruct (health c) eqn:E1, (metadata c) eqn:E2.
  - eapply rtc_l; [by apply (Hh c true)|]. apply rtc_once, step_report.
    by apply (report_metadata (set_reporters c false true)).
  - apply rtc_once. by apply Hh.
  - replace (set_reporters c false false) with (set_reporters c (health c) false) by (by rewrite E1).
    by apply rtc_once, step_report, report_metadata.
  - replace (set_reporters c false false) with c; [done|]. destruct c; cbn in *. by subst.
Qed.

Lemma steps_waiting c :
  accounted c → reader c ≠ NoSession →
  ∃ c', rtc client_step c c' ∧ reader c' = Waiting ∧ cancelled c' = true.
Proof.
  intros Ha Hr. destruct (reader c) eqn:E; [done| | |].
  - exists (set_reader (cancel (set_reader c Returned)) Waiting). split; [|done].
    eapply rtc_l; [by apply step_read, read_error|]. by apply rtc_once, step_read, read_cancel.
  - exists (set_reader (cancel c) Waiting). split; [by apply rtc_once, step_read, read_cancel|done].
  - exists c. split; [done|]. split; [done|]. by apply (acc_wait c Ha).
Qed.

(** A session can always be torn down: from every state the client can reach, the
    goroutines can come to an end, so waiting for them cannot block for good, and the
    client is ready to connect again. *)
Theorem session_can_end c :
  rtc client_step new_client c → ∃ c', rtc client_step c c' ∧ reader c' = NoSession.
Proof.
  intros Hr. assert (accounted c) as Ha.
  { eapply (rtc_invariant _ accounted); [|exact Hr|exact accounted_new].
    intros x y Hs. by apply accounted_client_step. }
  assert (reader c = NoSession ∨ reader c ≠ NoSession) as [?|Hn] by (destruct (reader c); auto); [by exists c|].
  destruct (steps_waiting c Ha Hn) as (c1 & H1 & R1 & C1).
  destruct (steps_reporters c1 C1) as (c0 & H0 & E0 & M0 & R0 & C0).
  destruct (steps_writer c0 C0) as (c2 & H2 & W2 & R2 & _ & _ & E2 & M2 & C2).
  destruct (steps_pinger c2 C2) as (c3 & H3 & P3 & R3 & W3 & _ & E3 & M3 & C3).
  destruct (steps_closer c3 C3) as (c4 & H4 & X4 & R4 & W4 & P4 & E4 & M4 & _).
  exists (set_reader c4 NoSession). split; [|done].
  etrans; [exact H1|]. etrans; [exact H0|]. etrans; [exact H2|]. etrans; [exact H3|]. etrans; [exact H4|].
  apply rtc_once, step_read, read_end; congruence.
Qed.

(** ** Calls on the connection *)

(** The number of goroutines inside [conn.WriteMessage]. *)
Definition writing (c : client) : nat :=
  (match writer c with WWriting _ => 1 | _ => 0 end)
  + (match pinger c with PWriting => 1 | _ => 0 end)
  + (match closer c with CWriting => 1 | _ => 0 end).

(** Writes are not serialised. The websocket library supports one concurrent writer,
    but whenever the writer and the pinger are idle and a message is queued, the two
    can be inside [WriteMessage] on the same connection at once, and when the session
    is cancelled while both are, the closer joins them. *)
Theorem session_writes_overlap c :
  writer c = WIdle → pinger c = PIdle → closer c = CWaiting → sendCh c ≠ [] →
  ∃ c2 c3, rtc client_step c c2 ∧ writing c2 = 2 ∧ conn_open c2 = conn_open c
    ∧ rtc client_step c2 c3 ∧ writing c3 = 3 ∧ conn_open c3 = conn_open c.
Proof.
  intros Hw Hp Hx Hq. destruct (sendCh c) as [|msg q] eqn:Eq; [done|].
  set (c1 := set_writer (set_queue c q) (WWriting msg)).
  exists (set_pinger c1 PWriting), (set_closer (cancel (set_pinger c1 PWriting)) CWriting (conn_open c)).
  split_and!; try done.
  - eapply rtc_l; [apply step_write, (write_take c msg q Hw); by rewrite Eq|].
    by apply rtc_once, step_ping, ping_tick.
  - unfold writing. simpl. by rewrite Hx.
  - eapply rtc_l; [apply step_shutdown|]. apply rtc_once, step_close.
    apply (close_start (cancel (set_pinger c1 PWriting))); done.
Qed.

Definition demo_up : client := client_Send (connect new_client true true) "pong".

Lemma demo_up_reachable : rtc client_step new_client demo_up.
Proof. eapply rtc_l; [by apply step_connect|]. apply rtc_once, step_send. Qed.

Lemma session_writes_overlap_witness :
  ∃ c2, rtc client_step demo_up c2 ∧ writing c2 = 2 ∧ conn_open c2 = true.
Proof.
  destruct (session_writes_overlap demo_up eq_refl eq_refl eq_refl ltac:(discriminate))
    as (c2 & _ & H2 & W2 & O2 & _). by exists c2.
Defined.

(** ** After a failed write *)

(** Steps while the session is up. *)
Definition in_session (c c' : client) : Prop := client_step c c' ∧ reader c' ≠ NoSession.

Lemma in_session_mute c c' :
  in_session c c' → writer c = WDone ∧ reader c ≠ NoSession →
  (writer c' = WDone ∧ reader c' ≠ NoSession) ∧ out c' = out c.
Proof.
  intros [Hs Hn'] [Hw Hn].
  destruct Hs as [c0 h m Hc0|c0 c1 Hs|c0 c1 Hs|c0 c1 Hs|c0 c1 Hs|c0 c1 Hs|c0 c1 Hs|c0 msg|c0]; try done.
  - by destruct Hs.
  - by destruct Hs as [? ? ? ? [] ?].
  - by destruct Hs; congruence.
  - by destruct Hs.
  - by destruct Hs.
  - by destruct Hs.
Qed.

(** C37. A failed write mutes the session but does not end it. Once the writer has
    stopped, nothing is written any more until the session is over; yet the reader goes
    on: any number of further requests is received and carried out, unanswered, on the
    same connection and without the session being cancelled. *)
Theorem session_goes_mute c :
  reader c = Reading → conn_open c = true → writer c = WDone →
  (∀ c', rtc in_session c c' → out c' = out c)
  ∧ ∀ l, ∃ c', rtc in_session c c' ∧ reader c' = Reading ∧ cancelled c' = cancelled c
      ∧ handled c' = l ++ handled c ∧ out c' = out c.
Proof.
  intros Hr Ho Hw. split.
  - assert (∀ a b, rtc in_session a b → writer a = WDone ∧ reader a ≠ NoSession → out b = out a) as Hall.
    { induction 1 as [|a b d Hab _ IH]; [done|]. intros Ha.
      destruct (in_session_mute _ _ Hab Ha) as [Hb <-]. by apply IH. }
    intros c' Hc'. apply (Hall c c' Hc'). split; [done|congruence].
  - intros l. assert (∃ c', rtc in_session c c' ∧ reader c' = Reading ∧ conn_open c' = true
      ∧ cancelled c' = cancelled c ∧ handlers c' = handlers c ∧ handled c' = l ++ handled c
      ∧ out c' = out c) as (c' & ? & ? & ? & ? & ? & ? & ?); [|by exists c'].
    induction l as [|m l (d & Hd & Hrd & Hod & Hcd & Hhd & Hed & Hud)]; [by exists c|].
    exists (finish (receive d m) m (handlers d)). split_and!; try done; [|by simpl; rewrite Hed].
    etrans; [exact Hd|]. eapply rtc_l; [split; [by apply step_read, read_message|by simpl; rewrite Hrd]|].
    apply rtc_once. split; [|by simpl; rewrite Hrd].
    apply step_handle. exact (handle_done (receive d m) [] m (handlers d) None eq_refl).
Qed.

Definition demo_mute : client :=
  set_writer (wrote (set_writer (set_queue demo_up []) (WWriting "pong")) "pong" false) WDone.

Lemma demo_mute_reachable : rtc client_step new_client demo_mute.
Proof.
  etrans; [exact demo_up_reachable|]. eapply rtc_l; [by apply step_write, (write_take demo_up "pong" [])|].
  by apply rtc_once, step_write, write_error.
Qed.

Lemma session_goes_mute_witness :
  ∃ c', rtc in_session demo_mute c' ∧ cancelled c' = false ∧ handled c' = ["b"; "a"]
    ∧ out c' = [("pong", false)].
Proof.
  destruct (proj2 (session_goes_mute demo_mute eq_refl eq_refl eq_refl) ["b"; "a"])
    as (c' & Hc & _ & Hx & Hh & Ho). exists c'. by rewrite Hh, Ho.
Defined.

Lemma client_messages_accounted_witness :
  rtc client_step new_client demo_mute ∧ accepted demo_mute = ["pong"] ∧ length (lost demo_mute) ≤ 1.
Proof.
  split; [exact demo_mute_reachable|].
  destruct (client_messages_accounted demo_mute demo_mute_reachable) as (Hf & Hl & _). done.
Defined.

Lemma session_can_end_witness : ∃ c', rtc client_step demo_mute c' ∧ reader c' = NoSession.
Proof. exact (session_can_end demo_mute demo_mute_reachable). Defined.
