(* ===== verification/Redis.v ===== *)
(** * pkg/proxy/redis: diagnostics of a Redis server

    One client, replaced by configuration and closed at the end. The go-redis client
    is a parameter: what the server answers to each call is an argument, and an
    operation returns the calls it made and the clients it opened and closed. *)

From S2P Require Import Prelude GoStrings GoJson GoAny GoTime NetIP Registry.
From Stdlib Require Import SpecFloat.
#[local] Open Scope Z_scope.

Definition readOnlyCommands : gset string := list_to_set [
  "get"; "mget"; "keys"; "scan";
  "type"; "ttl"; "pttl"; "exists";
  "dbsize"; "info"; "slowlog";
  "client"; "memory"; "cluster";
  "llen"; "scard"; "zcard"; "hlen";
  "hgetall"; "lrange"; "smembers";
  "zrange"; "strlen"; "object"].

(** ** State *)

Record Config := MkConfig { Host : string; Port : Z; DB : Z; TLSEnabled : bool }.

Definition zero_config : Config := MkConfig "" 0 0 false.

Definition Config_field (c : Config) (k : string) (v : json) : Config * bool :=
  let 'MkConfig h po db tls := c in
  if key_is "host" k then let '(x, ok) := dec_string h v in (MkConfig x po db tls, ok)
  else if key_is "port" k then let '(x, ok) := dec_int po v in (MkConfig h x db tls, ok)
  else if key_is "db" k then let '(x, ok) := dec_int db v in (MkConfig h po x tls, ok)
  else if key_is "tls_enabled" k then
    let '(x, ok) := dec_bool tls v in (MkConfig h po db x, ok)
  else (c, true).

(** A client, by identity. *)
Definition client_ref := nat.

Record Proxy := MkProxy { client : option client_ref; config : Config; closed : bool }.

Definition New : Proxy := MkProxy None zero_config false.

(** The fields of [redis.Options] that are set; the TLS server name is "" for an
    address, which leaves the choice to the library. *)
Record Options := MkOptions {
  opt_Addr : string;
  opt_DB : Z;
  opt_Password : string;
  opt_Username : string;
  opt_TLSServerName : option string;
}.

(** ** The client library *)

Inductive call :=
  | Ping
  | Info (section : option string)
  | SlowLogGet (count : Z)
  | ClientList
  | ClusterInfo
  | Do (args : list any).

Inductive event :=
  | Opened (c : client_ref) (o : Options)
  | Closed (c : client_ref)
  | Sent (c : client_ref) (x : call).

(** A reply as [Do] returns it: the values of RESP3, where a map is a
    [map[any]any], which encoding/json cannot write. *)
Inductive reply :=
  | RAny (v : any)
  | RList (l : list reply)
  | RMap (l : list (reply * reply)).

Fixpoint marshal_reply (r : reply) : option json :=
  match r with
  | RAny v => marshal_any v
  | RList l => JArr <$> foldr (λ x acc, v ← marshal_reply x; l ← acc; Some (v :: l)) (Some []) l
  | RMap _ => None
  end.

(** One entry of the slow log; its time as encoding/json writes it. *)
Record SlowLog := MkSlowLog {
  sl_ID : Z;
  sl_Time : string;
  sl_Duration : Z;
  sl_Args : list string;
  sl_ClientAddr : string;
  sl_ClientName : string;
}.

(** What the server answers during one operation. *)
Record env := MkEnv {
  e_new : client_ref;                                 (* the client NewClient makes *)
  e_ping : client_ref → result unit;
  e_close : client_ref → result unit;
  e_info : option string → result string;
  e_slowlog : Z → result (list SlowLog);
  e_client_list : result string;
  e_cluster_info : result string;
  e_do : list any → result reply;
}.

(** ** Configuration *)

Definition buildRedisOptions (cfg : Config) (creds : gmap string string) : Options :=
  MkOptions (JoinHostPort (Host cfg) (Itoa (Port cfg))) (DB cfg)
    (cred creds "password") (cred creds "username")
    (if TLSEnabled cfg
     then Some (match ParseIP (Host cfg) with None => Host cfg | Some _ => "" end)
     else None).

Definition parse_config (conf : gmap string any) : result Config :=
  match marshal_any_map conf with
  | None => Err (wrapf "marshaling redis config: " json_error)
  | Some j =>
      let '(cfg, ok) := dec_struct Config_field zero_config j in
      _ ← fail_if (negb ok) (wrapf "parsing redis config: " json_error);
      _ ← fail_if (String.eqb (Host cfg) "") (errorf "redis host is required");
      if Port cfg =? 0 then Ok (MkConfig (Host cfg) 6379 (DB cfg) (TLSEnabled cfg))
      else
        _ ← fail_if ((Port cfg <? 1) || (65535 <? Port cfg))
              (errorf ("invalid redis port: " +:+ Itoa (Port cfg)));
        Ok cfg
  end.

(** [Configure] up to the second acquisition of the lock: the client that answered
    a ping, or the error. *)
Definition Configure_connect (e : env) (p : Proxy) (conf : gmap string any)
    (creds : gmap string string) : result (client_ref * Config) * list event :=
  if closed p then (Err (errorf "redis proxy is closed"), [])
  else
    match parse_config conf with
    | Err err => (Err err, [])
    | Ok cfg =>
        let c := e_new e in
        let ev := [Opened c (buildRedisOptions cfg creds); Sent c Ping] in
        match e_ping e c with
        | Err err => (Err (wrapf "redis ping failed: " err), ev ++ [Closed c])
        | Ok _ => (Ok (c, cfg), ev)
        end
    end.

(** The rest, under the lock. *)
Definition Configure_commit (p : Proxy) (c : client_ref) (cfg : Config)
  : result unit * Proxy * list event :=
  if closed p then (Err (errorf "redis proxy is closed"), p, [Closed c])
  else
    (Ok tt, MkProxy (Some c) cfg false,
     match client p with Some old => [Closed old] | None => [] end).

Definition Configure (e : env) (p : Proxy) (conf : gmap string any) (creds : gmap string string)
  : result unit * Proxy * list event :=
  match Configure_connect e p conf creds with
  | (Err err, ev) => (Err err, p, ev)
  | (Ok (c, cfg), ev) =>
      let '(r, p, ev') := Configure_commit p c cfg in (r, p, ev ++ ev')
  end.

Definition Close (e : env) (p : Proxy) : result unit * Proxy * list event :=
  match client p with
  | Some c => (e_close e c, MkProxy None (config p) true, [Closed c])
  | None => (Ok tt, MkProxy None (config p) true, [])
  end.

Definition HealthCheck (e : env) (p : Proxy) : result unit * list event :=
  match client p with
  | None => (Err (errorf "redis not configured"), [])
  | Some c => (e_ping e c, [Sent c Ping])
  end.

(** ** Actions *)

(** One line of INFO: the section it is in and what has been read so far. *)
Definition info_line (acc : string * gmap string string) (line : string)
  : string * gmap string string :=
  let '(currentSection, result) := acc in
  let line := TrimSpace line in
  if String.eqb line "" then acc
  else
    match strip_prefix "# " line with
    | Some name => (ToLower name, result)
    | None =>
        match SplitN2 line ":" with
        | [k; v] =>
            let key := if String.eqb currentSection "" then k
                       else currentSection +:+ "." +:+ k in
            (currentSection, <[key := v]> result)
        | _ => acc
        end
    end.

Definition parseRedisInfo (info : string) : gmap string string :=
  (foldl info_line ("", ∅) (Split info newline)).2.

Definition jsonResponse (data : option json) : result ActionResponse :=
  match data with
  | Some j => Ok (MkResponse 200 "" "" "" (json_print j) None)
  | None => Err (wrapf "marshaling response: " json_error)
  end.

Definition info_response (m : gmap string string) : result ActionResponse :=
  jsonResponse (marshal_any_map (AStr <$> m)).

Definition handleInfo (e : env) (c : client_ref) (section : string)
  : result ActionResponse * list event :=
  let arg := if String.eqb section "" then None else Some section in
  (result ← wrap_err "redis INFO failed: " (e_info e arg);
   info_response (parseRedisInfo result),
   [Sent c (Info arg)]).

Definition slowlog_entry (x : SlowLog) : json :=
  JObj [("args", JArr (map JStr (sl_Args x))); ("client_addr", JStr (sl_ClientAddr x));
        ("client_name", JStr (sl_ClientName x));
        ("duration_us", JNum (Itoa (sl_Duration x ÷ 1000)));
        ("id", JNum (Itoa (sl_ID x))); ("time", JStr (sl_Time x))].

Definition handleSlowlog (e : env) (c : client_ref) (req : ActionRequest)
  : result ActionResponse * list event :=
  let count :=
    match as_float (req_Params req !! "count") with
    | Some v => if float_pos v then float_to_int v else 10
    | None => 10
    end in
  (entries ← wrap_err "redis SLOWLOG GET failed: " (e_slowlog e count);
   jsonResponse (Some (JObj [("count", JNum (Itoa (Z.of_nat (length entries))));
                             ("entries", JArr (map slowlog_entry entries))])),
   [Sent c (SlowLogGet count)]).

Definition handleClientList (e : env) (c : client_ref) : result ActionResponse * list event :=
  (result ← wrap_err "redis CLIENT LIST failed: " (e_client_list e);
   jsonResponse (Some (JObj [("clients", JStr result)])),
   [Sent c ClientList]).

Definition handleMemoryStats (e : env) (c : client_ref) : result ActionResponse * list event :=
  let args := [AStr "MEMORY"; AStr "STATS"] in
  (result ← wrap_err "redis MEMORY STATS failed: " (e_do e args);
   jsonResponse (j ← marshal_reply result; Some (JObj [("memory_stats", j)])),
   [Sent c (Do args)]).

(** The text of an error message with [%q] and a dash in it. *)
Definition not_allowed (cmd : string) : error :=
  errorf ("command " +:+ Quote cmd +:+ " not allowed " +:+ utf8_encode 8212
          +:+ " only read-only commands are permitted").

(** [strings.Fields(command)[0]] panics when the command is blank. *)
Definition handleCommand (e : env) (c : client_ref) (req : ActionRequest)
  : outcome (result ActionResponse * list event) :=
  let command := as_string (req_Params req !! "command") in
  if String.eqb command "" then Return (Err (errorf "missing command parameter"), [])
  else
    match Fields command with
    | [] => Panic
    | name :: _ =>
        let cmdLower := ToLower name in
        if bool_decide (cmdLower ∈ readOnlyCommands) then
          let argsRaw := match req_Params req !! "args" with Some (AList l) => l | _ => [] end in
          let cmdArgs := AStr command :: argsRaw in
          Return (result ← wrap_err "redis command failed: " (e_do e cmdArgs);
                  jsonResponse (j ← marshal_reply result; Some (JObj [("result", j)])),
                  [Sent c (Do cmdArgs)])
        else Return (Err (not_allowed cmdLower), [])
    end.

Definition handleClusterInfo (e : env) (c : client_ref) : result ActionResponse * list event :=
  (result ← wrap_err "redis CLUSTER INFO failed: " (e_cluster_info e);
   info_response (parseRedisInfo result),
   [Sent c ClusterInfo]).

Definition HandleRequest (e : env) (p : Proxy) (req : ActionRequest)
  : outcome (result ActionResponse * list event) :=
  match client p with
  | None => Return (Err (errorf "redis not configured"), [])
  | Some c =>
      let a := req_Action req in
      if String.eqb a "redis_info" then Return (handleInfo e c "")
      else if String.eqb a "redis_info_section" then
        Return (handleInfo e c (as_string (req_Params req !! "section")))
      else if String.eqb a "redis_slowlog" then Return (handleSlowlog e c req)
      else if String.eqb a "redis_client_list" then Return (handleClientList e c)
      else if String.eqb a "redis_memory_stats" then Return (handleMemoryStats e c)
      else if String.eqb a "redis_command" then handleCommand e c req
      else if String.eqb a "redis_cluster_info" then Return (handleClusterInfo e c)
      else if String.eqb a "redis_keyspace_stats" then Return (handleInfo e c "keyspace")
      else Return (Err (errorf ("unknown redis action: " +:+ a)), [])
  end.

Definition CollectMetadata (e : env) (p : Proxy) : result (gmap string any) * list event :=
  match client p with
  | None => (Err (errorf "redis not configured"), [])
  | Some c =>
      let meta : gmap string any :=
        <["host" := AStr (Host (config p))]> (<["port" := AInt (Port (config p))]> ∅) in
      let copy (parsed : gmap string string) (from to : string) (m : gmap string any) :=
        match parsed !! from with Some v => <[to := AStr v]> m | None => m end in
      (Ok match e_info e (Some "server") with
          | Err _ => meta
          | Ok info =>
              let parsed := parseRedisInfo info in
              copy parsed "server.os" "os"
                (copy parsed "server.redis_mode" "redis_mode"
                   (copy parsed "server.redis_version" "version" meta))
          end,
       [Sent c (Info (Some "server"))])
  end.
