(* ===== verification/RedisFacts.v ===== *)
(** * Redis: clients are accounted for, commands are on the list *)

From S2P Require Import Prelude GoStrings GoJson GoJsonFacts GoAny GoTime NetIP Registry Redis.
From Stdlib Require Import SpecFloat.
#[local] Open Scope Z_scope.

(** ** Blank strings and single words *)

Lemma runes_nonempty s : Forall (λ r, r ≠ "") (runes s).
Proof. eapply Forall_impl; [apply runes_shape|]. by destruct 1. Qed.

Lemma fields_go_nil acc l :
  Forall (λ r, r ≠ "") l → fields_go acc l = [] ↔ acc = "" ∧ forallb is_space l = true.
Proof.
  intros Hl. revert acc. induction Hl as [|r l Hr _ IH]; intros acc; cbn [fields_go forallb].
  - destruct (String.eqb_spec acc ""); naive_solver.
  - destruct (is_space r); simpl.
    + destruct (String.eqb_spec acc "") as [-> |]; [by rewrite IH|naive_solver].
    + rewrite IH. destruct acc; [|naive_solver]. rewrite app_nil_l. naive_solver.
Qed.

Lemma Fields_nil s : Fields s = [] ↔ forallb is_space (runes s) = true.
Proof. unfold Fields. rewrite fields_go_nil by apply runes_nonempty. naive_solver. Qed.

Lemma fields_go_word acc l :
  forallb (λ r, negb (is_space r)) l = true →
  fields_go acc l = if String.eqb (acc +:+ concat_str l) "" then [] else [acc +:+ concat_str l].
Proof.
  revert acc. induction l as [|r l IH]; intros acc; cbn [fields_go forallb].
  - intros _. unfold concat_str. simpl. by rewrite app_nil_r.
  - intros [Hr%negb_true_iff Hl]%andb_true_iff. rewrite Hr, IH by done.
    by rewrite concat_str_cons, app_assoc.
Qed.

(** A string without white space is its own only field. *)
Lemma Fields_word s :
  s ≠ "" → forallb (λ r, negb (is_space r)) (runes s) = true → Fields s = [s].
Proof.
  intros Hs H. unfold Fields. rewrite fields_go_word by done.
  rewrite app_nil_l, concat_runes. by apply String.eqb_neq in Hs as ->.
Qed.

(** ** What a request sends *)

Definition on_list (args : list any) : Prop :=
  ∃ command name l rest, args = AStr command :: rest ∧ Fields command = name :: l ∧
                         ToLower name ∈ readOnlyCommands.

Lemma handleCommand_do e c req r ev c' args :
  handleCommand e c req = Return (r, ev) → Sent c' (Do args) ∈ ev → c' = c ∧ on_list args.
Proof.
  unfold handleCommand. intros H Hin.
  destruct (String.eqb _ ""); [injection H as <- <-; by apply not_elem_of_nil in Hin|].
  destruct (Fields _) as [|name l] eqn:EF; [done|].
  case_bool_decide as Hname; injection H as <- <-; [|by apply not_elem_of_nil in Hin].
  apply list_elem_of_singleton in Hin. injection Hin as -> ->. split; [done|].
  unfold on_list. eauto 10.
Qed.

(** The calls other than [Do] are fixed reads; [Do] carries MEMORY STATS or the
    command of the request. *)
Lemma HandleRequest_do e p req r ev c args :
  HandleRequest e p req = Return (r, ev) → Sent c (Do args) ∈ ev →
  client p = Some c ∧ (args = [AStr "MEMORY"; AStr "STATS"] ∨ on_list args).
Proof.
  unfold HandleRequest, handleInfo, handleSlowlog, handleClientList,
    handleMemoryStats, handleClusterInfo.
  intros H Hin. destruct (client p) as [c'|];
    [|injection H as <- <-; by apply not_elem_of_nil in Hin].
  repeat (case_match;
    [first [ injection H as <- <-; apply list_elem_of_singleton in Hin; simplify_eq; by auto
           | destruct (handleCommand_do _ _ _ _ _ _ _ H Hin) as [-> ?]; by auto ]|]).
  injection H as <- <-. by apply not_elem_of_nil in Hin.
Qed.

(** A command the proxy sends to the server is on the read-only list: whenever
    the command name sent has no white space in it, as every name the server knows,
    its lower-case form is a listed command. *)
Theorem redis_commands_listed e p req r ev c name rest :
  HandleRequest e p req = Return (r, ev) → Sent c (Do (AStr name :: rest)) ∈ ev →
  name ≠ "" → forallb (λ x, negb (is_space x)) (runes name) = true →
  ToLower name ∈ readOnlyCommands.
Proof.
  intros H Hin Hne Hw.
  destruct (HandleRequest_do _ _ _ _ _ _ _ H Hin) as (_ & [E|(n & w & l & rest' & E & EF & Hw')]).
  - injection E as -> _. apply (bool_decide_eq_true_1 _). vm_compute. reflexivity.
  - injection E as -> _. rewrite Fields_word in EF by done. injection EF as <- _. done.
Qed.

(** A request makes the agent panic exactly if it is a redis_command to a
    configured proxy whose command is not empty but blank. *)
Theorem redis_panics_iff e p req :
  HandleRequest e p req = Panic ↔
  client p ≠ None ∧ req_Action req = "redis_command" ∧
  as_string (req_Params req !! "command") ≠ "" ∧
  forallb is_space (runes (as_string (req_Params req !! "command"))) = true.
Proof.
  rewrite <- Fields_nil. unfold HandleRequest.
  destruct (client p) as [c|]; [|naive_solver]. generalize (req_Action req) as a. intros a.
  destruct (String.eqb_spec a "redis_command") as [-> |Ha].
  - simpl. unfold handleCommand. generalize (as_string (req_Params req !! "command")) as s.
    intros s. destruct (String.eqb_spec s ""); [naive_solver|].
    destruct (Fields s); [naive_solver|]. case_bool_decide; naive_solver.
  - split; [|naive_solver]. repeat case_match; done.
Qed.

(** ** Runs: configuration in its two steps, interleaved with everything else *)

Record system := MkSystem {
  s_proxy : Proxy;
  s_pending : option (client_ref * Config);      (* a configuration between its steps *)
  s_trace : list event;
}.

Definition opened (tr : list event) : list client_ref :=
  list_omap _ _ (λ x, match x with Opened c _ => Some c | _ => None end) tr.
Definition was_closed (tr : list event) : list client_ref :=
  list_omap _ _ (λ x, match x with Closed c => Some c | _ => None end) tr.

(** [configMu] admits one configuration at a time; a new client is a new object. *)
Inductive step : system → system → Prop :=
  | step_connect e p tr conf creds r ev :
      e_new e ∉ opened tr → Configure_connect e p conf creds = (r, ev) →
      step (MkSystem p None tr)
           (MkSystem p (match r with Ok x => Some x | Err _ => None end) (tr ++ ev))
  | step_commit p c cfg tr r p' ev :
      Configure_commit p c cfg = (r, p', ev) →
      step (MkSystem p (Some (c, cfg)) tr) (MkSystem p' None (tr ++ ev))
  | step_close e p pend tr r p' ev :
      Close e p = (r, p', ev) → step (MkSystem p pend tr) (MkSystem p' pend (tr ++ ev))
  | step_request e p pend tr req r ev :
      HandleRequest e p req = Return (r, ev) →
      step (MkSystem p pend tr) (MkSystem p pend (tr ++ ev))
  | step_health e p pend tr r ev :
      HealthCheck e p = (r, ev) → step (MkSystem p pend tr) (MkSystem p pend (tr ++ ev))
  | step_metadata e p pend tr r ev :
      CollectMetadata e p = (r, ev) → step (MkSystem p pend tr) (MkSystem p pend (tr ++ ev)).

Definition in_use (s : system) : list client_ref :=
  option_list (client (s_proxy s)) ++ option_list (fst <$> s_pending s).

Definition accounted (s : system) : Prop :=
  opened (s_trace s) ≡ₚ was_closed (s_trace s) ++ in_use s ∧
  NoDup (opened (s_trace s)) ∧
  (closed (s_proxy s) = true → client (s_proxy s) = None).

Lemma opened_app a b : opened (a ++ b) = opened a ++ opened b.
Proof. apply omap_app. Qed.
Lemma was_closed_app a b : was_closed (a ++ b) = was_closed a ++ was_closed b.
Proof. apply omap_app. Qed.

(** Calls to the server open and close nothing. *)
Definition only_calls (ev : list event) : Prop :=
  Forall (λ x, match x with Sent _ _ => True | _ => False end) ev.

Lemma only_calls_neutral ev : only_calls ev → opened ev = [] ∧ was_closed ev = [].
Proof. induction 1 as [|[] ev ? _ [IH1 IH2]]; try done. Qed.

Lemma HandleRequest_calls e p req r ev : HandleRequest e p req = Return (r, ev) → only_calls ev.
Proof.
  unfold HandleRequest, handleCommand, handleInfo, handleSlowlog, handleClientList,
    handleMemoryStats, handleClusterInfo, only_calls.
  intros H. repeat case_match; try discriminate H; injection H as _ <-; repeat constructor.
Qed.

Lemma accounted_calls p pend tr ev :
  accounted (MkSystem p pend tr) → only_calls ev → accounted (MkSystem p pend (tr ++ ev)).
Proof.
  intros H [E1 E2]%only_calls_neutral. unfold accounted in *. simpl in *.
  by rewrite opened_app, was_closed_app, E1, E2, !List.app_nil_r.
Qed.

Lemma accounted_connect e p tr conf creds r ev :
  accounted (MkSystem p None tr) → e_new e ∉ opened tr →
  Configure_connect e p conf creds = (r, ev) →
  accounted (MkSystem p (match r with Ok x => Some x | Err _ => None end) (tr ++ ev)).
Proof.
  unfold Configure_connect, accounted, in_use. simpl. rewrite !opened_app, !was_closed_app.
  intros (Hp & Hn & Hc) Hfresh H. rewrite List.app_nil_r in Hp.
  destruct (closed p) eqn:Ec; [injection H as <- <-; simpl; by rewrite !List.app_nil_r|].
  destruct (parse_config conf) as [cfg|err];
    [|injection H as <- <-; simpl; by rewrite !List.app_nil_r].
  assert (NoDup (opened tr ++ [e_new e])).
  { apply NoDup_app. split; [done|]. split; [|apply NoDup_singleton].
    intros x Hx ->%list_elem_of_singleton. done. }
  destruct (e_ping e (e_new e)); injection H as <- <-; simpl; rewrite ?List.app_nil_r.
  - split_and!; [|done..]. rewrite Hp. by rewrite List.app_assoc.
  - split_and!; [|done..]. rewrite Hp. rewrite <- !List.app_assoc.
    apply Permutation_app_head, Permutation_app_comm.
Qed.

Lemma accounted_commit p c cfg tr r p' ev :
  accounted (MkSystem p (Some (c, cfg)) tr) → Configure_commit p c cfg = (r, p', ev) →
  accounted (MkSystem p' None (tr ++ ev)).
Proof.
  unfold Configure_commit, accounted, in_use. simpl. rewrite !opened_app, !was_closed_app.
  intros (Hp & Hn & Hc) H.
  destruct (closed p) eqn:Ec; injection H as <- <- <-; simpl.
  - rewrite Hc in * by done. simpl in *. by rewrite !List.app_nil_r.
  - destruct (client p) as [old|]; simpl in *; rewrite ?List.app_nil_r; [|done].
    by rewrite <- List.app_assoc.
Qed.

Lemma accounted_close e p pend tr r p' ev :
  accounted (MkSystem p pend tr) → Close e p = (r, p', ev) →
  accounted (MkSystem p' pend (tr ++ ev)).
Proof.
  unfold Close, accounted, in_use. simpl. rewrite !opened_app, !was_closed_app.
  intros (Hp & Hn & Hc) H.
  destruct (client p) as [c|]; injection H as <- <- <-; simpl in *; rewrite ?List.app_nil_r.
  - split_and!; [|done..]. by rewrite <- List.app_assoc.
  - done.
Qed.

Lemma accounted_step s s' : step s s' → accounted s → accounted s'.
Proof.
  destruct 1 as [e p tr conf creds r ev Hf H|p c cfg tr r p' ev H|e p pend tr r p' ev H
    |e p pend tr req r ev H|e p pend tr r ev H|e p pend tr r ev H]; intros Hs.
  - by eapply accounted_connect.
  - by eapply accounted_commit.
  - by eapply accounted_close.
  - eapply accounted_calls; [done|]. by eapply HandleRequest_calls.
  - eapply accounted_calls; [done|]. unfold HealthCheck in H. unfold only_calls.
    case_match; simplify_eq; repeat constructor.
  - eapply accounted_calls; [done|]. unfold CollectMetadata in H. unfold only_calls.
    case_match; injection H as <- <-; repeat constructor.
Qed.

(** In every interleaving of configurations, requests, health checks and a
    shutdown, each client ever opened is either closed, exactly once, or the one the
    proxy holds, or that of a configuration in progress; and once the proxy is closed
    and no configuration is in progress, all of them are closed. *)
Theorem redis_clients_accounted s :
  rtc step (MkSystem New None []) s →
  NoDup (opened (s_trace s)) ∧
  opened (s_trace s) ≡ₚ was_closed (s_trace s) ++ in_use s ∧
  (closed (s_proxy s) = true → s_pending s = None →
   opened (s_trace s) ≡ₚ was_closed (s_trace s)).
Proof.
  intros Hr. assert (accounted s) as (Hp & Hn & Hc).
  { apply (rtc_invariant step accounted _ _ accounted_step Hr).
    unfold accounted. simpl. split; [done|]. split; [apply NoDup_nil_2|done]. }
  split_and!; [done..|]. intros Hcl Hpe. rewrite Hp. unfold in_use. rewrite Hc, Hpe by done.
  by rewrite List.app_nil_r.
Qed.

(** ** A server that answers *)

Definition demo_env (n : client_ref) : env :=
  MkEnv n (λ _, Ok tt) (λ _, Ok tt) (λ _, Ok "redis_version:7.2") (λ _, Ok []) (Ok "") (Ok "")
    (λ _, Ok (RAny (AStr "v"))).
Definition demo_conf : gmap string any := <["host" := AStr "cache.internal"]> ∅.
Definition demo_config : Config := Eval vm_compute in
  match parse_config demo_conf with Ok c => c | Err _ => zero_config end.
Definition demo_opts : Options := Eval vm_compute in buildRedisOptions demo_config ∅.
Definition demo_proxy : Proxy := MkProxy (Some 1%nat) demo_config false.
Definition demo_req (params : gmap string any) : ActionRequest :=
  MkRequest "r" "d" "redis_command" params "" "" ∅ "".
Definition demo_get : gmap string any :=
  <["command" := AStr "GET"]> (<["args" := AList [AStr "k"]]> ∅).

Lemma redis_commands_listed_witness : ToLower "GET" ∈ readOnlyCommands.
Proof.
  apply (redis_commands_listed (demo_env 1%nat) demo_proxy (demo_req demo_get)
           (Ok (MkResponse 200 "" "" "" (json_print (JObj [("result", JStr "v")])) None))
           [Sent 1%nat (Do [AStr "GET"; AStr "k"])] 1%nat "GET" [AStr "k"]).
  - vm_compute. reflexivity.
  - constructor.
  - done.
  - vm_compute. reflexivity.
Defined.

(** CLIENT and CLUSTER are on the list with whatever follows them. *)
Example client_kill_sent :
  HandleRequest (demo_env 1%nat) demo_proxy
    (demo_req (<["command" := AStr "CLIENT"]> (<["args" := AList [AStr "KILL"; AStr "ID"]]> ∅)))
  = Return (Ok (MkResponse 200 "" "" "" (json_print (JObj [("result", JStr "v")])) None),
            [Sent 1%nat (Do [AStr "CLIENT"; AStr "KILL"; AStr "ID"])]).
Proof. vm_compute. reflexivity. Qed.

Example info_sections :
  map_to_list (parseRedisInfo ("# Server" +:+ newline +:+ "redis_version:7.2" +:+ newline))
  = [("server.redis_version", "7.2")].
Proof. vm_compute. reflexivity. Qed.

(** The proxy is closed while its second configuration is being connected. *)
Definition demo_trace : list event :=
  [Opened 1%nat demo_opts; Sent 1%nat Ping; Opened 2%nat demo_opts; Sent 2%nat Ping;
   Closed 1%nat; Closed 2%nat].

Lemma redis_clients_accounted_witness :
  opened demo_trace ≡ₚ was_closed demo_trace.
Proof.
  refine (proj2 (proj2 (redis_clients_accounted
            (MkSystem (MkProxy None demo_config true) None demo_trace) _)) eq_refl eq_refl).
  eapply rtc_l; [eapply (step_connect (demo_env 1%nat) New [] demo_conf ∅ (Ok (1%nat, demo_config)));
    [vm_compute; inversion 1|vm_compute; reflexivity]|].
  eapply rtc_l; [eapply step_commit; reflexivity|].
  eapply rtc_l; [eapply (step_connect (demo_env 2%nat) _ _ demo_conf ∅ (Ok (2%nat, demo_config)));
    [vm_compute; intros H; repeat (inversion H as [|? ? ? H']; clear H; rename H' into H)
    |vm_compute; reflexivity]|].
  eapply rtc_l; [eapply (step_close (demo_env 0%nat)); reflexivity|].
  eapply rtc_l; [eapply step_commit; reflexivity|].
  apply rtc_refl.
Defined.
