(* ===== verification/GoFold.v ===== *)
(** * strings.EqualFold

    Unicode simple case folding. Package unicode keeps the letters that fold together
    as orbits; a letter is here given the least folded letter of its orbit that
    Unicode's simple case folding names, so that two letters fold together when
    these agree. The table is Unicode 15.0's, as package unicode has it. *)

From S2P Require Import Prelude GoStrings.
#[local] Open Scope Z_scope.

(** A row [(first, last, stride, delta)]: the letters [first], [first + stride], ... up
    to [last] fold to themselves plus [delta]. *)
Definition fold_table : list (Z * Z * Z * Z) :=
  [
    (181, 181, 1, 775); (192, 214, 1, 32); (216, 222, 1, 32); (256, 302, 2, 1);
    (306, 310, 2, 1); (313, 327, 2, 1); (330, 374, 2, 1); (376, 376, 1, -121);
    (377, 381, 2, 1); (383, 383, 1, -268); (385, 385, 1, 210); (386, 388, 2, 1);
    (390, 390, 1, 206); (391, 391, 1, 1); (393, 394, 1, 205); (395, 395, 1, 1);
    (398, 398, 1, 79); (399, 399, 1, 202); (400, 400, 1, 203); (401, 401, 1, 1);
    (403, 403, 1, 205); (404, 404, 1, 207); (406, 406, 1, 211); (407, 407, 1, 209);
    (408, 408, 1, 1); (412, 412, 1, 211); (413, 413, 1, 213); (415, 415, 1, 214);
    (416, 420, 2, 1); (422, 422, 1, 218); (423, 423, 1, 1); (425, 425, 1, 218);
    (428, 428, 1, 1); (430, 430, 1, 218); (431, 431, 1, 1); (433, 434, 1, 217);
    (435, 437, 2, 1); (439, 439, 1, 219); (440, 440, 1, 1); (444, 444, 1, 1);
    (452, 452, 1, 2); (453, 453, 1, 1); (455, 455, 1, 2); (456, 456, 1, 1);
    (458, 458, 1, 2); (459, 475, 2, 1); (478, 494, 2, 1); (497, 497, 1, 2);
    (498, 500, 2, 1); (502, 502, 1, -97); (503, 503, 1, -56); (504, 542, 2, 1);
    (544, 544, 1, -130); (546, 562, 2, 1); (570, 570, 1, 10795); (571, 571, 1, 1);
    (573, 573, 1, -163); (574, 574, 1, 10792); (577, 577, 1, 1); (579, 579, 1, -195);
    (580, 580, 1, 69); (581, 581, 1, 71); (582, 590, 2, 1); (837, 837, 1, 116);
    (880, 882, 2, 1); (886, 886, 1, 1); (895, 895, 1, 116); (902, 902, 1, 38);
    (904, 906, 1, 37); (908, 908, 1, 64); (910, 911, 1, 63); (913, 929, 1, 32);
    (931, 939, 1, 32); (962, 962, 1, 1); (975, 975, 1, 8); (976, 976, 1, -30);
    (977, 977, 1, -25); (981, 981, 1, -15); (982, 982, 1, -22); (984, 1006, 2, 1);
    (1008, 1008, 1, -54); (1009, 1009, 1, -48); (1012, 1012, 1, -60); (1013, 1013, 1, -64);
    (1015, 1015, 1, 1); (1017, 1017, 1, -7); (1018, 1018, 1, 1); (1021, 1023, 1, -130);
    (1024, 1039, 1, 80); (1040, 1071, 1, 32); (1120, 1152, 2, 1); (1162, 1214, 2, 1);
    (1216, 1216, 1, 15); (1217, 1229, 2, 1); (1232, 1326, 2, 1); (1329, 1366, 1, 48);
    (4256, 4293, 1, 7264); (4295, 4295, 1, 7264); (4301, 4301, 1, 7264);
    (5112, 5117, 1, -8); (7296, 7296, 1, -6222); (7297, 7297, 1, -6221);
    (7298, 7298, 1, -6212); (7299, 7300, 1, -6210); (7301, 7301, 1, -6211);
    (7302, 7302, 1, -6204); (7303, 7303, 1, -6180); (7304, 7304, 1, 35267);
    (7312, 7354, 1, -3008); (7357, 7359, 1, -3008); (7680, 7828, 2, 1);
    (7835, 7835, 1, -58); (7838, 7838, 1, -7615); (7840, 7934, 2, 1); (7944, 7951, 1, -8);
    (7960, 7965, 1, -8); (7976, 7983, 1, -8); (7992, 7999, 1, -8); (8008, 8013, 1, -8);
    (8025, 8031, 2, -8); (8040, 8047, 1, -8); (8072, 8079, 1, -8); (8088, 8095, 1, -8);
    (8104, 8111, 1, -8); (8120, 8121, 1, -8); (8122, 8123, 1, -74); (8124, 8124, 1, -9);
    (8126, 8126, 1, -7173); (8136, 8139, 1, -86); (8140, 8140, 1, -9); (8152, 8153, 1, -8);
    (8154, 8155, 1, -100); (8168, 8169, 1, -8); (8170, 8171, 1, -112); (8172, 8172, 1, -7);
    (8184, 8185, 1, -128); (8186, 8187, 1, -126); (8188, 8188, 1, -9);
    (8486, 8486, 1, -7517); (8490, 8490, 1, -8383); (8491, 8491, 1, -8262);
    (8498, 8498, 1, 28); (8544, 8559, 1, 16); (8579, 8579, 1, 1); (9398, 9423, 1, 26);
    (11264, 11311, 1, 48); (11360, 11360, 1, 1); (11362, 11362, 1, -10743);
    (11363, 11363, 1, -3814); (11364, 11364, 1, -10727); (11367, 11371, 2, 1);
    (11373, 11373, 1, -10780); (11374, 11374, 1, -10749); (11375, 11375, 1, -10783);
    (11376, 11376, 1, -10782); (11378, 11378, 1, 1); (11381, 11381, 1, 1);
    (11390, 11391, 1, -10815); (11392, 11490, 2, 1); (11499, 11501, 2, 1);
    (11506, 11506, 1, 1); (42560, 42604, 2, 1); (42624, 42650, 2, 1); (42786, 42798, 2, 1);
    (42802, 42862, 2, 1); (42873, 42875, 2, 1); (42877, 42877, 1, -35332);
    (42878, 42886, 2, 1); (42891, 42891, 1, 1); (42893, 42893, 1, -42280);
    (42896, 42898, 2, 1); (42902, 42920, 2, 1); (42922, 42922, 1, -42308);
    (42923, 42923, 1, -42319); (42924, 42924, 1, -42315); (42925, 42925, 1, -42305);
    (42926, 42926, 1, -42308); (42928, 42928, 1, -42258); (42929, 42929, 1, -42282);
    (42930, 42930, 1, -42261); (42931, 42931, 1, 928); (42932, 42946, 2, 1);
    (42948, 42948, 1, -48); (42949, 42949, 1, -42307); (42950, 42950, 1, -35384);
    (42951, 42953, 2, 1); (42960, 42960, 1, 1); (42966, 42968, 2, 1); (42997, 42997, 1, 1);
    (43888, 43967, 1, -38864); (65313, 65338, 1, 32); (66560, 66599, 1, 40);
    (66736, 66771, 1, 40); (66928, 66938, 1, 39); (66940, 66954, 1, 39);
    (66956, 66962, 1, 39); (66964, 66965, 1, 39); (68736, 68786, 1, 64);
    (71840, 71871, 1, 32); (93760, 93791, 1, 32); (125184, 125217, 1, 34)
  ].

Definition in_row (u : Z) (row : Z * Z * Z * Z) : bool :=
  let '(first, last, stride, _) := row in
  (first <=? u) && (u <=? last) && ((u - first) mod stride =? 0).

(** The letter that stands for [u]'s orbit. *)
Definition fold_code (u : Z) : Z :=
  if u <? 128 then (if (65 <=? u) && (u <=? 90) then u + 32 else u) else
  match List.find (in_row u) fold_table with
  | Some (_, _, _, delta) => u + delta
  | None => u
  end.

(** utf8.DecodeRuneInString on one element of [runes]: U+FFFD for an invalid byte. *)
Definition rune_code (r : string) : Z :=
  match r with
  | String a "" => if code a <? 128 then code a else 65533
  | String a (String b "") => (code a - 192) * 64 + (code b - 128)
  | String a (String b (String c "")) =>
      (code a - 224) * 4096 + (code b - 128) * 64 + (code c - 128)
  | String a (String b (String c (String d ""))) =>
      (code a - 240) * 262144 + (code b - 128) * 4096 + (code c - 128) * 64 + (code d - 128)
  | _ => 65533
  end.

(** The letters of [s], each by its orbit. *)
Definition fold_codes (s : string) : list Z := map (λ r, fold_code (rune_code r)) (runes s).

(** [strings.EqualFold]. *)
Definition EqualFold (s t : string) : bool := bool_decide (fold_codes s = fold_codes t).

Lemma EqualFold_refl s : EqualFold s s = true.
Proof. by apply bool_decide_eq_true. Qed.

Lemma EqualFold_sym s t : EqualFold s t = EqualFold t s.
Proof. apply bool_decide_ext. split; done. Qed.

Lemma EqualFold_trans s t u :
  EqualFold s t = true → EqualFold t u = true → EqualFold s u = true.
Proof. unfold EqualFold. rewrite !bool_decide_eq_true. congruence. Qed.

(** A row takes no letter to one that folds further: folding is idempotent on the
    letters of the table. *)
Lemma fold_table_canonical :
  forallb (λ '(first, last, stride, delta),
    forallb (λ n, let v := first + Z.of_nat n * stride + delta in fold_code v =? v)
      (seq 0 (Z.to_nat ((last - first) / stride + 1)))) fold_table = true.
Proof. by vm_compute. Qed.

(** Sigma has two small letters, which fold together, as do the Kelvin sign and k; the
    Turkish dotless i folds to no other letter, and an invalid byte is U+FFFD. *)
Example EqualFold_sigma :
  EqualFold (bytes [207; 131]) (bytes [207; 130]) = true ∧
  EqualFold (bytes [206; 163]) (bytes [207; 130]) = true ∧
  EqualFold (bytes [226; 132; 170]) "K" = true ∧
  EqualFold (bytes [196; 177]) "I" = false ∧
  EqualFold (bytes [225; 186; 158]) (bytes [195; 159]) = true ∧
  EqualFold (bytes [255]) replacement = true ∧ EqualFold "WWW.Example" "www.exAMPLE" = true.
Proof. by vm_compute. Qed.
