(* ===== verification/Http.v ===== *)
(** * pkg/proxy/http/proxy.go: an HTTP datasource behind one base URL

    A request names a path below the configured base URL; the proxy adds
    credentials, forwards it and returns the response. The network is an argument: it
    answers each request, and says where a redirect leads. Operations return the
    requests they made. *)

From S2P Require Import Prelude GoStrings GoFold GoJson GoAny GoBase64 GoUrl Errors Registry.
From Stdlib Require Import SpecFloat.
#[local] Open Scope Z_scope.

Definition defaultMaxResponseBytes : Z := Z.shiftl 256 20.

(** ** net/http: requests and headers *)

Definition header := gmap string (list string).

Definition token_char (c : ascii) : bool := alphanum c || one_of "!#$%&'*+-.^_`|~" c.

Fixpoint canonical_go (upper : bool) (s : string) : string :=
  match s with
  | "" => ""
  | String c s' =>
      String (if upper then upper_char c else lower_char c) (canonical_go (code c =? 45) s')
  end.

(** [textproto.CanonicalMIMEHeaderKey]: a name that is not a token is kept. *)
Definition CanonicalHeaderKey (k : string) : string :=
  if all_chars token_char k then canonical_go true k else k.

Definition Header_Add (h : header) (k v : string) : header :=
  let k := CanonicalHeaderKey k in <[k := default [] (h !! k) ++ [v]]> h.
Definition Header_Set (h : header) (k v : string) : header := <[CanonicalHeaderKey k := [v]]> h.

Record request := MkHTTPRequest {
  hq_Method : string;
  hq_URL : URL;
  hq_Header : header;
  hq_Body : string;
}.

Definition set_host (u : URL) (h : string) : URL :=
  MkURL (Scheme u) (Opaque u) (User u) h (Path u) (RawPath u) (OmitHost u) (ForceQuery u)
    (RawQuery u) (Fragment u) (RawFragment u).

(** A colon with no port after it is dropped. *)
Definition removeEmptyPort (host : string) : string :=
  match LastIndex host ":" with
  | Some i =>
      if match LastIndex host "]" with Some j => (j <? i)%nat | None => true end
      then TrimSuffix host ":" else host
  | None => host
  end.

Definition NewRequest (method url body : string) : result request :=
  let method := if String.eqb method "" then "GET" else method in
  _ ← fail_if (negb (all_chars token_char method))
        (errorf ("net/http: invalid method " +:+ Quote method));
  u ← Parse url;
  Ok (MkHTTPRequest method (set_host u (removeEmptyPort (Host u))) ∅ body).

(** ** Errors of the client *)

Inductive cause :=
  | CauseURL                     (* *url.Error *)
  | CauseDNS                     (* *net.DNSError *)
  | CauseOp (op : string)        (* *net.OpError *)
  | CauseRecordHeader            (* tls.RecordHeaderError *)
  | CauseCertificate             (* *tls.CertificateVerificationError *)
  | CauseOther.

#[global] Instance cause_eq_dec : EqDecision cause.
Proof. solve_decision. Defined.

(** An error with the chain of errors it wraps, outermost first. *)
Record client_error := MkClientError {
  ce_error : error;
  ce_canceled : bool;            (* errors.Is(err, context.Canceled) *)
  ce_chain : list cause;
}.

(** What [urlErr.Err] wraps, or the whole chain without a url.Error. *)
Fixpoint below_url_error (l : list cause) : option (list cause) :=
  match l with
  | [] => None
  | CauseURL :: l => Some l
  | _ :: l => below_url_error l
  end.

Fixpoint first_op (l : list cause) : option string :=
  match l with
  | [] => None
  | CauseOp op :: _ => Some op
  | _ :: l => first_op l
  end.

Definition isNetworkError (e : client_error) : bool :=
  if ce_canceled e then false
  else
    let chain := default (ce_chain e) (below_url_error (ce_chain e)) in
    bool_decide (CauseDNS ∈ chain) || bool_decide (first_op chain = Some "dial")
    || bool_decide (CauseRecordHeader ∈ chain) || bool_decide (CauseCertificate ∈ chain).

(** ** State *)

Inductive redirect_policy := UseLastResponse | SameOrigin (base : URL).

Record Transport := MkTransport {
  t_InsecureSkipVerify : bool;
  t_ServerName : string;
  t_RootCAs : option string;                   (* PEM added to the system roots *)
  t_Certificate : option (string * string);
}.

(** A client, with the identity of its transport; [None] is http.DefaultTransport. *)
Record Client := MkClient {
  c_id : nat;
  c_Transport : option Transport;
  c_CheckRedirect : redirect_policy;
}.

Record Proxy := MkProxy {
  closed : bool;
  baseURL : string;
  baseParsed : option URL;
  authType : string;
  creds : gmap string string;
  tlsSkipVerify : bool;
  followRedirects : bool;
  dsType : string;
  maxRespBytes : Z;
  client : option Client;
}.

Definition New (id : nat) : Proxy :=
  MkProxy false "" None "" ∅ false false "" 0 (Some (MkClient id None UseLastResponse)).

(** crypto/x509 and crypto/tls. *)
Class TlsLib := {
  AppendCertsFromPEM : string → bool;
  X509KeyPair : string → string → result unit;
}.

(** ** Redirects *)

Definition effectivePort (u : URL) : string :=
  if negb (String.eqb (Port u) "") then Port u
  else if String.eqb (ToLower (Scheme u)) "https" then "443"
  else if String.eqb (ToLower (Scheme u)) "http" then "80"
  else "".

Definition bare_host (u : URL) : string := TrimSuffix (Hostname u) ".".

(** [via] is the number of requests already made; [None] is ErrUseLastResponse. *)
Definition checkRedirect (policy : redirect_policy) (u : URL) (via : nat) : option (result unit) :=
  match policy with
  | UseLastResponse => None
  | SameOrigin base => Some (
      _ ← fail_if (10 <=? via)%nat (errorf "stopped after 10 redirects");
      fail_if (negb (EqualFold (Scheme u) (Scheme base)) || negb (EqualFold (bare_host u) (bare_host base))
               || negb (String.eqb (effectivePort u) (effectivePort base)))
        (errorf ("cross-origin redirect to " +:+ Quote (Redacted u) +:+ " not permitted")))
  end.

(** A response; [hr_Redirect] is where a redirect status leads. The body ends in EOF
    or in an error. *)
Record response := MkHTTPResponse {
  hr_StatusCode : Z;
  hr_Header : header;
  hr_Body : string;
  hr_BodyError : option error;
  hr_Redirect : option URL;
}.

(** What the network answers: the n-th request of an exchange, to a URL. *)
Definition network := nat → request → response + client_error.

(** [client.Do]: the requests made, in order, and how it ends. A redirected request
    is a GET or repeats the first one; only its URL matters here. *)
Fixpoint do_loop (fuel : nat) (net : network) (policy : redirect_policy) (via : nat) (q : request)
  : (response + client_error) * list request :=
  match net via q with
  | inr e => (inr e, [q])
  | inl r =>
      match hr_Redirect r, fuel with
      | Some u, S fuel =>
          match checkRedirect policy u (S via) with
          | None => (inl r, [q])
          | Some (Err e) => (inr (MkClientError e false [CauseURL; CauseOther]), [q])
          | Some (Ok _) =>
              let '(x, sent) :=
                do_loop fuel net policy (S via)
                  (MkHTTPRequest (hq_Method q) u (hq_Header q) (hq_Body q)) in
              (x, q :: sent)
          end
      | _, _ => (inl r, [q])
      end
  end.

(** The policy stops the client after ten redirects, so that twelve rounds suffice. *)
Definition Do (net : network) (c : Client) (q : request) : (response + client_error) * list request :=
  do_loop 12 net (c_CheckRedirect c) 0 q.

(** ** Configuration *)

Definition applyTLSMaterial `{TlsLib} (creds : gmap string string)
  : result (option string * option (string * string)) :=
  let ca := cred creds "ca_cert" in
  let cert := cred creds "client_cert" in
  let key := cred creds "client_key" in
  rootCAs ← (if String.eqb ca "" then Ok None
             else
               _ ← fail_if (negb (AppendCertsFromPEM ca))
                     (errorf "ca_cert contains no valid PEM certificates");
               Ok (Some ca));
  _ ← fail_if (xorb (String.eqb cert "") (String.eqb key ""))
        (errorf "client_cert and client_key must be provided together");
  if String.eqb cert "" then Ok (rootCAs, None)
  else
    _ ← wrap_err "invalid client_cert/client_key: " (X509KeyPair cert key);
    Ok (rootCAs, Some (cert, key)).

(** [v >= n] of a float64 and a positive integer. *)
Definition float_ge (v : spec_float) (n : Z) : bool :=
  match v with
  | S754_infinity s => negb s
  | S754_finite false m e =>
      if 0 <=? e then n <=? Z.pos m * 2 ^ e else n * 2 ^ (- e) <=? Z.pos m
  | _ => false
  end.

(** float64(math.MaxInt64) is 2^63. *)
Definition max_response_bytes (v : option any) : Z :=
  match v with
  | Some (AInt z) => if 0 <? z then z else defaultMaxResponseBytes
  | Some (AFloat f) =>
      if float_ge f (2 ^ 63) then maxInt64
      else if float_ge f 1 then float_to_int f
      else defaultMaxResponseBytes
  | _ => defaultMaxResponseBytes
  end.

(** Everything [Configure] works out before it takes the lock; [id] identifies the
    new transport. *)
Definition prepare `{TlsLib} (id : nat) (config : gmap string any) (creds : gmap string string)
  : result Proxy :=
  let baseURL := as_string (config !! "base_url") in
  _ ← fail_if (String.eqb baseURL "") (errorf "base_url is required for http-proxy");
  baseParsed ← wrap_err ("invalid base_url " +:+ Quote baseURL +:+ ": ") (Parse baseURL);
  _ ← fail_if (negb (String.eqb (Scheme baseParsed) "http")
               && negb (String.eqb (Scheme baseParsed) "https"))
        (errorf ("base_url scheme must be http or https, got " +:+ Quote (Scheme baseParsed)));
  _ ← fail_if (String.eqb (Hostname baseParsed) "") (errorf "base_url must specify a host");
  let skipVerify := default false (as_bool (config !! "tls_skip_verify")) in
  let follow := default false (as_bool (config !! "follow_redirects")) in
  '(rootCAs, certificate) ← applyTLSMaterial creds;
  let transport := MkTransport skipVerify (Hostname baseParsed) rootCAs certificate in
  Ok (MkProxy false baseURL (Some baseParsed) (as_string (config !! "auth_type")) creds
        skipVerify follow (as_string (config !! "datasource_type"))
        (max_response_bytes (config !! "max_response_bytes"))
        (Some (MkClient id (Some transport)
                 (if follow then SameOrigin baseParsed else UseLastResponse)))).

(** The transports whose idle connections are closed. *)
Definition idle_closed (c : option Client) : list nat :=
  match c with Some (MkClient id (Some _) _) => [id] | _ => [] end.

(** The last part of [Configure], under the lock. *)
Definition commit (p new : Proxy) : result unit * Proxy * list nat :=
  if closed p then (Err (errorf "proxy is closed"), p, idle_closed (client new))
  else (Ok tt, new, idle_closed (client p)).

Definition Configure `{TlsLib} (p : Proxy) (id : nat) (config : gmap string any)
    (creds : gmap string string) : result unit * Proxy * list nat :=
  match prepare id config creds with
  | Err e => (Err e, p, [])
  | Ok new => commit p new
  end.

Definition Close (p : Proxy) : result unit * Proxy * list nat :=
  if closed p then (Ok tt, p, [])
  else
    (Ok tt,
     MkProxy true (baseURL p) (baseParsed p) (authType p) (creds p) (tlsSkipVerify p)
       (followRedirects p) (dsType p) (maxRespBytes p) None,
     idle_closed (client p)).

(** ** Requests *)

Definition resolveTargetURL (base : option URL) (reqURL : string) : result string :=
  match base with
  | None => Err (errorf "base_url is not configured")
  | Some base =>
      ref ← wrap_err ("invalid request url " +:+ Quote reqURL +:+ ": ") (Parse reqURL);
      _ ← fail_if (IsAbs ref || negb (String.eqb (Host ref) ""))
            (errorf ("request url must be relative to base_url, got " +:+ Quote reqURL));
      let basePath := Path base in
      let refPath :=
        if HasSuffix basePath "/" && HasPrefix (Path ref) "/"
        then str_drop 1 (Path ref) else Path ref in
      Ok (URL_String (MkURL (Scheme base) "" (User base) (Host base) (basePath +:+ refPath) ""
                        false false (RawQuery ref) (Fragment ref) ""))
  end.

Definition injectAuthWith (q : request) (authType : string) (creds : gmap string string) : request :=
  let set k v := MkHTTPRequest (hq_Method q) (hq_URL q) (Header_Set (hq_Header q) k v) (hq_Body q) in
  if String.eqb authType "basic" then
    set "Authorization"
      ("Basic " +:+ EncodeToString (cred creds "username" +:+ ":" +:+ cred creds "password"))
  else if String.eqb authType "bearer" then
    set "Authorization" ("Bearer " +:+ cred creds "bearer_token")
  else if String.eqb authType "custom_header" then
    let name := cred creds "custom_header_name" in
    if String.eqb name "" then q else set name (cred creds "custom_header_value")
  else q.

(** The headers of the request; the order in which a map is visited only matters for
    names that differ in case. *)
Definition copy_headers (q : request) (h : header) : request :=
  MkHTTPRequest (hq_Method q) (hq_URL q)
    (foldl (λ acc '(k, vals), foldl (λ acc v, Header_Add acc k v) acc vals)
       (hq_Header q) (map_to_list h)) (hq_Body q).

(** [io.ReadAll(io.LimitReader(body, limit))]. *)
Definition read_limited (r : response) (limit : Z) : result string :=
  if Z.of_nat (String.length (hr_Body r)) <? limit then
    match hr_BodyError r with Some e => Err e | None => Ok (hr_Body r) end
  else Ok (str_take (Z.to_nat limit) (hr_Body r)).

Definition read_limit (max : Z) : Z := if max <? maxInt64 then max + 1 else max.

Definition marshal_header (h : header) : json :=
  JObj (foldr (λ '(k, vs) l, assoc_insert k (JArr (map JStr vs)) l) [] (map_to_list h)).

Definition ErrUpstreamUnreachable : error :=
  MkError "upstream unreachable" [TagUpstreamUnreachable].

Definition request_error (e : client_error) : error :=
  if isNetworkError e
  then MkError ("executing request: " +:+ err_msg ErrUpstreamUnreachable +:+ ": "
                +:+ err_msg (ce_error e)) (TagUpstreamUnreachable :: err_tags (ce_error e))
  else wrapf "executing request: " (ce_error e).

(** The body is base64 if it can be read as such. *)
Definition request_body (body : string) : string :=
  if String.eqb body "" then "" else default body (DecodeString body).

(** The answer to a request, from the upstream response. *)
Definition readResponse (maxRespBytes : Z) (resp : response) : result ActionResponse :=
  respBody ← wrap_err "reading response: " (read_limited resp (read_limit maxRespBytes));
  _ ← fail_if (maxRespBytes <? Z.of_nat (String.length respBody))
        (errorf ("response exceeds max_response_bytes (" +:+ Itoa maxRespBytes +:+ ")"));
  Ok (MkResponse 200 "" "" "" (json_print (JObj [
        ("body", JStr (EncodeToString respBody));
        ("header", marshal_header (hr_Header resp));
        ("status_code", JNum (Itoa (hr_StatusCode resp)))])) None).

(** The requests other than vm_service_map. *)
Definition handleHTTP (net : network) (p : Proxy) (c : Client) (base : URL) (req : ActionRequest)
  : result ActionResponse * list request :=
  match
    (targetURL ← resolveTargetURL (Some base) (req_URL req);
     wrap_err "creating request: "
       (NewRequest (if String.eqb (req_Method req) "" then "GET" else req_Method req)
          targetURL (request_body (req_Body req))))
  with
  | Err e => (Err e, [])
  | Ok q =>
      let q := injectAuthWith (copy_headers q (req_Header req)) (authType p) (creds p) in
      match Do net c q with
      | (inr e, sent) => (Err (request_error e), sent)
      | (inl resp, sent) => (readResponse (maxRespBytes p) resp, sent)
      end
  end.

(** ** Health *)

Definition get_status (net : network) (p : Proxy) (c : Client) (url : string)
  : result Z * list request :=
  match NewRequest "GET" url "" with
  | Err e => (Err e, [])
  | Ok q =>
      match Do net c (injectAuthWith q (authType p) (creds p)) with
      | (inr e, sent) => (Err (wrapf "health check failed: " (ce_error e)), sent)
      | (inl resp, sent) => (Ok (hr_StatusCode resp), sent)
      end
  end.

(** The loop over the two paths; [lastErr] is the error of the previous one. *)
Fixpoint prometheus_loop (net : network) (p : Proxy) (c : Client) (paths : list string)
    (lastErr : result unit) : result unit * list request :=
  match paths with
  | [] => (lastErr, [])
  | path :: paths =>
      match resolveTargetURL (baseParsed p) path with
      | Err e => (Err e, [])
      | Ok target =>
          match get_status net p c target with
          | (Err e, sent) => (Err e, sent)
          | (Ok status, sent) =>
              if (200 <=? status) && (status <? 300) then (Ok tt, sent)
              else
                let '(r, sent') := prometheus_loop net p c paths
                  (Err (errorf ("health check " +:+ path +:+ " returned status " +:+ Itoa status))) in
                (r, sent ++ sent')
          end
      end
  end.

Definition prometheusHealthCheck (net : network) (p : Proxy) (c : Client)
  : result unit * list request :=
  prometheus_loop net p c ["/-/ready"; "/api/v1/status/buildinfo"] (Ok tt).

Definition HealthCheck (net : network) (p : Proxy) : result unit * list request :=
  if closed p then (Err (errorf "proxy is closed"), [])
  else
    match client p with
    | None => (Err (errorf "http proxy not configured"), [])
    | Some c =>
        if String.eqb (baseURL p) "" then (Err (errorf "http proxy not configured"), [])
        else if String.eqb (dsType p) "prometheus" then prometheusHealthCheck net p c
        else
          let '(r, sent) := get_status net p c (baseURL p) in
          (status ← r;
           fail_if (500 <=? status) (errorf ("health check returned status " +:+ Itoa status)),
           sent)
    end.

Definition CollectMetadata (p : Proxy) : gmap string any := {[ "base_url" := AStr (baseURL p) ]}.
