(* ===== verification/ServiceMap.v ===== *)
(** * pkg/proxy/http/vmservicemap.go: the call graph of a fleet

    A fixed set of queries against the datasource's Prometheus store, folded into
    hosts, services and edges. Loops over Go maps visit the entries in an order given
    by [visit]; counters are float64. *)

From S2P Require Import Prelude GoStrings GoJson GoAny GoTime GoUrl NetIP Errors Registry Http.
From Stdlib Require Import SpecFloat.
#[local] Open Scope Z_scope.

Definition ActionVMServiceMap : string := "vm_service_map".
Definition defaultServiceMapWindow : Z := 15 * Minute.
Definition maxServiceMapWindow : Z := 24 * (60 * Minute).
Definition maxServiceMapEdges : nat := 5000.

Record l7 := MkL7 { l7_name : string; l7_requests : string; l7_duration : string }.

Definition l7Protocols : list l7 := [
  MkL7 "http" "container_http_requests_total" "container_http_requests_duration_seconds_total";
  MkL7 "postgres" "container_postgres_queries_total" "container_postgres_queries_duration_seconds_total";
  MkL7 "mysql" "container_mysql_queries_total" "container_mysql_queries_duration_seconds_total";
  MkL7 "redis" "container_redis_queries_total" "container_redis_queries_duration_seconds_total";
  MkL7 "memcached" "container_memcached_queries_total" "container_memcached_queries_duration_seconds_total";
  MkL7 "mongo" "container_mongo_queries_total" "container_mongo_queries_duration_seconds_total";
  MkL7 "kafka" "container_kafka_requests_total" "container_kafka_requests_duration_seconds_total";
  MkL7 "cassandra" "container_cassandra_queries_total" "container_cassandra_queries_duration_seconds_total";
  MkL7 "clickhouse" "container_clickhouse_queries_total" "container_clickhouse_queries_duration_seconds_total";
  MkL7 "zookeeper" "container_zookeeper_requests_total" "container_zookeeper_requests_duration_seconds_total";
  MkL7 "foundationdb" "container_foundationdb_requests_total" "container_foundationdb_requests_duration_seconds_total";
  MkL7 "dubbo" "container_dubbo_requests_total" "container_dubbo_requests_duration_seconds_total"].

Definition quoted (s : string) : string := str1 dq +:+ s +:+ str1 dq.
Definition failedStatus : string := "status=~" +:+ quoted "5[0-9][0-9]|failed".
Definition grpcFailedStatus : string :=
  "status=~" +:+ quoted "grpc:.*" +:+ ",status!=" +:+ quoted "grpc:OK".

(** ** float64 *)

Definition fadd (a b : spec_float) : spec_float := SFadd 53 1024 a b.
Definition fmul (a b : spec_float) : spec_float := SFmul 53 1024 a b.
Definition fdiv (a b : spec_float) : spec_float := SFdiv 53 1024 a b.
Definition of_int (z : Z) : spec_float := binary_normalize 53 1024 z 0 false.
Definition fzero : spec_float := S754_zero false.

(** [math.Round]: to the nearest integer, halves away from zero. *)
Definition math_Round (f : spec_float) : spec_float :=
  match f with
  | S754_finite s m e =>
      if 0 <=? e then f
      else
        let q := (2 * Z.pos m + 2 ^ (- e)) / 2 ^ (1 - e) in
        if q =? 0 then S754_zero s
        else binary_normalize 53 1024 (if s then - q else q) 0 s
  | _ => f
  end.

Definition wholeCount (v : spec_float) : spec_float :=
  if SFleb v fzero then fzero
  else if SFleb (of_int 1) (math_Round v) then math_Round v else of_int 1.

(** ** Data *)

Record serviceMapListener := MkListener { l_Addr : string; l_Port : Z }.
#[global] Instance listener_eq_dec : EqDecision serviceMapListener.
Proof. solve_decision. Defined.

Record serviceMapHost := MkHost {
  h_InstanceID : string;
  h_Hostname : string;
  h_IPs : list string;
  h_Listeners : list serviceMapListener;
}.

Record serviceMapService := MkService {
  sv_instance : string;
  sv_InstanceID : string;
  sv_Hostname : string;
  sv_ContainerID : string;
  sv_Name : string;
  sv_Kind : string;
  sv_Image : string;
  sv_ApplicationTypes : list string;
  sv_Listeners : list serviceMapListener;
}.

Record serviceMapEdge := MkEdge {
  e_SourceHost : string;
  e_SourceInstanceID : string;
  e_SourceService : string;
  e_SourceContainer : string;
  e_Destination : string;
  e_DestinationKind : string;
  e_DestinationName : string;
  e_DestinationHost : string;
  e_DestinationInstanceID : string;
  e_DestinationService : string;
  e_DestinationContainer : string;
  e_Protocol : string;
  e_Requests : spec_float;
  e_Errors : spec_float;
  e_LatencyMs : spec_float;
  e_BytesSent : spec_float;
  e_BytesReceived : spec_float;
}.

Record promSample := MkSample { Metric : gmap string string; Value : spec_float }.

(** [s.Metric[k]]. *)
Definition lab (s : promSample) (k : string) : string := cred (Metric s) k.

(** Insertion sort by a strict order, which keeps the order of ties; together with
    an arbitrary order of the input it yields every result of sort.Slice. *)
Fixpoint sorted_insert {A} (lt : A → A → bool) (x : A) (l : list A) : list A :=
  match l with
  | [] => [x]
  | y :: l' => if lt y x then y :: sorted_insert lt x l' else x :: l
  end.
Definition sort_by {A} (lt : A → A → bool) (l : list A) : list A := foldr (sorted_insert lt) [] l.

Definition str_lt (a b : string) : bool :=
  match String.compare a b with Lt => true | _ => false end.

(** ** net.SplitHostPort *)

Definition SplitHostPort (hostport : string) : option (string * string) :=
  match cut_last hostport ":" with
  | None => None
  | Some (before, port) =>
      match hostport with
      | String c tl =>
          if code c =? 91 then
            match cut hostport "]" with
            | Some (inner, after) =>
                if negb (String.eqb after (":" +:+ port)) then None
                else if Contains tl "[" || Contains after "]" then None
                else Some (str_drop 1 inner, port)
            | None => None
            end
          else if Contains before ":" || Contains hostport "[" || Contains hostport "]" then None
          else Some (before, port)
      | "" => None
      end
  end.

Definition IsUnspecified (ip : IP) : bool := (ip_val ip =? v4InV6 0) || (ip_val ip =? 0).

(** ** The window and the queries *)

Definition serviceMapRange (params : gmap string any) (now : Z) : result (Z * Z) :=
  let time name dflt :=
    let s := as_string (params !! name) in
    if String.eqb s "" then Ok dflt
    else match parse_rfc3339 s with
         | Some t => Ok t
         | None => Err (wrapf ("invalid " +:+ name +:+ " " +:+ Quote s +:+ ": ") time_error)
         end in
  fin ← time "end" now;
  start ← time "start" (fin - defaultServiceMapWindow);
  _ ← fail_if (negb (start <? fin)) (errorf "start must be before end");
  _ ← fail_if (maxServiceMapWindow <? time_sub fin start) (errorf "window is longer than 24h0m0s");
  Ok (start, fin).

(** [math.Ceil] of the window's [Seconds]: a window of at most a day is exact to
    2^-36 s as float64, so that rounding never crosses an integer. *)
Definition window_seconds (start fin : Z) : Z := (time_sub fin start + (Second - 1)) / Second.

Definition group : string :=
  "instance, container_id, destination, destination_workload_kind, destination_workload_name".

Definition sum_by (by_ metric w : string) : string :=
  "sum by (" +:+ by_ +:+ ") (increase(" +:+ metric +:+ "[" +:+ w +:+ "]))".
Definition last_over (metric w : string) : string := "last_over_time(" +:+ metric +:+ "[" +:+ w +:+ "])".

Definition l7_queries (w : string) (pr : l7) : list string :=
  [sum_by group (l7_requests pr) w;
   sum_by group (l7_requests pr +:+ "{" +:+ failedStatus +:+ "}") w;
   sum_by group (l7_duration pr +:+ "_sum") w;
   sum_by group (l7_duration pr +:+ "_count") w].

Definition service_queries (start fin : Z) : list string :=
  let w := Itoa (window_seconds start fin) +:+ "s" in
  [last_over "node_cloud_info" w;
   last_over "node_info" w;
   last_over "node_net_interface_ip" w;
   last_over "container_net_tcp_listen_info" w;
   last_over "container_info" w;
   last_over "container_application_type" w;
   sum_by "instance, container_id, destination" "container_net_tcp_bytes_sent_total" w;
   sum_by "instance, container_id, destination" "container_net_tcp_bytes_received_total" w;
   sum_by group "container_net_tcp_successful_connects_total" w;
   sum_by group "container_net_tcp_failed_connects_total" w;
   sum_by group "container_net_tcp_connection_time_seconds_total" w]
  ++ flat_map (l7_queries w) l7Protocols
  ++ [sum_by group ("container_http_requests_total{" +:+ grpcFailedStatus +:+ "}") w].

(** [strconv.FormatFloat(float64(ms)/1000, 'f', 3, 64)]; below 2^53 milliseconds the
    quotient is within 0.0001 of the decimal, so that three digits are exact. *)
Definition format_millis (ms : Z) : string :=
  let a := Z.abs ms in
  let frac := a mod 1000 in
  (if ms <? 0 then "-" else "") +:+ Itoa (a / 1000) +:+ "."
  +:+ (if frac <? 100 then "0" else "") +:+ (if frac <? 10 then "0" else "") +:+ Itoa frac.

(** ** One instant query *)

Definition truncate (s : string) (n : nat) : string :=
  if (String.length s <=? n)%nat then s else str_take n s +:+ "...".

(** [strconv.ParseFloat] of decimal notation, the only one the store writes: JSON
    numbers with an optional plus sign, leading zeros and either digit group left
    out. Infinities, NaN and values out of range are [None]: they are all skipped. *)
Definition ParseFloat (s : string) : option spec_float :=
  let neg := starts_with [45] s in
  let body := opt_char [43; 45] s in
  let '(int, rest) := span is_digit body in
  let '(fr, ex) := if starts_with [46] rest then span is_digit (opt_char [46] rest) else ("", rest) in
  if String.eqb (int +:+ fr) "" then None
  else
    m ← digits_val 0 int;
    parse_float ((if neg then "-" else "") +:+ Itoa m
                 +:+ (if String.eqb fr "" then "" else "." +:+ fr) +:+ ex).

(** The answer's JSON: one entry of data.result, data, and the whole. *)
Record prom_entry := MkPromEntry { pe_metric : option (gmap string string); pe_value : list any }.

(** A [[2]any] array: missing elements are nil, further ones are dropped. *)
Definition dec_pair (old : list any) (v : json) : list any * bool :=
  match v with
  | JArr l =>
      let at_ i := match l !! i with
                   | Some x => match to_any x with Some a => (a, true) | None => (ANil, false) end
                   | None => (ANil, true)
                   end in
      ([(at_ 0%nat).1; (at_ 1%nat).1], (at_ 0%nat).2 && (at_ 1%nat).2)
  | JNull => (old, true)
  | _ => (old, false)
  end.

Definition prom_entry_field (r : prom_entry) (k : string) (v : json) : prom_entry * bool :=
  if key_is "metric" k then
    let '(m, ok) := dec_string_map (pe_metric r) v in (MkPromEntry m (pe_value r), ok)
  else if key_is "value" k then
    let '(x, ok) := dec_pair (pe_value r) v in (MkPromEntry (pe_metric r) x, ok)
  else (r, true).

Definition zero_entry : prom_entry := MkPromEntry None [ANil; ANil].

Record prom_data := MkPromData { pd_resultType : string; pd_result : list prom_entry }.

Definition prom_data_field (d : prom_data) (k : string) (v : json) : prom_data * bool :=
  if key_is "resulttype" k then
    let '(x, ok) := dec_string (pd_resultType d) v in (MkPromData x (pd_result d), ok)
  else if key_is "result" k then
    let '(x, ok) := dec_list (dec_struct prom_entry_field) zero_entry (pd_result d) v in
    (MkPromData (pd_resultType d) x, ok)
  else (d, true).

Record prom_env := MkPromEnv {
  pv_Status : string;
  pv_Error : string;
  pv_ErrorType : string;
  pv_Data : prom_data;
}.

Definition prom_env_field (e : prom_env) (k : string) (v : json) : prom_env * bool :=
  let 'MkPromEnv st er et d := e in
  if key_is "status" k then let '(x, ok) := dec_string st v in (MkPromEnv x er et d, ok)
  else if key_is "error" k then let '(x, ok) := dec_string er v in (MkPromEnv st x et d, ok)
  else if key_is "errortype" k then let '(x, ok) := dec_string et v in (MkPromEnv st er x d, ok)
  else if key_is "data" k then
    let '(x, ok) := dec_struct prom_data_field d v in (MkPromEnv st er et x, ok)
  else (e, true).

Definition prom_sample (r : prom_entry) : option promSample :=
  match pe_value r !! 1%nat with
  | Some (AStr s) => v ← ParseFloat s; Some (MkSample (default ∅ (pe_metric r)) v)
  | _ => None
  end.

Definition parsePromVector (body : string) : result (list promSample) :=
  match json_parse body with
  | None => Err (wrapf "decoding store response: " json_error)
  | Some j =>
      let '(env, ok) := dec_struct prom_env_field (MkPromEnv "" "" "" (MkPromData "" [])) j in
      _ ← fail_if (negb ok) (wrapf "decoding store response: " json_error);
      _ ← fail_if (negb (String.eqb (pv_Status env) "success"))
            (errorf ("store query failed: " +:+ pv_ErrorType env +:+ ": " +:+ pv_Error env));
      Ok (list_omap _ _ prom_sample (pd_result (pv_Data env)))
  end.

(** The URL of one query, below the base URL. *)
Definition query_url (promql : string) (at_ : Z) : string :=
  "/api/v1/query?" +:+ Encode (<["query" := [promql]]> (<["time" := [format_millis (at_ / 1000000)]]> ∅)).

Definition instantQuery (net : network) (p : Proxy) (promql : string) (at_ : Z)
  : result (list promSample) * list request :=
  match client p, baseParsed p with
  | Some c, Some base =>
      match
        (target ← resolveTargetURL (Some base) (query_url promql at_);
         wrap_err "creating request: " (NewRequest "GET" target ""))
      with
      | Err e => (Err e, [])
      | Ok q =>
          match Do net c (injectAuthWith q (authType p) (creds p)) with
          | (inr e, sent) => (Err (wrapf "querying store: " (ce_error e)), sent)
          | (inl resp, sent) =>
              (body ← wrap_err "reading store response: "
                        (read_limited resp (read_limit (maxRespBytes p)));
               _ ← fail_if (maxRespBytes p <? Z.of_nat (String.length body))
                     (errorf ("store response is larger than " +:+ Itoa (maxRespBytes p) +:+ " bytes"));
               _ ← fail_if (negb (hr_StatusCode resp =? 200))
                     (errorf ("store answered " +:+ Itoa (hr_StatusCode resp) +:+ ": "
                              +:+ truncate body 200));
               parsePromVector body,
               sent)
          end
      end
  | _, _ => (Err (errorf "http proxy not configured"), [])
  end.

(** The queries run concurrently; the i-th meets the network [nets i], which also
    says what a cancellation by another query does to it. The error of the first
    failed query is returned. *)
Fixpoint first_error {A} (l : list (result A)) : result (list A) :=
  match l with
  | [] => Ok []
  | Err e :: _ => Err e
  | Ok x :: l => xs ← first_error l; Ok (x :: xs)
  end.

Definition queryAll (nets : nat → network) (p : Proxy) (at_ : Z) (queries : list string)
  : result (list (list promSample)) * list request :=
  let answers := imap (λ i q, instantQuery (nets i) p q at_) queries in
  (first_error answers.*1, List.concat answers.*2).

(** ** Hosts *)

Definition parseListener (addr : string) : option serviceMapListener :=
  '(_, port) ← SplitHostPort addr;
  n ← Atoi port;
  Some (MkListener addr n).

(** Append unless present. *)
Definition add_new {A} `{EqDecision A} (l : list A) (x : A) : list A :=
  if bool_decide (x ∈ l) then l else l ++ [x].

Definition empty_host : serviceMapHost := MkHost "" "" [] [].

(** [*get(instance)] is updated; a host is created the first time it is named. *)
Definition upd_host (f : serviceMapHost → serviceMapHost) (by_ : gmap string serviceMapHost)
    (instance : string) : gmap string serviceMapHost :=
  <[instance := f (default empty_host (by_ !! instance))]> by_.

Definition host_cloud (by_ : gmap string serviceMapHost) (s : promSample) :=
  upd_host (λ h, MkHost (lab s "instance_id") (h_Hostname h) (h_IPs h) (h_Listeners h))
    by_ (lab s "instance").
Definition host_info (by_ : gmap string serviceMapHost) (s : promSample) :=
  upd_host (λ h, MkHost (h_InstanceID h) (lab s "hostname") (h_IPs h) (h_Listeners h))
    by_ (lab s "instance").
Definition host_ip (by_ : gmap string serviceMapHost) (s : promSample) :=
  upd_host (λ h, MkHost (h_InstanceID h) (h_Hostname h)
                   (if String.eqb (lab s "ip") "" then h_IPs h else add_new (h_IPs h) (lab s "ip"))
                   (h_Listeners h))
    by_ (lab s "instance").
Definition host_listen (by_ : gmap string serviceMapHost) (s : promSample) :=
  upd_host (λ h, MkHost (h_InstanceID h) (h_Hostname h) (h_IPs h)
                   (match parseListener (lab s "listen_addr") with
                    | Some l => add_new (h_Listeners h) l
                    | None => h_Listeners h
                    end))
    by_ (lab s "instance").

(** The record of a host once all series are read. *)
Definition finish_host (k : string) (h : serviceMapHost) : serviceMapHost :=
  MkHost (h_InstanceID h) (if String.eqb (h_Hostname h) "" then k else h_Hostname h)
    (sort_by str_lt (h_IPs h)) (h_Listeners h).

Definition raw_hosts (cloud info ips listen : list promSample) : gmap string serviceMapHost :=
  foldl host_listen (foldl host_ip (foldl host_info (foldl host_cloud ∅ cloud) info) ips) listen.

(** The map by instance; the list is in the order of the instances. *)
Definition byInstance (cloud info ips listen : list promSample) : gmap string serviceMapHost :=
  map_imap (λ k h, Some (finish_host k h)) (raw_hosts cloud info ips listen).

Definition hosts_list (m : gmap string serviceMapHost) : list serviceMapHost :=
  (sort_by (λ a b, str_lt a.1 b.1) (map_to_list m)).*2.

(** ** Services *)

Definition containerKey := (string * string)%type.

Definition isServiceContainer (containerID : string) : bool :=
  if String.eqb containerID "" then false
  else if HasSuffix containerID ".scope" || HasSuffix containerID ".slice" then false
  else negb (String.eqb containerID "/init.scope").

Definition serviceName (containerID : string) : string :=
  let id := TrimRight containerID "/" in
  match cut_last id "/" with Some (_, name) => name | None => id end.

Definition serviceKind (containerID : string) : string :=
  if HasPrefix containerID "/docker/" then "docker"
  else if HasSuffix containerID ".service" then "systemd"
  else "other".

Section services.
Context `{MapOrder}.
Variable hosts : gmap string serviceMapHost.

Definition new_service (instance container : string) : serviceMapService :=
  let h := default empty_host (hosts !! instance) in
  MkService instance (h_InstanceID h)
    (if String.eqb (h_Hostname h) "" then instance else h_Hostname h)
    container (serviceName container) (serviceKind container) "" [] [].

Definition service_info (by_ : gmap containerKey serviceMapService) (s : promSample) :=
  let k := (lab s "instance", lab s "container_id") in
  if negb (isServiceContainer k.2) then by_
  else
    let sv := default (new_service k.1 k.2) (by_ !! k) in
    let img := lab s "image" in
    <[k := MkService (sv_instance sv) (sv_InstanceID sv) (sv_Hostname sv) (sv_ContainerID sv)
             (sv_Name sv) (sv_Kind sv) (if String.eqb img "" then sv_Image sv else img)
             (sv_ApplicationTypes sv) (sv_Listeners sv)]> by_.

Definition service_type (by_ : gmap containerKey serviceMapService) (s : promSample) :=
  let k := (lab s "instance", lab s "container_id") in
  let t := lab s "application_type" in
  if negb (isServiceContainer k.2) || String.eqb t "" then by_
  else
    alter (λ sv, MkService (sv_instance sv) (sv_InstanceID sv) (sv_Hostname sv) (sv_ContainerID sv)
                   (sv_Name sv) (sv_Kind sv) (sv_Image sv) (add_new (sv_ApplicationTypes sv) t)
                   (sv_Listeners sv)) k by_.

Definition service_listen (by_ : gmap containerKey serviceMapService) (s : promSample) :=
  let k := (lab s "instance", lab s "container_id") in
  match parseListener (lab s "listen_addr") with
  | Some l =>
      alter (λ sv, MkService (sv_instance sv) (sv_InstanceID sv) (sv_Hostname sv) (sv_ContainerID sv)
                     (sv_Name sv) (sv_Kind sv) (sv_Image sv) (sv_ApplicationTypes sv)
                     (add_new (sv_Listeners sv) l)) k by_
  | None => by_
  end.

Definition finish_service (sv : serviceMapService) : serviceMapService :=
  MkService (sv_instance sv) (sv_InstanceID sv) (sv_Hostname sv) (sv_ContainerID sv)
    (sv_Name sv) (sv_Kind sv) (sv_Image sv) (sort_by str_lt (sv_ApplicationTypes sv))
    (sort_by (λ a b, str_lt (l_Addr a) (l_Addr b)) (sv_Listeners sv)).

(** The services by key; [listeners] are visited in the order they were added. *)
Definition service_index (info appType listen : list promSample)
  : gmap containerKey serviceMapService :=
  finish_service <$> foldl service_listen (foldl service_type (foldl service_info ∅ info) appType) listen.

Definition service_lt (a b : serviceMapService) : bool :=
  if String.eqb (sv_Hostname a) (sv_Hostname b) then str_lt (sv_Name a) (sv_Name b)
  else str_lt (sv_Hostname a) (sv_Hostname b).

Definition services_list (idx : gmap containerKey serviceMapService) : list serviceMapService :=
  sort_by service_lt (visit 0 (map_to_list idx)).*2.
End services.

(** ** Destinations *)

Record resolvedDestination := MkResolved {
  rd_hostname : string;
  rd_instanceID : string;
  rd_service : string;
  rd_container : string;
  rd_ownerInstance : string;
}.

Definition unresolved : resolvedDestination := MkResolved "" "" "" "" "".

(** A service calling itself. *)
Definition skip (r : resolvedDestination) (src : containerKey) : bool :=
  negb (String.eqb (rd_container r) "") && String.eqb (rd_ownerInstance r) src.1
  && String.eqb (rd_container r) src.2.

Inductive listener_match := Exact | Wildcard.
#[global] Instance listener_match_eq_dec : EqDecision listener_match.
Proof. solve_decision. Defined.

(** The first listener of a service on the port that is at the address or at all
    addresses. *)
Fixpoint match_listener (host : string) (port : Z) (ls : list serviceMapListener)
  : option listener_match :=
  match ls with
  | [] => None
  | l :: ls =>
      if negb (l_Port l =? port) then match_listener host port ls
      else
        let lh := Trim (match SplitHostPort (l_Addr l) with Some (h, _) => h | None => "" end) "[]" in
        if String.eqb lh host then Some Exact
        else if match ParseIP lh with Some ip => IsUnspecified ip | None => false end
        then Some Wildcard
        else match_listener host port ls
  end.

Fixpoint unique_go (seen : list string) (l : list serviceMapService) : list serviceMapService :=
  match l with
  | [] => []
  | s :: l =>
      if bool_decide (sv_ContainerID s ∈ seen) then unique_go seen l
      else s :: unique_go (sv_ContainerID s :: seen) l
  end.
Definition uniqueByContainer (l : list serviceMapService) : list serviceMapService := unique_go [] l.

(** The instances that have an address. *)
Definition owners (hosts : gmap string serviceMapHost) (ip : string) : list string :=
  flat_map (λ '(instance, h), map (λ _, instance) (List.filter (String.eqb ip) (h_IPs h)))
    (map_to_list hosts).

Definition resolve (hosts : gmap string serviceMapHost) (services : list serviceMapService)
    (dest : string) : resolvedDestination :=
  match SplitHostPort dest with
  | None => unresolved
  | Some (host, portStr) =>
      let host := Trim host "[]" in
      match Atoi portStr with
      | None => unresolved
      | Some port =>
          let owner := match owners hosts host with [o] => o | _ => "" end in
          match hosts !! owner with
          | None => unresolved
          | Some h =>
              if String.eqb owner "" then unresolved
              else
                let local := List.filter (λ sv, String.eqb (sv_instance sv) owner) services in
                let having m := List.filter
                  (λ sv, bool_decide (match_listener host port (sv_Listeners sv) = m)) local in
                let exact := uniqueByContainer (having (Some Exact)) in
                let pick := match exact with
                            | [] => uniqueByContainer (having (Some Wildcard))
                            | _ => exact
                            end in
                let '(name, container) :=
                  match pick with [sv] => (sv_Name sv, sv_ContainerID sv) | _ => ("", "") end in
                MkResolved (h_Hostname h) (h_InstanceID h) name container owner
          end
      end
  end.

Definition normalizeKind (kind : string) : string :=
  if bool_decide (kind ∈ ["vm"; "private"; "external"; "localhost"]) then kind else "external".

Definition destinationName (dest workloadName : string) : string :=
  let host := match SplitHostPort dest with Some (h, _) => h | None => dest end in
  if negb (String.eqb workloadName "") && negb (String.eqb workloadName host)
     && negb (String.eqb workloadName dest)
  then workloadName
  else if bool_decide (ParseIP (Trim host "[]") = None) && negb (String.eqb host "") then host
  else "".

(** ** Edges *)

(** instance, container, destination, workload kind, workload name, protocol. *)
Definition edgeKey := (string * string * string * string * string * string)%type.
(** instance, container, destination. *)
Definition pairKey := (string * string * string)%type.

Definition key_pair (k : edgeKey) : pairKey := let '(i, c, d, _, _, _) := k in (i, c, d).
Definition sample_pair (s : promSample) : pairKey :=
  (lab s "instance", lab s "container_id", lab s "destination").
Definition sample_key (s : promSample) (protocol : string) : edgeKey :=
  (lab s "instance", lab s "container_id", lab s "destination",
   lab s "destination_workload_kind", lab s "destination_workload_name", protocol).

Definition edgeIdentity (s : promSample) : string :=
  Join [lab s "instance"; lab s "container_id"; lab s "destination";
        lab s "destination_workload_kind"; lab s "destination_workload_name"] (str1 (chr 0)).

(** [out[k] += v]. *)
Definition accumulate {K} `{Countable K} (key : promSample → K) (samples : list promSample)
  : gmap K spec_float :=
  foldl (λ m s, <[key s := fadd (default fzero (m !! key s)) (Value s)]> m) ∅ samples.
Definition sumByContainerPair (samples : list promSample) : gmap pairKey spec_float :=
  accumulate sample_pair samples.
Definition indexByEdge (samples : list promSample) : gmap string spec_float :=
  accumulate edgeIdentity samples.

Notation edge_map := (gmap edgeKey serviceMapEdge) (only parsing).

Definition set_counts (e : serviceMapEdge) (rq er la bs br : spec_float) : serviceMapEdge :=
  MkEdge (e_SourceHost e) (e_SourceInstanceID e) (e_SourceService e) (e_SourceContainer e)
    (e_Destination e) (e_DestinationKind e) (e_DestinationName e) (e_DestinationHost e)
    (e_DestinationInstanceID e) (e_DestinationService e) (e_DestinationContainer e) (e_Protocol e)
    rq er la bs br.
Definition add_requests (v : spec_float) (e : serviceMapEdge) : serviceMapEdge :=
  set_counts e (fadd (e_Requests e) v) (e_Errors e) (e_LatencyMs e) (e_BytesSent e) (e_BytesReceived e).
Definition add_errors (v : spec_float) (e : serviceMapEdge) : serviceMapEdge :=
  set_counts e (e_Requests e) (fadd (e_Errors e) v) (e_LatencyMs e) (e_BytesSent e) (e_BytesReceived e).
Definition set_latency (v : spec_float) (e : serviceMapEdge) : serviceMapEdge :=
  set_counts e (e_Requests e) (e_Errors e) v (e_BytesSent e) (e_BytesReceived e).
Definition set_bytes (sent received : spec_float) (e : serviceMapEdge) : serviceMapEdge :=
  set_counts e (e_Requests e) (e_Errors e) (e_LatencyMs e) sent received.

Section edges.
Context `{MapOrder}.
Variable hosts : gmap string serviceMapHost.
Variable idx : gmap containerKey serviceMapService.
Variable services : list serviceMapService.

Definition new_edge (k : edgeKey) (target : resolvedDestination) : serviceMapEdge :=
  let '(instance, container, dest, kind, name, protocol) := k in
  let h := default empty_host (hosts !! instance) in
  let known := match idx !! (instance, container) with Some sv => sv_Name sv | None => "" end in
  MkEdge (if String.eqb (h_Hostname h) "" then instance else h_Hostname h) (h_InstanceID h)
    (if String.eqb known "" then serviceName container else known) container
    dest (normalizeKind kind) (destinationName dest name)
    (rd_hostname target) (rd_instanceID target) (rd_service target) (rd_container target) protocol
    fzero fzero fzero fzero fzero.

(** [None] when the sample is not an edge. *)
Definition touch (edges : edge_map) (s : promSample) (protocol : string)
  : option (edgeKey * edge_map) :=
  let instance := lab s "instance" in
  let container := lab s "container_id" in
  if negb (isServiceContainer container) then None
  else
    let target := resolve hosts services (lab s "destination") in
    if skip target (instance, container) then None
    else
      let k := sample_key s protocol in
      Some (k, match edges !! k with
               | Some _ => edges
               | None => <[k := new_edge k target]> edges
               end).

(** [if e := touch(s, protocol); e != nil { *e = f( *e) }]. *)
Definition touch_upd (protocol : string) (f : promSample → serviceMapEdge → serviceMapEdge)
    (edges : edge_map) (s : promSample) : edge_map :=
  match touch edges s protocol with
  | Some (k, edges) => alter (f s) k edges
  | None => edges
  end.

Definition positive_value (s : promSample) : bool := negb (SFleb (Value s) fzero).
Definition latency (sums : gmap string spec_float) (s : promSample) : spec_float :=
  fmul (fdiv (default fzero (sums !! edgeIdentity s)) (Value s)) (of_int 1000).

(** Requests of one protocol, with the pairs they cover. *)
Definition l7_request (protocol : string) (st : edge_map * gset pairKey) (s : promSample)
  : edge_map * gset pairKey :=
  let '(edges, covered) := st in
  if negb (positive_value s) then st
  else
    match touch edges s protocol with
    | Some (k, edges) => (alter (add_requests (Value s)) k edges, {[sample_pair s]} ∪ covered)
    | None => st
    end.

Definition add_error_sample (protocol : string) : edge_map → promSample → edge_map :=
  touch_upd protocol (λ s, add_errors (Value s)).

(** The four results of one protocol. *)
Definition l7_protocol (st : edge_map * gset pairKey) (x : string * list (list promSample))
  : edge_map * gset pairKey :=
  let '(protocol, rs) := x in
  let '(edges, covered) := foldl (l7_request protocol) st (nth 0 rs []) in
  let edges := foldl (add_error_sample protocol) edges (nth 1 rs []) in
  let sums := indexByEdge (nth 2 rs []) in
  (foldl (touch_upd protocol (λ s, set_latency (latency sums s))) edges
     (List.filter positive_value (nth 3 rs [])), covered).

(** The results in groups of four, with the protocol each belongs to. *)
Definition l7_results (res : list (list promSample)) : list (string * list (list promSample)) :=
  imap (λ i pr, (l7_name pr, take 4 (drop (11 + i * 4) res))) l7Protocols.

Definition uncovered (covered : gset pairKey) (s : promSample) : bool :=
  positive_value s && negb (bool_decide (sample_pair s ∈ covered)).

(** All edges with their requests, errors and latency. *)
Definition count_edges (res : list (list promSample)) : edge_map :=
  let '(edges, covered) := foldl l7_protocol (∅, ∅) (l7_results res) in
  let edges := foldl (add_error_sample "http") edges (nth 59 res []) in
  let tcpTime := indexByEdge (nth 10 res []) in
  let edges :=
    foldl (touch_upd "tcp" (λ s e, set_latency (latency tcpTime s) (add_requests (Value s) e)))
      edges (List.filter (uncovered covered) (nth 8 res [])) in
  foldl (add_error_sample "tcp") edges (List.filter (uncovered covered) (nth 9 res [])).

(** Per pair, the edge with the most requests; the first one met wins a tie. *)
Definition better (edges : edge_map) (best : gmap pairKey edgeKey) (x : edgeKey * serviceMapEdge)
  : gmap pairKey edgeKey :=
  let '(k, e) := x in
  match best !! key_pair k ≫= λ cur, edges !! cur with
  | Some cur => if SFltb (e_Requests cur) (e_Requests e) then <[key_pair k := k]> best else best
  | None => <[key_pair k := k]> best
  end.

Definition best_edges (edges : edge_map) : gmap pairKey edgeKey :=
  foldl (better edges) ∅ (visit 1 (map_to_list edges)).

Definition assign_bytes (sent received : gmap pairKey spec_float) (edges : edge_map) : edge_map :=
  foldl (λ edges '(pk, k),
           alter (set_bytes (default fzero (sent !! pk)) (default fzero (received !! pk))) k edges)
    edges (visit 2 (map_to_list (best_edges edges))).

Definition finish_edge (e : serviceMapEdge) : serviceMapEdge :=
  set_counts e (wholeCount (e_Requests e)) (wholeCount (e_Errors e)) (e_LatencyMs e)
    (math_Round (e_BytesSent e)) (math_Round (e_BytesReceived e)).

Definition seen_traffic (e : serviceMapEdge) : bool :=
  SFltb fzero (e_Requests e) || SFltb fzero (e_Errors e).

Definition edge_lt (a b : serviceMapEdge) : bool :=
  if negb (SFeqb (e_Requests a) (e_Requests b)) then SFltb (e_Requests b) (e_Requests a)
  else if negb (String.eqb (e_SourceService a) (e_SourceService b))
  then str_lt (e_SourceService a) (e_SourceService b)
  else str_lt (e_Destination a) (e_Destination b).

(** All edges in the order of the answer. *)
Definition edges_list (res : list (list promSample)) : list serviceMapEdge :=
  let edges := assign_bytes (sumByContainerPair (nth 6 res [])) (sumByContainerPair (nth 7 res []))
                 (count_edges res) in
  sort_by edge_lt (List.filter seen_traffic (map finish_edge (visit 3 (map_to_list edges)).*2)).
End edges.

(** ** The answer *)

Record serviceMapResult := MkServiceMap {
  sm_Start : string;
  sm_End : string;
  sm_Hosts : list serviceMapHost;
  sm_Services : list serviceMapService;
  sm_Edges : list serviceMapEdge;
  sm_Truncated : bool;
}.

(** From the results of the queries. *)
Definition assemble `{MapOrder} (start fin : Z) (res : list (list promSample)) : serviceMapResult :=
  let r i := nth i res [] in
  let hosts := byInstance (r 0%nat) (r 1%nat) (r 2%nat) (r 3%nat) in
  let idx := service_index hosts (r 4%nat) (r 5%nat) (r 3%nat) in
  let services := services_list idx in
  let out := edges_list hosts idx services res in
  MkServiceMap (format_rfc3339 start) (format_rfc3339 fin) (hosts_list hosts) services
    (take maxServiceMapEdges out) (maxServiceMapEdges <? length out)%nat.

Definition buildServiceMap `{MapOrder} (nets : nat → network) (p : Proxy) (start fin : Z)
  : result serviceMapResult * list request :=
  let '(res, sent) := queryAll nets p fin (service_queries start fin) in
  (res ← res; Ok (assemble start fin res), sent).

Definition marshal_listener (l : serviceMapListener) : json :=
  JObj [("addr", JStr (l_Addr l)); ("port", JNum (Itoa (l_Port l)))].
Definition marshal_host (h : serviceMapHost) : json :=
  JObj [("instance_id", JStr (h_InstanceID h)); ("hostname", JStr (h_Hostname h));
        ("ips", JArr (map JStr (h_IPs h)));
        ("listeners", JArr (map marshal_listener (h_Listeners h)))].
Definition marshal_service (s : serviceMapService) : json :=
  JObj ([("instance_id", JStr (sv_InstanceID s)); ("hostname", JStr (sv_Hostname s));
         ("container_id", JStr (sv_ContainerID s)); ("name", JStr (sv_Name s));
         ("kind", JStr (sv_Kind s))]
        ++ omit_empty "image" (sv_Image s)
        ++ [("application_types", JArr (map JStr (sv_ApplicationTypes s)));
            ("listeners", JArr (map marshal_listener (sv_Listeners s)))]).

(** [None] when a number is not one JSON can express. *)
Definition marshal_edge (e : serviceMapEdge) : option json :=
  rq ← format_float (e_Requests e); er ← format_float (e_Errors e);
  la ← format_float (e_LatencyMs e); bs ← format_float (e_BytesSent e);
  br ← format_float (e_BytesReceived e);
  Some (JObj ([("source_host", JStr (e_SourceHost e));
               ("source_instance_id", JStr (e_SourceInstanceID e));
               ("source_service", JStr (e_SourceService e));
               ("source_container_id", JStr (e_SourceContainer e));
               ("destination", JStr (e_Destination e));
               ("destination_kind", JStr (e_DestinationKind e));
               ("destination_name", JStr (e_DestinationName e))]
              ++ omit_empty "destination_host" (e_DestinationHost e)
              ++ omit_empty "destination_instance_id" (e_DestinationInstanceID e)
              ++ omit_empty "destination_service" (e_DestinationService e)
              ++ omit_empty "destination_container_id" (e_DestinationContainer e)
              ++ [("protocol", JStr (e_Protocol e)); ("requests", JNum rq); ("errors", JNum er);
                  ("latency_ms", JNum la); ("bytes_sent", JNum bs); ("bytes_received", JNum br)])).

Definition marshal_map (m : serviceMapResult) : option json :=
  edges ← foldr (λ e acc, j ← marshal_edge e; l ← acc; Some (j :: l)) (Some []) (sm_Edges m);
  Some (JObj ([("window", JObj [("start", JStr (sm_Start m)); ("end", JStr (sm_End m))]);
               ("hosts", JArr (map marshal_host (sm_Hosts m)));
               ("services", JArr (map marshal_service (sm_Services m)));
               ("edges", JArr edges)]
              ++ (if sm_Truncated m then [("truncated", JBool true)] else []))).

Definition handleVMServiceMap `{MapOrder} (nets : nat → network) (p : Proxy) (now : Z)
    (req : ActionRequest) : result ActionResponse * list request :=
  match serviceMapRange (req_Params req) now with
  | Err e => (Err e, [])
  | Ok (start, fin) =>
      let '(r, sent) := buildServiceMap nets p start fin in
      (m ← r;
       match marshal_map m with
       | Some j => Ok (MkResponse 200 "" (req_Action req) "" "" (Some j))
       | None => Err (wrapf "encoding service map: " json_error)
       end, sent)
  end.

(** ** Requests to the proxy *)

Definition HandleRequest `{MapOrder} (nets : nat → network) (p : Proxy) (now : Z)
    (req : ActionRequest) : result ActionResponse * list request :=
  if closed p then (Err (errorf "proxy is closed"), [])
  else
    match client p, baseParsed p with
    | Some c, Some base =>
        if String.eqb (req_Action req) ActionVMServiceMap then handleVMServiceMap nets p now req
        else handleHTTP (nets 0%nat) p c base req
    | _, _ => (Err (errorf "http proxy not configured"), [])
    end.
