(* ===== verification/HttpFacts.v ===== *)
(** * HTTP: requests stay at the configured server *)

From S2P Require Import Prelude GoStrings GoFold GoJson GoAny GoTime GoBase64 GoUrl GoUrlFacts NetIP Errors.
From S2P Require Import Registry Http ServiceMap.
From Stdlib Require Import SpecFloat.
#[local] Open Scope Z_scope.

(** ** Where requests go *)

(** The server of the base URL, exactly or as a permitted redirect names it. *)
Definition on_origin (base u : URL) : Prop :=
  Scheme u = Scheme base ∧ Host u = removeEmptyPort (Host base) ∨
  EqualFold (Scheme u) (Scheme base) = true ∧ EqualFold (bare_host u) (bare_host base) = true ∧
  effectivePort u = effectivePort base.

Definition at_origin (base : URL) (q : request) : Prop := on_origin base (hq_URL q).

Lemma checkRedirect_Ok base u via :
  checkRedirect (SameOrigin base) u via = Some (Ok tt) → (via < 10)%nat ∧ on_origin base u.
Proof.
  cbn [checkRedirect]. intros H. apply (inj Some) in H. apply bind_Ok in H as (? & H & H0).
  apply fail_if_Ok in H. apply fail_if_Ok in H0. bool_to_prop. destruct H0 as [[H1 H2] H3]. apply String.eqb_eq in H3.
  split; [lia|right]. done.
Qed.

Lemma do_loop_origin fuel net policy base via q :
  policy = UseLastResponse ∨ policy = SameOrigin base → at_origin base q →
  Forall (at_origin base) (do_loop fuel net policy via q).2.
Proof.
  intros Hp. revert via q. induction fuel as [|fuel IH]; intros via q Hq; cbn [do_loop].
  - destruct (net via q) as [r|e]; [destruct (hr_Redirect r)|]; by constructor.
  - destruct (net via q) as [r|e]; [|by constructor].
    destruct (hr_Redirect r) as [u|]; [|by constructor].
    destruct (checkRedirect policy u (S via)) as [[[]|e]|] eqn:E; [|by constructor..].
    destruct Hp as [-> | ->]; [done|]. apply checkRedirect_Ok in E as [_ Hu].
    specialize (IH (S via) (MkHTTPRequest (hq_Method q) u (hq_Header q) (hq_Body q)) Hu).
    destruct (do_loop fuel net _ (S via) _) as [x sent]. by constructor.
Qed.

(** The bound on redirects is never reached: more rounds change nothing. *)
Lemma do_loop_fuel net policy n m via q :
  (via < 10)%nat → (10 ≤ n + via)%nat → (10 ≤ m + via)%nat →
  do_loop n net policy via q = do_loop m net policy via q.
Proof.
  revert m via q. induction n as [|n IH]; intros [|m] via q Hv Hn Hm; cbn [do_loop]; try lia.
  destruct (net via q) as [r|e]; [|done]. destruct (hr_Redirect r) as [u|]; [|done].
  destruct (checkRedirect policy u (S via)) as [[[]|e]|] eqn:E; [|done..].
  destruct policy as [|base]; [done|]. apply checkRedirect_Ok in E as [Hlt _].
  rewrite (IH m); [done|lia..].
Qed.

(** ** Configured proxies *)

Definition good_proxy (p : Proxy) : Prop :=
  match baseParsed p with
  | None => baseURL p = ""
  | Some base =>
      Parse (baseURL p) = Ok base ∧ web (Scheme base) ∧ Host base ≠ "" ∧
      ∀ c, client p = Some c →
           c_CheckRedirect c = UseLastResponse ∨ c_CheckRedirect c = SameOrigin base
  end.

Section runs.
Context `{TlsLib} `{MapOrder}.

Inductive http_op :=
  | OpConfigure (id : nat) (config : gmap string any) (creds : gmap string string)
  | OpClose.

Definition apply_op (p : Proxy) (o : http_op) : Proxy :=
  match o with
  | OpConfigure id config creds => (Configure p id config creds).1.2
  | OpClose => (Close p).1.2
  end.

Definition run (id : nat) (ops : list http_op) : Proxy := foldl apply_op (New id) ops.

Lemma prepare_good id config creds p : prepare id config creds = Ok p → good_proxy p.
Proof.
  unfold prepare. intros Hp. inv_ok.
  match goal with H : (let '(_, _) := ?x in _) = Ok p |- _ => destruct x as [rootCAs cert] end.
  inv_ok. unfold good_proxy. simpl. split; [done|].
  repeat match goal with H : _ && _ = false |- _ => apply andb_false_iff in H end.
  split_and!.
  - match goal with H : _ ∨ _ |- _ => destruct H as [H|H];
      apply negb_false_iff, String.eqb_eq in H; rewrite H; unfold web; auto end.
  - intros E. match goal with H : String.eqb (Hostname _) "" = false |- _ =>
      unfold Hostname in H; rewrite E in H; discriminate H end.
  - intros c [= <-]. simpl. destruct (default false _); auto.
Qed.

Lemma good_step p o : good_proxy p → good_proxy (apply_op p o).
Proof.
  intros Hp. destruct o as [id config creds|]; simpl.
  - unfold Configure, commit. destruct (prepare id config creds) as [new|e] eqn:E; [|done].
    destruct (closed p); [done|]. by eapply prepare_good.
  - unfold Close. destruct (closed p); [done|]. unfold good_proxy in *. simpl in *.
    destruct (baseParsed p) as [base|]; [|done]. by destruct Hp as (? & ? & ? & _).
Qed.

Lemma run_good id ops : good_proxy (run id ops).
Proof.
  unfold run. assert (good_proxy (New id)) as Hn by done. revert Hn. generalize (New id) as p.
  induction ops as [|o ops IH]; intros p Hp; [done|]. simpl. apply IH. by apply good_step.
Qed.
End runs.

(** ** Requests *)

Lemma target_at_origin base url t m body q :
  web (Scheme base) → Host base ≠ "" →
  resolveTargetURL (Some base) url = Ok t → NewRequest m t body = Ok q → at_origin base q.
Proof.
  intros Hs Hh Ht Hq. unfold resolveTargetURL in Ht. inv_ok. unfold NewRequest in Hq. inv_ok.
  match goal with H : Parse (URL_String ?v) = Ok ?u |- _ =>
    destruct (Parse_URL_String_origin v u Hs eq_refl Hh H) as [E1 E2] end.
  simpl in *. left. simpl. by rewrite E1, E2.
Qed.

Lemma injectAuthWith_URL q a cr : hq_URL (injectAuthWith q a cr) = hq_URL q.
Proof. unfold injectAuthWith. by repeat case_match. Qed.

Lemma Do_origin net c base q :
  c_CheckRedirect c = UseLastResponse ∨ c_CheckRedirect c = SameOrigin base → at_origin base q →
  Forall (at_origin base) (Do net c q).2.
Proof. intros Hc Hq. unfold Do. by apply do_loop_origin. Qed.

(** The requests of an operation are those of its one exchange. *)
Ltac sent_by_Do :=
  match goal with |- context [Do ?net ?c ?q'] =>
    pose proof (Do_origin net c _ q' ltac:(eassumption)
                  ltac:(unfold at_origin; rewrite injectAuthWith_URL; eassumption));
    destruct (Do net c q') as [[?|?] ?] end.

Definition good_base (base : URL) (c : Client) : Prop :=
  web (Scheme base) ∧ Host base ≠ "" ∧
  (c_CheckRedirect c = UseLastResponse ∨ c_CheckRedirect c = SameOrigin base).

Lemma handleHTTP_origin net p c base req :
  good_base base c → Forall (at_origin base) (handleHTTP net p c base req).2.
Proof.
  intros (Hs & Hh & Hc). unfold handleHTTP.
  destruct (_ ≫= _) as [q|e] eqn:E; [|constructor]. inv_ok.
  match goal with H : resolveTargetURL _ _ = Ok _, H' : NewRequest _ _ _ = Ok q |- _ =>
    pose proof (target_at_origin _ _ _ _ _ _ Hs Hh H H') as Hq end.
  by sent_by_Do.
Qed.

Lemma instantQuery_origin net p c base promql at_ :
  good_base base c → client p = Some c → baseParsed p = Some base →
  Forall (at_origin base) (instantQuery net p promql at_).2.
Proof.
  intros (Hs & Hh & Hc) Ec Eb. unfold instantQuery. rewrite Ec, Eb.
  destruct (_ ≫= _) as [q|e] eqn:E; [|constructor]. inv_ok.
  match goal with H : resolveTargetURL _ _ = Ok _, H' : NewRequest _ _ _ = Ok q |- _ =>
    pose proof (target_at_origin _ _ _ _ _ _ Hs Hh H H') as Hq end.
  by sent_by_Do.
Qed.

Lemma queryAll_origin nets p c base at_ queries :
  good_base base c → client p = Some c → baseParsed p = Some base →
  Forall (at_origin base) (queryAll nets p at_ queries).2.
Proof.
  intros Hg Ec Eb. unfold queryAll. cbn [snd]. apply Forall_concat, Forall_forall.
  intros l (x & -> & (i & q & -> & _)%elem_of_lookup_imap)%list_elem_of_fmap.
  by eapply instantQuery_origin.
Qed.

Lemma handleVMServiceMap_origin `{MapOrder} nets p c base now req :
  good_base base c → client p = Some c → baseParsed p = Some base →
  Forall (at_origin base) (handleVMServiceMap nets p now req).2.
Proof.
  intros Hg Ec Eb. unfold handleVMServiceMap.
  destruct (serviceMapRange _ _) as [[start fin]|e]; [|constructor]. unfold buildServiceMap.
  pose proof (queryAll_origin nets p c base fin (service_queries start fin) Hg Ec Eb) as HF.
  by destruct (queryAll nets p fin _).
Qed.

Lemma get_status_target net p c base url t :
  good_base base c → resolveTargetURL (Some base) url = Ok t →
  Forall (at_origin base) (get_status net p c t).2.
Proof.
  intros (Hs & Hh & Hc) Ht. unfold get_status.
  destruct (NewRequest "GET" t "") as [q|e] eqn:E; [|constructor].
  pose proof (target_at_origin _ _ _ _ _ _ Hs Hh Ht E) as Hq.
  by sent_by_Do.
Qed.

Lemma prometheus_origin net p c base paths lastErr :
  good_base base c → baseParsed p = Some base →
  Forall (at_origin base) (prometheus_loop net p c paths lastErr).2.
Proof.
  intros Hg Eb. revert lastErr. induction paths as [|path paths IH]; intros lastErr; [constructor|].
  cbn [prometheus_loop]. rewrite Eb.
  destruct (resolveTargetURL (Some base) path) as [t|e] eqn:Et; [|constructor].
  pose proof (get_status_target net p c base path t Hg Et) as HF.
  destruct (get_status net p c t) as [[status|e] sent]; [|done]. simpl in HF.
  destruct (_ && _); [done|].
  match goal with |- context [prometheus_loop net p c paths ?l] =>
    specialize (IH l); destruct (prometheus_loop net p c paths l) as [r sent'] end.
  apply Forall_app. done.
Qed.

Lemma HealthCheck_origin net p c base :
  good_base base c → client p = Some c → baseParsed p = Some base → Parse (baseURL p) = Ok base →
  Forall (at_origin base) (HealthCheck net p).2.
Proof.
  intros Hg Ec Eb Ep. unfold HealthCheck. destruct (closed p); [constructor|]. rewrite Ec.
  destruct (String.eqb (baseURL p) ""); [constructor|].
  destruct (String.eqb (dsType p) "prometheus"); [by apply prometheus_origin|].
  destruct (get_status net p c (baseURL p)) as [r sent] eqn:E. simpl.
  change sent with ((r, sent).2). rewrite <- E. unfold get_status, NewRequest. rewrite Ep. simpl.
  destruct Hg as (Hs & Hh & Hc).
  match goal with |- context [injectAuthWith ?q'] => assert (at_origin base q') as Hq by (by left) end.
  by sent_by_Do.
Qed.

(** C7. Whatever the control plane asks for and however upstream servers redirect,
    every HTTP request that a proxy makes (for a request, a service map or a health
    check) goes to the scheme and host of its configured base URL, or to what a
    permitted redirect names: the same scheme, host and port up to letter case (as
    [strings.EqualFold] folds it), a trailing dot and the default port. *)
Theorem http_stays_on_origin `{TlsLib, MapOrder} id ops nets now req :
  Forall (λ q, ∃ base, Parse (baseURL (run id ops)) = Ok base ∧ on_origin base (hq_URL q))
    ((HandleRequest nets (run id ops) now req).2 ++ (HealthCheck (nets 0%nat) (run id ops)).2).
Proof.
  pose proof (run_good id ops) as Hg. set (p := run id ops) in *.
  destruct (client p) as [c|] eqn:Ec.
  2: { unfold HandleRequest, HealthCheck. rewrite Ec. destruct (closed p); constructor. }
  destruct (baseParsed p) as [base|] eqn:Eb.
  2: { unfold HandleRequest, HealthCheck. rewrite Ec, Eb. unfold good_proxy in Hg.
       rewrite Eb in Hg. rewrite Hg. destruct (closed p); constructor. }
  unfold good_proxy in Hg. rewrite Eb in Hg. destruct Hg as (Ep & Hs & Hh & Hc).
  assert (good_base base c) as Hb by (split_and!; auto).
  apply (Forall_impl (at_origin base)); [|by intros q Hq; exists base].
  apply Forall_app. split; [|by eapply HealthCheck_origin].
  unfold HandleRequest. rewrite Ec, Eb. destruct (closed p); [constructor|].
  destruct (String.eqb _ _); [by eapply handleVMServiceMap_origin|by apply handleHTTP_origin].
Qed.

(** ** Responses *)

Lemma str_take_length n s : (n ≤ String.length s)%nat → String.length (str_take n s) = n.
Proof.
  revert s. induction n as [|n IH]; intros [|c s] Hn; simpl in *; [done..|lia|].
  by rewrite IH by lia.
Qed.

Definition whole_answer (r : response) : ActionResponse :=
  MkResponse 200 "" "" "" (json_print (JObj [
    ("body", JStr (EncodeToString (hr_Body r)));
    ("header", marshal_header (hr_Header r));
    ("status_code", JNum (Itoa (hr_StatusCode r)))])) None.

(** An upstream response is passed on whole or not at all: the answer carries
    the complete body exactly if that was read without error and is no longer than
    max_response_bytes, up to the largest limit an int64 can express. *)
Theorem http_response_whole max r a :
  0 ≤ max ≤ maxInt64 → Z.of_nat (String.length (hr_Body r)) < maxInt64 →
  readResponse max r = Ok a ↔
  Z.of_nat (String.length (hr_Body r)) ≤ max ∧ hr_BodyError r = None ∧ a = whole_answer r.
Proof.
  intros Hmax Hlen. unfold readResponse, read_limited, read_limit.
  destruct (Z.ltb_spec max maxInt64) as [Hlt|Hge].
  - destruct (Z.ltb_spec (Z.of_nat (String.length (hr_Body r))) (max + 1)) as [Hl|Hl].
    + destruct (hr_BodyError r) as [e|]; [naive_solver|]. cbn [wrap_err mbind result_bind].
      destruct (Z.ltb_spec max (Z.of_nat (String.length (hr_Body r)))); [lia|].
      cbn [fail_if mbind result_bind]. split; [intros [= <-]; split_and!; [lia|done..]|].
      by intros (_ & _ & ->).
    + cbn [wrap_err mbind result_bind]. rewrite str_take_length by lia.
      destruct (Z.ltb_spec max (Z.of_nat (Z.to_nat (max + 1)))); [|lia].
      split; [done|]. lia.
  - destruct (Z.ltb_spec (Z.of_nat (String.length (hr_Body r))) max); [|lia].
    destruct (hr_BodyError r) as [e|]; [naive_solver|]. cbn [wrap_err mbind result_bind].
    destruct (Z.ltb_spec max (Z.of_nat (String.length (hr_Body r)))); [lia|].
    cbn [fail_if mbind result_bind]. split; [intros [= <-]; split_and!; [lia|done..]|].
    by intros (_ & _ & ->).
Qed.

(** ** A store behind a path *)

#[local] Instance demo_tls : TlsLib := {| AppendCertsFromPEM _ := true; X509KeyPair _ _ := Ok tt |}.

Definition demo_config : gmap string any :=
  <["base_url" := AStr "https://prom.internal:9090/base/"]> (<["follow_redirects" := ABool true]> ∅).
Definition demo_run : Proxy := Eval vm_compute in run 1%nat [OpConfigure 2%nat demo_config ∅].

Definition demo_base : option URL := Eval vm_compute in baseParsed demo_run.

Definition targets (url : string) : result string := resolveTargetURL demo_base url.

(** Paths are appended to the base path; other hosts are refused. *)
Example target_path : targets "/api/v1/query?query=up" = Ok "https://prom.internal:9090/base/api/v1/query?query=up".
Proof. vm_compute. reflexivity. Qed.
Example target_userinfo : targets "@evil.com/x" = Ok "https://prom.internal:9090/base/@evil.com/x".
Proof. vm_compute. reflexivity. Qed.
Example target_other_host : is_ok (targets "//evil.com/x") = false.
Proof. vm_compute. reflexivity. Qed.
(** An encoded slash is decoded and written as a plain one. *)
Example target_decodes_slash :
  targets "/projects/group%2Fname" = Ok "https://prom.internal:9090/base/projects/group/name".
Proof. vm_compute. reflexivity. Qed.

Definition page (redirect : option string) : response :=
  MkHTTPResponse (match redirect with Some _ => 302 | None => 200 end) ∅ "ok" None
    (match redirect with
     | Some u => match Parse u with Ok u => Some u | Err _ => None end
     | None => None
     end).

Definition demo_net (redirect : string) : nat → network := λ _ n _,
  inl (page (if (n =? 0)%nat then Some redirect else None)).

Definition demo_get : ActionRequest := MkRequest "r" "d" "http_request" ∅ "GET" "/x" ∅ "".

(** A redirect within the server is followed, one to another host is not. *)
Example redirect_inside :
  map (λ q, URL_String (hq_URL q))
    (handleHTTP (demo_net "https://PROM.internal.:9090/y" 0%nat) demo_run
       (default (MkClient 0 None UseLastResponse) (client demo_run))
       (default (MkURL "" "" None "" "" "" false false "" "" "") demo_base) demo_get).2
  = ["https://prom.internal:9090/base/x"; "https://PROM.internal.:9090/y"].
Proof. vm_compute. reflexivity. Qed.
Example redirect_outside :
  map (λ q, URL_String (hq_URL q))
    (handleHTTP (demo_net "https://evil.com:9090/y" 0%nat) demo_run
       (default (MkClient 0 None UseLastResponse) (client demo_run))
       (default (MkURL "" "" None "" "" "" false false "" "" "") demo_base) demo_get).2
  = ["https://prom.internal:9090/base/x"].
Proof. vm_compute. reflexivity. Qed.

Lemma http_response_whole_witness :
  readResponse maxInt64 (page None) = Ok (whole_answer (page None)).
Proof.
  apply (http_response_whole maxInt64 (page None) (whole_answer (page None))).
  - vm_compute. split; discriminate.
  - vm_compute. reflexivity.
  - split; [vm_compute; discriminate|]. split; reflexivity.
Defined.
