(* ===== verification/ServiceMapFacts.v ===== *)
(** * The service map: counts, bytes and order of its edges *)

From S2P Require Import Prelude GoStrings GoJson GoAny GoTime GoUrl NetIP Errors Registry Http ServiceMap.
From Stdlib Require Import SpecFloat.
From Stdlib Require Structures.OrdersEx.
#[local] Open Scope Z_scope.

(** ** The order of float64 *)

(** Sign, exponent and mantissa, in the order that [SFcompare] goes by. *)
Definition rank (f : spec_float) : Z * Z * Z :=
  match f with
  | S754_zero _ | S754_nan => (0, 0, 0)
  | S754_infinity s => (if s then -2 else 2, 0, 0)
  | S754_finite false m e => (1, e, Z.pos m)
  | S754_finite true m e => (-1, - e, Z.neg m)
  end.

Definition lex (a b : Z * Z * Z) : Prop :=
  let '(x, y, z) := a in let '(x', y', z') := b in
  x < x' ∨ x = x' ∧ (y < y' ∨ y = y' ∧ z < z').

Definition is_nan (f : spec_float) : bool := match f with S754_nan => true | _ => false end.

Lemma SFltb_rank a b :
  is_nan a = false → is_nan b = false → SFltb a b = true ↔ lex (rank a) (rank b).
Proof.
  intros Ha Hb. unfold SFltb, SFcompare, lex, rank.
  destruct a as [sa|sa| |[] ma ea], b as [sb|sb| |[] mb eb]; try done;
    try destruct sa; try destruct sb; try (split; [done|lia]); try (split; [lia|done]).
  all: destruct (Z.compare_spec ea eb) as [-> |Hlt|Hlt]; try (split; [done|lia]); try (split; [lia|done]).
  all: change (Pos.compare_cont Eq ma mb) with (Pos.compare ma mb);
    destruct (Pos.compare_spec ma mb); subst; cbn [CompOpp]; split; (done || lia).
Qed.

Lemma SFeqb_rank a b :
  is_nan a = false → is_nan b = false → SFeqb a b = true ↔ rank a = rank b.
Proof.
  intros Ha Hb. unfold SFeqb, SFcompare, rank.
  destruct a as [sa|sa| |[] ma ea], b as [sb|sb| |[] mb eb]; try done;
    try destruct sa; try destruct sb; try (by split; [done|intros [=]]).
  all: destruct (Z.compare_spec ea eb) as [-> |Hlt|Hlt]; try (split; [done|intros [=]; lia]).
  all: change (Pos.compare_cont Eq ma mb) with (Pos.compare ma mb);
    destruct (Pos.compare_spec ma mb); subst; cbn [CompOpp]; split; (done || intros [=]; subst; lia).
Qed.

(** Counts are never NaN. *)
Lemma wholeCount_not_nan v : is_nan (wholeCount v) = false.
Proof.
  unfold wholeCount. destruct (SFleb v fzero); [done|].
  destruct (SFleb (of_int 1) (math_Round v)) eqn:E; [|by vm_compute].
  by destruct (math_Round v).
Qed.

(** ** Sorting *)

Section sorting.
Context {A} (lt : A → A → bool) (P : A → Prop).
(** [lt] is a strict weak order on the elements concerned. *)
Hypothesis lt_asym : ∀ x y, P x → P y → lt x y = true → lt y x = false.
Hypothesis lt_cotrans : ∀ x y z, P x → P y → P z → lt z x = true → lt z y = true ∨ lt y x = true.

Lemma sorted_insert_perm x l : sorted_insert lt x l ≡ₚ x :: l.
Proof.
  induction l as [|y l IH]; [done|]. simpl. destruct (lt y x); [|done]. rewrite IH. by constructor.
Qed.

Lemma sort_by_perm l : sort_by lt l ≡ₚ l.
Proof. induction l as [|x l IH]; [done|]. simpl. by rewrite sorted_insert_perm, IH. Qed.

Lemma sorted_insert_sorted x l :
  P x → Forall P l → StronglySorted (λ a b, lt b a = false) l →
  StronglySorted (λ a b, lt b a = false) (sorted_insert lt x l).
Proof.
  intros Hx Hl Hs. induction Hs as [|y l Hs IH Hy]; simpl; [by repeat constructor|].
  apply Forall_cons in Hl as [Py Hl]. destruct (lt y x) eqn:E.
  - constructor; [by apply IH|]. rewrite (sorted_insert_perm x l). constructor; [|done].
    by apply lt_asym.
  - constructor; [by constructor|]. constructor; [done|].
    rewrite Forall_forall in Hy, Hl |- *. intros z Hz. destruct (lt z x) eqn:Ez; [|done].
    destruct (lt_cotrans x y z) as [H|H]; auto; [|congruence]. by rewrite Hy in H.
Qed.

Lemma sort_by_sorted l : Forall P l → StronglySorted (λ a b, lt b a = false) (sort_by lt l).
Proof.
  induction 1 as [|x l Hx Hl IH]; [constructor|]. simpl. apply sorted_insert_sorted; [done| |done].
  by rewrite sort_by_perm.
Qed.
End sorting.

Lemma lex_total a b : lex a b ∨ a = b ∨ lex b a.
Proof.
  destruct a as [[x y] z], b as [[x' y'] z']. unfold lex.
  destruct (Z.lt_trichotomy x x') as [|[-> |]]; [auto| |auto].
  destruct (Z.lt_trichotomy y y') as [|[-> |]]; [auto| |auto 6].
  destruct (Z.lt_trichotomy z z') as [|[-> |]]; auto 8.
Qed.
Lemma lex_trans a b c : lex a b → lex b c → lex a c.
Proof. destruct a as [[]], b as [[]], c as [[]]. unfold lex. lia. Qed.
Lemma lex_irrefl a : ¬ lex a a.
Proof. destruct a as [[]]. unfold lex. lia. Qed.

Lemma str_lt_total a b : str_lt a b = true ∨ a = b ∨ str_lt b a = true.
Proof.
  unfold str_lt. rewrite (String.compare_antisym b a).
  destruct (String.compare a b) eqn:E; simpl; [|auto..].
  right. left. by apply String.compare_eq_iff.
Qed.
Lemma str_lt_irrefl a : str_lt a a = false.
Proof.
  unfold str_lt. pose proof (String.compare_antisym a a) as H.
  by destruct (String.compare a a).
Qed.
Lemma str_lt_iff a b : str_lt a b = true ↔ OrdersEx.String_as_OT.lt a b.
Proof.
  unfold str_lt. pose proof (OrdersEx.String_as_OT.compare_spec a b) as H.
  change (OrdersEx.String_as_OT.compare a b) with (String.compare a b) in H.
  pose proof (StrictOrder_Irreflexive (R := OrdersEx.String_as_OT.lt)) as Hi.
  destruct (String.compare a b); inversion H as [E|H'|H']; split; try done.
  - intros Hl. destruct (Hi a). by rewrite E in Hl |- *.
  - intros Hl. destruct (Hi a). by etransitivity.
Qed.
Lemma str_lt_trans a b c : str_lt a b = true → str_lt b c = true → str_lt a c = true.
Proof. rewrite !str_lt_iff. apply StrictOrder_Transitive. Qed.

(** Edges by falling requests, then by source and destination. *)
Definition edge_order (a b : serviceMapEdge) : Prop :=
  lex (rank (e_Requests b)) (rank (e_Requests a)) ∨
  rank (e_Requests a) = rank (e_Requests b) ∧
  (str_lt (e_SourceService a) (e_SourceService b) = true ∨
   e_SourceService a = e_SourceService b ∧ str_lt (e_Destination a) (e_Destination b) = true).

Definition counted (e : serviceMapEdge) : Prop := is_nan (e_Requests e) = false.

Lemma edge_lt_order a b : counted a → counted b → edge_lt a b = true ↔ edge_order a b.
Proof.
  intros Ha Hb. unfold edge_lt, edge_order.
  pose proof (SFeqb_rank _ _ Ha Hb) as He. pose proof (SFltb_rank _ _ Hb Ha) as Hl.
  destruct (SFeqb (e_Requests a) (e_Requests b)) eqn:E; simpl.
  - assert (rank (e_Requests a) = rank (e_Requests b)) as Er by (by apply He).
    destruct (String.eqb_spec (e_SourceService a) (e_SourceService b)) as [Es|Es]; simpl;
      rewrite Er; pose proof (lex_irrefl (rank (e_Requests b))).
    + rewrite Es, str_lt_irrefl. naive_solver.
    + naive_solver.
  - assert (rank (e_Requests a) ≠ rank (e_Requests b)) by (intros ?%He; done). naive_solver.
Qed.

Lemma edge_lt_asym a b : counted a → counted b → edge_lt a b = true → edge_lt b a = false.
Proof.
  intros Ha Hb H%edge_lt_order; [|done..]. apply not_true_iff_false. rewrite edge_lt_order by done.
  unfold edge_order in *. intros H'.
  assert (∀ x y, str_lt x y = true → str_lt y x = true → False) as Hs.
  { intros x y H1 H2. pose proof (str_lt_trans _ _ _ H1 H2) as H3. by rewrite str_lt_irrefl in H3. }
  assert (∀ x y, lex x y → lex y x → False) as Hx.
  { intros x y H1 H2. by apply (lex_irrefl x), (lex_trans _ y). }
  destruct H as [H|[E [H|[E2 H]]]], H' as [H'|[E' [H'|[E2' H']]]]; eauto;
    rewrite ?E, ?E', ?E2, ?E2' in *; try (by eapply lex_irrefl); try (by rewrite str_lt_irrefl in *); eauto.
Qed.

Lemma edge_lt_cotrans a b c :
  counted a → counted b → counted c → edge_lt c a = true → edge_lt c b = true ∨ edge_lt b a = true.
Proof.
  intros Ha Hb Hc. rewrite !edge_lt_order by done. unfold edge_order.
  destruct (lex_total (rank (e_Requests b)) (rank (e_Requests c))) as [H|[E|H]]; [auto| |].
  - rewrite E. intros [H|[E' H]]; [auto|]. rewrite E'.
    destruct (str_lt_total (e_SourceService c) (e_SourceService b)) as [H'|[E2|H']]; [auto| |].
    + rewrite E2 in *. destruct H as [H|[E3 H]]; [auto|]. rewrite E3.
      destruct (str_lt_total (e_Destination c) (e_Destination b)) as [H'|[E4|H']]; [auto 6| |].
      * rewrite E4 in *. auto 6.
      * right. right. split; [done|]. right. split; [done|]. by eapply str_lt_trans.
    + right. right. split; [done|]. left. destruct H as [H|[<- H]]; [by eapply str_lt_trans|done].
  - intros [H'|[E' _]]; right; left; [by eapply lex_trans|]. by rewrite <- E'.
Qed.

(** ** Counting *)

Definition key_protocol (k : edgeKey) : string := k.2.

(** The float64 sum of the samples that belong to an edge, in their order. *)
Definition belongs (k : edgeKey) (s : promSample) : bool :=
  bool_decide (sample_key s (key_protocol k) = k).
Definition total (k : edgeKey) (samples : list promSample) : spec_float :=
  foldl fadd fzero (map Value (List.filter (belongs k) samples)).

Section counting.
Context `{MapOrder} (hosts : gmap string serviceMapHost).
Context (idx : gmap containerKey serviceMapService) (services : list serviceMapService).

(** A service container that does not call itself. *)
Definition admissible (p : pairKey) : bool :=
  let '(instance, container, dest) := p in
  isServiceContainer container && negb (skip (resolve hosts services dest) (instance, container)).

Definition requests (m : edge_map) (k : edgeKey) : spec_float :=
  match m !! k with Some e => e_Requests e | None => fzero end.

Lemma key_pair_sample s pr : key_pair (sample_key s pr) = sample_pair s.
Proof. done. Qed.

Definition ensure (m : edge_map) (k : edgeKey) (e : serviceMapEdge) : edge_map :=
  match m !! k with Some _ => m | None => <[k := e]> m end.

Lemma ensure_lookup m k e k' :
  ensure m k e !! k' =
  if bool_decide (k = k') then Some (default e (m !! k)) else m !! k'.
Proof.
  unfold ensure. case_bool_decide as Hk.
  - subst k'. destruct (m !! k) eqn:E; [done|]. by rewrite lookup_insert_eq.
  - destruct (m !! k); [done|]. by rewrite lookup_insert_ne.
Qed.

Definition fresh_edge (s : promSample) (pr : string) : serviceMapEdge :=
  new_edge hosts idx (sample_key s pr) (resolve hosts services (lab s "destination")).

Lemma touch_spec m s pr :
  touch hosts idx services m s pr =
  if admissible (sample_pair s)
  then Some (sample_key s pr, ensure m (sample_key s pr) (fresh_edge s pr)) else None.
Proof.
  unfold touch, admissible, sample_pair. destruct (isServiceContainer _); [|done]. simpl.
  by destruct (skip _ _).
Qed.

(** One sample seen as an update of one edge. *)
Lemma touch_upd_lookup pr f m s k :
  touch_upd hosts idx services pr f m s !! k =
  if admissible (sample_pair s) && bool_decide (sample_key s pr = k)
  then Some (f s (default (fresh_edge s pr) (m !! k))) else m !! k.
Proof.
  unfold touch_upd. rewrite touch_spec. destruct (admissible _); [|done]. simpl.
  case_bool_decide as Hk.
  - subst k. rewrite lookup_alter_eq, ensure_lookup, bool_decide_eq_true_2 by done. done.
  - rewrite lookup_alter_ne, ensure_lookup, bool_decide_eq_false_2 by done. done.
Qed.

(** Effect of one sample on the count of an edge. *)
Lemma touch_upd_requests pr f m s k g :
  (∀ e, e_Requests (f s e) = g (e_Requests e)) →
  requests (touch_upd hosts idx services pr f m s) k =
  if admissible (sample_pair s) && bool_decide (sample_key s pr = k)
  then g (requests m k) else requests m k.
Proof.
  intros Hf. unfold requests. rewrite touch_upd_lookup. destruct (_ && _); [|done].
  rewrite Hf. by destruct (m !! k).
Qed.

Lemma fold_requests_keep pr f m l k :
  (∀ s e, e_Requests (f s e) = e_Requests e) →
  requests (foldl (touch_upd hosts idx services pr f) m l) k = requests m k.
Proof.
  intros Hf. revert m. induction l as [|s l IH]; intros m; [done|]. simpl.
  rewrite IH, (touch_upd_requests _ _ _ _ _ id) by done. by destruct (_ && _).
Qed.

Definition adds (f : promSample → serviceMapEdge → serviceMapEdge) : Prop :=
  ∀ s e, e_Requests (f s e) = fadd (e_Requests e) (Value s).

Definition matching (k : edgeKey) (pr : string) (l : list promSample) : list promSample :=
  List.filter (λ s, bool_decide (sample_key s pr = k)) l.

Lemma fold_requests_add pr f m l k :
  adds f → admissible (key_pair k) = true →
  requests (foldl (touch_upd hosts idx services pr f) m l) k =
  foldl fadd (requests m k) (map Value (matching k pr l)).
Proof.
  intros Hf Hk. revert m. induction l as [|s l IH]; intros m; [done|]. simpl.
  rewrite IH, (touch_upd_requests _ _ _ _ _ (λ v, fadd v (Value s))) by (intros; apply Hf).
  case_bool_decide as E; [|by rewrite andb_false_r].
  rewrite <- (key_pair_sample s pr), E, Hk. done.
Qed.

(** Samples of containers that are left out make no edge. *)
Lemma touch_upd_dom pr f m s k :
  is_Some (touch_upd hosts idx services pr f m s !! k) →
  is_Some (m !! k) ∨ admissible (key_pair k) = true.
Proof.
  rewrite touch_upd_lookup. destruct (admissible (sample_pair s)) eqn:Ea; simpl; [|by left].
  case_bool_decide as Hk; [|by left]. right. by rewrite <- Hk.
Qed.

(** *** One protocol *)

Definition covers (l : list promSample) (p : pairKey) : Prop :=
  ∃ s, s ∈ l ∧ positive_value s = true ∧ admissible (sample_pair s) = true ∧ sample_pair s = p.

Lemma l7_request_spec pr l st :
  (foldl (l7_request hosts idx services pr) st l).1 =
    foldl (touch_upd hosts idx services pr (λ s, add_requests (Value s))) st.1
      (List.filter positive_value l) ∧
  (∀ p, p ∈ (foldl (l7_request hosts idx services pr) st l).2 ↔ p ∈ st.2 ∨ covers l p).
Proof.
  revert st. induction l as [|s l IH]; intros [m C].
  { split; [done|]. intros p. unfold covers. simpl. split; [auto|]. intros [?|(s & Hs & _)]; [done|].
    by apply not_elem_of_nil in Hs. }
  cbn [foldl]. destruct (IH (l7_request hosts idx services pr (m, C) s)) as [IH1 IH2].
  rewrite IH1. simpl. clear IH IH1.
  assert (∀ p, covers (s :: l) p ↔
               positive_value s && admissible (sample_pair s) = true ∧ sample_pair s = p ∨ covers l p) as Hc.
  { intros p. unfold covers. rewrite andb_true_iff. split.
    - intros (x & [-> |Hx]%elem_of_cons & ?); [left|right]; naive_solver.
    - intros [[[? ?] ?]|(x & ? & ?)]; [exists s|exists x]; rewrite elem_of_cons; naive_solver. }
  setoid_rewrite IH2. setoid_rewrite Hc. clear IH2 Hc. unfold l7_request.
  destruct (positive_value s) eqn:Ep; simpl; [|naive_solver].
  unfold touch_upd. rewrite touch_spec. destruct (admissible (sample_pair s)) eqn:Ea; simpl.
  - split; [done|]. intros p. rewrite elem_of_union, elem_of_singleton. naive_solver.
  - split; [done|]. intros p. split; [tauto|]. intros [?|[[Hx _]|?]]; [auto| |auto].
    change (admissible (sample_pair s) = true) in Hx. congruence.
Qed.

Lemma l7_protocol_requests st x k :
  admissible (key_pair k) = true →
  requests (l7_protocol hosts idx services st x).1 k =
  foldl fadd (requests st.1 k)
    (map Value (matching k x.1 (List.filter positive_value (nth 0 x.2 [])))).
Proof.
  intros Hk. destruct x as [pr rs]. unfold l7_protocol.
  destruct (l7_request_spec pr (nth 0 rs []) st) as [E _].
  destruct (foldl (l7_request _ _ _ pr) st _) as [m C]. cbn [fst] in *.
  unfold add_error_sample. rewrite !fold_requests_keep by done. rewrite E.
  by rewrite fold_requests_add.
Qed.

Lemma l7_protocol_covered st x p :
  p ∈ (l7_protocol hosts idx services st x).2 ↔ p ∈ st.2 ∨ covers (nth 0 x.2 []) p.
Proof.
  destruct x as [pr rs]. unfold l7_protocol.
  destruct (l7_request_spec pr (nth 0 rs []) st) as [_ E].
  destruct (foldl (l7_request _ _ _ pr) st _) as [m C]. apply E.
Qed.

(** *** All protocols *)

Lemma l7_fold_requests L st k :
  admissible (key_pair k) = true →
  requests (foldl (l7_protocol hosts idx services) st L).1 k =
  foldl fadd (requests st.1 k)
    (map Value (flat_map (λ x, matching k x.1 (List.filter positive_value (nth 0 x.2 []))) L)).
Proof.
  intros Hk. revert st. induction L as [|x L IH]; intros st; [done|]. cbn [foldl flat_map].
  by rewrite IH, l7_protocol_requests, map_app, foldl_app by done.
Qed.

Lemma l7_fold_covered L st p :
  p ∈ (foldl (l7_protocol hosts idx services) st L).2 ↔
  p ∈ st.2 ∨ Exists (λ x, covers (nth 0 x.2 []) p) L.
Proof.
  revert st. induction L as [|x L IH]; intros st; cbn [foldl]; [rewrite Exists_nil; naive_solver|].
  rewrite IH, l7_protocol_covered, Exists_cons. naive_solver.
Qed.

Lemma matching_other k pr l : pr ≠ key_protocol k → matching k pr l = [].
Proof.
  intros Hp. apply filter_none, Forall_true. intros s. apply bool_decide_eq_false_2.
  intros <-. by destruct Hp.
Qed.

Lemma matching_own k l : matching k (key_protocol k) l = List.filter (belongs k) l.
Proof. done. Qed.

(** The request samples of a protocol are those of its first query. *)
Lemma nth_take_drop {A} (l : list A) n d : nth 0 (take 4 (drop n l)) d = nth n l d.
Proof.
  revert n. induction l as [|x l IH]; intros [|n]; try done. simpl. apply IH.
Qed.
End counting.

Lemma flat_map_only {A B} (f : A → list B) l i x :
  l !! i = Some x → (∀ j y, l !! j = Some y → j ≠ i → f y = []) → flat_map f l = f x.
Proof.
  revert i. induction l as [|y l IH]; intros i Hi Hf; [done|].
  assert (∀ l' : list A, (∀ j z, l' !! j = Some z → f z = []) → flat_map f l' = []) as Hnil.
  { induction l' as [|z l' IH']; intros Hz; [done|]. simpl. rewrite (Hz 0%nat z) by done.
    apply IH'. intros j w. apply (Hz (S j) w). }
  destruct i as [|i]; simpl in *.
  - injection Hi as ->. rewrite Hnil; [apply List.app_nil_r|]. intros j z Hz.
    by apply (Hf (S j) z).
  - rewrite (Hf 0%nat y) by done. apply (IH i); [done|]. intros j z Hz Hj.
    apply (Hf (S j) z); [done|lia].
Qed.

Lemma l7_names_distinct : NoDup (map l7_name l7Protocols).
Proof. apply (bool_decide_unpack _). vm_compute. exact I. Qed.

Lemma l7_not_tcp : Forall (λ pr, l7_name pr ≠ "tcp") l7Protocols.
Proof. apply (bool_decide_unpack _). vm_compute. exact I. Qed.

(** Some application protocol was seen on a pair. *)
Definition l7_seen (res : list (list promSample)) (p : pairKey) : Prop :=
  ∃ i pr s, l7Protocols !! i = Some pr ∧ s ∈ nth (11 + i * 4) res [] ∧
            positive_value s = true ∧ sample_pair s = p.

Section all_edges.
Context (hosts : gmap string serviceMapHost).
Context (idx : gmap containerKey serviceMapService) (services : list serviceMapService).

Lemma l7_results_lookup res i x :
  l7_results res !! i = Some x ↔
  ∃ pr, l7Protocols !! i = Some pr ∧ x = (l7_name pr, take 4 (drop (11 + i * 4) res)).
Proof. unfold l7_results. rewrite list_lookup_imap, fmap_Some. done. Qed.

(** The samples of an edge come from one query. *)
Lemma l7_samples res k i pr :
  l7Protocols !! i = Some pr → key_protocol k = l7_name pr →
  flat_map (λ x, matching k x.1 (List.filter positive_value (nth 0 x.2 []))) (l7_results res) =
  List.filter (belongs k) (List.filter positive_value (nth (11 + i * 4) res [])).
Proof.
  intros Hi Hk.
  rewrite (flat_map_only _ _ i (l7_name pr, take 4 (drop (11 + i * 4) res))).
  - cbn [fst snd]. rewrite nth_take_drop, <- Hk. apply matching_own.
  - apply l7_results_lookup. eauto.
  - intros j y (pr' & Hj & ->)%l7_results_lookup Hne. apply matching_other. cbn [fst]. rewrite Hk.
    intros E. apply Hne. eapply (NoDup_lookup (map l7_name l7Protocols)); [apply l7_names_distinct|..].
    + by rewrite list_lookup_fmap, Hj.
    + by rewrite list_lookup_fmap, Hi, E.
Qed.

Lemma l7_samples_tcp res k :
  key_protocol k = "tcp" →
  flat_map (λ x, matching k x.1 (List.filter positive_value (nth 0 x.2 []))) (l7_results res) = [].
Proof.
  intros Hk. assert (∀ L : list (string * list (list promSample)), Forall (λ x, x.1 ≠ "tcp") L →
    flat_map (λ x, matching k x.1 (List.filter positive_value (nth 0 x.2 []))) L = []) as H.
  { induction 1 as [|x L Hx _ IH]; [done|]. cbn [flat_map]. rewrite IH, matching_other; [done|].
    by rewrite Hk. }
  apply H, Forall_lookup. intros i x (pr & Hi & ->)%l7_results_lookup. cbn [fst].
  by apply (Forall_lookup_1 _ _ _ _ l7_not_tcp Hi).
Qed.

Lemma l7_seen_covered res k :
  admissible hosts services (key_pair k) = true →
  key_pair k ∈ (foldl (l7_protocol hosts idx services) (∅, ∅) (l7_results res)).2
  ↔ l7_seen res (key_pair k).
Proof.
  intros Hk. rewrite l7_fold_covered, Exists_exists. unfold covers, l7_seen. split.
  - intros [Hx|(x & Hx & s & Hs & Hp & _ & E)]; [set_solver|].
    apply list_elem_of_lookup in Hx as [i (pr & Hi & ->)%l7_results_lookup].
    cbn [snd] in Hs. rewrite nth_take_drop in Hs. eauto 10.
  - intros (i & pr & s & Hi & Hs & Hp & E). right.
    exists (l7_name pr, take 4 (drop (11 + i * 4) res)). split.
    + apply list_elem_of_lookup. exists i. apply l7_results_lookup. eauto.
    + exists s. cbn [snd]. rewrite nth_take_drop, E. done.
Qed.

Lemma uncovered_matching C k l :
  matching k "tcp" (List.filter (uncovered C) l) =
  if bool_decide (key_pair k ∈ C) then [] else matching k "tcp" (List.filter positive_value l).
Proof.
  unfold matching. induction l as [|s l IH]; [by case_bool_decide|]. cbn [List.filter].
  unfold uncovered at 1. destruct (positive_value s); cbn [andb]; [|done].
  destruct (decide (sample_key s "tcp" = k)) as [E|E].
  - assert (key_pair k = sample_pair s) as Ep by (by rewrite <- E). rewrite Ep in *.
    destruct (bool_decide (sample_pair s ∈ C)); cbn [negb List.filter]; [done|].
    by rewrite bool_decide_eq_true_2, IH by done.
  - destruct (bool_decide (sample_pair s ∈ C)); cbn [negb List.filter];
      rewrite ?(bool_decide_eq_false_2 (sample_key s "tcp" = k)) by done; done.
Qed.

(** The count of an edge in terms of what the first loop has left. *)
Lemma count_edges_requests res k :
  admissible hosts services (key_pair k) = true →
  requests (count_edges hosts idx services res) k =
  foldl fadd fzero (map Value
    (flat_map (λ x, matching k x.1 (List.filter positive_value (nth 0 x.2 []))) (l7_results res)
     ++ matching k "tcp" (List.filter
          (uncovered (foldl (l7_protocol hosts idx services) (∅, ∅) (l7_results res)).2)
          (nth 8 res [])))).
Proof.
  intros Hk. unfold count_edges.
  pose proof (l7_fold_requests hosts idx services (l7_results res) (∅, ∅) k Hk) as E.
  destruct (foldl (l7_protocol hosts idx services) (∅, ∅) (l7_results res)) as [m C].
  cbn [fst snd] in *. unfold add_error_sample. rewrite fold_requests_keep by done.
  rewrite fold_requests_add by done. rewrite fold_requests_keep by done.
  rewrite E, map_app, foldl_app. unfold requests at 1. by rewrite lookup_empty.
Qed.

(** *** Only admissible pairs have edges *)

Definition only_admissible (m : edge_map) : Prop :=
  ∀ k, is_Some (m !! k) → admissible hosts services (key_pair k) = true.

Lemma fold_admissible pr f m l :
  only_admissible m → only_admissible (foldl (touch_upd hosts idx services pr f) m l).
Proof.
  revert m. induction l as [|s l IH]; intros m Hm; [done|]. simpl. apply IH. intros k Hk.
  apply touch_upd_dom in Hk as [Hk|Hk]; [by apply Hm|done].
Qed.

Lemma l7_protocol_admissible st x :
  only_admissible st.1 → only_admissible (l7_protocol hosts idx services st x).1.
Proof.
  intros Hm. destruct x as [pr rs]. unfold l7_protocol.
  destruct (l7_request_spec hosts idx services pr (nth 0 rs []) st) as [E _].
  destruct (foldl (l7_request _ _ _ pr) st _) as [m C]. cbn [fst] in *.
  unfold add_error_sample. apply fold_admissible, fold_admissible. rewrite E. by apply fold_admissible.
Qed.

Lemma count_edges_admissible res : only_admissible (count_edges hosts idx services res).
Proof.
  unfold count_edges.
  assert (∀ L st, only_admissible st.1 →
                  only_admissible (foldl (l7_protocol hosts idx services) st L).1) as H.
  { induction L as [|x L IH]; intros st Hst; [done|]. simpl. apply IH. by apply l7_protocol_admissible. }
  specialize (H (l7_results res) (∅, ∅)).
  destruct (foldl (l7_protocol hosts idx services) (∅, ∅) (l7_results res)) as [m C].
  unfold add_error_sample. do 3 apply fold_admissible. apply H. cbn [fst].
  intros k [e He]. by rewrite lookup_empty in He.
Qed.
End all_edges.

(** Every edge of the service map starts at a service that is not its own
    destination, and its request count is exactly the float64 sum of the positive
    samples with its labels: for an application protocol those of the protocol's
    request query; for plain TCP those of the connection query, and none at all if
    some application protocol was seen between the two. *)
Theorem service_map_requests hosts idx services res k :
  (admissible hosts services (key_pair k) = false → count_edges hosts idx services res !! k = None) ∧
  (admissible hosts services (key_pair k) = true →
   (∀ i pr, l7Protocols !! i = Some pr → key_protocol k = l7_name pr →
      requests (count_edges hosts idx services res) k =
      total k (List.filter positive_value (nth (11 + i * 4) res []))) ∧
   (key_protocol k = "tcp" → l7_seen res (key_pair k) →
      requests (count_edges hosts idx services res) k = fzero) ∧
   (key_protocol k = "tcp" → ¬ l7_seen res (key_pair k) →
      requests (count_edges hosts idx services res) k =
      total k (List.filter positive_value (nth 8 res [])))).
Proof.
  split.
  { intros Hk. destruct (count_edges hosts idx services res !! k) eqn:E; [|done].
    by rewrite (count_edges_admissible hosts idx services res k) in Hk. }
  intros Hk. pose proof (l7_seen_covered hosts idx services res k Hk) as Hseen.
  rewrite count_edges_requests, uncovered_matching by done. split_and!.
  - intros i pr Hi Hp. rewrite (l7_samples _ _ _ _ Hi Hp), matching_other.
    + by destruct (bool_decide _); rewrite List.app_nil_r.
    + rewrite Hp. intros E. by apply (Forall_lookup_1 _ _ _ _ l7_not_tcp Hi).
  - intros Hp Hs. rewrite l7_samples_tcp by done. by rewrite bool_decide_eq_true_2 by (by apply Hseen).
  - intros Hp Hs. rewrite l7_samples_tcp by done.
    rewrite bool_decide_eq_false_2 by (by rewrite Hseen). rewrite <- Hp. done.
Qed.

(** ** Bytes *)

Definition no_bytes (e : serviceMapEdge) : Prop := e_BytesSent e = fzero ∧ e_BytesReceived e = fzero.

Section bytes.
Context `{MapOrder} (hosts : gmap string serviceMapHost).
Context (idx : gmap containerKey serviceMapService) (services : list serviceMapService).

Lemma fold_no_bytes pr f m l :
  (∀ s e, no_bytes e → no_bytes (f s e)) → map_Forall (λ _, no_bytes) m →
  map_Forall (λ _, no_bytes) (foldl (touch_upd hosts idx services pr f) m l).
Proof.
  intros Hf. revert m. induction l as [|s l IH]; intros m Hm; [done|]. simpl. apply IH.
  intros k e. rewrite touch_upd_lookup. destruct (_ && _); [|apply Hm].
  intros [= <-]. apply Hf. destruct (m !! k) eqn:E; [by apply (Hm k)|done].
Qed.

Lemma l7_protocol_no_bytes st x :
  map_Forall (λ _, no_bytes) st.1 → map_Forall (λ _, no_bytes) (l7_protocol hosts idx services st x).1.
Proof.
  intros Hm. destruct x as [pr rs]. unfold l7_protocol.
  destruct (l7_request_spec hosts idx services pr (nth 0 rs []) st) as [E _].
  destruct (foldl (l7_request _ _ _ pr) st _) as [m C]. cbn [fst] in *.
  unfold add_error_sample. do 2 (apply fold_no_bytes; [done|]). rewrite E. by apply fold_no_bytes.
Qed.

Lemma count_edges_no_bytes res : map_Forall (λ _, no_bytes) (count_edges hosts idx services res).
Proof.
  unfold count_edges.
  assert (∀ L st, map_Forall (λ _, no_bytes) st.1 →
                  map_Forall (λ _, no_bytes) (foldl (l7_protocol hosts idx services) st L).1) as HL.
  { induction L as [|x L IH]; intros st Hst; [done|]. simpl. apply IH. by apply l7_protocol_no_bytes. }
  specialize (HL (l7_results res) (∅, ∅)).
  destruct (foldl (l7_protocol hosts idx services) (∅, ∅) (l7_results res)) as [m C].
  unfold add_error_sample. do 3 (apply fold_no_bytes; [done|]). by apply HL.
Qed.

(** *** The carrier of a pair *)

Definition same_pair (edges : edge_map) (best : gmap pairKey edgeKey) : Prop :=
  ∀ pk k, best !! pk = Some k → key_pair k = pk ∧ is_Some (edges !! k).

Lemma better_same_pair edges best k e :
  same_pair edges best → edges !! k = Some e → same_pair edges (better edges best (k, e)).
Proof.
  intros Hb He. unfold better.
  assert (same_pair edges (<[key_pair k := k]> best)) as Hi.
  { intros pk k' Hk'. destruct (decide (key_pair k = pk)) as [<- |Hn].
    - rewrite lookup_insert_eq in Hk'. injection Hk' as <-. split; [done|]. by rewrite He.
    - rewrite lookup_insert_ne in Hk' by done. by apply Hb. }
  case_match; [|done]. by case_match.
Qed.

(** No edge seen so far has more requests than the one chosen for its pair. *)
Definition chosen (edges : edge_map) (best : gmap pairKey edgeKey) (k : edgeKey) (e : serviceMapEdge) : Prop :=
  ∃ k0 e0, best !! key_pair k = Some k0 ∧ edges !! k0 = Some e0 ∧
           SFltb (e_Requests e0) (e_Requests e) = false.

Lemma SFltb_irrefl a : SFltb a a = false.
Proof.
  destruct (is_nan a) eqn:Ea; [by destruct a|]. apply not_true_iff_false. rewrite SFltb_rank by done.
  apply lex_irrefl.
Qed.

Lemma SFltb_le_trans a b c :
  is_nan a = false → is_nan b = false → is_nan c = false →
  SFltb a b = true → SFltb a c = false → SFltb b c = false.
Proof.
  intros Ha Hb Hc. rewrite <- !not_true_iff_false, !SFltb_rank by done. intros H1 H2 H3.
  apply H2. by eapply lex_trans.
Qed.

Lemma better_chosen edges best k e k' e' :
  map_Forall (λ _ e, counted e) edges → same_pair edges best → edges !! k = Some e →
  edges !! k' = Some e' →
  (k' = k ∨ chosen edges best k' e') → chosen edges (better edges best (k, e)) k' e'.
Proof.
  intros Hn Hs He He' Hc. unfold better, chosen in *.
  destruct (best !! key_pair k) as [cur|] eqn:Ec; cbn [mbind option_bind].
  - destruct (Hs _ _ Ec) as [Ek [ec Hec]]. rewrite Hec.
    destruct (SFltb (e_Requests ec) (e_Requests e)) eqn:El.
    + destruct Hc as [-> |(k0 & e0 & Hk0 & He0 & Hle)].
      * exists k, e. rewrite lookup_insert_eq. simplify_eq. by rewrite SFltb_irrefl.
      * destruct (decide (key_pair k = key_pair k')) as [E|E].
        -- rewrite <- E, lookup_insert_eq. exists k, e. split; [done|]. split; [done|].
           rewrite <- E, Ec in Hk0. injection Hk0 as <-. rewrite Hec in He0. injection He0 as <-.
           eapply SFltb_le_trans; [..|exact El|exact Hle]; by eapply Hn.
        -- rewrite lookup_insert_ne by done. eauto.
    + destruct Hc as [-> |Hc]; [|done]. exists cur, ec. by simplify_eq.
  - destruct Hc as [-> |(k0 & e0 & Hk0 & He0 & Hle)].
    + exists k, e. rewrite lookup_insert_eq. simplify_eq. by rewrite SFltb_irrefl.
    + exists k0, e0. rewrite lookup_insert_ne; [done|]. congruence.
Qed.

Lemma best_fold edges l best :
  (∀ k e, (k, e) ∈ l → edges !! k = Some e) → same_pair edges best →
  same_pair edges (foldl (better edges) best l) ∧
  (map_Forall (λ _ e, counted e) edges →
   ∀ k e, edges !! k = Some e → ((k, e) ∈ l ∨ chosen edges best k e) →
          chosen edges (foldl (better edges) best l) k e).
Proof.
  revert best. induction l as [|[k e] l IH]; intros best Hl Hb.
  { split; [done|]. intros _ k e _ [Hx|]; [by apply not_elem_of_nil in Hx|done]. }
  cbn [foldl]. assert (edges !! k = Some e) as He by (apply Hl; constructor).
  destruct (IH (better edges best (k, e))) as [IH1 IH2].
  { intros. apply Hl. by constructor. }
  { by apply better_same_pair. }
  split; [done|]. intros Hn k' e' He' Hin. apply IH2; [done..|].
  destruct Hin as [[E|Hin]%elem_of_cons|Hc]; [|by left|].
  - right. injection E as -> ->. apply better_chosen; auto.
  - right. apply better_chosen; auto.
Qed.
End bytes.

Lemma better_total edges best x pk :
  is_Some (best !! pk) ∨ key_pair x.1 = pk → is_Some (better edges best x !! pk).
Proof.
  destruct x as [k e]. cbn [fst]. unfold better.
  destruct (decide (key_pair k = pk)) as [<- |Hn].
  - intros _. destruct (best !! key_pair k) as [cur|] eqn:E; cbn [mbind option_bind].
    + destruct (edges !! cur); [|by rewrite lookup_insert_eq].
      case_match; [by rewrite lookup_insert_eq|by rewrite E].
    + by rewrite lookup_insert_eq.
  - intros [H|]; [|done]. repeat case_match; rewrite ?lookup_insert_ne by done; done.
Qed.

Lemma best_total edges l best k e :
  is_Some (best !! key_pair k) ∨ (k, e) ∈ l → is_Some (foldl (better edges) best l !! key_pair k).
Proof.
  revert best. induction l as [|x l IH]; intros best Hk; cbn [foldl].
  - destruct Hk as [|Hk]; [done|]. by apply not_elem_of_nil in Hk.
  - apply IH. destruct Hk as [Hk|[<- |Hk]%elem_of_cons]; [left|left|by right]; apply better_total; auto.
Qed.

(** Updating the edges listed, one per pair, in any order. *)
Lemma alter_listed (g : pairKey → serviceMapEdge → serviceMapEdge) (L : list (pairKey * edgeKey))
    (edges : edge_map) (k : edgeKey) :
  NoDup L.*1 → (∀ pk k, (pk, k) ∈ L → key_pair k = pk) →
  foldl (λ m '(pk, k), alter (g pk) k m) edges L !! k =
  if bool_decide ((key_pair k, k) ∈ L) then g (key_pair k) <$> edges !! k else edges !! k.
Proof.
  revert edges. induction L as [|[pk k'] L IH]; intros edges Hnd Hp; [done|].
  apply NoDup_cons in Hnd as [Hn Hnd]. cbn [foldl].
  rewrite IH by (done || (intros; apply Hp; by constructor)).
  assert (key_pair k' = pk) as Ek by (apply Hp; constructor).
  destruct (decide (k' = k)) as [<- |Hk].
  - rewrite lookup_alter_eq, Ek, bool_decide_eq_false_2, bool_decide_eq_true_2;
      [done|constructor|]. intros Hin. apply Hn. by apply (list_elem_of_fmap_2 fst _ _ Hin).
  - rewrite lookup_alter_ne by done.
    assert ((key_pair k, k) ∈ (pk, k') :: L ↔ (key_pair k, k) ∈ L) as Hiff.
    { rewrite elem_of_cons. split; [intros [[= _ ->]|]; done|auto]. }
    by rewrite (bool_decide_ext _ _ Hiff).
Qed.

(** C17. The bytes between two services are counted once: among the edges of one
    source and destination exactly one, which no other exceeds in requests, carries
    the measured bytes; all others carry none. *)
Theorem service_map_bytes_once `{MapOrder} hosts idx services res sent received k e :
  let edges := count_edges hosts idx services res in
  edges !! k = Some e →
  ∃ k0 e0, edges !! k0 = Some e0 ∧ key_pair k0 = key_pair k ∧
    (∀ k1 e1, edges !! k1 = Some e1 → key_pair k1 = key_pair k →
       assign_bytes sent received edges !! k1 =
       Some (if bool_decide (k1 = k0)
             then set_bytes (default fzero (sent !! key_pair k)) (default fzero (received !! key_pair k)) e1
             else e1) ∧ no_bytes e1) ∧
    (map_Forall (λ _ e, is_nan (e_Requests e) = false) edges →
     ∀ k1 e1, edges !! k1 = Some e1 → key_pair k1 = key_pair k →
              SFltb (e_Requests e0) (e_Requests e1) = false).
Proof.
  intros edges He. set (l := visit 1 (map_to_list edges)).
  assert (∀ k e, (k, e) ∈ l ↔ edges !! k = Some e) as Hl.
  { intros. unfold l. by rewrite visit_perm, elem_of_map_to_list. }
  destruct (best_fold edges l ∅) as [Hs Hc].
  { intros. by apply Hl. }
  { intros pk k'. by rewrite lookup_empty. }
  change (foldl (better edges) ∅ l) with (best_edges edges) in *.
  assert (is_Some (best_edges edges !! key_pair k)) as [k0 Hk0].
  { apply (best_total edges l ∅ k e). right. by apply Hl. }
  destruct (Hs _ _ Hk0) as [Ek0 [e0 He0]]. exists k0, e0. split_and!; [done..| |].
  - intros k1 e1 He1 Ek1. split; [|by apply (count_edges_no_bytes hosts idx services res k1)].
    unfold assign_bytes.
    rewrite (alter_listed (λ pk, set_bytes (default fzero (sent !! pk)) (default fzero (received !! pk)))).
    + assert ((key_pair k1, k1) ∈ visit 2 (map_to_list (best_edges edges)) ↔ k1 = k0) as Hiff.
      { rewrite visit_perm, elem_of_map_to_list, Ek1, Hk0. naive_solver. }
      rewrite (bool_decide_ext _ _ Hiff), He1, Ek1. by case_bool_decide.
    + rewrite visit_perm. apply NoDup_fst_map_to_list.
    + intros pk k'. rewrite visit_perm, elem_of_map_to_list. apply Hs.
  - intros Hn k1 e1 He1 Ek1. destruct (Hc Hn k1 e1 He1) as (k2 & e2 & Hk2 & He2 & Hle).
    { left. by apply Hl. }
    rewrite Ek1, Hk0 in Hk2. by simplify_eq.
Qed.

(** ** The answer *)

(** The answer lists at most 5000 edges, the busiest first and ties by source
    and destination; every one has requests or errors and no count is NaN; the list is
    a prefix of all edges in that order, and it is marked as truncated exactly if
    edges were left out. *)
Theorem service_map_sorted `{MapOrder} start fin res :
  let m := assemble start fin res in
  (length (sm_Edges m) ≤ maxServiceMapEdges)%nat ∧
  StronglySorted (λ a b, edge_lt b a = false) (sm_Edges m) ∧
  Forall (λ e, seen_traffic e = true ∧ is_nan (e_Requests e) = false ∧ is_nan (e_Errors e) = false)
    (sm_Edges m) ∧
  ∃ rest, edges_list (byInstance (nth 0 res []) (nth 1 res []) (nth 2 res []) (nth 3 res []))
            (service_index (byInstance (nth 0 res []) (nth 1 res []) (nth 2 res []) (nth 3 res []))
               (nth 4 res []) (nth 5 res []) (nth 3 res []))
            (sm_Services m) res = sm_Edges m ++ rest ∧
          (sm_Truncated m = true ↔ rest ≠ []).
Proof.
  intros m. unfold m, assemble. cbn [sm_Edges sm_Services sm_Truncated].
  set (out := edges_list _ _ _ _).
  assert (Forall (λ e, seen_traffic e = true ∧ is_nan (e_Requests e) = false ∧
                       is_nan (e_Errors e) = false) out) as Hall.
  { unfold out, edges_list. rewrite sort_by_perm. apply Forall_forall.
    intros e [(e' & -> & _)%list_elem_of_In%list_elem_of_fmap Hs]%list_elem_of_In%filter_In.
    split; [done|]. split; apply wholeCount_not_nan. }
  assert (StronglySorted (λ a b, edge_lt b a = false) out) as Hsort.
  { unfold out, edges_list. apply (sort_by_sorted edge_lt counted edge_lt_asym edge_lt_cotrans).
    unfold out, edges_list in Hall. rewrite sort_by_perm in Hall.
    eapply Forall_impl; [exact Hall|]. by intros e (_ & He & _). }
  rewrite <- (take_drop maxServiceMapEdges out) in Hall, Hsort.
  apply Forall_app in Hall as [Hall _]. apply StronglySorted_app_1_l in Hsort.
  split_and!; [rewrite length_take; lia|done..|].
  exists (drop maxServiceMapEdges out). split; [by rewrite take_drop|].
  rewrite Nat.ltb_lt. split.
  - intros Hlt E. apply (f_equal length) in E. rewrite length_drop in E. simpl in E. lia.
  - intros Hne. destruct (Nat.lt_ge_cases maxServiceMapEdges (length out)); [done|].
    by rewrite drop_ge in Hne by done.
Qed.

(** ** Two hosts, one of which queries a database on the other *)

#[local] Instance in_order : MapOrder := {| visit _ _ l := l; visit_perm _ _ _ := reflexivity _ |}.

Definition sample (labels : list (string * string)) (v : Z) : promSample :=
  MkSample (list_to_map labels) (of_int v).

Definition web_to_db (v : Z) : promSample :=
  sample [("instance", "a"); ("container_id", "/docker/web"); ("destination", "10.0.0.2:5432");
          ("destination_workload_kind", "vm"); ("destination_workload_name", "db")] v.

Definition demo_results : list (list promSample) :=
  [[];
   [sample [("instance", "a"); ("hostname", "front")] 1; sample [("instance", "b"); ("hostname", "back")] 1];
   [sample [("instance", "a"); ("ip", "10.0.0.1")] 1; sample [("instance", "b"); ("ip", "10.0.0.2")] 1];
   [sample [("instance", "b"); ("container_id", "/docker/db"); ("listen_addr", "0.0.0.0:5432")] 1];
   [sample [("instance", "a"); ("container_id", "/docker/web")] 1;
    sample [("instance", "b"); ("container_id", "/docker/db")] 1];
   [];
   [web_to_db 1000]; [web_to_db 5000]; [web_to_db 3]; []; [];
   []; []; []; []; [web_to_db 12; web_to_db 4]].

Definition demo_key : edgeKey := ("a", "/docker/web", "10.0.0.2:5432", "vm", "db", "postgres").

(** The connections are those of the PostgreSQL queries, and not an edge of their own. *)
Example demo_edges :
  map (λ e, (e_SourceHost e, e_SourceService e, e_DestinationHost e, e_DestinationService e,
             e_Protocol e, e_Requests e, e_BytesSent e))
    (sm_Edges (assemble 0 0 demo_results))
  = [("front", "web", "back", "db", "postgres", of_int 16, of_int 1000)].
Proof. vm_compute. reflexivity. Qed.

Definition demo_hosts : gmap string serviceMapHost := Eval vm_compute in
  byInstance [] (nth 1 demo_results []) (nth 2 demo_results []) (nth 3 demo_results []).
Definition demo_index : gmap containerKey serviceMapService := Eval vm_compute in
  service_index demo_hosts (nth 4 demo_results []) [] (nth 3 demo_results []).
Definition demo_services : list serviceMapService := Eval vm_compute in services_list demo_index.
Definition demo_edge : serviceMapEdge := Eval vm_compute in
  default (new_edge ∅ ∅ demo_key unresolved)
    (count_edges demo_hosts demo_index demo_services demo_results !! demo_key).

Lemma service_map_bytes_once_witness :
  ∃ k0 e0, count_edges demo_hosts demo_index demo_services demo_results !! k0 = Some e0 ∧
           key_pair k0 = key_pair demo_key.
Proof.
  destruct (service_map_bytes_once demo_hosts demo_index demo_services demo_results ∅ ∅ demo_key demo_edge)
    as (k0 & e0 & H1 & H2 & _).
  - vm_compute. reflexivity.
  - exists k0, e0. split; [exact H1|exact H2].
Defined.
