(* ===== verification/Db.v ===== *)
(** * pkg/proxy/db: SQL datasources

    One connection pool per datasource, for five kinds of databases. The drivers of
    database/sql are a parameter: what they answer during an operation is an
    argument, and an operation returns the pools it opened and closed and the
    statements it sent. *)

From S2P Require Import Prelude GoStrings GoJson GoAny GoBase64 GoTime GoUrl Registry.
From Stdlib Require Import SpecFloat.
#[local] Open Scope Z_scope.

(** ** State *)

Record Config := MkConfig {
  Host : string;
  Port : Z;
  Database : string;
  SSLMode : string;
  TLSEnabled : bool;
  MaxOpen : Z;
  MaxIdle : Z;
  MaxLifetime : Z;
}.

Definition zero_config : Config := MkConfig "" 0 "" "" false 0 0 0.

Definition Config_field (c : Config) (k : string) (v : json) : Config * bool :=
  let 'MkConfig h po db ssl tls mo mi ml := c in
  if key_is "host" k then let '(x, ok) := dec_string h v in (MkConfig x po db ssl tls mo mi ml, ok)
  else if key_is "port" k then let '(x, ok) := dec_int po v in (MkConfig h x db ssl tls mo mi ml, ok)
  else if key_is "database" k then
    let '(x, ok) := dec_string db v in (MkConfig h po x ssl tls mo mi ml, ok)
  else if key_is "ssl_mode" k then
    let '(x, ok) := dec_string ssl v in (MkConfig h po db x tls mo mi ml, ok)
  else if key_is "tls_enabled" k then
    let '(x, ok) := dec_bool tls v in (MkConfig h po db ssl x mo mi ml, ok)
  else if key_is "max_open_connections" k then
    let '(x, ok) := dec_int mo v in (MkConfig h po db ssl tls x mi ml, ok)
  else if key_is "max_idle_connections" k then
    let '(x, ok) := dec_int mi v in (MkConfig h po db ssl tls mo x ml, ok)
  else if key_is "max_lifetime_sec" k then
    let '(x, ok) := dec_int ml v in (MkConfig h po db ssl tls mo mi x, ok)
  else (c, true).

(** A pool, by identity. *)
Definition pool_ref := nat.

Record Proxy := MkProxy {
  pool : option pool_ref;
  dbType : string;
  config : Config;
  configRaw : gmap string any;
  creds : gmap string string;
  readOnly : bool;
}.

Definition New (dbType : string) : Proxy := MkProxy None dbType zero_config ∅ ∅ false.

Definition set_pool (p : Proxy) (x : option pool_ref) : Proxy :=
  MkProxy x (dbType p) (config p) (configRaw p) (creds p) (readOnly p).

(** ** Connection strings *)

Definition Values (l : list (string * string)) : gmap string (list string) :=
  list_to_map (map (λ '(k, v), (k, [v])) l).

(** go-ora, the driver of the default build. *)
Definition buildOracleDSN (host : string) (port : Z) (database username password : string)
    (configRaw : gmap string any) : result (string * string) :=
  let sn := as_string (configRaw !! "service_name") in
  let serviceName := if String.eqb sn "" then database else sn in
  Ok ("oracle://" +:+ PathEscape username +:+ ":" +:+ PathEscape password +:+ "@" +:+ host +:+ ":"
      +:+ Itoa port +:+ "/" +:+ serviceName +:+ "?ENABLE_OOB=FALSE", "oracle").

(** godror, with the build tag oracle. *)
Definition escapeGodrorParam (s : string) : string :=
  ReplaceAll s (str1 dq) (String (chr 92) (str1 dq)).

Definition buildOracleDSN_godror (host : string) (port : Z) (database username password : string)
    (configRaw : gmap string any) : result (string * string) :=
  let sn := as_string (configRaw !! "service_name") in
  let serviceName := if String.eqb sn "" then database else sn in
  let param k v := k +:+ "=" +:+ str1 dq +:+ v +:+ str1 dq in
  Ok (param "user" (escapeGodrorParam username) +:+ " "
      +:+ param "password" (escapeGodrorParam password) +:+ " "
      +:+ param "connectString" (host +:+ ":" +:+ Itoa port +:+ "/" +:+ serviceName), "godror").

Definition server_url (scheme : string) (user : option Userinfo) (cfg : Config)
    (q : gmap string (list string)) : string :=
  URL_String (MkURL scheme "" user (Host cfg +:+ ":" +:+ Itoa (Port cfg)) "" "" false false
                (Encode q) "" "").

Definition buildDSN (p : Proxy) : result (string * string) :=
  let username := cred (creds p) "username" in
  let password := cred (creds p) "password" in
  let cfg := config p in
  let t := dbType p in
  if String.eqb t "postgresql" then
    let sslMode := if String.eqb (SSLMode cfg) "" then "disable" else SSLMode cfg in
    Ok ("host=" +:+ Host cfg +:+ " port=" +:+ Itoa (Port cfg) +:+ " user=" +:+ username
        +:+ " password=" +:+ password +:+ " dbname=" +:+ Database cfg +:+ " sslmode=" +:+ sslMode, "pgx")
  else if String.eqb t "mysql" then
    Ok (username +:+ ":" +:+ password +:+ "@tcp(" +:+ Host cfg +:+ ":" +:+ Itoa (Port cfg) +:+ ")/"
        +:+ Database cfg +:+ (if TLSEnabled cfg then "?tls=true" else ""), "mysql")
  else if String.eqb t "mssql" then
    Ok (server_url "sqlserver" (Some (MkUserinfo username (Some password))) cfg
          (Values [("database", Database cfg);
                   ("encrypt", if TLSEnabled cfg then "true" else "disable")]), "sqlserver")
  else if String.eqb t "clickhouse" then
    let opt k v := if String.eqb v "" then [] else [(k, v)] in
    Ok (server_url "clickhouse" None cfg
          (Values (opt "username" username ++ opt "password" password ++ opt "database" (Database cfg)
                   ++ (if TLSEnabled cfg then [("secure", "true")] else []))), "clickhouse")
  else if String.eqb t "oracle" then
    buildOracleDSN (Host cfg) (Port cfg) (Database cfg) username password (configRaw p)
  else Err (errorf ("unsupported database type: " +:+ t)).

Definition dsnQueryParams (dsn : string) : string :=
  match Parse dsn with Ok u => RawQuery u | Err _ => "" end.

(** ** The drivers *)

(** How a probe of the connection ends. *)
Inductive probe := Answered (r : result unit) | Panicked (text : string).

(** A value as a driver returns it: bytes are written in base64, times by their
    RFC 3339 text. *)
Inductive cell := CAny (v : any) | CBytes (b : string) | CTime (text : string).

Record column := MkColumn { col_name : string; col_type : string; col_nullable : bool }.

(** The rows of a query: what scanning each one yields, and the error of the
    iteration, given whether all rows were visited. *)
Record rows := MkRows {
  rs_columns : result (list column);
  rs_rows : list (result (list cell));
  rs_err : bool → option error;
}.

Record env := MkEnv {
  e_open : string → string → result pool_ref;          (* driver name, DSN *)
  e_close : pool_ref → result unit;
  e_probe : pool_ref → string → probe;
  e_query : pool_ref → Z → string → list any → result rows;   (* timeout in ns *)
  e_query_row : pool_ref → string → result string;
  e_exec : pool_ref → string → list any → result Z;
  e_elapsed : Z;                                       (* milliseconds *)
}.

Inductive event :=
  | Opened (c : pool_ref) (driver dsn : string) (maxOpen maxIdle maxLifetime : Z)
  | Closed (c : pool_ref)
  | Queried (c : pool_ref) (timeout : Z) (query : string) (args : list any)
  | Executed (c : pool_ref) (statement : string) (args : list any).

Definition probeQuery (dbType : string) : string :=
  if String.eqb dbType "oracle" then "SELECT 1 FROM dual" else "SELECT 1".

(** A panic of the driver becomes an error. *)
Definition safeProbe (e : env) (c : pool_ref) (dbType : string) : result unit :=
  match e_probe e c (probeQuery dbType) with
  | Answered r => r
  | Panicked text => Err (errorf ("driver panic: " +:+ text))
  end.

(** ** Configuration *)

Definition default_port (dbType : string) : Z :=
  if String.eqb dbType "postgresql" then 5432
  else if String.eqb dbType "mysql" then 3306
  else if String.eqb dbType "mssql" then 1433
  else if String.eqb dbType "clickhouse" then 9000
  else if String.eqb dbType "oracle" then 1521
  else 0.

Definition with_defaults (dbType : string) (c : Config) : Config :=
  let dflt d x := if x =? 0 then d else x in
  MkConfig (Host c) (dflt (default_port dbType) (Port c)) (Database c) (SSLMode c) (TLSEnabled c)
    (dflt 5 (MaxOpen c)) (dflt 2 (MaxIdle c)) (dflt 300 (MaxLifetime c)).

Definition close_pool (p : Proxy) : Proxy * list event :=
  (set_pool p None, match pool p with Some c => [Closed c] | None => [] end).

Definition Configure (e : env) (p : Proxy) (conf : gmap string any) (cr : gmap string string)
  : result unit * Proxy * list event :=
  let '(p, ev) := close_pool p in
  match
    (match marshal_any_map conf with
     | None => (zero_config, false)
     | Some j => dec_struct Config_field zero_config j
     end)
  with
  | (_, false) => (Err (wrapf "parsing db config: " json_error), p, ev)
  | (cfg, true) =>
      let cfg := with_defaults (dbType p) cfg in
      let p := MkProxy None (dbType p) cfg conf cr
                 (default (readOnly p) (as_bool (conf !! "read_only"))) in
      match buildDSN p with
      | Err err => (Err (wrapf "building DSN: " err), p, ev)
      | Ok (dsn, driver) =>
          match e_open e driver dsn with
          | Err err => (Err (wrapf "opening db: " err), p, ev)
          | Ok c =>
              let ev := ev ++ [Opened c driver dsn (MaxOpen cfg) (MaxIdle cfg)
                                 (wrap64 (MaxLifetime cfg * Second))] in
              match safeProbe e c (dbType p) with
              | Err err => (Err (wrapf "connection test failed: " err), p, ev ++ [Closed c])
              | Ok _ => (Ok tt, set_pool p (Some c), ev)
              end
          end
      end
  end.

Definition HealthCheck (e : env) (p : Proxy) : result unit :=
  match pool p with
  | None => Err (errorf "database not configured")
  | Some c => safeProbe e c (dbType p)
  end.

Definition Close (e : env) (p : Proxy) : result unit * Proxy * list event :=
  match pool p with
  | Some c => (e_close e c, set_pool p None, [Closed c])
  | None => (Ok tt, p, [])
  end.

(** ** Queries wrapped in a command line *)

Definition squote : string := "'".
(** A quote inside a quoted shell argument: quote, backslash, quote, quote. *)
Definition requote : string := String (chr 92) "''".

(** The loop over a single-quoted argument; [None] when the fuel runs out. *)
Fixpoint quoted_loop (fuel : nat) (inner acc : string) : option string :=
  match fuel with
  | O => None
  | S fuel =>
      match cut inner squote with
      | None => Some ""
      | Some (before, rest) =>
          match strip_prefix requote rest with
          | Some rest => quoted_loop fuel rest (acc +:+ before +:+ squote)
          | None => Some (acc +:+ before)
          end
      end
  end.

Definition extractFlagArg (original lowered flag : string) : outcome string :=
  match Index lowered flag with
  | None => Return ""
  | Some idx =>
      part ← slice_from (idx + String.length flag) original;
      match TrimSpace part with
      | "" => Return ""
      | String c inner as argPart =>
          if c =?c dq then
            Return (match cut inner (str1 dq) with Some (arg, _) => arg | None => "" end)
          else if c =?c chr 39 then
            Return (default "" (quoted_loop (S (String.length inner)) inner ""))
          else Return (match Fields argPart with f :: _ => f | [] => "" end)
      end
  end.

Definition stripQuotes (s : string) : string :=
  match s with
  | String c inner =>
      match unsnoc inner with
      | Some (body, l) => if (c =?c l) && ((c =?c dq) || (c =?c chr 39)) then body else s
      | None => s
      end
  | "" => s
  end.

(** psql: the argument of -c, or the query inside a \copy. *)
Definition sanitize_psql (q lower : string) : outcome string :=
  arg ← extractFlagArg q lower " -c ";
  if String.eqb arg "" then Return q
  else if HasPrefix (ToLower arg) (String (chr 92) "copy") then
    match Index arg "(" with
    | None => Return q
    | Some open =>
        match LastIndex (ToUpper arg) ") TO" with
        | None => Return q
        | Some closeMark =>
            if (closeMark <=? open)%nat then Return q
            else TrimSpace <$> slice (S open) closeMark arg
        end
    end
  else Return arg.

Definition flag_query (q lower flag : string) : outcome string :=
  arg ← extractFlagArg q lower flag;
  Return (if String.eqb arg "" then q else arg).

Definition sanitize_pipe (q : string) (pipeIdx : nat) : outcome string :=
  part ← slice 0 pipeIdx q;
  let prefix := TrimSpace part in
  if HasPrefix (ToLower prefix) "echo " then
    rest ← slice_from 5 prefix;
    Return (stripQuotes (TrimSpace rest))
  else Return q.

Definition sanitize_sqlplus (q lower : string) : outcome string :=
  arg ← extractFlagArg q lower " -q ";
  if negb (String.eqb arg "") then
    Return (TrimRight arg ("; " +:+ bytes [9; 10]))
  else
    match Index q "<<<" with
    | Some i => rest ← slice_from (i + 3) q; Return (stripQuotes (TrimSpace rest))
    | None => Return q
    end.

Definition sanitizeQuery (query : string) : outcome string :=
  let q := TrimSpace query in
  let lower := ToLower q in
  if HasPrefix lower "psql" then sanitize_psql q lower
  else if HasPrefix lower "mariadb" || HasPrefix lower "mysql" then flag_query q lower " -e "
  else if HasPrefix lower "sqlcmd" then flag_query q lower " -q "
  else
    match Index lower "| sqlplus" with
    | Some i => sanitize_pipe q i
    | None => if HasPrefix lower "sqlplus" then sanitize_sqlplus q lower else Return q
    end.

(** ** Actions *)

Definition marshal_cell (c : cell) : option json :=
  match c with
  | CAny v => marshal_any v
  | CBytes b => Some (JStr (EncodeToString b))
  | CTime t => Some (JStr t)
  end.

Fixpoint marshal_list {A} (f : A → option json) (l : list A) : option (list json) :=
  match l with
  | [] => Some []
  | x :: l => j ← f x; js ← marshal_list f l; Some (j :: js)
  end.

Definition marshal_row (r : list cell) : option json := JArr <$> marshal_list marshal_cell r.

Definition marshal_column (c : column) : json :=
  JObj [("name", JStr (col_name c)); ("nullable", JBool (col_nullable c)); ("type", JStr (col_type c))].

(** The rows taken before the limit: [rs_rows] is visited until [maxRows] are read;
    also whether all were visited. *)
Fixpoint scan_rows (maxRows count : Z) (l : list (result (list cell))) (acc : list (list cell))
  : result (list (list cell) * bool) :=
  match l with
  | [] => Ok (acc, true)
  | r :: l =>
      if maxRows <=? count then Ok (acc, false)
      else
        row ← wrap_err "scanning row: " r;
        scan_rows maxRows (count + 1) l (acc ++ [row])
  end.

(** The error of json.Marshal is ignored: the data is then empty. *)
Definition marshal_data (j : option json) : string :=
  match j with Some j => json_print j | None => "" end.

(** A nil slice of rows is written as null. *)
Definition marshal_result (cols : list column) (rs : list (list cell)) (elapsed : Z) : option json :=
  data ← marshal_list marshal_row rs;
  Some (JObj [("columns", JArr (map marshal_column cols));
              ("duration_ms", JNum (Itoa elapsed));
              ("row_count", JNum (Itoa (Z.of_nat (length rs))));
              ("rows", match data with [] => JNull | _ => JArr data end)]).

Definition query_timeout (params : gmap string any) : Z :=
  let ms :=
    match as_float (params !! "timeout_ms") with
    | Some v => if float_pos v then Z.min 120000 (float_to_int v) else 30000
    | None => 30000
    end in
  wrap64 (ms * Millisecond).

Definition max_rows (params : gmap string any) : Z :=
  match as_float (params !! "max_rows") with
  | Some v => if float_pos v then float_to_int v else 10000
  | None => 10000
  end.

Definition positional (params : gmap string any) : list any :=
  match params !! "params" with Some (AList l) => l | _ => [] end.

Definition handleQuery (e : env) (c : pool_ref) (req : ActionRequest)
  : outcome (result ActionResponse * list event) :=
  let query := as_string (req_Params req !! "query") in
  if String.eqb query "" then Return (Err (errorf "missing query parameter"), [])
  else
    query ← sanitizeQuery query;
    let timeout := query_timeout (req_Params req) in
    let args := positional (req_Params req) in
    Return
      (rows ← wrap_err "query execution failed: " (e_query e c timeout query args);
       cols ← wrap_err "getting column types: " (rs_columns rows);
       '(rs, all) ← scan_rows (max_rows (req_Params req)) 0 (rs_rows rows) [];
       match rs_err rows all with
       | Some err => Err (wrapf "row iteration error: " err)
       | None => Ok (MkResponse 200 "" "" "" (marshal_data (marshal_result cols rs (e_elapsed e))) None)
       end,
       [Queried c timeout query args]).

Definition handleExecute (e : env) (p : Proxy) (c : pool_ref) (req : ActionRequest)
  : result ActionResponse * list event :=
  if readOnly p then (Err (errorf "datasource is read-only, execute not allowed"), [])
  else
    let statement := as_string (req_Params req !! "statement") in
    if String.eqb statement "" then (Err (errorf "missing statement parameter"), [])
    else
      let args := positional (req_Params req) in
      (affected ← wrap_err "execute failed: " (e_exec e c statement args);
       Ok (MkResponse 200 "" "" "" (json_print (JObj [
             ("affected_rows", JNum (Itoa affected)); ("duration_ms", JNum (Itoa (e_elapsed e)))])) None),
       [Executed c statement args]).

(** ** Metadata *)

(** The placeholder of the n-th parameter. *)
Definition ph (dbType : string) (n : Z) : string :=
  if String.eqb dbType "postgresql" then "$" +:+ Itoa n
  else if String.eqb dbType "oracle" then ":" +:+ Itoa n
  else if String.eqb dbType "mssql" then "@p" +:+ Itoa n
  else "?".

(** The query for a metadata type and its arguments. *)
Definition metadata_query (p : Proxy) (params : gmap string any) : result (string * list any) :=
  let metadataType := as_string (params !! "metadata_type") in
  let schemaFilter dflt :=
    let v := as_string (params !! "schema_filter") in if String.eqb v "" then dflt else v in
  let tableName := as_string (params !! "table_name") in
  let unknown := Err (errorf ("unknown metadata_type: " +:+ metadataType)) in
  let p1 := ph (dbType p) 1 in
  let p2 := ph (dbType p) 2 in
  let pick schemas tables columns :=
    if String.eqb metadataType "schemas" then Ok schemas
    else if String.eqb metadataType "tables" then Ok tables
    else if String.eqb metadataType "columns" then Ok columns
    else unknown in
  if String.eqb (dbType p) "postgresql" then
    pick ("SELECT schema_name FROM information_schema.schemata ORDER BY schema_name", [])
      ("SELECT table_name, table_type FROM information_schema.tables WHERE table_schema = "
       +:+ p1 +:+ " ORDER BY table_name", [AStr (schemaFilter "public")])
      ("SELECT column_name, data_type, is_nullable, column_default FROM information_schema.columns WHERE table_schema = "
       +:+ p1 +:+ " AND table_name = " +:+ p2 +:+ " ORDER BY ordinal_position",
       [AStr (schemaFilter "public"); AStr tableName])
  else if String.eqb (dbType p) "mysql" then
    pick ("SELECT SCHEMA_NAME as schema_name FROM information_schema.SCHEMATA ORDER BY SCHEMA_NAME", [])
      ("SELECT TABLE_NAME as table_name, TABLE_TYPE as table_type FROM information_schema.TABLES WHERE TABLE_SCHEMA = "
       +:+ p1 +:+ " ORDER BY TABLE_NAME", [AStr (Database (config p))])
      ("SELECT COLUMN_NAME as column_name, DATA_TYPE as data_type, IS_NULLABLE as is_nullable, COLUMN_DEFAULT as column_default FROM information_schema.COLUMNS WHERE TABLE_SCHEMA = "
       +:+ p1 +:+ " AND TABLE_NAME = " +:+ p2 +:+ " ORDER BY ORDINAL_POSITION",
       [AStr (Database (config p)); AStr tableName])
  else if String.eqb (dbType p) "mssql" then
    pick ("SELECT name AS schema_name FROM sys.schemas ORDER BY name", [])
      ("SELECT t.name AS table_name, CASE WHEN t.type = 'U' THEN 'BASE TABLE' ELSE 'VIEW' END AS table_type FROM sys.tables t INNER JOIN sys.schemas s ON t.schema_id = s.schema_id WHERE s.name = "
       +:+ p1 +:+ " ORDER BY t.name", [AStr (schemaFilter "dbo")])
      ("SELECT c.name AS column_name, TYPE_NAME(c.user_type_id) AS data_type, CASE c.is_nullable WHEN 1 THEN 'YES' ELSE 'NO' END AS is_nullable, dc.definition AS column_default FROM sys.columns c INNER JOIN sys.tables t ON c.object_id = t.object_id INNER JOIN sys.schemas s ON t.schema_id = s.schema_id LEFT JOIN sys.default_constraints dc ON c.default_object_id = dc.object_id WHERE s.name = "
       +:+ p1 +:+ " AND t.name = " +:+ p2 +:+ " ORDER BY c.column_id",
       [AStr (schemaFilter "dbo"); AStr tableName])
  else if String.eqb (dbType p) "clickhouse" then
    pick ("SELECT name AS schema_name FROM system.databases ORDER BY name", [])
      ("SELECT name AS table_name, engine AS table_type FROM system.tables WHERE database = "
       +:+ p1 +:+ " ORDER BY name", [AStr (schemaFilter (Database (config p)))])
      ("SELECT name AS column_name, type AS data_type, '' AS is_nullable, default_expression AS column_default FROM system.columns WHERE database = "
       +:+ p1 +:+ " AND table = " +:+ p2 +:+ " ORDER BY position",
       [AStr (schemaFilter (Database (config p))); AStr tableName])
  else if String.eqb (dbType p) "oracle" then
    let filter := schemaFilter "" in
    pick ("SELECT username AS schema_name FROM all_users ORDER BY username", [])
      (if String.eqb filter ""
       then ("SELECT table_name, 'BASE TABLE' AS table_type FROM user_tables ORDER BY table_name", [])
       else ("SELECT table_name, 'BASE TABLE' AS table_type FROM all_tables WHERE owner = "
             +:+ p1 +:+ " ORDER BY table_name", [AStr filter]))
      (if String.eqb filter ""
       then ("SELECT column_name, data_type, nullable AS is_nullable, data_default AS column_default FROM user_tab_columns WHERE table_name = "
             +:+ p1 +:+ " ORDER BY column_id", [AStr tableName])
       else ("SELECT column_name, data_type, nullable AS is_nullable, data_default AS column_default FROM all_tab_columns WHERE owner = "
             +:+ p1 +:+ " AND table_name = " +:+ p2 +:+ " ORDER BY column_id",
             [AStr filter; AStr tableName]))
  else Err (errorf ("unsupported db type for metadata: " +:+ dbType p)).

(** The metadata query goes through the handler of queries. *)
Definition handleMetadata (e : env) (p : Proxy) (c : pool_ref) (req : ActionRequest)
  : outcome (result ActionResponse * list event) :=
  match metadata_query p (req_Params req) with
  | Err err => Return (Err err, [])
  | Ok (query, args) =>
      let params : gmap string any :=
        <["query" := AStr query]> (<["max_rows" := AFloat (binary_normalize 53 1024 10000 0 false)]>
          (match args with [] => ∅ | _ => <["params" := AList args]> ∅ end)) in
      handleQuery e c (MkRequest "" "" "db_query" params "" "" ∅ "")
  end.

Definition HandleRequest (e : env) (p : Proxy) (req : ActionRequest)
  : outcome (result ActionResponse * list event) :=
  match pool p with
  | None => Return (Err (errorf "database not configured"), [])
  | Some c =>
      let a := req_Action req in
      if String.eqb a "db_query" then handleQuery e c req
      else if String.eqb a "db_execute" then Return (handleExecute e p c req)
      else if String.eqb a "db_metadata" then handleMetadata e p c req
      else Return (Err (errorf ("unknown db action: " +:+ a)), [])
  end.

Definition versionQuery (dbType : string) : string :=
  if String.eqb dbType "postgresql" then "SELECT version()"
  else if String.eqb dbType "mysql" then "SELECT VERSION()"
  else if String.eqb dbType "mssql" then "SELECT @@VERSION"
  else if String.eqb dbType "clickhouse" then "SELECT version()"
  else if String.eqb dbType "oracle" then "SELECT banner FROM v$version WHERE ROWNUM = 1"
  else "".

Definition CollectMetadata (e : env) (p : Proxy) : result (gmap string any) :=
  match pool p with
  | None => Err (errorf "not connected")
  | Some c =>
      let cfg := config p in
      let meta : gmap string any :=
        <["db_type" := AStr (dbType p)]> (<["host" := AStr (Host cfg)]>
          (<["port" := AInt (Port cfg)]> (<["database" := AStr (Database cfg)]> ∅))) in
      let ask key query (m : gmap string any) :=
        match e_query_row e c query with Ok v => <[key := AStr v]> m | Err _ => m end in
      let meta := if String.eqb (versionQuery (dbType p)) "" then meta
                  else ask "version" (versionQuery (dbType p)) meta in
      Ok (if String.eqb (dbType p) "mssql" then ask "server_name" "SELECT @@SERVERNAME" meta else meta)
  end.
