(* ===== verification/DbFacts.v ===== *)
(** * SQL datasources: wrapped queries, fixed metadata, limited rows *)

From S2P Require Import Prelude GoStrings GoJson GoJsonFacts GoAny GoBase64 GoTime GoUrl Registry Db.
From Stdlib Require Import SpecFloat.
#[local] Open Scope Z_scope.

(** ** Strings *)

Definition ascii_only (s : string) : Prop := all_chars (λ c, code c <? 128) s = true.

Lemma ascii_only_cons c s : ascii_only (String c s) ↔ code c < 128 ∧ ascii_only s.
Proof. unfold ascii_only. simpl. rewrite andb_true_iff, Z.ltb_lt. done. Qed.

Lemma ascii_only_app s t : ascii_only (s +:+ t) ↔ ascii_only s ∧ ascii_only t.
Proof. unfold ascii_only. rewrite all_chars_app. apply andb_true_iff. Qed.

Lemma runes_ascii_cons c s : code c < 128 → runes (String c s) = str1 c :: runes s.
Proof. intros Hc. cbn [runes]. by destruct (Z.ltb_spec (code c) 128); [|lia]. Qed.

Lemma ToLower_app s t : valid_utf8 s = true → ToLower (s +:+ t) = ToLower s +:+ ToLower t.
Proof. intros Hs. unfold ToLower. by rewrite runes_app, map_app, concat_str_app by done. Qed.

(** Case conversion of ASCII goes character by character. *)
Fixpoint map_chars (f : ascii → ascii) (s : string) : string :=
  match s with "" => "" | String c s => String (f c) (map_chars f s) end.

Lemma map_chars_length f s : String.length (map_chars f s) = String.length s.
Proof. induction s as [|c s IH]; [done|]. simpl. by rewrite IH. Qed.

Lemma ToLower_ascii s : ascii_only s → ToLower s = map_chars lower_char s.
Proof.
  unfold ToLower. induction s as [|c s IH]; [done|]. intros [Hc Hs]%ascii_only_cons.
  rewrite runes_ascii_cons by done. cbn [map]. rewrite concat_str_cons, IH by done.
  unfold lower_rune, str1. by destruct (Z.ltb_spec (code c) 128); [|lia].
Qed.

Lemma ToUpper_ascii s : ascii_only s → ToUpper s = map_chars upper_char s.
Proof.
  unfold ToUpper. induction s as [|c s IH]; [done|]. intros [Hc Hs]%ascii_only_cons.
  rewrite runes_ascii_cons by done. cbn [map]. rewrite concat_str_cons, IH by done.
  unfold upper_rune, str1. by destruct (Z.ltb_spec (code c) 128); [|lia].
Qed.

Lemma strip_prefix_longer sep s t :
  strip_prefix sep s = None → (String.length sep ≤ String.length s)%nat → strip_prefix sep (s +:+ t) = None.
Proof.
  revert s. induction sep as [|a sep IH]; intros [|b s]; simpl; [done..|lia|].
  destruct (a =?c b); [|done]. intros H Hl. apply IH; [done|lia].
Qed.

Lemma strip_prefix_extend sep s r t : strip_prefix sep s = Some r → strip_prefix sep (s +:+ t) = Some (r +:+ t).
Proof. rewrite !strip_prefix_Some. intros ->. by rewrite app_assoc. Qed.

(** What follows an occurrence does not matter for the first one. *)
Lemma cut_extend s sep a b t : cut s sep = Some (a, b) → cut (s +:+ t) sep = Some (a, b +:+ t).
Proof.
  revert a b. induction s as [|c s IH]; intros a b; cbn [cut].
  - destruct (strip_prefix sep "") as [r|] eqn:E; [|done]. intros [= <- <-].
    destruct sep; [|done]. injection E as <-. rewrite !app_nil_l. by destruct t.
  - destruct (strip_prefix sep (String c s)) as [r|] eqn:E.
    + intros [= <- <-]. rewrite app_cons. cbn [cut]. rewrite <- app_cons.
      by rewrite (strip_prefix_extend _ _ _ _ E).
    + destruct (cut s sep) as [[a' b']|] eqn:Ec; [|done]. intros [= <- <-].
      rewrite app_cons. cbn [cut]. rewrite <- app_cons, strip_prefix_longer; [|done|].
      * by rewrite (IH _ _ eq_refl).
      * apply cut_Some in Ec as ->. simpl. rewrite !length_app_str. lia.
Qed.

(** Text that begins and ends with a visible character is not trimmed. *)
Lemma TrimSpace_id c s d u :
  code c < 128 → is_space (str1 c) = false → code d < 128 → is_space (str1 d) = false →
  valid_utf8 u = true → String c s = u +:+ str1 d → TrimSpace (String c s) = String c s.
Proof.
  intros Hc Hsc Hd Hsd Hu E. unfold TrimSpace.
  rewrite (runes_ascii_cons c s) by done. cbn [drop_while]. rewrite Hsc.
  rewrite <- (runes_ascii_cons c s) by done. unfold drop_while_end.
  assert (runes (String c s) = runes u ++ [str1 d]) as Er.
  { rewrite E, runes_app by done. f_equal. by apply (runes_ascii_cons d ""). }
  rewrite Er, reverse_snoc. cbn [drop_while]. rewrite Hsd, reverse_cons, reverse_involutive.
  by rewrite <- Er, concat_runes.
Qed.

(** ** Shell quoting *)

(** The usual way to quote a shell argument: quotes inside are closed, escaped and
    reopened. *)
Fixpoint shell_body (s : string) : string :=
  match s with
  | "" => ""
  | String c s => if c =?c chr 39 then squote +:+ requote +:+ shell_body s else String c (shell_body s)
  end.
Definition shell_quote (s : string) : string := squote +:+ shell_body s +:+ squote.

Lemma shell_body_app a b : shell_body (a +:+ b) = shell_body a +:+ shell_body b.
Proof.
  induction a as [|c a IH]; [done|]. rewrite app_cons. cbn [shell_body]. rewrite IH.
  destruct (c =?c chr 39); [|done]. by rewrite !app_assoc.
Qed.

Lemma shell_body_lacks s : lacks (chr 39) s → shell_body s = s.
Proof.
  induction s as [|c s IH]; [done|]. intros [Hc Hs]%lacks_cons. cbn [shell_body].
  destruct (Ascii.eqb_spec c (chr 39)); [done|]. by rewrite IH.
Qed.

Lemma shell_body_length s : (String.length s ≤ String.length (shell_body s))%nat.
Proof.
  induction s as [|c s IH]; [done|]. cbn [shell_body].
  destruct (c =?c chr 39); rewrite ?length_app_str; simpl; lia.
Qed.

(** The loop that reads a single-quoted argument always ends: each round
    consumes a quote, so that as many rounds as the text has bytes are enough. *)
Theorem quoted_loop_total inner acc n :
  (String.length inner < n)%nat → ∃ r, quoted_loop n inner acc = Some r.
Proof.
  revert inner acc. induction n as [|n IH]; intros inner acc Hn; [lia|]. cbn [quoted_loop].
  destruct (cut inner squote) as [[before rest]|] eqn:E; [|by eexists].
  apply cut_length in E; [|done]. destruct (strip_prefix requote rest) as [rest'|] eqn:Er; [|by eexists].
  apply strip_prefix_Some in Er as ->. apply IH. rewrite length_app_str in E. simpl in E. lia.
Qed.

Lemma quoted_loop_total_witness : ∃ r, quoted_loop 20 "it'" "" = Some r.
Proof. apply (quoted_loop_total "it'" "" 20). simpl. lia. Defined.

(** Reading a quoted argument gives the argument, whatever follows it. *)
Lemma quoted_loop_body s t acc n :
  strip_prefix requote t = None → (String.length s < n)%nat →
  quoted_loop n (shell_body s +:+ squote +:+ t) acc = Some (acc +:+ s).
Proof.
  intros Ht. remember (String.length s) as m eqn:Hm. revert s Hm acc n.
  induction (lt_wf m) as [m _ IH]. intros s -> acc [|n] Hn; [lia|]. cbn [quoted_loop].
  destruct (cut_char_cases s (chr 39)) as [[Hs _]|(a & b & -> & Ha & _)].
  - rewrite shell_body_lacks by done.
    change squote with (str1 (chr 39)). change (str1 (chr 39) +:+ t) with (String (chr 39) t).
    rewrite cut_char by done. by rewrite Ht.
  - rewrite shell_body_app, shell_body_lacks by done.
    change (shell_body (String (chr 39) b)) with (String (chr 39) (requote +:+ shell_body b)).
    rewrite app_assoc, app_cons. change squote with (str1 (chr 39)). rewrite cut_char by done.
    rewrite (app_assoc requote), (proj2 (strip_prefix_Some requote _ _) eq_refl).
    change (str1 (chr 39)) with squote.
    rewrite (IH (String.length b)); [|rewrite length_app_str; simpl; lia|done|].
    + f_equal. rewrite !app_assoc. done.
    + rewrite length_app_str in Hn. simpl in Hn. lia.
Qed.

(** ** A query handed to psql *)

Lemma valid_shell_body s : valid_utf8 s = true → valid_utf8 (shell_body s) = true.
Proof.
  intros Hs%valid_utf8_chunks. rewrite <- (concat_runes s). generalize dependent (runes s).
  induction 1 as [|r l Hr _ IH]; [done|]. rewrite concat_str_cons, shell_body_app.
  apply valid_utf8_app; [|done]. destruct (decide (r = squote)) as [-> |Hne]; [by vm_compute|].
  rewrite shell_body_lacks; [by apply valid_utf8_chunk|].
  unfold valid_chunk in Hr. destruct r as [|a [|b r]]; [done|..].
  - apply lacks_cons. split; [|done]. intros ->. by destruct Hne.
  - assert (high_bytes (String a (String b r)) = true) as Hh.
    { destruct r as [|c [|d [|]]]; [by apply utf8_2_high|by apply utf8_3_high|by apply utf8_4_high|done]. }
    clear -Hh. unfold lacks, high_bytes in *. eapply all_chars_impl; [|exact Hh].
    intros c Hc%Z.leb_le. destruct (Ascii.eqb_spec c (chr 39)) as [-> |]; [|done].
    by vm_compute in Hc.
Qed.

Lemma shell_quote_end s : shell_quote s = String (chr 39) (shell_body s +:+ squote).
Proof. done. Qed.

Lemma TrimSpace_shell_quote s :
  valid_utf8 s = true → TrimSpace (shell_quote s) = shell_quote s.
Proof.
  intros Hs. rewrite shell_quote_end.
  apply (TrimSpace_id _ _ (chr 39) (squote +:+ shell_body s)); try done.
  apply valid_utf8_app; [done|]. by apply valid_shell_body.
Qed.

(** The flag is found where it was put. *)
Lemma extractFlagArg_quoted pre flag sql :
  ascii_only pre → ascii_only flag → valid_utf8 sql = true →
  cut (ToLower (pre +:+ flag)) flag = Some (ToLower pre, "") →
  extractFlagArg (pre +:+ flag +:+ shell_quote sql) (ToLower (pre +:+ flag +:+ shell_quote sql)) flag
  = Return sql.
Proof.
  intros Hp Hf Hs Hc. unfold extractFlagArg, Index.
  assert (valid_utf8 (pre +:+ flag) = true) as Hv.
  { apply valid_utf8_ascii. by apply ascii_only_app. }
  rewrite <- (app_assoc pre), ToLower_app, (cut_extend _ _ _ _ _ Hc) by done.
  rewrite ToLower_ascii, map_chars_length, app_assoc by done.
  replace (String.length pre + String.length flag)%nat with (String.length (pre +:+ flag))
    by apply length_app_str.
  rewrite <- app_assoc, slice_from_app. cbn [mbind outcome_bind].
  rewrite TrimSpace_shell_quote, shell_quote_end by done.
  change (chr 39 =?c dq) with false. change (chr 39 =?c chr 39) with true. cbv iota.
  rewrite <- (app_nil_r (shell_body sql +:+ squote)) at 2. rewrite app_assoc.
  rewrite quoted_loop_body; [done|done|].
  rewrite length_app_str. pose proof (shell_body_length sql). simpl. lia.
Qed.

(** A query handed over as a psql command line, quoted for a shell, reaches the
    database as it was: the sanitizer undoes the quoting of every text, whatever
    options come before -c. *)
Theorem sanitizeQuery_psql pre sql :
  ascii_only pre → HasPrefix pre "psql" = true →
  cut (ToLower (pre +:+ " -c ")) " -c " = Some (ToLower pre, "") →
  valid_utf8 sql = true → sql ≠ "" → HasPrefix (ToLower sql) (String (chr 92) "copy") = false →
  sanitizeQuery (pre +:+ " -c " +:+ shell_quote sql) = Return sql.
Proof.
  intros Hp Hpsql Hc Hs Hne Hcopy. apply HasPrefix_true in Hpsql as [r ->].
  set (q := ("psql" +:+ r) +:+ " -c " +:+ shell_quote sql).
  assert (TrimSpace q = q) as Eq.
  { unfold q. rewrite shell_quote_end.
    apply (TrimSpace_id (chr 112) _ (chr 39) (("psql" +:+ r) +:+ " -c " +:+ squote +:+ shell_body sql));
      try done.
    - apply valid_utf8_app; [by apply valid_utf8_ascii|].
      apply valid_utf8_app; [done|]. apply valid_utf8_app; [done|]. by apply valid_shell_body.
    - rewrite !app_assoc. done. }
  unfold sanitizeQuery. rewrite Eq.
  assert (HasPrefix (ToLower q) "psql" = true) as ->.
  { unfold q. rewrite ToLower_app by (by apply valid_utf8_ascii). apply HasPrefix_true.
    rewrite (ToLower_app "psql") by done. change (ToLower "psql") with "psql". rewrite app_assoc. eauto. }
  unfold sanitize_psql, q. rewrite extractFlagArg_quoted by done. cbn [mbind outcome_bind].
  apply String.eqb_neq in Hne as ->. by rewrite Hcopy.
Qed.

Lemma sanitizeQuery_psql_witness :
  sanitizeQuery ("psql -h db -U app -c " +:+ shell_quote "SELECT 'it''s'") = Return "SELECT 'it''s'".
Proof.
  apply (sanitizeQuery_psql "psql -h db -U app" "SELECT 'it''s'");
    first [vm_compute; reflexivity|discriminate].
Defined.

(** ** ASCII texts keep their positions *)

Lemma concat_ascii l : Forall ascii_only l → ascii_only (concat_str l).
Proof.
  induction 1 as [|x l Hx _ IH]; [done|]. rewrite concat_str_cons. by apply ascii_only_app.
Qed.

Lemma runes_ascii s : ascii_only s → Forall ascii_only (runes s).
Proof.
  induction s as [|c s IH]; [constructor|]. intros [Hc Hs]%ascii_only_cons.
  rewrite runes_ascii_cons by done. constructor; [|auto]. by apply ascii_only_cons.
Qed.

Lemma drop_while_Forall {A} (P : A → bool) (Q : A → Prop) l : Forall Q l → Forall Q (drop_while P l).
Proof. induction 1 as [|x l Hx Hl IH]; [constructor|]. simpl. destruct (P x); [done|by constructor]. Qed.

Lemma TrimSpace_ascii s : ascii_only s → ascii_only (TrimSpace s).
Proof.
  intros Hs. apply concat_ascii. unfold drop_while_end. apply Forall_reverse, drop_while_Forall.
  by apply Forall_reverse, drop_while_Forall, runes_ascii.
Qed.

Lemma fields_go_ascii acc l : ascii_only acc → Forall ascii_only l → Forall ascii_only (fields_go acc l).
Proof.
  intros Ha Hl. revert acc Ha. induction Hl as [|r l Hr _ IH]; intros acc Ha; cbn [fields_go].
  - destruct (String.eqb acc ""); repeat constructor; done.
  - destruct (is_space r); [destruct (String.eqb acc "")|].
    + by apply IH.
    + constructor; [done|]. by apply IH.
    + apply IH. by apply ascii_only_app.
Qed.

Lemma str_drop_ascii n s : ascii_only s → ascii_only (str_drop n s).
Proof.
  revert s. induction n as [|n IH]; intros [|c s]; try done. intros [_ Hs]%ascii_only_cons. by apply IH.
Qed.

Lemma str_take_ascii n s : ascii_only s → ascii_only (str_take n s).
Proof.
  revert s. induction n as [|n IH]; intros [|c s]; try done. intros [Hc Hs]%ascii_only_cons.
  apply ascii_only_cons. auto.
Qed.

Lemma quoted_loop_ascii n inner acc r :
  ascii_only inner → ascii_only acc → quoted_loop n inner acc = Some r → ascii_only r.
Proof.
  revert inner acc. induction n as [|n IH]; intros inner acc Hi Ha; [done|]. cbn [quoted_loop].
  destruct (cut inner squote) as [[before rest]|] eqn:E; [|by intros [= <-]].
  apply cut_Some in E as ->. apply ascii_only_app in Hi as [Hb [_ Hi]%ascii_only_app].
  destruct (strip_prefix requote rest) as [rest'|] eqn:Er.
  - apply strip_prefix_Some in Er as ->. apply ascii_only_app in Hi as [_ Hi]. apply IH; [done|].
    rewrite !ascii_only_app. done.
  - intros [= <-]. by apply ascii_only_app.
Qed.

Lemma Index_bound s sub i : Index s sub = Some i → (i + String.length sub ≤ String.length s)%nat.
Proof.
  unfold Index. destruct (cut s sub) as [[a b]|] eqn:E; [|done]. intros [= <-].
  apply cut_Some in E as ->. rewrite !length_app_str. lia.
Qed.

Lemma LastIndex_bound s sub i : LastIndex s sub = Some i → (i + String.length sub ≤ String.length s)%nat.
Proof.
  unfold LastIndex. destruct (cut_last s sub) as [[a b]|] eqn:E; [|done]. intros [= <-].
  apply cut_last_Some in E as ->. rewrite !length_app_str. lia.
Qed.

Lemma ToLower_length s : ascii_only s → String.length (ToLower s) = String.length s.
Proof. intros Hs. by rewrite ToLower_ascii, map_chars_length. Qed.

Lemma slice_from_ok n s : (n ≤ String.length s)%nat → slice_from n s = Return (str_drop n s).
Proof. intros Hn. unfold slice_from. by destruct (Nat.leb_spec n (String.length s)); [|lia]. Qed.

Lemma extractFlagArg_ascii q flag :
  ascii_only q → ∃ arg, extractFlagArg q (ToLower q) flag = Return arg ∧ ascii_only arg.
Proof.
  intros Hq. unfold extractFlagArg. destruct (Index (ToLower q) flag) as [i|] eqn:E; [|by exists ""].
  apply Index_bound in E. rewrite ToLower_length in E by done.
  rewrite slice_from_ok by done. cbn [mbind outcome_bind].
  assert (ascii_only (TrimSpace (str_drop (i + String.length flag) q))) as Ha
    by (by apply TrimSpace_ascii, str_drop_ascii).
  destruct (TrimSpace _) as [|c inner]; [by exists ""|].
  pose proof Ha as [_ Hi]%ascii_only_cons. destruct (c =?c dq); [|destruct (c =?c chr 39)].
  - destruct (cut inner (str1 dq)) as [[arg rest]|] eqn:Ec; [|by exists ""].
    apply cut_Some in Ec as ->. apply ascii_only_app in Hi as [Hi _]. eauto.
  - destruct (quoted_loop _ inner "") as [r|] eqn:Er; [|by exists ""].
    exists r. split; [done|]. by apply (quoted_loop_ascii _ _ _ _ Hi (eq_refl : ascii_only "") Er).
  - unfold Fields. pose proof (fields_go_ascii "" (runes (String c inner)) eq_refl (runes_ascii _ Ha)) as HF.
    destruct (fields_go "" (runes (String c inner))) as [|f l]; [by exists ""|].
    apply Forall_cons in HF as [HF _]. eauto.
Qed.

Lemma sanitizeQuery_ascii query : ascii_only query → sanitizeQuery query ≠ Panic.
Proof.
  intros Hq%TrimSpace_ascii. unfold sanitizeQuery. set (q := TrimSpace query) in *.
  destruct (HasPrefix (ToLower q) "psql"); [|destruct (_ || _); [|destruct (HasPrefix (ToLower q) "sqlcmd");
    [|destruct (Index (ToLower q) "| sqlplus") as [i|] eqn:Ei; [|destruct (HasPrefix _ _); [|done]]]]];
    unfold flag_query.
  - unfold sanitize_psql. destruct (extractFlagArg_ascii q " -c " Hq) as (arg & -> & Ha).
    cbn [mbind outcome_bind]. repeat (case_match; try done).
    match goal with H : LastIndex (ToUpper arg) _ = Some _ |- _ => apply LastIndex_bound in H;
      rewrite ToUpper_ascii, map_chars_length in H by done; simpl in H end.
    unfold slice. repeat match goal with H : (_ <=? _)%nat = false |- _ => apply Nat.leb_gt in H end.
    rewrite (proj2 (Nat.leb_le _ _)) by lia. by rewrite (proj2 (Nat.leb_le _ _)) by lia.
  - by destruct (extractFlagArg_ascii q " -e " Hq) as (arg & -> & Ha).
  - by destruct (extractFlagArg_ascii q " -q " Hq) as (arg & -> & Ha).
  - apply Index_bound in Ei. rewrite ToLower_length in Ei by done. simpl in Ei.
    unfold sanitize_pipe, slice. rewrite (proj2 (Nat.leb_le _ _)) by lia. cbn [andb].
    rewrite (proj2 (Nat.leb_le _ _)) by lia. cbn [mbind outcome_bind].
    match goal with |- context [TrimSpace (str_take ?n ?t)] => set (prefix := TrimSpace (str_take n t)) end.
    destruct (HasPrefix (ToLower prefix) "echo ") eqn:Eh; [|done].
    assert (ascii_only prefix) as Hp.
    { by apply TrimSpace_ascii, str_take_ascii. }
    apply HasPrefix_true in Eh as [r Er]. rewrite slice_from_ok; [done|].
    rewrite <- ToLower_length, Er, length_app_str by done. simpl. lia.
  - unfold sanitize_sqlplus. destruct (extractFlagArg_ascii q " -q " Hq) as (arg & -> & Ha).
    cbn [mbind outcome_bind]. case_match; [done|]. destruct (Index q "<<<") as [i|] eqn:Eh; [|done].
    apply Index_bound in Eh. by rewrite slice_from_ok.
Qed.

(** ** A letter whose lower case is longer *)

(** U+023A, two bytes; its lower case U+2C65 has three. *)
Definition wide_letter : string := utf8_encode 570.
Fixpoint wide (n : nat) : string := match n with O => "" | S n => wide_letter +:+ wide n end.

Lemma wide_spec n :
  valid_utf8 (wide n) = true ∧ String.length (wide n) = (2 * n)%nat ∧
  String.length (ToLower (wide n)) = (3 * n)%nat ∧ lacks (chr 32) (ToLower (wide n)).
Proof.
  induction n as [|n (IH1 & IH2 & IH3 & IH4)]; [done|]. cbn [wide].
  rewrite ToLower_app, !length_app_str, IH2, IH3, lacks_app by (by vm_compute).
  split_and!; [by apply valid_utf8_app|simpl; lia| |by vm_compute|done].
  change (String.length (ToLower wide_letter)) with 3%nat. lia.
Qed.

Lemma cut_first a c sep b : lacks c a → cut (a +:+ String c sep +:+ b) (String c sep) = Some (a, b).
Proof.
  induction a as [|x a IH].
  - intros _. rewrite app_nil_l. rewrite app_cons. cbn [cut]. rewrite <- app_cons.
    by rewrite (proj2 (strip_prefix_Some _ _ _) eq_refl).
  - intros [Hx Ha]%lacks_cons. rewrite app_cons. cbn [cut strip_prefix].
    destruct (Ascii.eqb_spec c x); [by subst|]. by rewrite IH.
Qed.

(** C32. The sanitizer computes positions in the lower-case text and uses them on
    the original: on ASCII queries it never panics, but on a psql command line with
    two or more letters whose lower case takes more bytes it does, which ends the
    agent. *)
Theorem sanitizeQuery_panics :
  (∀ query, ascii_only query → sanitizeQuery query ≠ Panic) ∧
  (∀ n, (2 ≤ n)%nat → sanitizeQuery ("psql" +:+ wide n +:+ " -c x") = Panic).
Proof.
  split; [apply sanitizeQuery_ascii|]. intros n Hn.
  destruct (wide_spec n) as (Hv & Hl & Hll & Hs).
  set (q := "psql" +:+ wide n +:+ " -c x").
  assert (TrimSpace q = q) as Eq.
  { apply (TrimSpace_id (chr 112) _ (chr 120) ("psql" +:+ wide n +:+ " -c ")); try done.
    - apply valid_utf8_app; [done|]. by apply valid_utf8_app.
    - by rewrite !app_assoc. }
  assert (ToLower q = ("psql" +:+ ToLower (wide n)) +:+ " -c " +:+ "x") as El.
  { unfold q. rewrite !ToLower_app by done. change (ToLower "psql") with "psql".
    change (ToLower " -c x") with (" -c " +:+ "x"). by rewrite app_assoc. }
  unfold sanitizeQuery. rewrite Eq, El.
  assert (HasPrefix (("psql" +:+ ToLower (wide n)) +:+ " -c " +:+ "x") "psql" = true) as ->.
  { apply HasPrefix_true. rewrite app_assoc. eauto. }
  unfold sanitize_psql, extractFlagArg, Index.
  change " -c " with (String (chr 32) "-c "). rewrite cut_first.
  - unfold slice_from. destruct (Nat.leb_spec
      (String.length ("psql" +:+ ToLower (wide n)) + String.length (String (chr 32) "-c "))
      (String.length q)) as [Hle|_]; [|done].
    unfold q in Hle. rewrite !length_app_str, Hl, Hll in Hle. simpl in Hle. lia.
  - apply lacks_app. split; [by vm_compute|done].
Qed.

(** ** Metadata *)

(** Requests that exercise every metadata statement. *)
Definition metadata_cases : list (gmap string any) :=
  map (λ '(t, f), <["metadata_type" := AStr t]> (<["schema_filter" := AStr f]> ∅))
    [("schemas", ""); ("tables", ""); ("tables", "s"); ("columns", ""); ("columns", "s")].

(** The statements for a kind of database. *)
Definition metadata_statements (t : string) : list string :=
  list_omap _ _ (λ ps, match metadata_query (New t) ps with Ok (q, _) => Some q | Err _ => None end)
    metadata_cases.

Definition db_types : list string := ["postgresql"; "mysql"; "mssql"; "clickhouse"; "oracle"].

Lemma metadata_query_fixed p params q args :
  metadata_query p params = Ok (q, args) → dbType p ∈ db_types ∧ q ∈ metadata_statements (dbType p).
Proof.
  unfold metadata_query. intros H.
  repeat match type of H with
  | (if String.eqb (dbType p) ?t then _ else _) = _ =>
      destruct (String.eqb_spec (dbType p) t) as [E|_]; [rewrite E in *|]
  end; [..|discriminate H].
  all: split; [set_solver|].
  all: repeat match type of H with
    | context [if String.eqb ?a ?b then _ else _] => destruct (String.eqb a b)
    end; try discriminate H; injection H as <- <-; apply (bool_decide_unpack _); vm_compute; exact I.
Qed.

(** None of them looks like a command line. *)
Lemma metadata_statements_clean t q :
  t ∈ db_types → q ∈ metadata_statements t → q ≠ "" ∧ sanitizeQuery q = Return q.
Proof.
  intros Ht. assert (Forall (λ q, negb (String.eqb q "") && match sanitizeQuery q with
    | Return q' => String.eqb q' q | Panic => false end = true) (metadata_statements t)) as HF.
  { unfold db_types in Ht. rewrite !elem_of_cons, elem_of_nil in Ht.
    destruct Ht as [-> |[-> |[-> |[-> |[-> |[]]]]]]; apply (bool_decide_unpack _); vm_compute; exact I. }
  rewrite Forall_forall in HF. intros Hq%HF. apply andb_true_iff in Hq as [H1 H2].
  apply negb_true_iff, String.eqb_neq in H1. split; [done|].
  destruct (sanitizeQuery q); [|done]. by apply String.eqb_eq in H2 as ->.
Qed.

(** C31. A metadata request never puts request data into SQL: it is answered without
    a query, or sends one of the fixed statements of its kind of database, unchanged
    and with a timeout of thirty seconds, and everything that comes from the request
    as separate arguments. *)
Theorem db_metadata_fixed e p c req :
  pool p = Some c → req_Action req = "db_metadata" →
  ∃ r ev, HandleRequest e p req = Return (r, ev) ∧
    (ev = [] ∨ ∃ q args, ev = [Queried c (30 * Second) q args] ∧
                         q ∈ metadata_statements (dbType p) ∧
                         metadata_query p (req_Params req) = Ok (q, args)).
Proof.
  intros Hp Ha. unfold HandleRequest. rewrite Hp, Ha. simpl String.eqb. cbv iota.
  unfold handleMetadata. destruct (metadata_query p (req_Params req)) as [[q args]|err] eqn:Em; [|eauto].
  destruct (metadata_query_fixed _ _ _ _ Em) as [Ht Hq].
  destruct (metadata_statements_clean _ _ Ht Hq) as [Hne Hs].
  unfold handleQuery. cbn [req_Params]. rewrite lookup_insert_eq. cbn [as_string].
  apply String.eqb_neq in Hne as ->. rewrite Hs. cbn [mbind outcome_bind].
  eexists _, _. split; [reflexivity|]. right. exists q, args. split_and!; [|done..].
  unfold query_timeout, positional.
  rewrite !lookup_insert_ne by done. f_equal. destruct args as [|a args].
  - rewrite !lookup_empty. done.
  - rewrite lookup_insert_eq, lookup_insert_ne, lookup_empty by done. done.
Qed.

(** ** Rows *)

Lemma scan_rows_spec maxRows l acc count rs all :
  scan_rows maxRows count l acc = Ok (rs, all) →
  ∃ taken, l = map Ok taken ++ drop (length taken) l ∧ rs = acc ++ taken ∧
           Z.of_nat (length taken) = Z.min (Z.of_nat (length l)) (Z.max 0 (maxRows - count)) ∧
           all = bool_decide (length taken = length l).
Proof.
  revert acc count. induction l as [|r l IH]; intros acc count; cbn [scan_rows].
  - intros [= <- <-]. exists []. rewrite (List.app_nil_r acc).
    split_and!; [done..|simpl; lia|].
    by rewrite bool_decide_eq_true_2.
  - destruct (Z.leb_spec maxRows count).
    + intros [= <- <-]. exists []. rewrite (List.app_nil_r acc). split_and!; [done..|simpl; lia|].
      by rewrite bool_decide_eq_false_2.
    + intros H'. inv_ok. match goal with H : scan_rows _ _ _ _ = _ |- _ => apply IH in H as
        (taken & El & -> & Hn & ->) end.
      eexists (_ :: taken). split_and!.
      * simpl. f_equal. exact El.
      * by rewrite <- List.app_assoc.
      * simpl length. lia.
      * apply bool_decide_ext. simpl. lia.
Qed.

(** A successful query returns exactly the first rows up to max_rows: all of
    them, in order, when there are no more, and none at all for a max_rows that does
    not fit an int64, whose conversion is negative. *)
Theorem db_rows_limited e c req a ev rows cols :
  handleQuery e c req = Return (Ok a, ev) →
  (∀ t q args, e_query e c t q args = Ok rows) → rs_columns rows = Ok cols →
  ∃ rs, (∀ i row, rs !! i = Some row → rs_rows rows !! i = Some (Ok row)) ∧
        Z.of_nat (length rs) =
          Z.min (Z.of_nat (length (rs_rows rows))) (Z.max 0 (max_rows (req_Params req))) ∧
        resp_Data a = marshal_data (marshal_result cols rs (e_elapsed e)) ∧
        (max_rows (req_Params req) = minInt64 → rs = []).
Proof.
  unfold handleQuery. destruct (String.eqb _ ""); [done|]. intros H Hq Hc.
  destruct (sanitizeQuery _) as [q|]; [|done]. cbn [mbind outcome_bind] in H. injection H as H _.
  rewrite Hq in H. cbn [wrap_err mbind result_bind] in H. rewrite Hc in H.
  cbn [wrap_err mbind result_bind] in H. inv_ok. match goal with H : (let '(_, _) := ?x in _) = _ |- _ =>
    destruct x as [rs all] end.
  match goal with H : scan_rows _ _ _ _ = _ |- _ => apply scan_rows_spec in H as
    (taken & El & -> & Hn & _) end.
  destruct (rs_err rows all); [done|]. inv_ok. exists taken. split_and!.
  - intros i row Hi. rewrite El. apply lookup_app_l_Some. by rewrite list_lookup_fmap, Hi.
  - by rewrite Z.sub_0_r in Hn.
  - done.
  - intros Em. rewrite Em in Hn. destruct taken; [done|]. simpl length in Hn.
    unfold minInt64 in Hn. lia.
Qed.

(** ** A small database *)

Definition demo_rows : rows :=
  MkRows (Ok [MkColumn "n" "INT4" false])
    [Ok [CAny (AInt 1)]; Ok [CAny (AInt 2)]; Ok [CAny (AInt 3)]] (λ _, None).
Definition demo_env (rs : rows) : env :=
  MkEnv (λ _ _, Ok 1%nat) (λ _, Ok tt) (λ _ _, Answered (Ok tt)) (λ _ _ _ _, Ok rs) (λ _ _, Ok "16.1")
    (λ _ _ _, Ok 1) 5.
Definition demo_proxy : Proxy :=
  MkProxy (Some 1%nat) "postgresql" (MkConfig "db" 5432 "app" "" false 5 2 300) ∅ ∅ true.
Definition demo_request (action : string) (params : list (string * any)) : ActionRequest :=
  MkRequest "r" "d" action (list_to_map params) "" "" ∅ "".

Definition demo_columns : ActionRequest :=
  demo_request "db_metadata" [("metadata_type", AStr "columns"); ("table_name", AStr "x'; DROP TABLE y; --")].

Lemma db_metadata_fixed_witness :
  ∃ r ev, HandleRequest (demo_env demo_rows) demo_proxy demo_columns = Return (r, ev) ∧
    (ev = [] ∨ ∃ q args, ev = [Queried 1%nat (30 * Second) q args] ∧
                         q ∈ metadata_statements "postgresql" ∧
                         metadata_query demo_proxy (req_Params demo_columns) = Ok (q, args)).
Proof. apply (db_metadata_fixed (demo_env demo_rows) demo_proxy 1%nat demo_columns); reflexivity. Defined.

Definition demo_select : ActionRequest :=
  demo_request "db_query" [("query", AStr "SELECT n FROM t"); ("max_rows", AFloat (S754_finite false 1 1))].
Definition demo_answer : ActionResponse := Eval vm_compute in
  match handleQuery (demo_env demo_rows) 1%nat demo_select with
  | Return (Ok a, _) => a
  | _ => MkResponse 0 "" "" "" "" None
  end.
Definition demo_events : list event := Eval vm_compute in
  match handleQuery (demo_env demo_rows) 1%nat demo_select with Return (_, ev) => ev | Panic => [] end.

Lemma db_rows_limited_witness :
  ∃ rs : list (list cell), Z.of_nat (length rs) = 2.
Proof.
  destruct (db_rows_limited (demo_env demo_rows) 1%nat demo_select demo_answer demo_events demo_rows
              [MkColumn "n" "INT4" false]) as (rs & _ & Hn & _).
  - vm_compute. reflexivity.
  - reflexivity.
  - reflexivity.
  - exists rs. exact Hn.
Defined.

(** A read-only datasource refuses db_execute but sends any statement of db_query. *)
Example read_only_delete :
  match HandleRequest (demo_env demo_rows) demo_proxy
          (demo_request "db_query" [("query", AStr "DELETE FROM t")]) with
  | Return (_, ev) => ev
  | Panic => []
  end = [Queried 1%nat (30 * Second) "DELETE FROM t" []].
Proof. vm_compute. reflexivity. Qed.

(** One NaN among the values empties the answer, which is still a success. *)
Example nan_empties_answer :
  handleQuery (demo_env (MkRows (Ok [MkColumn "x" "FLOAT8" true])
                 [Ok [CAny (AInt 1)]; Ok [CAny (AFloat S754_nan)]] (λ _, None)))
    1%nat demo_select
  = Return (Ok (MkResponse 200 "" "" "" "" None), [Queried 1%nat (30 * Second) "SELECT n FROM t" []]).
Proof. vm_compute. reflexivity. Qed.

(** The command lines named in the code. *)
Example sanitize_copy :
  sanitizeQuery ("psql -h x -c " +:+ str1 dq +:+ String (chr 92) "copy (SELECT 1) TO stdout WITH CSV HEADER" +:+ str1 dq)
  = Return "SELECT 1".
Proof. vm_compute. reflexivity. Qed.
Example sanitize_echo :
  sanitizeQuery ("echo " +:+ str1 dq +:+ "SELECT 1" +:+ str1 dq +:+ " | sqlplus -s u/p@db") = Return "SELECT 1".
Proof. vm_compute. reflexivity. Qed.
Example sanitize_here :
  sanitizeQuery "sqlplus -s u/p@db <<< 'SELECT 1'" = Return "SELECT 1".
Proof. vm_compute. reflexivity. Qed.
Example dsn_mssql :
  buildDSN (MkProxy None "mssql" (MkConfig "db" 1433 "app" "" true 5 2 300) ∅
              (<["username" := "sa"]> (<["password" := "p@ss/1"]> ∅)) false)
  = Ok ("sqlserver://sa:p%40ss%2F1@db:1433?database=app&encrypt=true", "sqlserver").
Proof. vm_compute. reflexivity. Qed.
