(* ===== verification/Mcp.v ===== *)
(** * pkg/proxy/mcp: a Model Context Protocol server

    JSON-RPC over HTTP, with one upstream session per conversation, or over the
    standard streams of a process. The operations on the session table are atomic
    under its lock; requests to the server, which happen outside the lock, are
    arguments. An operation returns the sessions it asks the server to end. *)

From S2P Require Import Prelude GoStrings GoJson GoAny GoBase64 GoTime GoUrl Registry Http.
From Stdlib Require Import SpecFloat.
#[local] Open Scope Z_scope.

Definition sessionIdleTTL : Z := 30 * Minute.
Definition maxTokenSize : Z := 65536.

(** ** State *)

Record mcpSession := MkSession { s_id : string; s_lastUsed : Z }.

Record Proxy := MkProxy {
  transport : string;
  url : string;
  authType : string;
  creds : gmap string string;
  command : string;
  args : string;
  env : gmap string string;
  workingDir : string;
  sessions : gmap string mcpSession;
  sessionlessUntil : Z;
  sweeping : bool;                      (* stopSweep != nil *)
  closed : bool;
  oauthToken : string;
  oauthExpAt : Z;
}.

(** The zero time is long past. *)
Definition New : Proxy :=
  MkProxy "" "" "" ∅ "" "" ∅ "" ∅ minInt64 false false "" minInt64.

Definition set_sessions (p : Proxy) (m : gmap string mcpSession) : Proxy :=
  MkProxy (transport p) (url p) (authType p) (creds p) (command p) (args p) (env p) (workingDir p)
    m (sessionlessUntil p) (sweeping p) (closed p) (oauthToken p) (oauthExpAt p).
Definition set_sessionless (p : Proxy) (t : Z) : Proxy :=
  MkProxy (transport p) (url p) (authType p) (creds p) (command p) (args p) (env p) (workingDir p)
    (sessions p) t (sweeping p) (closed p) (oauthToken p) (oauthExpAt p).
Definition set_token (p : Proxy) (token : string) (expAt : Z) : Proxy :=
  MkProxy (transport p) (url p) (authType p) (creds p) (command p) (args p) (env p) (workingDir p)
    (sessions p) (sessionlessUntil p) (sweeping p) (closed p) token expAt.

(** ** Configuration *)

(** The string members of a map; other values are dropped. *)
Definition string_members (kvs : list (string * any)) : gmap string string :=
  foldl (λ m '(k, v), match v with AStr s => <[k := s]> m | _ => m end) ∅ kvs.

Definition Configure (p : Proxy) (config : gmap string any) (cr : gmap string string)
  : result unit * Proxy :=
  let str k old := match config !! k with Some (AStr s) => s | _ => old end in
  let tr := str "transport" (transport p) in
  let tr := if String.eqb tr "" || String.eqb tr "streamable_http" then "http" else tr in
  let p := MkProxy tr (url p) (str "auth_type" (authType p)) cr (command p) (args p) (env p)
             (workingDir p) (sessions p) (sessionlessUntil p) (sweeping p) (closed p)
             (oauthToken p) (oauthExpAt p) in
  if String.eqb tr "http" || String.eqb tr "sse" then
    let u := str "url" (url p) in
    let p := MkProxy tr u (authType p) (creds p) (command p) (args p) (env p) (workingDir p)
               (sessions p) (sessionlessUntil p) (sweeping p) (closed p)
               (oauthToken p) (oauthExpAt p) in
    if String.eqb u "" then (Err (errorf ("url is required for MCP " +:+ tr +:+ " transport")), p)
    else
      (Ok tt, MkProxy tr u (authType p) (creds p) (command p) (args p) (env p) (workingDir p)
                (sessions p) (sessionlessUntil p) (sweeping p || negb (closed p)) (closed p)
                (oauthToken p) (oauthExpAt p))
  else if String.eqb tr "stdio" then
    let cmd := str "command" (command p) in
    let with_cmd a e w :=
      MkProxy tr (url p) (authType p) (creds p) cmd a e w (sessions p) (sessionlessUntil p)
        (sweeping p) (closed p) (oauthToken p) (oauthExpAt p) in
    if String.eqb cmd "" then
      (Err (errorf "command is required for MCP stdio transport"), with_cmd (args p) (env p) (workingDir p))
    else
      (Ok tt, with_cmd (str "args" (args p))
                (match config !! "env" with Some (AMap kvs) => string_members kvs | _ => env p end)
                (str "working_dir" (workingDir p)))
  else (Err (errorf ("unsupported MCP transport: " +:+ tr)), p).

(** ** Requests and replies *)

(** The text of the JSON-RPC message; a nil map of parameters is [None]. *)
Definition buildRequestBody (body : string) (params : option (gmap string any)) : result string :=
  if negb (String.eqb body "") then Ok body
  else
    match params with
    | None => Err (errorf "no request body or params provided")
    | Some ps =>
        let method := as_string (ps !! "method") in
        let rpc : gmap string any :=
          if String.eqb method "" then ps
          else
            let m : gmap string any :=
              <["jsonrpc" := AStr "2.0"]> (<["id" := AInt 1]> (<["method" := AStr method]> ∅)) in
            match ps !! "params" with
            | Some ANil | None => m
            | Some x => <["params" := x]> m
            end in
        match marshal_any_map rpc with
        | Some j => Ok (json_print j)
        | None => Err json_error
        end
    end.

Definition trim_cr (line : string) : string := TrimSuffix line (str1 (chr 13)).

(** The lines of a text as a Scanner yields them: nothing after a final newline, no
    carriage return at the end, and an error at a line that fills its buffer. *)
Fixpoint scan_lines (l : list string) : list string * bool :=
  match l with
  | [] => ([], true)
  | [last] => if String.eqb last "" then ([], true)
              else if maxTokenSize <=? Z.of_nat (String.length last) then ([], false)
              else ([trim_cr last], true)
  | line :: l =>
      if maxTokenSize <=? Z.of_nat (String.length line) then ([], false)
      else let '(ls, ok) := scan_lines l in (trim_cr line :: ls, ok)
  end.

(** The data of the lines up to "[DONE]"; the flag says whether that was met. *)
Fixpoint sse_data (lines : list string) : string * bool :=
  match lines with
  | [] => ("", false)
  | line :: lines =>
      match strip_prefix "data: " line with
      | Some data =>
          if String.eqb data "[DONE]" then ("", true)
          else let '(rest, done) := sse_data lines in (data +:+ rest, done)
      | None => sse_data lines
      end
  end.

Definition parseSSE (respBody : string) : result string :=
  let '(lines, ok) := scan_lines (Split respBody newline) in
  let '(data, stopped) := sse_data lines in
  if negb ok && negb stopped
  then Err (wrapf "reading MCP SSE stream: " (errorf "bufio.Scanner: token too long"))
  else Ok (if String.eqb data "" then respBody else data).

(** ** Authentication *)

(** How the server answers one request at a time. *)
Definition exchange := request → response + client_error.

Definition set_header (q : request) (k v : string) : request :=
  MkHTTPRequest (hq_Method q) (hq_URL q) (Header_Set (hq_Header q) k v) (hq_Body q).
Definition set_url (q : request) (u : URL) : request :=
  MkHTTPRequest (hq_Method q) u (hq_Header q) (hq_Body q).
Definition SetBasicAuth (q : request) (user pw : string) : request :=
  set_header q "Authorization" ("Basic " +:+ EncodeToString (user +:+ ":" +:+ pw)).

Record tokenResp := MkTokenResp { AccessToken : string; ExpiresIn : Z }.
Definition tokenResp_field (t : tokenResp) (k : string) (v : json) : tokenResp * bool :=
  if key_is "access_token" k then
    let '(x, ok) := dec_string (AccessToken t) v in (MkTokenResp x (ExpiresIn t), ok)
  else if key_is "expires_in" k then
    let '(x, ok) := dec_int (ExpiresIn t) v in (MkTokenResp (AccessToken t) x, ok)
  else (t, true).

(** When a token received now is to be replaced. *)
Definition token_expiry (now expiresIn : Z) : Z :=
  if 0 <? expiresIn then
    let lifetime := wrap64 (expiresIn * Second) in
    let buffer := 30 * Second in
    let buffer := if lifetime ÷ 2 <? buffer then lifetime ÷ 2 else buffer in
    now + wrap64 (lifetime - buffer)
  else now + 5 * Minute.

Definition token_request (p : Proxy) : result request :=
  let tokenURL := cred (creds p) "oauth_token_url" in
  let clientID := cred (creds p) "oauth_client_id" in
  let clientSecret := cred (creds p) "oauth_client_secret" in
  _ ← fail_if (String.eqb tokenURL "" || String.eqb clientID "" || String.eqb clientSecret "")
        (errorf "oauth2 requires oauth_token_url, oauth_client_id, and oauth_client_secret");
  let opt k v (m : gmap string (list string)) := if String.eqb v "" then m else <[k := [v]]> m in
  let data := opt "audience" (cred (creds p) "oauth_audience")
                (opt "scope" (cred (creds p) "oauth_scope")
                   (<["grant_type" := ["client_credentials"]]> ∅)) in
  q ← wrap_err "creating token request: " (NewRequest "POST" tokenURL (Encode data));
  Ok (SetBasicAuth (set_header q "Content-Type" "application/x-www-form-urlencoded")
        clientID clientSecret).

(** The token and when it expires, from the answer of the token endpoint; [now] is
    the time at which it is stored. The decoder reads the first value of the body and
    leaves the rest. *)
Definition read_token (now : Z) (r : response) : result (string * Z) :=
  if negb (hr_StatusCode r =? 200) then
    Err (errorf ("token endpoint returned " +:+ Itoa (hr_StatusCode r) +:+ ": " +:+ hr_Body r))
  else
    match parse_value (S (String.length (hr_Body r))) (hr_Body r) with
    | None => Err (wrapf "decoding token response: " json_error)
    | Some (j, _) =>
        let '(t, ok) := dec_struct tokenResp_field (MkTokenResp "" 0) j in
        _ ← fail_if (negb ok) (wrapf "decoding token response: " json_error);
        _ ← fail_if (String.eqb (AccessToken t) "") (errorf "token endpoint returned empty access_token");
        Ok (AccessToken t, token_expiry now (ExpiresIn t))
    end.

Definition getOAuthToken (x : exchange) (now : Z) (p : Proxy) : result string * Proxy :=
  if negb (String.eqb (oauthToken p) "") && (now <? oauthExpAt p) then (Ok (oauthToken p), p)
  else
    match token_request p with
    | Err e => (Err e, p)
    | Ok q =>
        match x q with
        | inr e => (Err (wrapf "token request failed: " (ce_error e)), p)
        | inl r =>
            match read_token now r with
            | Err e => (Err e, p)
            | Ok (token, expAt) => (Ok token, set_token p token expAt)
            end
        end
    end.

Definition injectAuth (x : exchange) (now : Z) (p : Proxy) (q : request) : result request * Proxy :=
  let cr := cred (creds p) in
  let t := authType p in
  if String.eqb t "basic" then (Ok (SetBasicAuth q (cr "username") (cr "password")), p)
  else if String.eqb t "bearer" then
    (Ok (set_header q "Authorization" ("Bearer " +:+ cr "bearer_token")), p)
  else if String.eqb t "custom_header" then
    (Ok (if String.eqb (cr "custom_header_name") "" then q
         else set_header q (cr "custom_header_name") (cr "custom_header_value")), p)
  else if String.eqb t "api_key" then
    if String.eqb (cr "api_key_location") "query" then
      let u := hq_URL q in
      let query := Encode (<[cr "api_key_name" := [cr "api_key_value"]]> (Query u)) in
      (Ok (set_url q (MkURL (Scheme u) (Opaque u) (User u) (Host u) (Path u) (RawPath u) (OmitHost u)
                        (ForceQuery u) query (Fragment u) (RawFragment u))), p)
    else
      let name := if String.eqb (cr "api_key_name") "" then "X-API-Key" else cr "api_key_name" in
      (Ok (set_header q name (cr "api_key_value")), p)
  else if String.eqb t "oauth2" then
    let '(r, p) := getOAuthToken x now p in
    (token ← wrap_err "oauth2 token: " r; Ok (set_header q "Authorization" ("Bearer " +:+ token)), p)
  else (Ok q, p).

(** ** One message to the server *)

Record httpResponse := MkReply { rp_StatusCode : Z; rp_Data : string; rp_sessionID : string }.

Definition Header_Get (h : header) (k : string) : string :=
  match h !! CanonicalHeaderKey k with Some (v :: _) => v | _ => "" end.

Definition message (body sessionID target : string) : result request :=
  q ← wrap_err "creating MCP request: " (NewRequest "POST" target body);
  let q := set_header q "Content-Type" "application/json" in
  let q := set_header q "Accept" "application/json, text/event-stream" in
  Ok (if String.eqb sessionID "" then q else set_header q "Mcp-Session-Id" sessionID).

Definition read_reply (transport : string) (r : response) : result httpResponse :=
  body ← match hr_BodyError r with
         | Some e => Err (wrapf "reading MCP response: " e)
         | None => Ok (hr_Body r)
         end;
  data ← (if String.eqb transport "sse"
             || Contains (Header_Get (hr_Header r) "Content-Type") "text/event-stream"
          then parseSSE body else Ok body);
  Ok (MkReply (hr_StatusCode r) data (Header_Get (hr_Header r) "Mcp-Session-Id")).

Definition post (x : exchange) (now : Z) (p : Proxy) (body sessionID : string)
  : result httpResponse * Proxy :=
  match message body sessionID (url p) with
  | Err e => (Err e, p)
  | Ok q =>
      match injectAuth x now p q with
      | (Err e, p) => (Err (wrapf "MCP auth: " e), p)
      | (Ok q, p) =>
          match x q with
          | inr e => (Err (wrapf "MCP request failed: " (ce_error e)), p)
          | inl r => (read_reply (transport p) r, p)
          end
      end
  end.

(** ** Sessions *)

(** A nil map of parameters is [None]. *)
Definition sessionKey (params : option (gmap string any)) : string :=
  match params with None => "" | Some ps => as_string (ps !! "session_id") end.

(** What the first locked part of [ensureSession] finds. *)
Inductive begun :=
  | BClosed                    (* errProxyClosed *)
  | BSessionless               (* the server is known to use no sessions *)
  | BLive (id : string)
  | BHandshake.

Definition errProxyClosed : error := MkError "MCP proxy is closed" [TagProxyClosed].

Definition fresh (now : Z) (s : mcpSession) : bool := time_sub now (s_lastUsed s) <? sessionIdleTTL.

Definition ensure_begin (now : Z) (key : string) (p : Proxy) : begun * Proxy * list string :=
  if closed p then (BClosed, p, [])
  else if now <? sessionlessUntil p then (BSessionless, p, [])
  else
    match sessions p !! key with
    | Some s =>
        if fresh now s then
          (BLive (s_id s), set_sessions p (<[key := MkSession (s_id s) now]> (sessions p)), [])
        else (BHandshake, set_sessions p (delete key (sessions p)), [s_id s])
    | None => (BHandshake, p, [])
    end.

(** The server turned out to use no sessions. *)
Definition ensure_sessionless (now : Z) (p : Proxy) : Proxy := set_sessionless p (now + sessionIdleTTL).

(** The last locked part, with the session the handshake has opened. *)
Definition ensure_finish (now : Z) (key id : string) (p : Proxy) : result string * Proxy * list string :=
  if closed p then (Err errProxyClosed, p, [id])
  else
    match sessions p !! key with
    | Some s =>
        if fresh now s then
          (Ok (s_id s), set_sessions p (<[key := MkSession (s_id s) now]> (sessions p)), [id])
        else (Ok id, set_sessions p (<[key := MkSession id now]> (sessions p)), [])
    | None => (Ok id, set_sessions p (<[key := MkSession id now]> (sessions p)), [])
    end.

Definition dropSession (key sessionID : string) (p : Proxy) : Proxy :=
  match sessions p !! key with
  | Some s => if String.eqb (s_id s) sessionID then set_sessions p (delete key (sessions p)) else p
  | None => p
  end.

Definition takeSessions (m : mcpSession → bool) (p : Proxy) : list string * Proxy :=
  (map (λ '(_, s), s_id s) (List.filter (λ '(_, s), m s) (map_to_list (sessions p))),
   set_sessions p (filter (λ '(_, s), m s = false) (sessions p))).

(** One tick of [sweepSessions]. *)
Definition sweep_tick (now : Z) (p : Proxy) : Proxy * list string :=
  let '(ids, p) := takeSessions (λ s, sessionIdleTTL <=? time_sub now (s_lastUsed s)) p in (p, ids).

(** The two locked parts of [Close]. *)
Definition close_begin (p : Proxy) : Proxy :=
  MkProxy (transport p) (url p) (authType p) (creds p) (command p) (args p) (env p) (workingDir p)
    (sessions p) (sessionlessUntil p) false true (oauthToken p) (oauthExpAt p).
Definition close_finish (p : Proxy) : Proxy * list string :=
  let '(ids, p) := takeSessions (λ _, true) p in (p, ids).

(** *** The handshake *)

Definition initBody : string :=
  json_print (JObj [("id", JNum "0"); ("jsonrpc", JStr "2.0"); ("method", JStr "initialize");
    ("params", JObj [("capabilities", JObj []);
                     ("clientInfo", JObj [("name", JStr "forager"); ("version", JStr "1.0.0")]);
                     ("protocolVersion", JStr "2025-03-26")])]).
Definition notifyBody : string :=
  json_print (JObj [("jsonrpc", JStr "2.0"); ("method", JStr "notifications/initialized")]).

(** The session id, whether the server answered definitively without one, and the
    error; [x1] and [x2] are the exchanges of the two messages. *)
Definition initializeSession (x1 x2 : exchange) (now : Z) (p : Proxy)
  : string * bool * option error * Proxy :=
  match post x1 now p initBody "" with
  | (Err e, p) => ("", false, Some (wrapf "initialize: " e), p)
  | (Ok r, p) =>
      if 400 <=? rp_StatusCode r then
        ("", rp_StatusCode r <? 500,
         Some (errorf ("initialize returned HTTP " +:+ Itoa (rp_StatusCode r))), p)
      else if String.eqb (rp_sessionID r) "" then ("", true, None, p)
      else
        let '(_, p) := post x2 now p notifyBody (rp_sessionID r) in
        (rp_sessionID r, false, None, p)
  end.

(** ** Requests *)

(** The exchanges and the clock readings of one call of [ensureSession]. *)
Record ensure_env := MkEnsureEnv { ee_init : exchange; ee_notify : exchange; ee_begin : Z; ee_end : Z }.

Definition ensureSession (w : ensure_env) (key : string) (p : Proxy)
  : string * option error * Proxy * list string :=
  match ensure_begin (ee_begin w) key p with
  | (BClosed, p, ended) => ("", Some errProxyClosed, p, ended)
  | (BSessionless, p, ended) => ("", None, p, ended)
  | (BLive id, p, ended) => (id, None, p, ended)
  | (BHandshake, p, ended) =>
      let '(id, sessionless, err, p) := initializeSession (ee_init w) (ee_notify w) (ee_begin w) p in
      let p := if sessionless then ensure_sessionless (ee_end w) p else p in
      match err with
      | Some e => ("", Some e, p, ended)
      | None =>
          if String.eqb id "" then ("", None, p, ended)
          else
            match ensure_finish (ee_end w) key id p with
            | (Err e, p, ended') => ("", Some e, p, ended ++ ended')
            | (Ok id, p, ended') => (id, None, p, ended ++ ended')
            end
      end
  end.

Definition sessionGone (status : Z) (sessionID : string) : bool :=
  negb (String.eqb sessionID "") && (status =? 404).

Record session_env := MkSessionEnv {
  se_first : ensure_env;
  se_post : exchange;
  se_again : ensure_env;
  se_repost : exchange;
  se_now : Z;
}.

Definition reply (r : httpResponse) : ActionResponse :=
  MkResponse (rp_StatusCode r) "" "" "" (rp_Data r) None.

(** [posted] lists the sessions under which the request itself was sent. *)
Definition handleWithSession (w : session_env) (p : Proxy) (body : string)
    (params : option (gmap string any))
  : result ActionResponse * Proxy * list string * list string :=
  match buildRequestBody body params with
  | Err e => (Err (wrapf "building MCP request body: " e), p, [], [])
  | Ok body =>
      let key := sessionKey params in
      let '(id, err, p, ended) := ensureSession (se_first w) key p in
      if match err with Some e => err_is TagProxyClosed e | None => false end
      then (Err (default errProxyClosed err), p, ended, [])
      else
        match post (se_post w) (se_now w) p body id with
        | (Err e, p) => (Err e, p, ended, [id])
        | (Ok r, p) =>
            if negb (sessionGone (rp_StatusCode r) id) then (Ok (reply r), p, ended, [id])
            else
              let p := dropSession key id p in
              let '(id', err, p, ended') := ensureSession (se_again w) key p in
              match err with
              | Some e => (Err (wrapf "MCP session re-init failed: " e), p, ended ++ ended', [id])
              | None =>
                  match post (se_repost w) (se_now w) p body id' with
                  | (Err e, p) => (Err e, p, ended ++ ended', [id; id'])
                  | (Ok r, p) => (Ok (reply r), p, ended ++ ended', [id; id'])
                  end
              end
        end
  end.

(** [terminateSession]: the request that ends a session, if it can be made. *)
Definition terminateSession (x : exchange) (now : Z) (p : Proxy) (sessionID : string)
  : option request * Proxy :=
  match NewRequest "DELETE" (url p) "" with
  | Err _ => (None, p)
  | Ok q =>
      match injectAuth x now p (set_header q "Mcp-Session-Id" sessionID) with
      | (Err _, p) => (None, p)
      | (Ok q, p) => (Some q, p)
      end
  end.

(** ** A process on standard streams *)

Definition parseArgs (args : string) : list string := if String.eqb args "" then [] else Fields args.

(** os/exec and path/filepath. *)
Class ExecLib := {
  LookPath : string → result string;
  filepath_Base : string → string;
  filepath_IsAbs : string → bool;
  filepath_Join : string → string → string;
}.

Definition validateCommand `{ExecLib} (command workingDir : string) : result string :=
  _ ← fail_if (String.eqb command "") (errorf "command is empty");
  _ ← fail_if (ContainsAny command (bytes [0; 10; 13]))
        (errorf "command contains illegal control characters");
  let pathToCheck :=
    if negb (String.eqb workingDir "") && negb (String.eqb (filepath_Base command) command)
       && negb (filepath_IsAbs command)
    then filepath_Join workingDir command else command in
  wrap_err ("resolving command " +:+ Quote command +:+ ": ") (LookPath pathToCheck).

(** The lines of standard error that are complete, and what is left in the buffer. *)
Definition log_lines (buf : string) : list string * string :=
  let parts := Split buf newline in
  (List.filter (λ l, negb (String.eqb l "")) (removelast parts), List.last parts "").
Definition logWriter_Write (buf p : string) : list string * string := log_lines (buf +:+ p).

(** [start]; [launch] makes the pipes and starts the executable. *)
Definition stdio_start `{ExecLib} (launch : string → list string → gmap string string → string → option error)
    (command : string) (args : list string) (env : gmap string string) (workingDir : string)
  : result unit :=
  resolved ← wrap_err "invalid MCP command: " (validateCommand command workingDir);
  match launch resolved args env workingDir with None => Ok tt | Some e => Err e end.

(** What one call of [send] meets: the state of an exited process, the error of the
    context when it ends before the reply, of the write, and the line read. *)
Record stdio_env := MkStdioEnv {
  io_exited : option string;
  io_done : option error;
  io_write : string → option error;
  io_read : result string;
}.

Definition send (w : stdio_env) (request : string) : result string :=
  match io_exited w with
  | Some st => Err (errorf ("MCP stdio process has exited: " +:+ st))
  | None =>
      match io_done w, io_write w (request +:+ newline) with
      | Some e, _ => Err e
      | None, Some e => Err (wrapf "writing to MCP stdin: " e)
      | None, None => wrap_err "reading from MCP stdout: " (io_read w)
      end
  end.

(** The flag says whether the process is started. *)
Definition handleStdio `{ExecLib} (launch : string → list string → gmap string string → string → option error)
    (w : stdio_env) (started : bool) (p : Proxy) (body : string) (params : option (gmap string any))
  : result ActionResponse * bool :=
  match (if started then Ok tt
         else wrap_err "starting MCP stdio process: "
                (stdio_start launch (command p) (parseArgs (args p)) (env p) (workingDir p))) with
  | Err e => (Err e, false)
  | Ok _ =>
      (body ← wrap_err "building MCP request body: " (buildRequestBody body params);
       line ← wrap_err "MCP stdio request failed: " (send w body);
       Ok (MkResponse 200 "" "" "" line None), true)
  end.

Definition HandleRequest `{ExecLib} (launch : string → list string → gmap string string → string → option error)
    (w : session_env) (io : stdio_env) (started : bool) (p : Proxy) (body : string)
    (params : option (gmap string any)) : result ActionResponse * Proxy * bool :=
  if String.eqb (transport p) "http" || String.eqb (transport p) "sse" then
    let '(r, p, _, _) := handleWithSession w p body params in (r, p, started)
  else if String.eqb (transport p) "stdio" then
    let '(r, started) := handleStdio launch io started p body params in (r, p, started)
  else (Err (errorf ("unsupported transport: " +:+ transport p)), p, started).

(** ** Health *)

Definition pingBody : string :=
  json_print (JObj [("jsonrpc", JStr "2.0"); ("id", JNum "0"); ("method", JStr "ping")]).

(** [alive] is the health of the process, if one was started. *)
Definition HealthCheck (x : exchange) (now : Z) (alive : option (result unit)) (p : Proxy)
  : result unit * Proxy :=
  if String.eqb (transport p) "http" || String.eqb (transport p) "sse" then
    match NewRequest "POST" (url p) pingBody with
    | Err e => (Err e, p)
    | Ok q =>
        match injectAuth x now p (set_header q "Content-Type" "application/json") with
        | (Err e, p) => (Err (wrapf "MCP health check auth: " e), p)
        | (Ok q, p) =>
            match x q with
            | inr e => (Err (wrapf "MCP health check failed: " (ce_error e)), p)
            | inl r =>
                (fail_if (500 <=? hr_StatusCode r)
                   (errorf ("MCP health check returned status " +:+ Itoa (hr_StatusCode r))), p)
            end
        end
    end
  else if String.eqb (transport p) "stdio" then (default (Ok tt) alive, p)
  else (Ok tt, p).

(** [pid] is the process id of a started process. *)
Definition CollectMetadata (pid : option Z) (p : Proxy) : gmap string any :=
  let meta : gmap string any := {["transport" := AStr (transport p)]} in
  if String.eqb (transport p) "http" || String.eqb (transport p) "sse" then
    let meta := <["url" := AStr (url p)]> meta in
    if String.eqb (authType p) "" then meta else <["auth_type" := AStr (authType p)]> meta
  else if String.eqb (transport p) "stdio" then
    let meta := <["command" := AStr (command p)]> meta in
    match pid with Some n => <["pid" := AInt n]> meta | None => meta end
  else meta.
