(* ===== verification/McpFacts.v ===== *)
(** * MCP: every session is accounted for, conversations stay apart *)

From S2P Require Import Prelude GoStrings GoJson GoAny GoTime GoUrl Registry Http Mcp.
From Stdlib Require Import SpecFloat.
#[local] Open Scope Z_scope.

(** ** The sessions a table holds *)

Definition held (m : gmap string mcpSession) : list string := (λ x : string * mcpSession, s_id x.2) <$> map_to_list m.

Lemma held_insert m k s : m !! k = None → held (<[k := s]> m) ≡ₚ s_id s :: held m.
Proof. intros. unfold held. by rewrite map_to_list_insert. Qed.

Lemma held_delete m k s : m !! k = Some s → held m ≡ₚ s_id s :: held (delete k m).
Proof. intros. unfold held. by rewrite <-(map_to_list_delete m k s). Qed.

Lemma held_touch m k s t : m !! k = Some s → held (<[k := MkSession (s_id s) t]> m) ≡ₚ held m.
Proof.
  intros H. rewrite (held_delete _ _ _ H), <-insert_delete_eq.
  by rewrite held_insert by apply lookup_delete_eq.
Qed.

Lemma perm_filter {A} (f : A → bool) l l' : l ≡ₚ l' → List.filter f l ≡ₚ List.filter f l'.
Proof.
  induction 1 as [|x l l' _ IH|x y l|]; cbn [List.filter]; [done|by destruct (f x); rewrite ?IH| |by etrans].
  destruct (f x), (f y); try done. apply Permutation_swap.
Qed.

Lemma held_take f p :
  (takeSessions f p).1 ++ held (sessions (takeSessions f p).2) ≡ₚ held (sessions p).
Proof.
  unfold takeSessions, held. cbn [fst snd sessions set_sessions].
  generalize (sessions p). intros m. induction m as [|k s m Hk IH] using map_ind; [done|].
  pose proof (map_to_list_insert m k s Hk) as Hp.
  rewrite (Permutation_map _ (perm_filter _ _ _ Hp)), map_filter_insert.
  assert (filter (λ '(_, s), f s = false) m !! k = None) as Hf.
  { apply map_lookup_filter_None. by left. }
  rewrite (fmap_Permutation _ _ _ Hp). cbn [List.filter]. case_decide as E; simpl in E.
  2: apply not_false_is_true in E; rewrite delete_id by done.
  all: rewrite E.
  2: { cbn. by rewrite <-IH. }
  - rewrite (fmap_Permutation _ _ _ (map_to_list_insert _ k s Hf)). cbn.
    by rewrite <-IH, Permutation_middle.
Qed.

(** ** Interleavings *)

Record world := MkWorld {
  w_now : Z;                            (* the clock *)
  w_proxy : Proxy;
  w_begun : list (string * Z);          (* handshakes in progress: key, begin *)
  w_pending : list (string * Z * string); (* handshakes answered and not yet stored *)
  w_opened : list (string * string);    (* sessions the server gave out: key, id *)
  w_ended : list string;                (* sessions asked to end *)
  w_dropped : list string;              (* sessions the server no longer knew *)
  w_lost : list string;                 (* sessions named in a reply nobody took them from *)
  w_used : list (string * string);      (* sessions given to requests: key, id *)
  w_swept : bool;                       (* Close has taken the sessions *)
}.

Definition start (t : Z) : world := MkWorld t New [] [] [] [] [] [] [] false.

(** What [dropSession] forgets. *)
Definition forgets (key id : string) (p : Proxy) : list string :=
  match sessions p !! key with
  | Some s => if String.eqb (s_id s) id then [id] else []
  | None => []
  end.

(** The session a response of the server names. *)
Definition named (r : response) : list string :=
  let id := Header_Get (hr_Header r) "Mcp-Session-Id" in if String.eqb id "" then [] else [id].

(** What [initializeSession] makes of the server's response to the handshake: the
    session, and whether the server is taken to use none. The session named by an error
    status, or by a response whose body cannot be read or is no event stream, is lost. *)
Definition handshake_reply (transport : string) (r : response) : option string * bool :=
  match read_reply transport r with
  | Err _ => (None, false)
  | Ok reply =>
      if 400 <=? rp_StatusCode reply then (None, rp_StatusCode reply <? 500)
      else if String.eqb (rp_sessionID reply) "" then (None, true)
      else (Some (rp_sessionID reply), false)
  end.

Lemma read_reply_session tr r reply :
  read_reply tr r = Ok reply → rp_sessionID reply = Header_Get (hr_Header r) "Mcp-Session-Id".
Proof. unfold read_reply. intros (? & _ & (? & _ & [= <-])%bind_Ok)%bind_Ok. done. Qed.

Lemma handshake_reply_named tr r id sl : handshake_reply tr r = (Some id, sl) → named r = [id].
Proof.
  unfold handshake_reply, named. destruct (read_reply tr r) as [reply|] eqn:E; [|done].
  apply read_reply_session in E as <-. destruct (_ <=? _); [done|].
  destruct (String.eqb _ ""); [done|]. by intros [= <- _].
Qed.

(** That is what the handshake ends in, whatever the notification after it does. *)
Lemma initializeSession_reply x1 x2 now p p' q q' r :
  message initBody "" (url p) = Ok q → injectAuth x1 now p q = (Ok q', p') → x1 q' = inl r →
  let '(id, sessionless, _, p2) := initializeSession x1 x2 now p in
  handshake_reply (transport p') r = (if String.eqb id "" then None else Some id, sessionless) ∧
  p2 = match handshake_reply (transport p') r with
       | (Some id, _) => (post x2 now p' notifyBody id).2
       | _ => p'
       end.
Proof.
  intros Hq Ha Hr. unfold initializeSession, post at 1. rewrite Hq, Ha, Hr. unfold handshake_reply.
  destruct (read_reply _ r) as [reply|e]; [|done].
  destruct (400 <=? _); [done|]. destruct (String.eqb (rp_sessionID reply) "") eqn:E; [done|].
  destruct (post x2 now p' notifyBody (rp_sessionID reply)) as [? p2]. by rewrite E.
Qed.

(** The locked parts of the operations, in any order, at times that do not decrease.
    A handshake is over before [sessionIdleTTL] has passed: its messages and its
    tokens are under the two-minute timeout of the client. The server gives out an
    identifier once, in its response to a handshake or, unasked, in that to another
    request, whose Mcp-Session-Id nothing reads. *)
Inductive step : world → world → Prop :=
  | step_configure t now p b q o e d l u sw config cr : now <= t →
      step (MkWorld now p b q o e d l u sw)
           (MkWorld t (Configure p config cr).2 b q o e d l u sw)
  | step_token t now p b q o e d l u sw token expAt : now <= t →
      step (MkWorld now p b q o e d l u sw) (MkWorld t (set_token p token expAt) b q o e d l u sw)
  | step_begin t now p b q o e d l u sw key r p' ids : now <= t →
      ensure_begin t key p = (r, p', ids) →
      step (MkWorld now p b q o e d l u sw)
           (MkWorld t p' (if r is BHandshake then (key, t) :: b else b) q o (ids ++ e) d l
              (if r is BLive id then (key, id) :: u else u) sw)
  | step_opened t now p b1 b2 q o e d l u sw key t0 r id : now <= t →
      handshake_reply (transport p) r = (Some id, false) → id ∉ o.*2 →
      step (MkWorld now p (b1 ++ (key, t0) :: b2) q o e d l u sw)
           (MkWorld t p (b1 ++ b2) ((key, t0, id) :: q) ((key, id) :: o) e d l u sw)
  | step_refused t now p b1 b2 q o e d l u sw key t0 r sessionless : now <= t →
      handshake_reply (transport p) r = (None, sessionless) → Forall (.∉ o.*2) (named r) →
      step (MkWorld now p (b1 ++ (key, t0) :: b2) q o e d l u sw)
           (MkWorld t (if sessionless then ensure_sessionless t p else p) (b1 ++ b2) q
              ((pair key <$> named r) ++ o) e d (named r ++ l) u sw)
  | step_unanswered t now p b1 b2 q o e d l u sw key t0 : now <= t →
      step (MkWorld now p (b1 ++ (key, t0) :: b2) q o e d l u sw)
           (MkWorld t p (b1 ++ b2) q o e d l u sw)
  | step_unasked t now p b q o e d l u sw key r : now <= t → Forall (.∉ o.*2) (named r) →
      step (MkWorld now p b q o e d l u sw)
           (MkWorld t p b q ((pair key <$> named r) ++ o) e d (named r ++ l) u sw)
  | step_finish t now p b q1 q2 o e d l u sw key t0 id r p' ids : now <= t →
      t - t0 < sessionIdleTTL →
      ensure_finish t key id p = (r, p', ids) →
      step (MkWorld now p b (q1 ++ (key, t0, id) :: q2) o e d l u sw)
           (MkWorld t p' b (q1 ++ q2) o (ids ++ e) d l
              (if r is Ok id then (key, id) :: u else u) sw)
  | step_drop t now p b q o e d l u sw key id : now <= t → (key, id) ∈ u →
      step (MkWorld now p b q o e d l u sw)
           (MkWorld t (dropSession key id p) b q o e (forgets key id p ++ d) l u sw)
  | step_tick t now p b q o e d l u sw p' ids : now <= t → sweep_tick t p = (p', ids) →
      step (MkWorld now p b q o e d l u sw) (MkWorld t p' b q o (ids ++ e) d l u sw)
  | step_close t now p b q o e d l u sw : now <= t →
      step (MkWorld now p b q o e d l u sw) (MkWorld t (close_begin p) b q o e d l u sw)
  | step_closed t now p b q o e d l u sw p' ids : now <= t → closed p = true →
      close_finish p = (p', ids) →
      step (MkWorld now p b q o e d l u sw) (MkWorld t p' b q o (ids ++ e) d l u true).

(** A handshake for [key] began at [t0]: what the table holds for it is younger. *)
Definition younger (now : Z) (m : gmap string mcpSession) (key : string) (t0 : Z) : Prop :=
  t0 <= now ∧ ∀ s, m !! key = Some s → t0 <= s_lastUsed s.

Record accounted (w : world) : Prop := MkAccounted {
  acc_unique : NoDup (w_opened w).*2;
  acc_places : (w_opened w).*2 ≡ₚ held (sessions (w_proxy w)) ++ (w_pending w).*2 ++ w_ended w ++ w_dropped w ++ w_lost w;
  acc_held : ∀ k s, sessions (w_proxy w) !! k = Some s → (k, s_id s) ∈ w_opened w;
  acc_pending : ∀ k t id, (k, t, id) ∈ w_pending w → (k, id) ∈ w_opened w;
  acc_used : ∀ k id, (k, id) ∈ w_used w → (k, id) ∈ w_opened w;
  acc_unused : ∀ k id, (k, id) ∈ w_used w → id ∉ w_lost w;
  acc_begun : ∀ k t, (k, t) ∈ w_begun w ++ (w_pending w).*1 → younger (w_now w) (sessions (w_proxy w)) k t;
  acc_swept : w_swept w = true → closed (w_proxy w) = true ∧ sessions (w_proxy w) = ∅;
}.

(** ** One step keeps the account *)

Lemma younger_insert now t m k0 t0 k s :
  younger now m k t0 → now <= t → s_lastUsed s = t → younger t (<[k0 := s]> m) k t0.
Proof.
  intros [? Hs] ? <-. split; [lia|]. intros s'. rewrite lookup_insert_Some. intros [[_ <-]|[_ ?]]; [lia|eauto].
Qed.

Lemma younger_sub now t m m' k t0 : younger now m k t0 → now <= t → m' ⊆ m → younger t m' k t0.
Proof. intros [? Hs] ? Hm. split; [lia|]. intros s Hk. apply Hs. by eapply lookup_weaken. Qed.

Lemma fresh_iff now s : fresh now s = true ↔ now - s_lastUsed s < sessionIdleTTL.
Proof.
  unfold fresh. rewrite Z.ltb_lt. unfold time_sub, sessionIdleTTL, minInt64, maxInt64, Minute, Second. lia.
Qed.

(** A session has one place. *)
Lemma not_lost (o h q e d l : list string) id :
  NoDup o → o ≡ₚ h ++ q ++ e ++ d ++ l → id ∈ h ++ q ++ e ++ d → id ∉ l.
Proof.
  intros Hu Hp Hid. rewrite Hp in Hu.
  assert (h ++ q ++ e ++ d ++ l = (h ++ q ++ e ++ d) ++ l) as E by (by rewrite <-!(assoc_L (++))).
  rewrite E in Hu. apply NoDup_app in Hu as (_ & Hu & _). eauto.
Qed.

Lemma elem_of_held m k s : m !! k = Some s → s_id s ∈ held m.
Proof. intros H. rewrite (held_delete _ _ _ H). by left. Qed.

(** Between two states: the clock moves on, sessions are only forgotten, and what is
    forgotten is asked to end or was unknown to the server. *)
Lemma accounted_shrink now t p p' b q o e d l u sw e' d' sw' :
  accounted (MkWorld now p b q o e d l u sw) → now <= t → sessions p' ⊆ sessions p →
  e' ++ d' ++ held (sessions p') ≡ₚ held (sessions p) →
  (closed p = true → closed p' = true) →
  (sw' = true → sw = true ∨ closed p' = true ∧ sessions p' = ∅) →
  accounted (MkWorld t p' b q o (e' ++ e) (d' ++ d) l u sw').
Proof.
  intros [Hu Hp Hh Hq Hus Hl Hb Hs] Ht Hsub Hperm Hc Hsw; simpl in *. split; simpl; auto.
  - rewrite Hp, <-Hperm. solve_Permutation.
  - intros k s Hk. apply Hh. by eapply lookup_weaken.
  - intros k t0 Hk. eapply younger_sub; eauto.
  - intros [Hsw'|?]%Hsw; [|done]. destruct (Hs Hsw') as [? E]. split; [auto|].
    rewrite E in Hsub. apply (anti_symm (⊆)); [done|apply map_empty_subseteq].
Qed.

(** The server names a session that nobody takes from its response. *)
Lemma accounted_lost now p b q o e d l u sw key r :
  accounted (MkWorld now p b q o e d l u sw) → Forall (.∉ o.*2) (named r) →
  accounted (MkWorld now p b q ((pair key <$> named r) ++ o) e d (named r ++ l) u sw).
Proof.
  unfold named. destruct (String.eqb _ ""); [done|]. generalize (Header_Get (hr_Header r) "Mcp-Session-Id"). intros id.
  intros [Hu Hp Hh Hq Hus Hl Hb Hs] [Hid _]%Forall_cons; simpl in *. split; simpl; auto.
  - by constructor.
  - rewrite Hp. solve_Permutation.
  - intros. right. eauto.
  - intros. right. eauto.
  - intros. right. eauto.
  - intros k i Hi [->|?]%elem_of_cons; [|by eapply Hl]. apply Hid, list_elem_of_fmap. exists (k, id). auto.
Qed.

(** Nothing happens to the sessions. *)
Lemma accounted_idle now t p p' b q o e d l u sw :
  accounted (MkWorld now p b q o e d l u sw) → now <= t → sessions p' = sessions p →
  (closed p = true → closed p' = true) →
  accounted (MkWorld t p' b q o e d l u sw).
Proof.
  intros H Ht Hs Hc. apply (accounted_shrink now t p p' b q o e d l u sw [] [] sw H); rewrite ?Hs; auto.
Qed.

(** A request takes the session of its conversation. *)
Lemma accounted_touch now t p b q o e d l u sw key s :
  accounted (MkWorld now p b q o e d l u sw) → now <= t → closed p = false → sessions p !! key = Some s →
  accounted (MkWorld t (set_sessions p (<[key := MkSession (s_id s) t]> (sessions p)))
               b q o e d l ((key, s_id s) :: u) sw).
Proof.
  intros [Hu Hp Hh Hq Hus Hl Hb Hs] Ht Hc Hk; simpl in *. split; simpl; auto.
  - by rewrite (held_touch _ _ _ t Hk).
  - intros k s'. rewrite lookup_insert_Some. intros [[<- <-]|[_ ?]]; simpl; eauto.
  - intros k id [[= -> ->]|?]%elem_of_cons; eauto.
  - intros k id [[= -> ->]|?]%elem_of_cons; [|eauto].
    eapply not_lost; [done..|]. apply elem_of_app. left. by eapply elem_of_held.
  - intros k t0 Hin. eapply younger_insert; eauto.
  - intros [? _]%Hs. congruence.
Qed.

(** The same for a world in which a handshake of that conversation is over. *)
Lemma accounted_forget now p b q1 q2 o e d l u sw key t0 id :
  accounted (MkWorld now p b (q1 ++ (key, t0, id) :: q2) o e d l u sw) →
  accounted (MkWorld now p b (q1 ++ q2) o (id :: e) d l u sw) ∧
  (key, id) ∈ o ∧ younger now (sessions p) key t0.
Proof.
  intros [Hu Hp Hh Hq Hus Hl Hb Hs]; simpl in *. split_and!; [split; simpl; auto|..].
  - rewrite Hp, !fmap_app, fmap_cons. solve_Permutation.
  - intros k t i Hin. apply (Hq k t i). set_solver.
  - intros k t Hin. apply Hb. rewrite !fmap_app, fmap_cons in *. set_solver.
  - apply (Hq key t0 id). set_solver.
  - apply Hb. rewrite !fmap_app, fmap_cons. set_solver.
Qed.

(** A session is stored under a key that holds none. *)
Lemma accounted_store now t p b q o e d l u sw key id :
  accounted (MkWorld now p b q o (id :: e) d l u sw) → now <= t → closed p = false →
  sessions p !! key = None → (key, id) ∈ o →
  accounted (MkWorld t (set_sessions p (<[key := MkSession id t]> (sessions p)))
               b q o e d l ((key, id) :: u) sw).
Proof.
  intros [Hu Hp Hh Hq Hus Hl Hb Hs] Ht Hc Hk Ho; simpl in *. split; simpl; auto.
  - rewrite held_insert by done. rewrite Hp. simpl. solve_Permutation.
  - intros k s'. rewrite lookup_insert_Some. intros [[<- <-]|[_ ?]]; simpl; eauto.
  - intros k i [[= -> ->]|?]%elem_of_cons; eauto.
  - intros k i [[= -> ->]|?]%elem_of_cons; [|eauto].
    eapply (not_lost _ _ _ (id :: e)); [done..|]. rewrite !elem_of_app. right; right; left. by left.
  - intros k t0 Hin. eapply younger_insert; eauto.
  - intros [? _]%Hs. congruence.
Qed.

Lemma accounted_take now t f p b q o e d l u sw sw' :
  accounted (MkWorld now p b q o e d l u sw) → now <= t →
  (sw' = true → sw = true ∨ closed p = true ∧ ∀ s, f s = true) →
  accounted (MkWorld t (takeSessions f p).2 b q o ((takeSessions f p).1 ++ e) d l u sw').
Proof.
  intros H Ht Hsw.
  apply (accounted_shrink now t p _ b q o e d l u sw _ [] sw' H); [done|apply map_filter_subseteq| |done|].
  - apply held_take.
  - intros [?|[? Hf]]%Hsw; [by left|right]. split; [done|]. simpl.
    apply map_empty. intros k. apply map_lookup_filter_None. right. intros s _. by rewrite Hf.
Qed.

Lemma Configure_sessions p config cr :
  sessions (Configure p config cr).2 = sessions p ∧ closed (Configure p config cr).2 = closed p.
Proof.
  unfold Configure. cbv zeta.
  destruct (_ || _); [destruct (String.eqb _ ""); by split|].
  destruct (String.eqb _ "stdio"); [destruct (String.eqb _ ""); by split|by split].
Qed.

Lemma accounted_begin now t p b q o e d l u sw key r p' ids :
  accounted (MkWorld now p b q o e d l u sw) → now <= t → ensure_begin t key p = (r, p', ids) →
  accounted (MkWorld t p' (if r is BHandshake then (key, t) :: b else b) q o (ids ++ e) d l
               (if r is BLive id then (key, id) :: u else u) sw).
Proof.
  intros H Ht Hr. unfold ensure_begin in Hr.
  destruct (closed p) eqn:Hc; [by injection Hr as <- <- <-; eapply accounted_idle; eauto|].
  destruct (t <? _); [by injection Hr as <- <- <-; eapply accounted_idle; eauto|].
  assert (∀ p', sessions p' !! key = None → accounted (MkWorld t p' b q o (ids ++ e) d l u sw) →
          accounted (MkWorld t p' ((key, t) :: b) q o (ids ++ e) d l u sw)) as Hshake.
  { intros p'' Hn [H1 H2 H3 H4 H5 H6 Hb H7]. split; simpl in *; auto.
    intros k t0 [[= -> ->]|?]%elem_of_cons; [|auto]. split; [lia|]. intros s. by rewrite Hn. }
  destruct (sessions p !! key) as [s|] eqn:Hk; [destruct (fresh t s)|]; injection Hr as <- <- <-.
  - eapply accounted_touch; eauto.
  - apply Hshake; [apply lookup_delete_eq|].
    apply (accounted_shrink now t p _ b q o e d l u sw [s_id s] [] sw H); auto; [apply delete_subseteq|].
    by rewrite (held_delete _ _ _ Hk).
  - apply Hshake; [done|]. eapply accounted_idle; eauto.
Qed.

Lemma accounted_finish now t p b q1 q2 o e d l u sw key t0 id r p' ids :
  accounted (MkWorld now p b (q1 ++ (key, t0, id) :: q2) o e d l u sw) → now <= t →
  t - t0 < sessionIdleTTL → ensure_finish t key id p = (r, p', ids) →
  accounted (MkWorld t p' b (q1 ++ q2) o (ids ++ e) d l (if r is Ok id then (key, id) :: u else u) sw).
Proof.
  intros (H & Ho & [_ Hy])%accounted_forget Ht Hlt Hr. unfold ensure_finish in Hr.
  destruct (closed p) eqn:Hc; [by injection Hr as <- <- <-; eapply accounted_idle; eauto|].
  destruct (sessions p !! key) as [s|] eqn:Hk.
  - assert (fresh t s = true) as Hf by (apply fresh_iff; specialize (Hy s eq_refl); lia).
    rewrite Hf in Hr. injection Hr as <- <- <-. eapply accounted_touch; eauto.
  - injection Hr as <- <- <-. eapply accounted_store; eauto.
Qed.

Lemma accounted_drop now t p b q o e d l u sw key id :
  accounted (MkWorld now p b q o e d l u sw) → now <= t →
  accounted (MkWorld t (dropSession key id p) b q o e (forgets key id p ++ d) l u sw).
Proof.
  intros H Ht. unfold dropSession, forgets.
  destruct (sessions p !! key) as [s|] eqn:Hk; [|by eapply accounted_idle].
  destruct (String.eqb_spec (s_id s) id) as [<- |]; [|by eapply accounted_idle].
  apply (accounted_shrink now t p _ b q o e d l u sw [] [s_id s] sw H); auto; [apply delete_subseteq|].
  by rewrite (held_delete _ _ _ Hk).
Qed.

Lemma accounted_unbegun now p b1 b2 q o e d l u sw key t0 :
  accounted (MkWorld now p (b1 ++ (key, t0) :: b2) q o e d l u sw) →
  accounted (MkWorld now p (b1 ++ b2) q o e d l u sw).
Proof. intros [Hu Hp Hh Hq Hus Hl Hb Hs]; split; simpl in *; auto. intros. apply Hb. set_solver. Qed.

Lemma accounted_opened now t p b1 b2 q o e d l u sw key t0 id :
  accounted (MkWorld now p (b1 ++ (key, t0) :: b2) q o e d l u sw) → now <= t → id ∉ o.*2 →
  accounted (MkWorld t p (b1 ++ b2) ((key, t0, id) :: q) ((key, id) :: o) e d l u sw).
Proof.
  intros [Hu Hp Hh Hq Hus Hl Hb Hs] Ht Hid; simpl in *. split; simpl.
  - by constructor.
  - rewrite Hp. solve_Permutation.
  - intros. right. eauto.
  - intros k t1 i [[= -> -> ->]|?]%elem_of_cons; [left|right; eauto].
  - intros. right. eauto.
  - done.
  - intros k t1 Hin. eapply younger_sub; [|done..]. apply Hb. set_solver.
  - done.
Qed.

Lemma sessions_step w w' : step w w' → accounted w → accounted w'.
Proof.
  intros Hs Ha. destruct Hs as [| | |t now p b1 b2 q o e d l u sw key t0 r id|
    t now p b1 b2 q o e d l u sw key t0 r sessionless Ht Hr Hn|
    t now p b1 b2 q o e d l u sw key t0 Ht| | | |?????????????? Hr| |??????????????? Hr].
  - destruct (Configure_sessions p config cr) as [? Hc]. eapply accounted_idle; [done..|by rewrite Hc].
  - by eapply accounted_idle.
  - by eapply accounted_begin.
  - by eapply accounted_opened.
  - apply accounted_unbegun, (accounted_lost _ _ _ _ _ _ _ _ _ _ key r) in Ha; [|done].
    by destruct sessionless; eapply accounted_idle.
  - apply accounted_unbegun in Ha. by eapply accounted_idle.
  - eapply accounted_idle; [by apply accounted_lost|done..].
  - by eapply accounted_finish.
  - by eapply accounted_drop.
  - injection Hr as <- <-. eapply accounted_take; eauto.
  - by eapply accounted_idle.
  - injection Hr as <- <-. eapply accounted_take; eauto.
Qed.

Lemma accounted_reachable t w : rtc step (start t) w → accounted w.
Proof.
  intros Hr. apply (rtc_invariant step accounted _ _ sessions_step Hr).
  split; simpl; [constructor|done|done|..]; intros; by set_solver.
Qed.

(** C13. In every interleaving of requests, handshakes, idle sweeps, configurations and
    a shutdown, each session the server ever named in a response is in exactly one
    place: held under one key, on its way into the table, handed to [terminateSession]
    exactly once, dropped after the server said it no longer knew it, or lost, which
    happens to the session of a handshake whose response has an error status or a body
    that cannot be read, and to one named in the response to another request. A lost
    session is given to no request; and once a shutdown has taken the sessions and no
    handshake is on its way, only lost ones are left open. *)
Theorem mcp_sessions_accounted t w :
  rtc step (start t) w →
  NoDup (w_opened w).*2 ∧
  (w_opened w).*2 ≡ₚ
    held (sessions (w_proxy w)) ++ (w_pending w).*2 ++ w_ended w ++ w_dropped w ++ w_lost w ∧
  (∀ key id, (key, id) ∈ w_used w → id ∉ w_lost w) ∧
  (w_swept w = true → w_pending w = [] →
   (w_opened w).*2 ≡ₚ w_ended w ++ w_dropped w ++ w_lost w).
Proof.
  intros [Hu Hp _ _ _ Hl _ Hs]%accounted_reachable. split_and!; [done..|].
  intros [_ Hm]%Hs Hq. rewrite Hp, Hm, Hq. done.
Qed.

(** C14. Conversations stay apart: a session given to a request of one key was opened
    for that key, and is never given to a request of another. *)
Theorem mcp_conversations_apart t w k k' id :
  rtc step (start t) w → (k, id) ∈ w_used w → k ≠ k' →
  (k', id) ∉ w_used w ∧ ∀ s, sessions (w_proxy w) !! k' = Some s → s_id s ≠ id.
Proof.
  intros [Hu _ Hh _ Hus _ _ _]%accounted_reachable Hk Hne.
  assert ((k', id) ∉ w_opened w) as Ho.
  { intros Ho'. apply Hus in Hk. apply list_elem_of_lookup in Hk as [i Hi], Ho' as [j Hj].
    assert (i = j) as <-; [|congruence].
    eapply NoDup_lookup; [done|..]; rewrite list_lookup_fmap; [by rewrite Hi|by rewrite Hj]. }
  split; [eauto|]. intros s Hs <-. eauto.
Qed.

(** *** A run: two conversations, one of which is served while the proxy closes *)

Definition demo_start : world := start 0.
Definition demo_held : gmap string mcpSession :=
  <["b" := MkSession "s2" 5]> (<["a" := MkSession "s1" 4]> ∅).
Definition demo_served : world :=
  MkWorld 6 (set_sessions New (<["a" := MkSession "s1" 6]> demo_held)) [("c", 5)] []
    [("b", "s2"); ("a", "s1")] [] [] [] [("a", "s1"); ("b", "s2"); ("a", "s1")] false.
(** A session's response, and one that a proxy on the way has cut short. *)
Definition demo_session (id : string) (broken : option error) : response :=
  MkHTTPResponse 200 {["Mcp-Session-Id" := [id]]} "{}" broken None.

Definition demo_over : world :=
  MkWorld 9 (close_begin New) [] []
    [("c", "s3"); ("d", "s4"); ("b", "s2"); ("a", "s1")]
    ["s3"; "s1"; "s2"] [] ["s4"] [("a", "s1"); ("b", "s2"); ("a", "s1")] true.

Lemma demo_served_reached : rtc step demo_start demo_served.
Proof.
  eapply rtc_l; [eapply (step_begin 1 _ _ _ _ _ _ _ _ _ _ "a"); [|reflexivity]; lia|].
  eapply rtc_l; [eapply (step_begin 2 _ _ _ _ _ _ _ _ _ _ "b"); [|reflexivity]; lia|].
  eapply rtc_l; [eapply (step_opened 3 _ _ [("b", 2)] [] _ _ _ _ _ _ _ "a" 1 (demo_session "s1" None) "s1");
    [lia|reflexivity|by apply not_elem_of_nil]|].
  eapply rtc_l; [eapply (step_opened 3 _ _ [] [] _ _ _ _ _ _ _ "b" 2 (demo_session "s2" None) "s2");
    [lia|reflexivity|]|].
  { simpl. by intros [?|[]%elem_of_nil]%elem_of_cons. }
  eapply rtc_l; [eapply (step_finish 4 _ _ _ [("b", 2, "s2")] [] _ _ _ _ _ _ "a" 1 "s1"); [..|reflexivity];
    vm_compute; congruence|].
  eapply rtc_l; [eapply (step_finish 5 _ _ _ [] [] _ _ _ _ _ _ "b" 2 "s2"); [..|reflexivity];
    vm_compute; congruence|].
  eapply rtc_l; [eapply (step_begin 5 _ _ _ _ _ _ _ _ _ _ "c"); [|reflexivity]; lia|].
  eapply rtc_l; [eapply (step_begin 6 _ _ _ _ _ _ _ _ _ _ "a"); [|reflexivity]; lia|].
  apply rtc_refl.
Qed.

Lemma demo_over_reached : rtc step demo_start demo_over.
Proof.
  etrans; [apply demo_served_reached|].
  eapply rtc_l; [eapply (step_begin 6 _ _ _ _ _ _ _ _ _ _ "d"); [|reflexivity]; lia|].
  eapply rtc_l; [eapply (step_refused 7 _ _ [] [("c", 5)] _ _ _ _ _ _ _ "d" 6
    (demo_session "s4" (Some (errorf "unexpected EOF"))) false); [lia|reflexivity|]|].
  { apply Forall_singleton. simpl. by intros [?|[?|[]%elem_of_nil]%elem_of_cons]%elem_of_cons. }
  eapply rtc_l; [eapply (step_close 7); lia|].
  eapply rtc_l; [eapply (step_closed 7); [lia|reflexivity..]|].
  eapply rtc_l; [eapply (step_opened 8 _ _ [] [] _ _ _ _ _ _ _ "c" 5 (demo_session "s3" None) "s3");
    [lia|reflexivity|]|].
  { simpl. by intros [?|[?|[?|[]%elem_of_nil]%elem_of_cons]%elem_of_cons]%elem_of_cons. }
  eapply rtc_l; [eapply (step_finish 9 _ _ _ [] [] _ _ _ _ _ _ "c" 5 "s3"); [..|reflexivity];
    vm_compute; congruence|].
  apply rtc_refl.
Qed.

Lemma mcp_sessions_accounted_witness :
  (w_opened demo_over).*2 ≡ₚ ["s3"; "s1"; "s2"] ++ [] ++ ["s4"].
Proof.
  exact (proj2 (proj2 (proj2 (mcp_sessions_accounted 0 demo_over demo_over_reached))) eq_refl eq_refl).
Defined.

Lemma mcp_conversations_apart_witness : ("b", "s1") ∉ w_used demo_served ∧ "s2" ≠ "s1".
Proof.
  destruct (mcp_conversations_apart 0 demo_served "a" "b" "s1" demo_served_reached) as [H H'];
    [left|done|]. split; [done|]. by apply (H' (MkSession "s2" 5)).
Defined.

(** ** Event streams *)

Definition sse_lines (d : string) : list string := ["event: message"; "data: " +:+ d; ""].
Definition sse_event (d : string) : string := concat_str (map (λ l, l +:+ newline) (sse_lines d)).
Definition sse_stream (ds : list string) : string := concat_str (map sse_event ds).

(** A payload a server may put on one line. *)
Definition on_one_line (d : string) : Prop := lacks (chr 10) d ∧ lacks (chr 13) d ∧ d ≠ "" ∧ d ≠ "[DONE]".

Definition slen (l : string) : Z := Z.of_nat (String.length l).
Definition short (l : string) : Prop := slen l < maxTokenSize.

Lemma trim_cr_id l : lacks (chr 13) l → trim_cr l = l.
Proof. intros H. unfold trim_cr, TrimSuffix. by rewrite cut_last_char_None. Qed.

Lemma scan_lines_cons l ls :
  ls ≠ [] → scan_lines (l :: ls) =
  if maxTokenSize <=? slen l then ([], false)
  else (trim_cr l :: (scan_lines ls).1, (scan_lines ls).2).
Proof.
  destruct ls as [|l' ls]; [done|]. intros _.
  change (scan_lines (l :: l' :: ls)) with
    (if maxTokenSize <=? slen l then ([], false)
     else let '(ls, ok) := scan_lines (l' :: ls) in (trim_cr l :: ls, ok)).
  destruct (_ <=? _); [done|]. by destruct (scan_lines (l' :: ls)).
Qed.

(** Whole lines are scanned one by one. *)
Lemma scan_lines_app ls ls' :
  ls' ≠ [] → Forall (λ l, lacks (chr 13) l ∧ short l) ls →
  scan_lines (ls ++ ls') = (ls ++ (scan_lines ls').1, (scan_lines ls').2).
Proof.
  intros Hne. induction 1 as [|l ls [Hl Hs] _ IH]; [cbn [app]; by destruct (scan_lines ls')|].
  cbn [app]. rewrite scan_lines_cons by (by destruct ls). rewrite IH, trim_cr_id by done.
  by rewrite (proj2 (Z.leb_gt _ _)) by exact Hs.
Qed.

Lemma Split_lines ls rest :
  Forall (lacks (chr 10)) ls →
  Split (concat_str (map (λ l, l +:+ newline) ls) +:+ rest) newline = ls ++ Split rest newline.
Proof.
  induction 1 as [|l ls Hl _ IH]; [done|]. cbn [map app]. rewrite concat_str_cons, Split_unfold by done.
  change newline with (str1 (chr 10)). rewrite !app_assoc.
  change (str1 (chr 10) +:+ ?x) with (String (chr 10) ("" +:+ x)). rewrite app_nil_l, cut_char by done.
  by f_equal.
Qed.

Lemma sse_stream_lines ds :
  sse_stream ds = concat_str (map (λ l, l +:+ newline) (flat_map sse_lines ds)).
Proof.
  unfold sse_stream. induction ds as [|d ds IH]; [done|]. cbn [map flat_map].
  by rewrite concat_str_cons, IH, map_app, concat_str_app.
Qed.

Lemma sse_data_app ds rest :
  Forall on_one_line ds →
  sse_data (flat_map sse_lines ds ++ rest)
  = (concat_str ds +:+ (sse_data rest).1, (sse_data rest).2).
Proof.
  induction 1 as [|d ds (_ & _ & _ & Hd) _ IH].
  - cbn [flat_map app]. rewrite app_nil_l. by destruct (sse_data rest).
  - cbn [flat_map app sse_lines sse_data].
    change (strip_prefix "data: " "event: message") with (@None string).
    change (strip_prefix "data: " "") with (@None string).
    rewrite (proj2 (strip_prefix_Some "data: " ("data: " +:+ d) d) eq_refl).
    apply String.eqb_neq in Hd as ->. rewrite IH. by rewrite concat_str_cons, app_assoc.
Qed.

Lemma slen_data d : slen ("data: " +:+ d) = slen d + 6.
Proof. unfold slen. rewrite length_app_str. change (String.length "data: ") with 6%nat. lia. Qed.

Lemma sse_lines_fit ds :
  Forall on_one_line ds → Forall (λ d, slen d < maxTokenSize - 6) ds →
  Forall (λ l, lacks (chr 13) l ∧ short l) (flat_map sse_lines ds).
Proof.
  intros H Hs. induction Hs as [|d ds Hd _ IH]; [done|]. apply Forall_cons in H as [(_ & Hcr & _) H].
  cbn [flat_map]. apply Forall_app. split; [|auto]. unfold sse_lines, short.
  repeat constructor; rewrite ?lacks_app, ?slen_data; done || (unfold maxTokenSize in *; lia).
Qed.

Lemma sse_lines_lack ds : Forall on_one_line ds → Forall (lacks (chr 10)) (flat_map sse_lines ds).
Proof.
  induction 1 as [|d ds [Hd _] _ IH]; [done|]. cbn [flat_map]. apply Forall_app. split; [|auto].
  unfold sse_lines. repeat constructor. by apply lacks_app.
Qed.

Lemma concat_nonempty ds d : d ∈ ds → d ≠ "" → concat_str ds ≠ "".
Proof.
  intros Hd Hne. induction ds as [|d' ds IH]; [by apply not_elem_of_nil in Hd|]. rewrite concat_str_cons.
  destruct d'; [|by rewrite app_cons]. rewrite app_nil_l.
  apply elem_of_cons in Hd as [?|?]; [done|auto].
Qed.

(** The reply carried by an event stream arrives whole: the payloads of its
    events, joined, whatever their number; unless an event is too long for the line
    reader (65530 bytes of payload or more), and then the request fails and no partial
    reply is returned. *)
Theorem mcp_sse_payload ds :
  ds ≠ [] → Forall on_one_line ds →
  (Forall (λ d, slen d < maxTokenSize - 6) ds → parseSSE (sse_stream ds) = Ok (concat_str ds)) ∧
  (∀ ds1 d ds2, ds = ds1 ++ d :: ds2 →
     Forall (λ d, slen d < maxTokenSize - 6) ds1 → maxTokenSize - 6 <= slen d →
     ∃ e, parseSSE (sse_stream ds) = Err e).
Proof.
  intros Hne Hl.
  assert (Split (sse_stream ds) newline = flat_map sse_lines ds ++ [""]) as Hsplit.
  { rewrite sse_stream_lines. rewrite <-(app_nil_r (concat_str _)).
    by rewrite Split_lines by (by apply sse_lines_lack). }
  split; [intros Hs|intros ds1 d ds2 -> Hs Hd]; unfold parseSSE; rewrite Hsplit.
  - rewrite scan_lines_app by (done || by apply sse_lines_fit). cbn [scan_lines fst snd].
    change (String.eqb "" "") with true. cbv iota. cbn [fst snd].
    rewrite sse_data_app by done. cbn [sse_data fst snd]. rewrite app_nil_r. cbv iota. cbn [negb andb].
    destruct ds as [|d ds]; [done|]. apply Forall_cons in Hl as [(_ & _ & Hd & _) _].
    by rewrite (proj2 (String.eqb_neq _ _)) by (eapply concat_nonempty; [left|done]).
  - apply Forall_app in Hl as [Hl1 _].
    rewrite flat_map_app, <-List.app_assoc, scan_lines_app by (done || by apply sse_lines_fit).
    change (flat_map sse_lines (d :: ds2) ++ [""])
      with ("event: message" :: ("data: " +:+ d) :: "" :: flat_map sse_lines ds2 ++ [""]).
    rewrite scan_lines_cons by done.
    change (maxTokenSize <=? slen "event: message") with false. cbv iota. cbn [fst snd].
    rewrite scan_lines_cons by done.
    rewrite slen_data, (proj2 (Z.leb_le maxTokenSize _)) by lia.
    cbv iota. cbn [fst snd]. rewrite sse_data_app by done. cbn [sse_data].
    change (strip_prefix "data: " (trim_cr "event: message")) with (@None string). cbv iota. cbn [fst snd negb andb].
    eauto.
Qed.

Lemma mcp_sse_payload_witness : parseSSE (sse_stream ["{}"; "[1]"]) = Ok "{}[1]".
Proof.
  assert (Forall on_one_line ["{}"; "[1]"]) as Hl by (repeat constructor; discriminate).
  refine (proj1 (mcp_sse_payload ["{}"; "[1]"] _ Hl) _); [discriminate|by repeat constructor].
Defined.

(** ** Replays *)

Lemma post_answered x now p body id rp p' :
  post x now p body id = (Ok rp, p') → ∃ q r, x q = inl r ∧ hr_StatusCode r = rp_StatusCode rp.
Proof.
  unfold post. destruct (message body id (url p)) as [q|]; [|done].
  destruct (injectAuth x now p q) as [[q'|] p1]; [|done].
  destruct (x q') as [r|] eqn:E; [|done]. intros [= H _]. exists q', r. split; [done|].
  unfold read_reply in H. inv_ok. done.
Qed.

(** A request is sent to the server at most twice, and a second time only when the
    server answered the first with 404 under a session; a request that is not sent at
    all fails. *)
Theorem mcp_replayed_once w p body params r p' ended posted :
  handleWithSession w p body params = (r, p', ended, posted) →
  match posted with
  | [] => ∃ e, r = Err e
  | [id] => True
  | [id; _] => id ≠ "" ∧ ∃ q h, se_post w q = inl h ∧ hr_StatusCode h = 404
  | _ => False
  end.
Proof.
  unfold handleWithSession. destruct (buildRequestBody body params) as [b|e]; [|by intros [= <- _ _ <-]; eauto].
  destruct (ensureSession (se_first w) _ p) as [[[id err] p1] ended1].
  destruct (match err with Some e => err_is TagProxyClosed e | None => false end);
    [by intros [= <- _ _ <-]; eauto|].
  destruct (post (se_post w) (se_now w) p1 b id) as [[rp|e] p2] eqn:Hpost; [|by intros [= _ _ _ <-]].
  destruct (sessionGone (rp_StatusCode rp) id) eqn:Hg; simpl; [|by intros [= _ _ _ <-]].
  apply andb_true_iff in Hg as [Hid%negb_true_iff%String.eqb_neq Hs%Z.eqb_eq].
  apply post_answered in Hpost as (q & h & Hq & Hh).
  assert (id ≠ "" ∧ ∃ q h, se_post w q = inl h ∧ hr_StatusCode h = 404) as Hgone.
  { split; [done|]. exists q, h. by rewrite Hh. }
  destruct (ensureSession (se_again w) _ _) as [[[id' err'] p3] ended'].
  destruct err'; [by intros [= _ _ _ <-]|].
  by destruct (post (se_repost w) (se_now w) p3 b id') as [[rp'|e] p4]; intros [= _ _ _ <-].
Qed.

(** ** Tokens *)

(** A cached token is never used past the lifetime its server gave it, also when
    that lifetime overflows the nanoseconds of a duration; without overflow it is
    replaced thirty seconds early, or half-way through a lifetime under a minute. *)
Theorem mcp_token_within_lifetime now expiresIn :
  0 < expiresIn <= maxInt64 →
  token_expiry now expiresIn < now + expiresIn * Second ∧
  (expiresIn * Second <= maxInt64 →
   token_expiry now expiresIn = now + expiresIn * Second - Z.min (30 * Second) (expiresIn * Second / 2)).
Proof.
  intros [H0 H1]. unfold token_expiry. rewrite (proj2 (Z.ltb_lt _ _)) by done. cbv zeta.
  assert (expiresIn * Second <= maxInt64 → wrap64 (expiresIn * Second) = expiresIn * Second) as Hid.
  { intros. apply wrap64_id. unfold in_int64, minInt64, Second in *. lia. }
  assert (wrap64 (expiresIn * Second) <= expiresIn * Second) as Hle.
  { unfold wrap64. pose proof (Z.mod_le (expiresIn * Second - minInt64) 18446744073709551616).
    unfold minInt64, Second in *. lia. }
  pose proof (wrap64_range (expiresIn * Second)) as Hr. revert Hid Hle Hr.
  assert (Second <= expiresIn * Second) as HL by (unfold Second; lia). revert HL.
  generalize (wrap64 (expiresIn * Second)) as l. generalize (expiresIn * Second) as L.
  intros L l HL Hid Hle Hr.
  assert (in_int64 (l - (if l ÷ 2 <? 30 * Second then l ÷ 2 else 30 * Second))) as Hin.
  { destruct (Z.ltb_spec (l ÷ 2) (30 * Second)); unfold in_int64, minInt64, maxInt64, Second in *;
      Z.to_euclidean_division_equations; lia. }
  rewrite (wrap64_id _ Hin). clear Hin. unfold in_int64, minInt64, maxInt64, Second in *.
  destruct (Z.ltb_spec (l ÷ 2) (30 * 1000000000)); split; intros; try rewrite (Hid ltac:(done)) in *;
    Z.to_euclidean_division_equations; lia.
Qed.

Lemma mcp_token_within_lifetime_witness : token_expiry 0 3600 = 3570 * Second.
Proof.
  transitivity (0 + 3600 * Second - Z.min (30 * Second) (3600 * Second / 2)); [|reflexivity].
  apply (mcp_token_within_lifetime 0 3600); [split|]; vm_compute; congruence.
Defined.

(** A server that forgot the session once: the request is sent again under a new one. *)
Definition demo_reply (status : Z) (id data : string) : exchange := λ _,
  inl (MkHTTPResponse status (Header_Set ∅ "Mcp-Session-Id" id) data None None).
Definition demo_opening (id : string) : ensure_env :=
  MkEnsureEnv (demo_reply 200 id "{}") (demo_reply 202 "" "") 1 2.
Definition demo_request : session_env :=
  MkSessionEnv (demo_opening "s1") (demo_reply 404 "" "gone") (demo_opening "s2") (demo_reply 200 "" "done") 3.
Definition demo_http : Proxy := (Configure New {["url" := AStr "http://mcp.internal/rpc"]} ∅).2.

Example demo_replay :
  let '(r, p, ended, posted) := handleWithSession demo_request demo_http "{}" None in
  r = Ok (MkResponse 200 "" "" "" "done" None) ∧ posted = ["s1"; "s2"] ∧ ended = [] ∧
  held (sessions p) = ["s2"].
Proof. vm_compute. by split_and!. Qed.

Lemma mcp_replayed_once_witness :
  "s1" ≠ "" ∧ ∃ q h, se_post demo_request q = inl h ∧ hr_StatusCode h = 404.
Proof.
  apply (mcp_replayed_once demo_request demo_http "{}" None (Ok (MkResponse 200 "" "" "" "done" None))
           (handleWithSession demo_request demo_http "{}" None).1.1.2 [] ["s1"; "s2"]).
  vm_compute. reflexivity.
Defined.
