(* ===== verification/McpProcess.v ===== *)
(** * pkg/proxy/mcp/stdio.go, stdio_unix.go, stdio_windows.go: a process shared by requests

    The calls of [send] that share one process: each takes the mutex, starts a
    goroutine that writes the request and reads a line, and waits for it or for the end
    of its context; the goroutine of a call that was given up goes on. Then the health
    of the process, how it is closed, and how the first request starts it. *)

From S2P Require Import Prelude GoStrings GoTime.
#[local] Open Scope nat_scope.

(** ** os/exec *)

Inductive wait_status := ExitStatus (code : Z) | Signaled (sig : string).

(** A process that has ended stays with the system until [Wait] collects its status. *)
Inductive process := Running | Zombie (w : wait_status) | Reaped (w : wait_status).

Definition ProcessState (p : process) : option wait_status :=
  match p with Reaped w => Some w | _ => None end.

Definition ProcessState_String (w : wait_status) : string :=
  match w with
  | ExitStatus code => "exit status " +:+ Itoa code
  | Signaled sig => "signal: " +:+ sig
  end.

(** False for a process that a signal ended. *)
Definition Exited (w : wait_status) : bool :=
  match w with ExitStatus _ => true | Signaled _ => false end.

Definition Wait_error (w : wait_status) : option error :=
  match w with
  | ExitStatus 0 => None
  | _ => Some (errorf (ProcessState_String w))
  end.

(** ** Requests *)

(** What a goroutine has left to do. *)
Inductive phase := Writing (request : string) | Reading.

(** The process and its pipes, line by line; the server's history. The other ends of the
    pipes may be held by the processes that the server has started, also when it has
    ended; they are let go of when the last of them has closed its copy. *)
Record server := MkServer {
  stdin : list string;
  stdout : list string;
  proc : process;
  stdin_open : bool;      (* our end of its input *)
  reader_held : bool;     (* someone has the end its input is read from *)
  writer_held : bool;     (* someone has the end its output is written to *)
  pipes_closed : bool;    (* [Wait] has closed our ends *)
  served : list string;
}.

(** The calls of [send], numbered in the order in which they were made. *)
Record stdio := MkStdio {
  waiting : list (nat * string);       (* at the mutex *)
  holder : option nat;                 (* in the select *)
  goroutines : list (nat * phase);
  ch : list (nat * result string);     (* results sent and not received *)
  srv : server;
  (* history *)
  called : list string;
  wrote : list (nat * string);         (* requests, in the order of their writes *)
  taken : list (nat * string);         (* lines, and the goroutine that read each *)
  returned : list (nat * result string);
  cancelled : list nat;
}.

Definition started : stdio := MkStdio [] None [] [] (MkServer [] [] Running true true true false []) [] [] [] [] [].

Definition set_srv (s : stdio) (v : server) : stdio :=
  MkStdio (waiting s) (holder s) (goroutines s) (ch s) v
    (called s) (wrote s) (taken s) (returned s) (cancelled s).

Definition call_send (s : stdio) (request : string) : stdio :=
  MkStdio (waiting s ++ [(length (called s), request)]) (holder s) (goroutines s) (ch s) (srv s)
    (called s ++ [request]) (wrote s) (taken s) (returned s) (cancelled s).

(** The mutex is taken, the state of the process checked and the goroutine started. *)
Definition send_enter (s : stdio) (n : nat) (request : string) (rest : list (nat * string)) : stdio :=
  match ProcessState (proc (srv s)) with
  | Some w =>
      if Exited w then
        MkStdio rest None (goroutines s) (ch s) (srv s) (called s) (wrote s) (taken s)
          (returned s ++ [(n, Err (errorf ("MCP stdio process has exited: " +:+ ProcessState_String w)))])
          (cancelled s)
      else
        MkStdio rest (Some n) (goroutines s ++ [(n, Writing request)]) (ch s) (srv s)
          (called s) (wrote s) (taken s) (returned s) (cancelled s)
  | None =>
      MkStdio rest (Some n) (goroutines s ++ [(n, Writing request)]) (ch s) (srv s)
        (called s) (wrote s) (taken s) (returned s) (cancelled s)
  end.

(** The lines of a request with its line feed. *)
Definition request_lines (request : string) : list string := Split request newline.

Definition server_input (v : server) (request : string) : server :=
  MkServer (stdin v ++ request_lines request) (stdout v) (proc v) (stdin_open v)
    (reader_held v) (writer_held v) (pipes_closed v) (served v).

Definition goroutine_wrote (s : stdio) (n : nat) (request : string) (g1 g2 : list (nat * phase)) : stdio :=
  MkStdio (waiting s) (holder s) (g1 ++ (n, Reading) :: g2) (ch s) (server_input (srv s) request)
    (called s) (wrote s ++ [(n, request)]) (taken s) (returned s) (cancelled s).

(** The goroutine sends its result and ends. *)
Definition goroutine_ends (s : stdio) (n : nat) (r : result string) (g : list (nat * phase)) : stdio :=
  MkStdio (waiting s) (holder s) g (ch s ++ [(n, r)]) (srv s)
    (called s) (wrote s) (taken s) (returned s) (cancelled s).

(** [ReadBytes] returns the line with its line feed. *)
Definition goroutine_read (s : stdio) (n : nat) (line : string) (rest : list string) (g : list (nat * phase)) : stdio :=
  let v := srv s in
  MkStdio (waiting s) (holder s) g (ch s ++ [(n, Ok (line +:+ newline))])
    (MkServer (stdin v) rest (proc v) (stdin_open v)
       (reader_held v) (writer_held v) (pipes_closed v) (served v))
    (called s) (wrote s) (taken s ++ [(n, line)]) (returned s) (cancelled s).

(** The call returns, and its mutex is free. *)
Definition send_return (s : stdio) (n : nat) (r : result string) (c : list (nat * result string)) : stdio :=
  MkStdio (waiting s) None (goroutines s) c (srv s)
    (called s) (wrote s) (taken s) (returned s ++ [(n, r)]) (cancelled s).

Definition send_cancel (s : stdio) (n : nat) (e : error) : stdio :=
  MkStdio (waiting s) None (goroutines s) (ch s) (srv s)
    (called s) (wrote s) (taken s) (returned s ++ [(n, Err e)]) (cancelled s ++ [n]).

(** What the server does with its next line, given the lines before. *)
Definition serve_line (serve : list string → string → list string) (v : server) (line : string) (rest : list string)
  : server :=
  MkServer rest (stdout v ++ serve (served v) line) (proc v) (stdin_open v)
    (reader_held v) (writer_held v) (pipes_closed v) (served v ++ [line]).

Definition set_proc (v : server) (p : process) : server :=
  MkServer (stdin v) (stdout v) p (stdin_open v) (reader_held v) (writer_held v) (pipes_closed v) (served v).
Definition close_stdin (v : server) : server :=
  MkServer (stdin v) (stdout v) (proc v) false (reader_held v) (writer_held v) (pipes_closed v) (served v).

(** The ends on the server's side that are still held. *)
Definition still_held (v : server) (reader writer : bool) : server :=
  MkServer (stdin v) (stdout v) (proc v) (stdin_open v)
    (reader_held v && reader) (writer_held v && writer) (pipes_closed v) (served v).
Definition close_pipes (v : server) : server :=
  MkServer (stdin v) (stdout v) (proc v) (stdin_open v) (reader_held v) (writer_held v) true (served v).

Definition ended (p : process) : bool := match p with Running => false | _ => true end.

(** A goroutine of a call, and the call that waits for it: the steps that need neither
    the server nor anyone outside. A write fails when nobody has the end to read from,
    or our end is closed; a read when nobody has the end to write to and no line is
    left, or when [Wait] has closed our end. That the process has ended is not enough. *)
Inductive send_step : stdio → stdio → Prop :=
  | step_enter s w1 n request w2 :
      holder s = None → waiting s = w1 ++ (n, request) :: w2 →
      send_step s (send_enter s n request (w1 ++ w2))
  | step_wrote s g1 n request g2 :
      goroutines s = g1 ++ (n, Writing request) :: g2 →
      reader_held (srv s) = true → stdin_open (srv s) = true →
      send_step s (goroutine_wrote s n request g1 g2)
  | step_write_error s g1 n request g2 e :
      goroutines s = g1 ++ (n, Writing request) :: g2 →
      reader_held (srv s) = false ∨ stdin_open (srv s) = false →
      send_step s (goroutine_ends s n (Err (wrapf "writing to MCP stdin: " e)) (g1 ++ g2))
  | step_read s g1 n g2 line rest :
      goroutines s = g1 ++ (n, Reading) :: g2 → stdout (srv s) = line :: rest →
      send_step s (goroutine_read s n line rest (g1 ++ g2))
  | step_read_error s g1 n g2 e :
      goroutines s = g1 ++ (n, Reading) :: g2 →
      (writer_held (srv s) = false ∧ stdout (srv s) = []) ∨ pipes_closed (srv s) = true →
      send_step s (goroutine_ends s n (Err (wrapf "reading from MCP stdout: " e)) (g1 ++ g2))
  | step_receive s n c1 r c2 :
      holder s = Some n → ch s = c1 ++ (n, r) :: c2 →
      send_step s (send_return s n r (c1 ++ c2)).

(** The server, or a process that has its pipes from it, serves a line; the process
    ends, by itself or by a signal; and ends of the pipes are let go of, by the end of
    the process or at any other time. What reads a line that it can write no answer to
    changes nothing here, and is left out. *)
Inductive server_step (serve : list string → string → list string) : stdio → stdio → Prop :=
  | step_serve s line rest :
      reader_held (srv s) = true → writer_held (srv s) = true → stdin (srv s) = line :: rest →
      server_step serve s (set_srv s (serve_line serve (srv s) line rest))
  | step_exit s w reader writer :
      proc (srv s) = Running →
      server_step serve s (set_srv s (still_held (set_proc (srv s) (Zombie w)) reader writer))
  | step_release s reader writer :
      server_step serve s (set_srv s (still_held (srv s) reader writer)).

(** Callers make calls, and give them up when their context ends. *)
Inductive caller_step : stdio → stdio → Prop :=
  | step_call s request : caller_step s (call_send s request)
  | step_cancel s n e : holder s = Some n → caller_step s (send_cancel s n e).

(** [close] closes the input and waits for the process; at the end of [Wait] our ends
    of the pipes are closed. *)
Inductive closer_step : stdio → stdio → Prop :=
  | step_close s : closer_step s (set_srv s (close_stdin (srv s)))
  | step_wait s w :
      proc (srv s) = Zombie w → stdin_open (srv s) = false →
      closer_step s (set_srv s (set_proc (srv s) (Reaped w)))
  | step_waited s w :
      proc (srv s) = Reaped w → stdin_open (srv s) = false →
      closer_step s (set_srv s (close_pipes (srv s))).

(** A process in use, and one that is closed as well. *)
Inductive use_step (serve : list string → string → list string) : stdio → stdio → Prop :=
  | use_send s s' : send_step s s' → use_step serve s s'
  | use_server s s' : server_step serve s s' → use_step serve s s'
  | use_caller s s' : caller_step s s' → use_step serve s s'.
Inductive stdio_step (serve : list string → string → list string) : stdio → stdio → Prop :=
  | stdio_use s s' : use_step serve s s' → stdio_step serve s s'
  | stdio_closer s s' : closer_step s s' → stdio_step serve s s'.

(** ** Health and end *)

(** stdio_unix.go; a signal can be sent to a process whose status nobody has collected,
    ended or not. [None] stands for a process that was not started. *)
Definition Signal0 (p : process) : option error :=
  match p with Reaped _ => Some (errorf "os: process already finished") | _ => None end.

Definition healthCheck (p : option process) : result unit :=
  match p with
  | None => Err (errorf "MCP stdio process not started")
  | Some p =>
      match Signal0 p with
      | Some e => Err (wrapf "MCP stdio process not running: " e)
      | None => Ok tt
      end
  end.

(** stdio_windows.go. *)
Definition healthCheck_windows (p : option process) : result unit :=
  match p with
  | None => Err (errorf "MCP stdio process not started")
  | Some p =>
      match ProcessState p with
      | Some w => fail_if (Exited w) (errorf "MCP stdio process not running")
      | None => Ok tt
      end
  end.

(** What [close] meets, in time from its call: when a process that runs ends after its
    input was closed and the signal sent; when the last process that holds its standard
    error has closed it, which [Wait] waits for; and which case is chosen if the process
    is done at the very end of the grace period. *)
Record closing := MkClosing {
  ends_after : option (Z * wait_status);
  stderr_closed : option Z;
  timer_wins : bool;
}.

Inductive close_event := ClosedStdin | SentSIGTERM | SentKill.

Definition grace : Z := 5 * Second.

(** When the process ends by itself. *)
Definition exit_of (p : process) (c : closing) : option (Z * wait_status) :=
  match p with Running => ends_after c | Zombie w => Some (0%Z, w) | Reaped w => Some (0%Z, w) end.

Definition wait_result (w : wait_status) : result unit :=
  match Wait_error w with None => Ok tt | Some e => Err e end.

Definition force_killed (pid : Z) (w : wait_status) : error :=
  let msg := "process " +:+ Itoa pid +:+ " force-killed: " in
  match Wait_error w with
  | None => errorf (msg +:+ "%!w(<nil>)")
  | Some e => wrapf msg e
  end.

(** The process ended in time, and its standard error as well. *)
Definition done_in_time (p : process) (c : closing) : option (Z * wait_status) :=
  match exit_of p c, stderr_closed c with
  | Some (t, w), Some e =>
      let d := Z.max t e in
      if (d <? grace)%Z || ((d =? grace)%Z && negb (timer_wins c)) then Some (d, w) else None
  | _, _ => None
  end.

(** How a process ends that is sent a signal at the end of the grace period. *)
Definition exit_killed (killed : wait_status) (p : process) (c : closing) : Z * wait_status :=
  match exit_of p c with
  | Some (t, w) => if (t <=? grace)%Z then (t, w) else (grace, killed)
  | None => (grace, killed)
  end.

(** When [close] returns, with what, and what it did; [None]: it does not return. *)
Definition close_with (killed : wait_status) (signals : list close_event) (pid : Z) (p : option process) (c : closing)
  : option (Z * result unit) * list close_event :=
  match p with
  | None => (Some (0%Z, Ok tt), [])
  | Some (Reaped _) => (Some (0%Z, Err (errorf "exec: Wait was already called")), ClosedStdin :: signals)
  | Some p =>
      match done_in_time p c with
      | Some (d, w) => (Some (d, wait_result w), ClosedStdin :: signals)
      | None =>
          let '(t, w) := exit_killed killed p c in
          (match stderr_closed c with
           | Some e => Some (Z.max grace (Z.max t e), Err (force_killed pid w))
           | None => None
           end, ClosedStdin :: signals ++ [SentKill])
      end
  end.

(** stdio_unix.go and stdio_windows.go: the one has a signal to send first. *)
Definition close (pid : Z) (p : option process) (c : closing) := close_with (Signaled "killed") [SentSIGTERM] pid p c.
Definition close_windows (pid : Z) (p : option process) (c : closing) := close_with (ExitStatus 1) [] pid p c.

(** ** The first requests *)

(** An object of type stdioProcess: whether its command and its pipes are set, and its
    process. *)
Record object := MkObject { o_cmd : bool; o_pipes : bool; o_pid : option nat }.

(** Where a request is in [handleStdio] and [start]. *)
Inductive request_pc :=
  | AtCheck | AtAlloc | AtStart | AtCommand (o : nat) | AtPipes (o : nat) | AtLaunch (o : nat)
  | AtFailure | AtSend | Sent (o : nat) | Failed.

Record launcher := MkLauncher {
  p_stdio : option nat;            (* into [objects] *)
  objects : list object;
  requests : list request_pc;
  launched : list nat;             (* processes that were started *)
  panicked : bool;
}.

Definition idle : launcher := MkLauncher None [] [] [] false.

Definition move (l : launcher) (r : nat) (pc : request_pc) : launcher :=
  MkLauncher (p_stdio l) (objects l) (<[r := pc]> (requests l)) (launched l) (panicked l).
Definition set_stdio (l : launcher) (x : option nat) : launcher :=
  MkLauncher x (objects l) (requests l) (launched l) (panicked l).
Definition set_object (l : launcher) (o : nat) (x : object) : launcher :=
  MkLauncher (p_stdio l) (<[o := x]> (objects l)) (requests l) (launched l) (panicked l).
Definition panic (l : launcher) : launcher :=
  MkLauncher (p_stdio l) (objects l) (requests l) (launched l) true.

(** [p.stdio = &stdioProcess{...}]. *)
Definition alloc (l : launcher) : launcher :=
  MkLauncher (Some (length (objects l))) (objects l ++ [MkObject false false None]) (requests l)
    (launched l) (panicked l).

(** [s.cmd = exec.Command(...)], [s.stdin, s.reader = ...], [s.cmd.Start()]. *)
Definition set_command (l : launcher) (o : nat) (x : object) : launcher := set_object l o (MkObject true (o_pipes x) None).
Definition set_pipes (l : launcher) (o : nat) (x : object) : launcher := set_object l o (MkObject (o_cmd x) true (o_pid x)).
Definition launch (l : launcher) (o : nat) (x : object) : launcher :=
  MkLauncher (p_stdio l) (<[o := MkObject (o_cmd x) (o_pipes x) (Some (length (launched l)))]> (objects l))
    (requests l) (launched l ++ [length (launched l)]) (panicked l).

(** [send] uses the command and the pipes of its receiver. *)
Definition usable (l : launcher) (o : option nat) : bool :=
  match o ≫= λ o, objects l !! o with Some x => o_cmd x && o_pipes x | None => false end.

Definition finished (pc : request_pc) : bool :=
  match pc with Sent _ | Failed => true | _ => false end.

(** One request moves; with [overlap] another may come before it is done. *)
Inductive launch_step (overlap : bool) : launcher → launcher → Prop :=
  | launch_arrive l :
      overlap = true ∨ forallb finished (requests l) = true →
      launch_step overlap l
        (MkLauncher (p_stdio l) (objects l) (requests l ++ [AtCheck]) (launched l) (panicked l))
  | launch_check l r :
      requests l !! r = Some AtCheck →
      launch_step overlap l (move l r (match p_stdio l with None => AtAlloc | Some _ => AtSend end))
  | launch_alloc l r :
      requests l !! r = Some AtAlloc → launch_step overlap l (move (alloc l) r AtStart)
  | launch_start l r o :
      requests l !! r = Some AtStart → p_stdio l = Some o → launch_step overlap l (move l r (AtCommand o))
  | launch_start_nil l r :
      requests l !! r = Some AtStart → p_stdio l = None → launch_step overlap l (panic l)
  | launch_invalid l r :                                  (* validateCommand *)
      (requests l !! r = Some AtStart ∧ p_stdio l = None) ∨ (∃ o, requests l !! r = Some (AtCommand o)) →
      launch_step overlap l (move l r AtFailure)
  | launch_command l r o x :
      requests l !! r = Some (AtCommand o) → objects l !! o = Some x →
      launch_step overlap l (move (set_command l o x) r (AtPipes o))
  | launch_pipes l r o x :
      requests l !! r = Some (AtPipes o) → objects l !! o = Some x →
      launch_step overlap l (move (set_pipes l o x) r (AtLaunch o))
  | launch_process l r o x :
      requests l !! r = Some (AtLaunch o) → objects l !! o = Some x →
      launch_step overlap l (move (launch l o x) r AtSend)
  | launch_error l r o :
      requests l !! r = Some (AtPipes o) ∨ requests l !! r = Some (AtLaunch o) →
      launch_step overlap l (move l r AtFailure)
  | launch_failed l r :
      requests l !! r = Some AtFailure → launch_step overlap l (move (set_stdio l None) r Failed)
  | launch_no_body l r :                                  (* buildRequestBody *)
      requests l !! r = Some AtSend → launch_step overlap l (move l r Failed)
  | launch_send l r o :
      requests l !! r = Some AtSend → p_stdio l = Some o → usable l (Some o) = true →
      launch_step overlap l (move l r (Sent o))
  | launch_send_nil l r :
      requests l !! r = Some AtSend → usable l (p_stdio l) = false → launch_step overlap l (panic l).

(** The end of the proxy's [Close]: the process it closes, if any. *)
Definition Close_stdio (l : launcher) : option nat :=
  o ← p_stdio l; x ← objects l !! o; o_pid x.
