(* ===== verification/McpProcessFacts.v ===== *)
(** * A process shared by requests: theorems

    Every call and every line is accounted for; without calls that are given up, replies
    are those of a server that answers one request at a time; a call that is given up
    breaks that. Once nobody has the pipes of a process that has ended, every call returns;
    a child it leaves behind can keep them, and a call waiting. The process is reported
    healthy until it is closed. Closing, and the first requests. *)

From S2P Require Import Prelude GoStrings GoTime McpProcess.
#[local] Open Scope nat_scope.

(** ** Accounting *)

Definition oks (l : list (nat * result string)) : list (nat * string) :=
  omap (λ x, match x.2 with Ok line => Some (x.1, line) | Err _ => None end) l.
Definition with_newline (x : nat * string) : nat * string := (x.1, x.2 +:+ newline).

(** The lines a server writes that reads [lines] after [h]. *)
Fixpoint all_replies (serve : list string → string → list string) (h lines : list string) : list string :=
  match lines with
  | [] => []
  | l :: rest => serve h l ++ all_replies serve (h ++ [l]) rest
  end.

Lemma all_replies_app serve h l1 l2 :
  all_replies serve h (l1 ++ l2) = all_replies serve h l1 ++ all_replies serve (h ++ l1) l2.
Proof.
  revert h. induction l1 as [|l l1 IH]; intros h; cbn.
  - by rewrite List.app_nil_r.
  - by rewrite IH, <- !List.app_assoc.
Qed.

Lemma oks_app l1 l2 : oks (l1 ++ l2) = oks l1 ++ oks l2.
Proof. apply omap_app. Qed.

Lemma oks_split l1 n r l2 : oks (l1 ++ (n, r) :: l2) ≡ₚ oks [(n, r)] ++ oks (l1 ++ l2).
Proof.
  rewrite !oks_app. change ((n, r) :: l2) with ([(n, r)] ++ l2). rewrite oks_app.
  by rewrite !List.app_assoc, (Permutation_app_comm (oks l1) (oks [(n, r)])).
Qed.

(** The requests of the calls that have not been written. *)
Definition unwritten (g : list (nat * phase)) : list (nat * string) :=
  omap (λ x, match x.2 with Writing r => Some (x.1, r) | Reading => None end) g.

Lemma unwritten_app g1 g2 : unwritten (g1 ++ g2) = unwritten g1 ++ unwritten g2.
Proof. apply omap_app. Qed.

(** Each call is waiting, in the select, or has returned, once; a request is written as
    it was given; what was written is read by the server in order; and each line of the
    server's is read by one goroutine, in order, and is the result of its call. *)
Record delivered (serve : list string → string → list string) (s : stdio) : Prop := {
  d_calls : seq 0 (length (called s)) ≡ₚ (waiting s).*1 ++ option_list (holder s) ++ (returned s).*1;
  d_requests : ∀ n r, (n, r) ∈ waiting s ++ unwritten (goroutines s) ++ wrote s → called s !! n = Some r;
  d_served : flat_map request_lines (wrote s).*2 = served (srv s) ++ stdin (srv s);
  d_lines : all_replies serve [] (served (srv s)) = (taken s).*2 ++ stdout (srv s);
  d_results : oks (returned s) ++ oks (ch s) ≡ₚ with_newline <$> taken s;
}.

Ltac keep_delivered := constructor; cbn in *; try assumption; try done.

Lemma delivered_caller serve s s' : caller_step s s' → delivered serve s → delivered serve s'.
Proof.
  intros Hs [Hc Hr Hw Hl Ht]. destruct Hs as [s request|s n e Hh]; keep_delivered.
  - rewrite length_app, seq_app, fmap_app, Hc. cbn. solve_Permutation.
  - intros n r Hin. rewrite !elem_of_app in Hin. destruct Hin as [[Hin|Hin]|Hin].
    + apply lookup_app_l_Some, Hr. rewrite !elem_of_app. auto.
    + apply list_elem_of_singleton in Hin as [= -> ->]. apply list_lookup_middle. done.
    + apply lookup_app_l_Some, Hr. rewrite !elem_of_app. tauto.
  - rewrite Hc, Hh, fmap_app. cbn. solve_Permutation.
  - rewrite oks_app. cbn. by rewrite List.app_nil_r.
Qed.

Lemma delivered_srv serve s v :
  served v ++ stdin v = served (srv s) ++ stdin (srv s) →
  (all_replies serve [] (served (srv s)) = (taken s).*2 ++ stdout (srv s) →
   all_replies serve [] (served v) = (taken s).*2 ++ stdout v) →
  delivered serve s → delivered serve (set_srv s v).
Proof. intros Hv Ho [Hc Hr Hw Hl Ht]. keep_delivered; [by rewrite Hv|by apply Ho]. Qed.

Lemma delivered_server serve s s' : server_step serve s s' → delivered serve s → delivered serve s'.
Proof.
  intros Hs. destruct Hs as [s line rest _ _ Hi|s w rd wr _|s rd wr]; apply delivered_srv; cbn; try done.
  - by rewrite Hi, <- List.app_assoc.
  - intros Hl. rewrite all_replies_app, Hl. cbn. by rewrite List.app_nil_r, <- List.app_assoc.
Qed.

Lemma delivered_closer serve s s' : closer_step s s' → delivered serve s → delivered serve s'.
Proof. intros Hs. by destruct Hs; apply delivered_srv. Qed.

Lemma delivered_enter serve s w1 n request w2 :
  holder s = None → waiting s = w1 ++ (n, request) :: w2 →
  delivered serve s → delivered serve (send_enter s n request (w1 ++ w2)).
Proof.
  intros Hh Hw [Hc Hr Hq Hl Ht]. rewrite Hw, Hh, fmap_app in Hc. rewrite Hw in Hr.
  assert (∀ s', called s' = called s → wrote s' = wrote s → srv s' = srv s → taken s' = taken s → ch s' = ch s →
    seq 0 (length (called s)) ≡ₚ (waiting s').*1 ++ option_list (holder s') ++ (returned s').*1 →
    (∀ x, x ∈ waiting s' ++ unwritten (goroutines s') → x ∈ waiting s ++ unwritten (goroutines s)) →
    oks (returned s') = oks (returned s) → delivered serve s') as Hk.
  { intros s' E1 E2 E3 E4 E5 E6 E7 E8. constructor; rewrite ?E1, ?E2, ?E3, ?E4, ?E5, ?E8; try done.
    intros n0 r0. rewrite List.app_assoc. intros Hin. apply Hr. rewrite <- Hw, List.app_assoc.
    apply elem_of_app in Hin as [Hin%E7|Hin]; apply elem_of_app; auto. }
  unfold send_enter. destruct (ProcessState (proc (srv s))) as [w|]; [destruct (Exited w)|];
    apply Hk; cbn; try done; rewrite ?fmap_app, ?oks_app, ?unwritten_app; cbn; rewrite ?List.app_nil_r; try done;
    try (rewrite Hc; cbn; solve_Permutation); try (rewrite Hw; set_solver).
Qed.

Lemma delivered_send serve s s' : send_step s s' → delivered serve s → delivered serve s'.
Proof.
  intros Hs Hd.
  destruct Hs as [s w1 n request w2 Hh Hw|s g1 n request g2 Hg _ _|s g1 n request g2 e Hg _
    |s g1 n g2 line rest Hg Ho|s g1 n g2 e Hg _|s n c1 r c2 Hh Hc'];
    [by apply delivered_enter|..]; destruct Hd as [Hc Hr Hq Hl Ht];
    try (rewrite Hg, unwritten_app in Hr); keep_delivered; rewrite ?fmap_app, ?oks_app, ?unwritten_app; cbn.
  - intros n0 r0 Hin. apply Hr. set_solver.
  - rewrite flat_map_app, Hq. cbn. by rewrite List.app_nil_r, List.app_assoc.
  - intros n0 r0 Hin. apply Hr. set_solver.
  - rewrite List.app_nil_r. exact Ht.
  - intros n0 r0 Hin. apply Hr. set_solver.
  - rewrite Hl, Ho, <- List.app_assoc. done.
  - rewrite List.app_assoc. by apply Permutation_app_tail.
  - intros n0 r0 Hin. apply Hr. set_solver.
  - rewrite List.app_nil_r. exact Ht.
  - rewrite Hc, Hh. cbn. solve_Permutation.
  - rewrite <- Ht, Hc', oks_split, <- !List.app_assoc. by rewrite oks_app.
Qed.

Lemma delivered_step serve s s' : stdio_step serve s s' → delivered serve s → delivered serve s'.
Proof.
  intros [? ? [? ? Hs|? ? Hs|? ? Hs]|? ? Hs]; eauto using delivered_send, delivered_server, delivered_caller, delivered_closer.
Qed.

Lemma delivered_started serve : delivered serve started.
Proof. keep_delivered. intros n r Hin. by apply not_elem_of_nil in Hin. Qed.

Lemma delivered_reachable serve s : rtc (stdio_step serve) started s → delivered serve s.
Proof. intros Hr. eapply (rtc_invariant _ (delivered serve)); eauto using delivered_step, delivered_started. Qed.

(** Calls and lines are accounted for in every interleaving of requests, with calls
    that are given up, with a process that dies or is closed: every call is at the
    mutex, in its select, or has returned, once; every request is written as it was
    given; and every line the server has written is still to be read or was read by one
    goroutine, in order, for its call alone: no reply is delivered twice or changed. *)
Theorem mcp_calls_accounted serve s :
  rtc (stdio_step serve) started s →
  seq 0 (length (called s)) ≡ₚ (waiting s).*1 ++ option_list (holder s) ++ (returned s).*1
  ∧ (∀ n r, (n, r) ∈ wrote s → called s !! n = Some r)
  ∧ all_replies serve [] (served (srv s)) = (taken s).*2 ++ stdout (srv s)
  ∧ oks (returned s) ++ oks (ch s) ≡ₚ with_newline <$> taken s.
Proof.
  intros [Hc Hr Hq Hl Ht]%delivered_reachable. split_and!; try done.
  intros n r Hin. apply Hr. rewrite !elem_of_app. auto.
Qed.

(** ** Replies *)

Definition reading (g : list (nat * phase)) : list nat :=
  omap (λ x, match x.2 with Reading => Some x.1 | Writing _ => None end) g.

(** The goroutine of a call and its result, at most one of them. *)
Inductive alone : option nat → list (nat * phase) → list (nat * result string) → Prop :=
  | alone_idle : alone None [] []
  | alone_running n ph : alone (Some n) [(n, ph)] []
  | alone_done n r : alone (Some n) [] [(n, r)].

(** Lines may still arrive: the server's output is not at its end. *)
Definition flowing (v : server) : Prop := writer_held v = true ∨ stdout v ≠ [].

(** Without calls that are given up, lines are taken in the order of the writes. A read
    that fails breaks the pairing of writes and lines, but then no line arrives any more
    or no request is written. *)
Record paired (s : stdio) : Prop := {
  pr_alone : alone (holder s) (goroutines s) (ch s);
  pr_live : stdin_open (srv s) = true ∨ reading (goroutines s) ≠ [] → flowing (srv s) →
            (wrote s).*1 = (taken s).*1 ++ reading (goroutines s);
  pr_order : (taken s).*1 `prefix_of` (wrote s).*1;
  pr_closed : pipes_closed (srv s) = true → stdin_open (srv s) = false;
  pr_results : oks (returned s) ++ oks (ch s) = with_newline <$> taken s;
}.

Ltac keep_paired := constructor; cbn in *; try assumption; try done; try constructor.

Lemma alone_singleton h g1 n ph g2 c :
  alone h (g1 ++ (n, ph) :: g2) c → h = Some n ∧ g1 = [] ∧ g2 = [] ∧ c = [].
Proof.
  intros Ha. inversion Ha as [|n0 ph0 E1 E2 E3|n0 r E1 E2 E3].
  - by destruct g1.
  - destruct g1 as [|? [|]]; simplify_eq/=. done.
  - by destruct g1.
Qed.

Lemma alone_None g c : alone None g c → g = [] ∧ c = [].
Proof. by inversion 1. Qed.

Lemma alone_result h g c1 n r c2 : alone h g (c1 ++ (n, r) :: c2) → g = [] ∧ c1 = [] ∧ c2 = [].
Proof.
  intros Ha. inversion Ha as [|n0 ph0 E1 E2 E3|n0 r0 E1 E2 E3].
  - by destruct c1.
  - by destruct c1.
  - destruct c1 as [|? [|]]; simplify_eq/=. done.
Qed.

Lemma paired_goroutine s n ph g1 g2 :
  goroutines s = g1 ++ (n, ph) :: g2 → paired s →
  holder s = Some n ∧ goroutines s = [(n, ph)] ∧ ch s = [] ∧ g1 = [] ∧ g2 = [].
Proof.
  intros Hg [Ha _ _ _ _]. rewrite Hg in Ha. apply alone_singleton in Ha as (Hh & -> & -> & Hc). done.
Qed.

Lemma paired_enter s n request rest :
  holder s = None → paired s → paired (send_enter s n request rest).
Proof.
  intros Hh [Ha Hr Ho Hcl Ht]. rewrite Hh in Ha. apply alone_None in Ha as [E1 E2].
  rewrite E1 in Hr. rewrite E2 in Ht.
  unfold send_enter. destruct (ProcessState (proc (srv s))) as [w|]; [destruct (Exited w)|];
    rewrite E1, E2; keep_paired.
  by rewrite oks_app, <- List.app_assoc.
Qed.

(** While a request is written there is no line to come that is not read. *)
Lemma paired_write s n request : goroutines s = [(n, Writing request)] → stdin_open (srv s) = true → paired s →
  flowing (srv s) → (wrote s).*1 = (taken s).*1.
Proof.
  intros Hg Hopen [_ Hr _ _ _] Hf. rewrite Hg in Hr. cbn in Hr. rewrite List.app_nil_r in Hr. auto.
Qed.

Lemma paired_send s s' : send_step s s' → paired s → paired s'.
Proof.
  intros Hs Hp.
  destruct Hs as [s w1 n request w2 Hh Hw|s g1 n request g2 Hg Hheld Hopen|s g1 n request g2 e Hg _
    |s g1 n g2 line rest Hg Ho|s g1 n g2 e Hg He|s n c1 r c2 Hh Hc'];
    [by apply paired_enter|
     destruct (paired_goroutine _ _ _ _ _ Hg Hp) as (Hh & Hg' & Hch & -> & ->)..
     |].
  - pose proof (paired_write _ _ _ Hg' Hopen Hp) as Hw. destruct Hp as [Ha Hr Ho Hcl Ht].
    keep_paired; rewrite ?Hh, ?Hch, ?fmap_app; cbn; try done; [constructor| |].
    + intros _ Hf. by rewrite (Hw Hf).
    + by apply prefix_app_r.
  - destruct Hp as [Ha Hr Ho Hcl Ht]. rewrite Hg' in Hr. rewrite Hch in Ht.
    keep_paired; rewrite ?Hh, ?Hch; cbn; try done. constructor.
  - destruct Hp as [Ha Hr Ho' Hcl Ht]. rewrite Hg' in Hr. rewrite Hch in Ht. cbn in Ht. rewrite List.app_nil_r in Ht.
    assert ((wrote s).*1 = (taken s).*1 ++ [n]) as Hw.
    { apply Hr; [by right|right]. by rewrite Ho. }
    keep_paired; rewrite ?Hh, ?Hch, ?fmap_app, ?List.app_nil_r; cbn; try done; [constructor|by rewrite Hw|].
    by rewrite <- Ht.
  - destruct Hp as [Ha Hr Ho Hcl Ht]. rewrite Hg' in Hr. rewrite Hch in Ht.
    keep_paired; rewrite ?Hh, ?Hch; cbn; try done; [constructor|].
    intros [Hopen|?] Hf; [|done]. destruct He as [[Hn He]|He]; [|by rewrite (Hcl He) in Hopen].
    destruct Hf as [Hf|Hf]; cbn in Hf; congruence.
  - destruct Hp as [Ha Hr Ho Hcl Ht]. rewrite Hc' in Ha. apply alone_result in Ha as (E1 & -> & ->).
    rewrite E1 in Hr. rewrite Hc' in Ht. keep_paired; rewrite ?E1; try done; [constructor|].
    rewrite List.app_nil_r, <- Ht. apply oks_app.
Qed.

(** The server and [close] leave less to be read from or written to. *)
Lemma paired_srv s v :
  (stdin_open v = true → stdin_open (srv s) = true) → (flowing v → flowing (srv s)) →
  (pipes_closed v = true → stdin_open v = false) → paired s → paired (set_srv s v).
Proof.
  intros Ho Hf Hc [Ha Hr Hp Hcl Ht]. keep_paired. intros [?|?] ?; apply Hr; auto.
Qed.

Lemma paired_server serve s s' : server_step serve s s' → paired s → paired s'.
Proof.
  intros Hs Hp. pose proof (pr_closed s Hp). destruct Hs as [s line rest _ Hw _|s w rd wr _|s rd wr];
    apply paired_srv; cbn; try done; unfold flowing; cbn; [by left|..];
    (intros [Hh|?]; [left; by apply andb_prop in Hh as [? _]|by right]).
Qed.

Lemma paired_closer s s' : closer_step s s' → paired s → paired s'.
Proof. intros Hs Hp. pose proof (pr_closed s Hp). destruct Hs; by apply paired_srv. Qed.

Lemma paired_step serve s s' :
  stdio_step serve s s' → cancelled s' = [] → paired s → paired s'.
Proof.
  intros [? ? [? ? Hs|? ? Hs|? ? Hs]|? ? Hs] Hn Hp;
    [by eapply paired_send|by eapply paired_server| |by eapply paired_closer].
  destruct Hs; [|by apply List.app_eq_nil in Hn as [_ ?]]. by destruct Hp.
Qed.

Lemma cancelled_grows serve s s' : stdio_step serve s s' → cancelled s' = [] → cancelled s = [].
Proof.
  intros [? ? [? ? Hs|? ? Hs|? ? Hs]|? ? Hs]; destruct Hs; cbn; try done.
  - unfold send_enter. destruct (ProcessState _) as [w|]; [destruct (Exited w)|]; done.
  - by intros [_ ?]%List.app_eq_nil.
Qed.

Lemma paired_started : paired started.
Proof. by keep_paired. Qed.

Lemma paired_reachable serve s : rtc (stdio_step serve) started s → cancelled s = [] → paired s.
Proof.
  intros Hr. apply (rtc_invariant (stdio_step serve) (λ s, cancelled s = [] → paired s) started s); [|done|].
  - intros a b Hs IH Hb. eapply paired_step; eauto. eapply IH, cancelled_grows; eauto.
  - intros _. exact paired_started.
Qed.

(** A server that answers one request at a time, with one line. *)
Fixpoint sequential (serve : list string → string → list string) (h : list string) (l : list (nat * string))
  : list (nat * string) :=
  match l with
  | [] => []
  | (n, request) :: rest => (n, hd "" (serve h request)) :: sequential serve (h ++ [request]) rest
  end.

Lemma sequential_fst serve h l : (sequential serve h l).*1 = l.*1.
Proof. revert h. induction l as [|[n r] l IH]; intros h; cbn; [done|]. by rewrite IH. Qed.

Lemma sequential_snd serve h l :
  (∀ h r, length (serve h r) = 1) → (sequential serve h l).*2 = all_replies serve h l.*2.
Proof.
  intros H1. revert h. induction l as [|[n r] l IH]; intros h; cbn; [done|].
  specialize (H1 h r). rewrite IH. by destruct (serve h r) as [|? [|]].
Qed.

Lemma prefix_pairs {A B} (l k : list (A * B)) : l.*1 `prefix_of` k.*1 → l.*2 `prefix_of` k.*2 → l `prefix_of` k.
Proof.
  revert k. induction l as [|[a b] l IH]; intros [|[a' b'] k]; cbn; intros H1 H2.
  - done.
  - apply prefix_nil.
  - by apply prefix_nil_not in H1.
  - apply prefix_cons_inv_1 in H1 as E1. apply prefix_cons_inv_1 in H2 as E2. subst.
    apply prefix_cons, IH; eapply prefix_cons_inv_2; eauto.
Qed.

Lemma request_lines_one r : lacks (chr 10) r → request_lines r = [r].
Proof.
  intros Hr. unfold request_lines. rewrite Split_unfold by done.
  change newline with (str1 (chr 10)). by rewrite cut_char_None.
Qed.

Lemma request_lines_single requests :
  Forall (lacks (chr 10)) requests → flat_map request_lines requests = requests.
Proof. induction 1 as [|r l Hr _ IH]; cbn; [done|]. by rewrite IH, request_lines_one. Qed.

(** C15. Of a server that answers each line with exactly one line, and as long as no
    call is given up and no request contains a line feed, the replies are those of one
    that serves one request after the other: in every interleaving of the callers,
    their goroutines and the server, also when the process dies or is closed, the calls
    that succeeded have, in order, the replies that a server would give that answered
    the requests one at a time in the order of their writes: each call its own. *)
Theorem mcp_replies_sequential serve s :
  (∀ h r, length (serve h r) = 1) →
  rtc (stdio_step serve) started s →
  cancelled s = [] → Forall (lacks (chr 10)) (called s) →
  oks (returned s) `prefix_of` (with_newline <$> sequential serve [] (wrote s)).
Proof.
  intros H1 Hr Hn Hq. destruct (paired_reachable serve s Hr Hn) as [_ _ Ho _ Ht].
  apply delivered_reachable in Hr as [_ Hreq Hs Hl _].
  assert (Forall (lacks (chr 10)) (wrote s).*2) as Hw.
  { apply Forall_fmap, Forall_forall. intros [n r] Hin. cbn. rewrite Forall_lookup in Hq.
    eapply Hq, Hreq. rewrite !elem_of_app. right. right. exact Hin. }
  rewrite request_lines_single in Hs by done.
  transitivity (with_newline <$> taken s); [rewrite <- Ht; by apply prefix_app_r|].
  assert (taken s `prefix_of` sequential serve [] (wrote s)) as [k Hk]; [apply prefix_pairs|by rewrite Hk, fmap_app; apply prefix_app_r].
  - by rewrite sequential_fst.
  - rewrite sequential_snd by done. rewrite Hs, all_replies_app, Hl, <- List.app_assoc. by apply prefix_app_r.
Qed.

Definition echo (h : list string) (line : string) : list string := ["re: " +:+ line].

(** A run of two calls at once: both are answered. *)
Definition demo_served : server := MkServer [] [] Running true true true false ["b"; "a"].
Definition demo_both : stdio :=
  MkStdio [] None [] [] demo_served ["a"; "b"] [(1, "b"); (0, "a")] [(1, "re: b"); (0, "re: a")]
    [(1, Ok ("re: b" +:+ newline)); (0, Ok ("re: a" +:+ newline))] [].

Tactic Notation "by_send" uconstr(c) := eapply rtc_l; [apply stdio_use, use_send; apply c; reflexivity|].
Tactic Notation "by_server" uconstr(c) := eapply rtc_l; [apply stdio_use, use_server; apply c; reflexivity|].
Tactic Notation "by_caller" uconstr(c) := eapply rtc_l; [apply stdio_use, use_caller; apply c; reflexivity|].

Lemma demo_both_reached : rtc (stdio_step echo) started demo_both.
Proof.
  by_caller (step_call _ "a"). by_caller (step_call _ "b").
  by_send (step_enter _ [(0, "a")] 1 "b" []). by_send (step_wrote _ [] 1 "b" []).
  by_server (step_serve echo _ "b" []). by_send (step_read _ [] 1 [] "re: b" []).
  by_send (step_receive _ 1 [] (Ok ("re: b" +:+ newline)) []).
  by_send (step_enter _ [] 0 "a" []). by_send (step_wrote _ [] 0 "a" []).
  by_server (step_serve echo _ "a" []). by_send (step_read _ [] 0 [] "re: a" []).
  by_send (step_receive _ 0 [] (Ok ("re: a" +:+ newline)) []). apply rtc_refl.
Qed.

Lemma mcp_calls_accounted_witness : seq 0 2 ≡ₚ [1; 0].
Proof. exact (proj1 (mcp_calls_accounted echo demo_both demo_both_reached)). Defined.

Lemma mcp_replies_sequential_witness :
  oks (returned demo_both) `prefix_of` (with_newline <$> sequential echo [] [(1, "b"); (0, "a")]).
Proof.
  apply (mcp_replies_sequential echo demo_both); [done|exact demo_both_reached|done|repeat constructor].
Defined.

(** ** Calls that are given up *)

Definition deadline : error := errorf "context deadline exceeded".

Section given_up.
Context (serve : list string → string → list string) (a b : string).
Hypothesis one_line_a : lacks (chr 10) a.
Hypothesis one_line_b : lacks (chr 10) b.

#[local] Ltac side Hs := cbn; rewrite ?request_lines_one by done; cbn; rewrite ?Hs; reflexivity.
#[local] Tactic Notation "with_" uconstr(H) "server" uconstr(c) :=
  eapply rtc_l; [eapply stdio_use, use_server; eapply c; side H|].
#[local] Tactic Notation "with_" uconstr(H) "send" uconstr(c) :=
  eapply rtc_l; [eapply stdio_use, use_send; eapply c; side H|].

(** A call that is given up hands its reply to the next: once the context of a
    first request has ended, its goroutine still holds the pipes, and there is a run in
    which the second request, whoever made it, succeeds with the reply to the first. *)
Theorem mcp_reply_misdelivered la lb :
  serve [] a = [la] → serve [a] b = [lb] →
  ∃ s, rtc (stdio_step serve) started s
    ∧ called s = [a; b] ∧ returned s = [(0, Err deadline); (1, Ok (la +:+ newline))].
Proof.
  intros Ha Hb. eexists. split.
  - by_caller (step_call _ a). by_send (step_enter _ [] 0 a []). by_send (step_wrote _ [] 0 a []).
    by_caller (step_cancel _ 0 deadline). by_caller (step_call _ b). by_send (step_enter _ [] 1 b []).
    by_send (step_wrote _ [(0, Reading)] 1 b []). with_ Ha server (step_serve serve _ a).
    with_ Ha send (step_read _ [(0, Reading)] 1 [] la).
    by_send (step_receive _ 1 [] (Ok (la +:+ newline)) []). apply rtc_refl.
  - done.
Qed.

(** A request that the server answers with no line, as it does a notification, takes
    the reply to the next one once it was given up: the second request was written and
    answered, and waits for a line that the server does not owe it. *)
Theorem mcp_notification_starves lb :
  serve [] a = [] → serve [a] b = [lb] →
  ∃ s, rtc (stdio_step serve) started s
    ∧ holder s = Some 1 ∧ goroutines s = [(1, Reading)]
    ∧ served (srv s) = [a; b] ∧ stdin (srv s) = [] ∧ stdout (srv s) = [] ∧ taken s = [(0, lb)].
Proof.
  intros Ha Hb. eexists. split.
  - by_caller (step_call _ a). by_send (step_enter _ [] 0 a []). by_send (step_wrote _ [] 0 a []).
    by_caller (step_cancel _ 0 deadline). by_caller (step_call _ b). by_send (step_enter _ [] 1 b []).
    by_send (step_wrote _ [(0, Reading)] 1 b []). with_ Ha server (step_serve serve _ a).
    with_ Ha server (step_serve serve _ b).
    eapply rtc_l; [eapply stdio_use, use_send; eapply (step_read _ [] 0 [(1, Reading)] lb);
                   [reflexivity|cbn; rewrite Ha; cbn; rewrite Hb; reflexivity]|].
    apply rtc_refl.
  - done.
Qed.
End given_up.

Lemma mcp_reply_misdelivered_witness :
  ∃ s, rtc (stdio_step echo) started s
    ∧ called s = ["a"; "b"] ∧ returned s = [(0, Err deadline); (1, Ok ("re: a" +:+ newline))].
Proof. by apply (mcp_reply_misdelivered echo "a" "b" eq_refl eq_refl "re: a" "re: b"). Defined.

(** ** A process that has ended *)

(** A call in the select has a goroutine or a result; all belong to calls made. *)
Record attended (s : stdio) : Prop := {
  at_holder : ∀ n, holder s = Some n → n ∈ (goroutines s).*1 ++ (ch s).*1;
  at_calls : ∀ n, n ∈ (waiting s).*1 ++ (goroutines s).*1 ++ (ch s).*1 → n < length (called s);
}.

Lemma attended_step serve s s' : stdio_step serve s s' → attended s → attended s'.
Proof.
  intros Hs [Hh Hc].
  destruct Hs as [? ? [? ? Hs|? ? Hs|? ? Hs]|? ? Hs]; destruct Hs; try (by constructor); constructor; cbn in *.
  all: unfold send_enter in *; repeat case_match; cbn; rewrite ?fmap_app; cbn; intros m Hm;
    try (match goal with E : waiting _ = _ |- _ => rewrite E, fmap_app in Hc; cbn in Hc end);
    try (match goal with E : goroutines _ = _ |- _ => rewrite E, fmap_app in Hh, Hc; cbn in Hh, Hc end);
    try (match goal with E : ch _ = _ |- _ => rewrite E, fmap_app in Hc; cbn in Hc end);
    rewrite ?length_app; cbn; try done; try (specialize (Hh m)); try (specialize (Hc m));
    simplify_eq; set_solver by lia.
Qed.

Lemma attended_reachable serve s : rtc (stdio_step serve) started s → attended s.
Proof.
  intros Hr. eapply (rtc_invariant _ attended); [|exact Hr|]; [by intros ? ?; apply attended_step|].
  by constructor; cbn; intros n Hn; [|apply not_elem_of_nil in Hn].
Qed.

(** What the calls and their goroutines have left to do. *)
Definition work (s : stdio) : nat :=
  5 * length (waiting s) + 3 * length (unwritten (goroutines s)) + 2 * length (reading (goroutines s))
  + length (ch s).

Lemma reading_app g1 g2 : reading (g1 ++ g2) = reading g1 ++ reading g2.
Proof. apply omap_app. Qed.

Lemma unwritten_cons n ph g :
  unwritten ((n, ph) :: g) = match ph with Writing r => [(n, r)] | Reading => [] end ++ unwritten g.
Proof. by destruct ph. Qed.
Lemma reading_cons n ph g :
  reading ((n, ph) :: g) = match ph with Writing _ => [] | Reading => [n] end ++ reading g.
Proof. by destruct ph. Qed.

Lemma send_step_work s s' : send_step s s' → work s' < work s.
Proof.
  intros Hs. destruct Hs as [s w1 n request w2 Hh Hw|s g1 n request g2 Hg _ _|s g1 n request g2 e Hg _
    |s g1 n g2 line rest Hg Ho|s g1 n g2 e Hg _|s n c1 r c2 Hh Hc]; unfold work;
    [unfold send_enter; repeat case_match; rewrite ?Hw|rewrite ?Hg|rewrite ?Hg|rewrite ?Hg|rewrite ?Hg|rewrite Hc];
    cbn [goroutine_wrote goroutine_ends goroutine_read send_return waiting goroutines ch];
    rewrite ?unwritten_app, ?reading_app, ?unwritten_cons, ?reading_cons, ?length_app; cbn; lia.
Qed.

Lemma send_steps_work k s s' : nsteps send_step k s s' → k + work s' ≤ work s.
Proof. induction 1 as [|k x y z Hs _ IH]; [done|]. apply send_step_work in Hs. lia. Qed.

(** The ends of the pipes, here and on the server's side. *)
Definition ends (v : server) : process * bool * bool * bool * bool :=
  (proc v, stdin_open v, reader_held v, writer_held v, pipes_closed v).

Lemma send_step_srv s s' : send_step s s' → ends (srv s') = ends (srv s).
Proof. intros Hs. destruct Hs; try done. unfold send_enter. by repeat case_match. Qed.

(** Each pipe has lost one of its ends. *)
Definition released (v : server) : Prop :=
  (reader_held v = false ∨ stdin_open v = false) ∧ (writer_held v = false ∨ pipes_closed v = true).

Lemma released_ends v v' : ends v' = ends v → released v → released v'.
Proof. unfold ends, released. by intros [= _ -> -> -> ->]. Qed.

Lemma released_progress s :
  attended s → released (srv s) → (waiting s = [] ∧ holder s = None) ∨ ∃ s', send_step s s'.
Proof.
  intros [Hh _] [Hrd Hwr]. destruct (holder s) as [n|] eqn:E.
  - right. specialize (Hh n eq_refl). apply elem_of_app in Hh as [Hin|Hin].
    + apply list_elem_of_fmap in Hin as ([m ph] & -> & Hin). apply list_elem_of_split in Hin as (g1 & g2 & Hg).
      destruct ph as [request|]; [eexists; apply (step_write_error s g1 m request g2 json_error Hg Hrd)|].
      destruct (stdout (srv s)) as [|line rest] eqn:Eo; eexists.
      * apply (step_read_error s g1 m g2 json_error Hg). destruct Hwr; auto.
      * by apply (step_read s g1 m g2 line rest).
    + apply list_elem_of_fmap in Hin as ([m r] & -> & Hin). apply list_elem_of_split in Hin as (c1 & c2 & Hc).
      eexists. by apply (step_receive s m c1 r c2).
  - destruct (waiting s) as [|[n request] w] eqn:Ew; [by left|]. right. eexists.
    by apply (step_enter s [] n request w).
Qed.

Lemma send_steps_reach serve k s s' : nsteps send_step k s s' → rtc (stdio_step serve) s s'.
Proof.
  induction 1 as [|k x y z Hs _ IH]; [done|]. eapply rtc_l; [|exact IH]. by apply stdio_use, use_send.
Qed.

(** C16. No call hangs once the pipes are let go of: nobody, neither the process nor a
    child it has left behind, holds the end its input is read from, or [close] has
    closed ours; and nobody the one its output is written to, or [Wait] has closed
    ours. Then, whatever was under way, the calls and their goroutines take a bounded
    number of steps, and as long as some call has not returned there is a next one,
    without help from the server or from the end of a context. *)
Theorem mcp_dead_process_releases serve s :
  rtc (stdio_step serve) started s → released (srv s) →
  ∀ k s', nsteps send_step k s s' →
    k ≤ work s ∧ ((returned s').*1 ≡ₚ seq 0 (length (called s')) ∨ ∃ s'', send_step s' s'').
Proof.
  intros Hr He k s' Hk. split; [apply send_steps_work in Hk; lia|].
  assert (released (srv s')) as He'.
  { clear Hr. induction Hk as [|k x y z Hs _ IH]; [done|]. apply IH.
    by eapply released_ends; [apply send_step_srv|]. }
  assert (rtc (stdio_step serve) started s') as Hr' by (etransitivity; [done|by eapply send_steps_reach]).
  destruct (released_progress s' (attended_reachable serve s' Hr') He') as [[Hw Hh]|?]; [left|by right].
  apply delivered_reachable in Hr' as [Hc _ _ _ _]. rewrite Hw, Hh in Hc. by symmetry.
Qed.

(** A state in which a process died with a call under way. *)
Definition dead : server := MkServer [] [] (Zombie (ExitStatus 1)) true false false false [].
Definition demo_dead : stdio := MkStdio [] (Some 0) [(0, Writing "a")] [] dead ["a"] [] [] [] [].

Lemma demo_dead_use : rtc (use_step echo) started demo_dead.
Proof.
  eapply rtc_l; [apply use_caller, (step_call _ "a")|].
  eapply rtc_l; [apply use_send, (step_enter _ [] 0 "a" []); reflexivity|].
  eapply rtc_l; [apply use_server, (step_exit echo _ (ExitStatus 1) false false); reflexivity|].
  apply rtc_refl.
Qed.

Lemma use_reaches serve s s' : rtc (use_step serve) s s' → rtc (stdio_step serve) s s'.
Proof. induction 1 as [|x y z Hs _ IH]; [done|]. eapply rtc_l; [by apply stdio_use|done]. Qed.

Lemma mcp_dead_process_releases_witness :
  0 ≤ 3 ∧ ([] ≡ₚ seq 0 1 ∨ ∃ s'', send_step demo_dead s'').
Proof.
  refine (mcp_dead_process_releases echo demo_dead (use_reaches _ _ _ demo_dead_use) _ 0 demo_dead
           (nsteps_O _ _)).
  split; by left.
Defined.

(** The end of the process is not enough: if a child that it leaves behind has its
    standard output, the call under way waits for the child, or for the end of its
    context, and every later call waits for the mutex. *)
Theorem mcp_orphan_hangs serve a b :
  ∃ s, rtc (use_step serve) started s
    ∧ ended (proc (srv s)) = true ∧ reader_held (srv s) = false
    ∧ holder s = Some 0 ∧ called s = [a; b] ∧ returned s = [] ∧ ¬ ∃ s', send_step s s'.
Proof.
  eexists. split.
  - eapply rtc_l; [apply use_caller, (step_call _ a)|].
    eapply rtc_l; [apply use_send, (step_enter _ [] 0 a []); reflexivity|].
    eapply rtc_l; [apply use_send, (step_wrote _ [] 0 a []); reflexivity|].
    eapply rtc_l; [apply use_server, (step_exit serve _ (ExitStatus 0) false true); reflexivity|].
    eapply rtc_l; [apply use_caller, (step_call _ b)|]. apply rtc_refl.
  - split_and!; try done. intros [s' Hs]. inversion Hs; subst; cbn in *; simplify_eq.
    + destruct g1 as [|? [|]]; simplify_eq/=.
    + naive_solver.
    + by destruct c1.
Qed.

(** What a goroutine or a result says of a call: that it may still succeed. *)
Definition hopeful (s : stdio) (n : nat) : Prop :=
  n ∈ reading (goroutines s) ∨ (∃ l, (n, Ok l) ∈ ch s ++ returned s).

Lemma reading_elem n g : n ∈ reading g ↔ (n, Reading) ∈ g.
Proof.
  unfold reading. rewrite list_elem_of_omap. split.
  - intros ([m ph] & Hin & Hm). by destruct ph; simplify_eq/=.
  - intros Hin. by exists (n, Reading).
Qed.

(** Nobody reads what is written to a process that has ended. *)
Definition unread (v : server) : Prop := ended (proc v) = true ∧ reader_held v = false.

(** Then no further call becomes hopeful, and nothing is written. *)
Lemma dead_step serve s s' :
  use_step serve s s' → unread (srv s) →
  (proc (srv s') = proc (srv s) ∧ unread (srv s')) ∧ wrote s' = wrote s ∧ ∀ n, hopeful s' n → hopeful s n.
Proof.
  intros Hs [He Hrd]. unfold unread. assert (∀ P, proc (srv s) = Running → P) as Hx by (intros P Hp; by rewrite Hp in He).
  assert (∀ P, reader_held (srv s) = true → P) as Hx' by (intros P Hp; by rewrite Hp in Hrd).
  destruct Hs as [? ? Hs|? ? Hs|? ? Hs]; destruct Hs; try (by eapply Hx); try (by eapply Hx'); cbn in *;
    unfold send_enter in *; repeat case_match; rewrite ?Hrd; split_and!; try done; unfold hopeful; cbn; intros m;
    rewrite ?reading_elem;
    try (match goal with E : goroutines _ = _ |- _ => rewrite E end);
    try (match goal with E : ch _ = _ |- _ => rewrite E end);
    (intros [Hin|[l' Hin]]; [left; set_solver|]); rewrite ?elem_of_app, ?elem_of_cons in *; try (right; exists l'; set_solver).
  destruct Hin as [[Hin|[[= -> ->]|Hin]]|Hin]; [right|by auto|by apply not_elem_of_nil in Hin|right];
    exists l'; apply elem_of_app; auto.
Qed.

Lemma dead_steps serve s s' :
  rtc (use_step serve) s s' → unread (srv s) →
  proc (srv s') = proc (srv s) ∧ wrote s' = wrote s ∧ ∀ n, hopeful s' n → hopeful s n.
Proof.
  induction 1 as [|x y z Hs _ IH]; intros He; [by split_and!|].
  destruct (dead_step serve x y Hs He) as ((Hp & He') & Hw & Hh).
  destruct (IH He') as (Hp' & Hw' & Hh'). split_and!; [by rewrite Hp'|by rewrite Hw'|auto].
Qed.

Lemma not_reaped serve s : rtc (use_step serve) started s → ProcessState (proc (srv s)) = None.
Proof.
  intros Hr. apply (rtc_invariant (use_step serve) (λ s, ProcessState (proc (srv s)) = None) started s); [|done|done].
  intros x y [? ? Hs|? ? Hs|? ? Hs] Hx; [|by destruct Hs..].
  apply send_step_srv in Hs as [= -> _ _ _ _]. done.
Qed.

Lemma hopeful_called serve s n : rtc (stdio_step serve) started s → hopeful s n → n < length (called s).
Proof.
  intros Hr Hh. destruct (attended_reachable serve s Hr) as [_ Hc]. apply delivered_reachable in Hr as [Hd _ _ _ _].
  destruct Hh as [Hin%reading_elem|[l [Hin|Hin]%elem_of_app]].
  - apply Hc. rewrite !elem_of_app. right. left. apply list_elem_of_fmap. by exists (n, Reading).
  - apply Hc. rewrite !elem_of_app. right. right. apply list_elem_of_fmap. by exists (n, Ok l).
  - assert (n ∈ seq 0 (length (called s))) as Hn; [|apply elem_of_seq in Hn; lia].
    rewrite Hd, !elem_of_app. right. right. apply list_elem_of_fmap. by exists (n, Ok l).
Qed.

(** A process that has ended is reported healthy and never replaced: from the moment
    it has ended and nobody reads its input any more, whatever requests come, no
    request reaches a process and every later call that returns has failed, while the
    health check, on Unix and on Windows, goes on to succeed until the datasource is
    closed. *)
Theorem mcp_dead_process_healthy serve s s' :
  rtc (use_step serve) started s → unread (srv s) → rtc (use_step serve) s s' →
  healthCheck (Some (proc (srv s'))) = Ok tt
  ∧ healthCheck_windows (Some (proc (srv s'))) = Ok tt
  ∧ wrote s' = wrote s
  ∧ ∀ n r, (n, r) ∈ returned s' → length (called s) ≤ n → is_ok r = false.
Proof.
  intros Hr He Hs. destruct (dead_steps serve s s' Hs He) as (Hp & Hw & Hh).
  assert (ProcessState (proc (srv s')) = None) as Hn by (rewrite Hp; by eapply not_reaped).
  split_and!; [|by unfold healthCheck_windows; rewrite Hn|done|].
  - unfold healthCheck. destruct (proc (srv s')); done.
  - intros n [l|e] Hin Hge; [|done]. exfalso.
    assert (hopeful s' n) as Hx by (right; exists l; apply elem_of_app; auto).
    apply Hh, (hopeful_called serve) in Hx; [lia|by apply use_reaches].
Qed.

Lemma mcp_dead_process_healthy_witness :
  healthCheck (Some (proc (srv demo_dead))) = Ok tt
  ∧ healthCheck_windows (Some (proc (srv demo_dead))) = Ok tt
  ∧ wrote demo_dead = []
  ∧ ∀ n r, (n, r) ∈ returned demo_dead → 1 ≤ n → is_ok r = false.
Proof. exact (mcp_dead_process_healthy echo demo_dead demo_dead demo_dead_use (conj eq_refl eq_refl) (rtc_refl _ _)). Defined.

(** ** Closing *)

Section closing.
Context (killed : wait_status) (signals : list close_event).
#[local] Open Scope Z_scope.

Lemma done_in_time_Some p c d w :
  done_in_time p c = Some (d, w) →
  ∃ t e, exit_of p c = Some (t, w) ∧ stderr_closed c = Some e ∧ d = Z.max t e ∧ d <= grace.
Proof.
  unfold done_in_time. destruct (exit_of p c) as [[t w']|], (stderr_closed c) as [e|]; try done.
  destruct (Z.ltb_spec (Z.max t e) grace), (Z.eqb_spec (Z.max t e) grace), (timer_wins c); cbn; intros; simplify_eq;
    exists t, e; split_and!; done || lia.
Qed.

Lemma exit_killed_bound p c : (exit_killed killed p c).1 <= grace.
Proof.
  unfold exit_killed. destruct (exit_of p c) as [[t w]|]; [|done]. by destruct (Z.leb_spec t grace).
Qed.

Lemma wait_result_Ok w : wait_result w = Ok tt ↔ w = ExitStatus 0.
Proof. destruct w as [[| |]|]; naive_solver. Qed.

Lemma close_with_returns pid p c e :
  ProcessState p = None → stderr_closed c = Some e →
  ∃ t r, (close_with killed signals pid (Some p) c).1 = Some (t, r) ∧ t <= Z.max grace e
    ∧ (r = Ok tt → ∃ t0, exit_of p c = Some (t0, ExitStatus 0) ∧ t = Z.max t0 e ∧ t <= grace).
Proof.
  intros Hp He.
  assert (close_with killed signals pid (Some p) c =
    match done_in_time p c with
    | Some (d, w) => (Some (d, wait_result w), ClosedStdin :: signals)
    | None => let '(t, w) := exit_killed killed p c in
        (Some (Z.max grace (Z.max t e), Err (force_killed pid w)), ClosedStdin :: signals ++ [SentKill])
    end) as -> by (destruct p; try done; cbn -[done_in_time exit_killed]; by rewrite He).
  destruct (done_in_time p c) as [[d w]|] eqn:E.
  - apply done_in_time_Some in E as (t & e' & Hx & He' & -> & Hd). simplify_eq.
    eexists _, _. split_and!; [done|lia|]. intros ->%wait_result_Ok. eauto.
  - pose proof (exit_killed_bound p c). destruct (exit_killed killed p c) as [t w]; cbn in *.
    eexists _, _. split_and!; [done|lia|done].
Qed.

Lemma close_with_blocks pid p c :
  ProcessState p = None → stderr_closed c = None → (close_with killed signals pid (Some p) c).1 = None.
Proof.
  intros Hp He. assert (done_in_time p c = None) as Hd.
  { unfold done_in_time. by destruct (exit_of p c) as [[??]|], (stderr_closed c). }
  destruct p; try done; unfold close_with; rewrite Hd; destruct (exit_killed _ _ _); by rewrite He.
Qed.

Lemma close_with_graceful pid p c t e :
  ProcessState p = None → exit_of p c = Some (t, ExitStatus 0) → stderr_closed c = Some e → Z.max t e < grace →
  close_with killed signals pid (Some p) c = (Some (Z.max t e, Ok tt), ClosedStdin :: signals).
Proof.
  intros Hp Hx He Hm. assert (done_in_time p c = Some (Z.max t e, ExitStatus 0)) as Hd.
  { unfold done_in_time. rewrite Hx, He. by destruct (Z.ltb_spec (Z.max t e) grace); [|lia]. }
  destruct p; try done; unfold close_with; by rewrite Hd.
Qed.
End closing.

(** C35. Closing a process comes to an end exactly if everyone who holds its standard
    error lets go of it: then [close] returns when that has happened, after the grace
    period at the latest otherwise, and without an error only if the process ended by
    itself with status 0 in that period; a process that does so gets no kill. If a
    process started by the server keeps it, [close] does not return although it has
    killed the server. On Windows the same holds without the signal. *)
Theorem mcp_close_returns pid p c :
  ProcessState p = None →
  match stderr_closed c with
  | None => (close pid (Some p) c).1 = None ∧ (close_windows pid (Some p) c).1 = None
  | Some e =>
      (∃ t r, (close pid (Some p) c).1 = Some (t, r) ∧ (t <= Z.max grace e)%Z
         ∧ (r = Ok tt → ∃ t0, exit_of p c = Some (t0, ExitStatus 0) ∧ t = Z.max t0 e ∧ (t <= grace)%Z))
      ∧ (∃ t r, (close_windows pid (Some p) c).1 = Some (t, r) ∧ (t <= Z.max grace e)%Z
         ∧ (r = Ok tt → ∃ t0, exit_of p c = Some (t0, ExitStatus 0) ∧ t = Z.max t0 e ∧ (t <= grace)%Z))
      ∧ ∀ t, exit_of p c = Some (t, ExitStatus 0) → (Z.max t e < grace)%Z →
          close pid (Some p) c = (Some (Z.max t e, Ok tt), [ClosedStdin; SentSIGTERM])
          ∧ close_windows pid (Some p) c = (Some (Z.max t e, Ok tt), [ClosedStdin])
  end.
Proof.
  intros Hp. destruct (stderr_closed c) as [e|] eqn:He.
  - split; [by apply close_with_returns|]. split; [by apply close_with_returns|].
    intros t Hx Hm. by split; apply close_with_graceful.
  - by split; apply close_with_blocks.
Qed.

(** A server that its signal ends, and one whose child keeps standard error open. *)
Lemma mcp_close_returns_witness :
  (close 7 (Some Running) (MkClosing (Some (Second, ExitStatus 0)) None false)).1 = None
  ∧ (close_windows 7 (Some Running) (MkClosing (Some (Second, ExitStatus 0)) None false)).1 = None.
Proof. exact (mcp_close_returns 7 Running (MkClosing (Some (Second, ExitStatus 0)) None false) eq_refl). Defined.

(** ** The first requests *)

Definition no_process (l : launcher) : Prop := p_stdio l = None ∧ launched l = [].
Definition one_process (l : launcher) : Prop :=
  ∃ o pid, p_stdio l = Some o ∧ objects l !! o = Some (MkObject true true (Some pid)) ∧ launched l = [pid].
Definition holds_object (l : launcher) (o : nat) (P : object → Prop) : Prop :=
  p_stdio l = Some o ∧ (∃ x, objects l !! o = Some x ∧ P x) ∧ launched l = [].

(** What holds while one request is under way. *)
Definition phase_ok (l : launcher) (pc : request_pc) : Prop :=
  match pc with
  | AtCheck | Sent _ | Failed => no_process l ∨ one_process l
  | AtAlloc => no_process l
  | AtStart => ∃ o, holds_object l o (λ _, True)
  | AtCommand o => holds_object l o (λ _, True)
  | AtPipes o => holds_object l o (λ x, o_cmd x = true)
  | AtLaunch o => holds_object l o (λ x, o_cmd x = true ∧ o_pipes x = true)
  | AtFailure => launched l = []
  | AtSend => one_process l
  end.

Record serial (l : launcher) : Prop := {
  se_panic : panicked l = false;
  se_idle : requests l = [] → no_process l;
  se_last : ∀ before pc, requests l = before ++ [pc] → forallb finished before = true ∧ phase_ok l pc;
}.

Lemma serial_at l r pc :
  serial l → requests l !! r = Some pc → finished pc = false →
  ∃ before, requests l = before ++ [pc] ∧ r = length before ∧ forallb finished before = true ∧ phase_ok l pc.
Proof.
  intros [_ _ Hl] Hr Hf. destruct (requests l) as [|last before _] eqn:E using rev_ind; [done|].
  destruct (Hl before last eq_refl) as [Hb Hp]. exists before.
  destruct (decide (r < length before)) as [Hlt|Hge].
  - rewrite lookup_app_l in Hr by done. rewrite forallb_forall in Hb.
    apply list_elem_of_lookup_2, list_elem_of_In in Hr. by rewrite (Hb _ Hr) in Hf.
  - rewrite lookup_app_r in Hr by lia. apply list_lookup_singleton_Some in Hr as [Hz <-].
    split_and!; [done|lia|done|done].
Qed.

Lemma serial_move l l' before pc pc' :
  requests l = before ++ [pc] → forallb finished before = true →
  requests l' = requests l → panicked l' = false → phase_ok (move l' (length before) pc') pc' →
  serial (move l' (length before) pc').
Proof.
  intros Hr Hb Hr' Hp Hok.
  assert (<[length before := pc']> (requests l') = before ++ [pc']) as Hi.
  { rewrite Hr', Hr, insert_app_r_alt by lia. by rewrite Nat.sub_diag. }
  constructor; [done|..]; cbn; rewrite Hi; [by destruct before|]. intros b0 pc0 [-> [= ->]]%app_inj_tail. done.
Qed.

Ltac under_way Hl Hr :=
  destruct (serial_at _ _ _ Hl Hr eq_refl) as (b & Hb & -> & Hd & Hok).

Lemma serial_step l l' : launch_step false l l' → serial l → serial l'.
Proof.
  intros Hs Hl. pose proof (se_panic l Hl) as Hp.
  destruct Hs as [l Ha|l r Hr|l r Hr|l r o Hr Ho|l r Hr Ho|l r Hr|l r o x Hr Hx|l r o x Hr Hx|l r o x Hr Hx
    |l r o Hr|l r Hr|l r Hr|l r o Hr Ho Hu|l r Hr Hu].
  - constructor; cbn; [done|by destruct (requests l)|]. intros b pc [<- <-]%app_inj_tail.
    destruct Ha as [?|Ha]; [done|]. split; [done|]. cbn.
    destruct (requests l) as [|last b _] eqn:E using rev_ind; [left; by apply (se_idle l Hl)|].
    destruct (se_last l Hl b last E) as [_ Hok]. rewrite forallb_app in Ha. destruct last; cbn in Ha; try done;
      by apply andb_prop in Ha as [_ ?].
  - under_way Hl Hr. eapply serial_move; eauto. cbn. destruct Hok as [[Ho Hn]|(o & pid & Ho & Hx & Hn)]; rewrite Ho.
    + by split.
    + by exists o, pid.
  - under_way Hl Hr. eapply serial_move; eauto. destruct Hok as [Ho Hn]. exists (length (objects l)).
    split; [done|]. split; [|done]. eexists. split; [by apply list_lookup_middle|done].
  - under_way Hl Hr. eapply serial_move; eauto. destruct Hok as (o' & Ho' & Hx). by simplify_eq.
  - under_way Hl Hr. destruct Hok as (o' & Ho' & Hx). by simplify_eq.
  - destruct Hr as [[Hr Ho]|[o Hr]]; under_way Hl Hr.
    + destruct Hok as (o' & Ho' & Hx). by simplify_eq.
    + eapply serial_move; eauto. by destruct Hok as (_ & _ & ?).
  - under_way Hl Hr. eapply serial_move; eauto. destruct Hok as (Ho & _ & Hn). split; [done|]. split; [|done].
    eexists. split; [apply list_lookup_insert_eq; by eapply lookup_lt_Some|done].
  - under_way Hl Hr. eapply serial_move; eauto. destruct Hok as (Ho & (x' & Hx' & Hc) & Hn). simplify_eq.
    split; [done|]. split; [|done]. eexists. split; [apply list_lookup_insert_eq; by eapply lookup_lt_Some|done].
  - under_way Hl Hr. eapply serial_move; eauto. destruct Hok as (Ho & (x' & Hx' & Hc & Hq) & Hn). simplify_eq.
    exists o, (length (launched l)). cbn. rewrite Hn, Hc, Hq. split_and!; try done.
    apply list_lookup_insert_eq. by eapply lookup_lt_Some.
  - destruct Hr as [Hr|Hr]; under_way Hl Hr; eapply serial_move; eauto; by destruct Hok as (_ & _ & ?).
  - under_way Hl Hr. eapply serial_move; eauto. by left.
  - under_way Hl Hr. eapply serial_move; eauto. by right.
  - under_way Hl Hr. eapply serial_move; eauto. by right.
  - under_way Hl Hr. destruct Hok as (o & pid & Ho & Hx & _). unfold usable in Hu. rewrite Ho in Hu. cbn in Hu.
    by rewrite Hx in Hu.
Qed.

(** Of requests that come one after the other, the first starts the process and all
    share it: there is never more than one, nothing panics, and when all are answered
    the process that [Close] closes is the one that was started, if any. *)
Theorem mcp_one_process l :
  rtc (launch_step false) idle l →
  panicked l = false ∧ length (launched l) ≤ 1
  ∧ (forallb finished (requests l) = true → option_list (Close_stdio l) = launched l).
Proof.
  intros Hr. assert (serial l) as Hs.
  { eapply (rtc_invariant _ serial); [|exact Hr|]; [intros ? ?; apply serial_step|].
    constructor; cbn; [done|done|]. by intros []. }
  destruct (requests l) as [|pc b _] eqn:E using rev_ind.
  - destruct Hs as [Hp Hi _]. destruct (Hi E) as [Ho Hn]. unfold Close_stdio. rewrite Ho, Hn. by split_and!; [|cbn; lia|].
  - destruct Hs as [Hp _ Hl]. destruct (Hl b pc E) as [_ Hok]. rewrite forallb_app.
    assert (no_process l ∨ one_process l → length (launched l) ≤ 1
      ∧ option_list (Close_stdio l) = launched l) as Hc.
    { unfold Close_stdio. intros [[Ho Hn]|(o & pid & Ho & Hx & Hn)]; rewrite Ho, Hn; [by split; cbn; [lia|]|].
      cbn. rewrite Hx. by split; cbn; [lia|]. }
    assert (launched l = [] ∨ no_process l ∨ one_process l) as Hn
      by (destruct pc; cbn in Hok; unfold no_process, holds_object in *; naive_solver).
    split_and!; [done|destruct Hn as [->|?]; [cbn; lia|by apply Hc]|].
    intros [_ Hf]%andb_prop. destruct pc; try done; by apply Hc.
Qed.

Definition demo_launched : launcher :=
  MkLauncher (Some 0) [MkObject true true (Some 0)] [Sent 0] [0] false.

#[local] Tactic Notation "by_launch" uconstr(c) := eapply rtc_l; [eapply c; auto; reflexivity|]; cbn.

Lemma mcp_one_process_witness : option_list (Close_stdio demo_launched) = [0].
Proof.
  apply (mcp_one_process demo_launched); [|reflexivity].
  by_launch (launch_arrive false). by_launch (launch_check false _ 0). by_launch (launch_alloc false _ 0).
  by_launch (launch_start false _ 0 0). by_launch (launch_command false _ 0 0). by_launch (launch_pipes false _ 0 0).
  by_launch (launch_process false _ 0 0). by_launch (launch_send false _ 0 0). apply rtc_refl.
Defined.

(** Two first requests at the same time can start two processes, of which [Close]
    closes one only, or bring the agent down: the second finds the object before the
    first has started its process. *)
Theorem mcp_start_race :
  (∃ l, rtc (launch_step true) idle l ∧ requests l = [Sent 1; Sent 1]
     ∧ launched l = [0; 1] ∧ Close_stdio l = Some 1)
  ∧ ∃ l, rtc (launch_step true) idle l ∧ panicked l = true.
Proof.
  split; eexists; split.
  - by_launch (launch_arrive true). by_launch (launch_arrive true).
    by_launch (launch_check true _ 0). by_launch (launch_check true _ 1).
    by_launch (launch_alloc true _ 0). by_launch (launch_alloc true _ 1).
    by_launch (launch_start true _ 0 1). by_launch (launch_command true _ 0 1). by_launch (launch_pipes true _ 0 1).
    by_launch (launch_process true _ 0 1). by_launch (launch_start true _ 1 1). by_launch (launch_command true _ 1 1).
    by_launch (launch_pipes true _ 1 1). by_launch (launch_process true _ 1 1).
    by_launch (launch_send true _ 0 1). by_launch (launch_send true _ 1 1). apply rtc_refl.
  - done.
  - by_launch (launch_arrive true). by_launch (launch_check true _ 0). by_launch (launch_alloc true _ 0).
    by_launch (launch_arrive true). by_launch (launch_check true _ 1).
    by_launch (launch_send_nil true _ 1). apply rtc_refl.
  - done.
Qed.
