(* ===== verification/McpRemoval.v ===== *)
(** * Removing a datasource whose proxy runs a process

    The registry of src/pkg/proxy/registry.go over MCP proxies whose transport is stdio:
    [Remove] keeps a datasource whose [Close] returns an error, and [Close] returns what
    the process ended with. *)

From S2P Require Import Prelude GoStrings GoTime Registry McpProcess McpProcessFacts.
#[local] Open Scope nat_scope.

(** The registry, and the process of each proxy that has started one. *)
Record system := MkSystem { sys_registry : Registry; sys_procs : gmap proxyref process }.

(** The status that [close] has collected when it returns. *)
Definition reaped (p : process) (c : closing) : process :=
  match p with
  | Reaped w => Reaped w
  | _ => Reaped (match done_in_time p c with Some (_, w) => w | None => (exit_killed (Signaled "killed") p c).2 end)
  end.

(** [Close] of the proxy [n], and the system after it; [None] if it does not return. *)
Definition close_proxy (pid : Z) (c : closing) (s : system) (n : proxyref) : option (result unit * system) :=
  match sys_procs s !! n with
  | None => Some (Ok tt, s)
  | Some p =>
      match (close pid (Some p) c).1 with
      | Some (_, r) => Some (r, MkSystem (sys_registry s) (<[n := reaped p c]> (sys_procs s)))
      | None => None
      end
  end.

(** [Remove] of a datasource; [None] if it does not return, and the registry stays
    locked. *)
Definition remove_datasource (pid : Z) (c : closing) (s : system) (id : string) : option (result unit * system) :=
  match proxies (sys_registry s) !! id with
  | None => Some (Ok tt, s)
  | Some n =>
      match close_proxy pid c s n with
      | None => None
      | Some (r, s') =>
          let '(res, reg, _) := Remove (λ _, r) (sys_registry s) id in
          Some (res, MkSystem reg (sys_procs s'))
      end
  end.

(** Removals one after the other, each with the circumstances of its own. *)
Fixpoint remove_again (pid : Z) (cs : list closing) (s : system) (id : string) : option (list (result unit) * system) :=
  match cs with
  | [] => Some ([], s)
  | c :: cs =>
      match remove_datasource pid c s id with
      | None => None
      | Some (r, s) =>
          match remove_again pid cs s id with Some (rs, s) => Some (r :: rs, s) | None => None end
      end
  end.

Lemma remove_failing pid c s id n p t e :
  proxies (sys_registry s) !! id = Some n → sys_procs s !! n = Some p →
  (close pid (Some p) c).1 = Some (t, Err e) →
  remove_datasource pid c s id
    = Some (Err (wrapf ("closing proxy " +:+ id +:+ ": ") e),
            MkSystem (sys_registry s) (<[n := reaped p c]> (sys_procs s))).
Proof.
  intros Hn Hp Hc. unfold remove_datasource, close_proxy, Remove. by rewrite Hn, Hp, Hc.
Qed.

Lemma close_reaped pid w c :
  (close pid (Some (Reaped w)) c).1 = Some (0%Z, Err (errorf "exec: Wait was already called")).
Proof. done. Qed.

(** What [Remove] returns when [Close] has failed with [e]. *)
Definition close_failed (id : string) (e : error) : result unit :=
  Err (wrapf ("closing proxy " +:+ id +:+ ": ") e).

(** The second and every later removal. *)
Lemma remove_reaped pid cs s id n w :
  proxies (sys_registry s) !! id = Some n → sys_procs s !! n = Some (Reaped w) →
  remove_again pid cs s id
    = Some (repeat (close_failed id (errorf "exec: Wait was already called")) (length cs), s).
Proof.
  intros Hn Hp. induction cs as [|c cs IH]; [done|]. cbn [remove_again].
  rewrite (remove_failing _ _ _ _ _ _ _ _ Hn Hp (close_reaped pid w c)). cbn [reaped].
  rewrite insert_id by done. destruct s as [reg procs]; cbn [sys_registry sys_procs] in *. by rewrite IH.
Qed.

(** How the first [Close] ends when the process does not: with the status that [Wait]
    has collected, within the grace period or after the kill. *)
Definition close_error (pid : Z) (p : process) (c : closing) (w : wait_status) (e : error) : Prop :=
  match done_in_time p c with
  | Some (_, w') => w = w' ∧ Wait_error w = Some e
  | None => e = force_killed pid w
  end.

Lemma close_first pid p c :
  ProcessState p = None → (∀ d, done_in_time p c ≠ Some (d, ExitStatus 0)) →
  match stderr_closed c with
  | None => (close pid (Some p) c).1 = None
  | Some _ => ∃ t w e, (close pid (Some p) c).1 = Some (t, Err e) ∧ reaped p c = Reaped w ∧ close_error pid p c w e
  end.
Proof.
  intros Hs Hx. destruct (stderr_closed c) as [e0|] eqn:He; [|by apply close_with_blocks].
  unfold close_error, close, close_with, reaped.
  destruct p as [|w0|w0]; [| |done]; (destruct (done_in_time _ c) as [[d w]|] eqn:E;
    [|destruct (exit_killed _ _ _) as [t w]; rewrite He; by eexists _, _, _]);
    unfold wait_result; (destruct (Wait_error w) as [e|] eqn:Ew; [by eexists _, _, _|]);
    destruct w as [[| |]|]; try done; by edestruct Hx.
Qed.

(** C36. A datasource whose process does not end by itself with status 0 within the grace
    period, dead already or still running, can never be removed. Its first [Close]
    returns the status of the process, an error also for one that the signal of [close]
    itself ended, or that it was killed, so [Remove] fails and keeps the datasource;
    every later [Close] fails because the status was already collected, so the
    datasource stays registered, with a process that is gone, however often it is
    removed. If standard error is never closed, the first [Remove] does not return. *)
Theorem mcp_never_removed pid c s id n p cs :
  proxies (sys_registry s) !! id = Some n → sys_procs s !! n = Some p → ProcessState p = None →
  (∀ d, done_in_time p c ≠ Some (d, ExitStatus 0)) →
  match stderr_closed c with
  | None => remove_again pid (c :: cs) s id = None
  | Some _ =>
      ∃ w e s', remove_again pid (c :: cs) s id = Some
          (close_failed id e :: repeat (close_failed id (errorf "exec: Wait was already called")) (length cs), s')
        ∧ close_error pid p c w e
        ∧ sys_registry s' = sys_registry s ∧ sys_procs s' !! n = Some (Reaped w)
  end.
Proof.
  intros Hn Hp Hs Hx. pose proof (close_first pid p c Hs Hx) as Hc. cbn [remove_again].
  destruct (stderr_closed c) as [e0|].
  - destruct Hc as (t & w & e & Hc & Hw & He). rewrite (remove_failing _ _ _ _ _ _ _ _ Hn Hp Hc), Hw.
    set (s1 := MkSystem _ _). assert (sys_procs s1 !! n = Some (Reaped w)) as Hp1 by apply lookup_insert_eq.
    rewrite (remove_reaped pid cs s1 id n w Hn Hp1). by exists w, e, s1.
  - unfold remove_datasource, close_proxy. by rewrite Hn, Hp, Hc.
Qed.

(** A server that the signal ends after a second. *)
Definition demo_closing : closing := MkClosing (Some (Second, Signaled "terminated")) (Some Second) false.
Definition demo_system : system :=
  MkSystem (Register NewRegistry "mcp-1" (MkEntry "mcp-1" "mcp" "mcp-proxy" "tools" "local" "") 7).1 {[7 := Running]}.

Lemma mcp_never_removed_witness :
  ∃ w e s', remove_again 42 [demo_closing; demo_closing] demo_system "mcp-1" = Some
      ([close_failed "mcp-1" e; close_failed "mcp-1" (errorf "exec: Wait was already called")], s')
    ∧ close_error 42 Running demo_closing w e
    ∧ sys_registry s' = sys_registry demo_system ∧ sys_procs s' !! 7 = Some (Reaped w).
Proof.
  by apply (mcp_never_removed 42 demo_closing demo_system "mcp-1" 7 Running [demo_closing]).
Defined.
