(* ===== verification/Kafka.v ===== *)
(** * pkg/proxy/kafka: diagnostics of a Kafka cluster

    A client and an admin client made from it, replaced by configuration and closed
    at the end. The sarama library is the class [Sarama]: its state, what opening and
    closing do to it, and what its queries answer in a state. *)

From S2P Require Import Prelude GoStrings GoJson GoAny Registry.
From Stdlib Require Import SpecFloat.
#[local] Open Scope Z_scope.

(** ** State *)

Record Config := MkConfig { Brokers : string; SASLMechanism : string; TLSEnabled : bool }.

Definition zero_config : Config := MkConfig "" "" false.

Definition Config_field (c : Config) (k : string) (v : json) : Config * bool :=
  let 'MkConfig b m t := c in
  if key_is "brokers" k then let '(x, ok) := dec_string b v in (MkConfig x m t, ok)
  else if key_is "sasl_mechanism" k then let '(x, ok) := dec_string m v in (MkConfig b x t, ok)
  else if key_is "tls_enabled" k then let '(x, ok) := dec_bool t v in (MkConfig b m x, ok)
  else (c, true).

(** Clients and admin clients, by identity. *)
Definition client_ref := nat.
Definition admin_ref := nat.

Record Proxy := MkProxy {
  client : option client_ref;
  admin : option admin_ref;
  config : Config;
}.

Definition New : Proxy := MkProxy None None zero_config.

(** ** The library *)

(** The SASL settings of [sarama.Config]; a mechanism that is not set is left to the
    library, and [sc_scram] is the hash of the SCRAM client. *)
Inductive mechanism := SASLTypePlaintext | SASLTypeSCRAMSHA256 | SASLTypeSCRAMSHA512.
Record SASL := MkSASL {
  sasl_User : string;
  sasl_Password : string;
  sasl_Mechanism : option mechanism;
  sasl_Scram : option string;
}.
Record SaramaConfig := MkSaramaConfig { sc_TLS : bool; sc_SASL : option SASL }.

Record GroupMember := MkMember {
  gm_ClientId : string;
  gm_ClientHost : string;
  gm_Topics : option (list string);     (* the topics of its assignment, if it can be read *)
}.
Record GroupDescription := MkGroup {
  gd_GroupId : string;
  gd_State : string;
  gd_ProtocolType : string;
  gd_Members : gmap string GroupMember;
}.
Record TopicDetail := MkDetail { td_NumPartitions : Z; td_ReplicationFactor : Z }.
Record PartitionMetadata := MkPartition {
  pm_ID : Z;
  pm_Leader : Z;
  pm_Replicas : option (list Z);        (* [None] is a nil slice *)
  pm_Isr : option (list Z);
  pm_OfflineReplicas : option (list Z);
}.
Record TopicMetadata := MkTopic {
  tm_Name : string;
  tm_IsInternal : bool;
  tm_Partitions : list PartitionMetadata;
}.
Record Broker := MkBroker { b_ID : Z; b_Addr : string }.

Class Sarama := {
  lib : Type;
  NewClient : list string → SaramaConfig → lib → result client_ref * lib;
  NewClusterAdminFromClient : client_ref → lib → result admin_ref * lib;
  admin_Close : admin_ref → lib → result unit * lib;
  client_Close : client_ref → lib → result unit * lib;
  (* the committed offset of each partition of each topic *)
  ListConsumerGroupOffsets : lib → admin_ref → string → result (gmap string (gmap Z Z));
  (* the newest or the oldest offset *)
  GetOffset : lib → client_ref → string → Z → bool → result Z;
  Partitions : lib → client_ref → string → result (list Z);
  ListConsumerGroups : lib → admin_ref → result (gmap string string);
  DescribeConsumerGroups : lib → admin_ref → string → result (list GroupDescription);
  ListTopics : lib → admin_ref → result (gmap string TopicDetail);
  DescribeTopics : lib → admin_ref → string → result (list TopicMetadata);
  client_Brokers : lib → client_ref → list Broker;
  Controller : lib → client_ref → option Z * option error;
}.

(** ** Configuration *)

Section kafka.
Context `{Sarama, MapOrder}.

(** The error of the admin client comes first. *)
Definition closeInternal (p : Proxy) (l : lib) : result unit * Proxy * lib :=
  let '(e1, l) := match admin p with Some a => admin_Close a l | None => (Ok tt, l) end in
  let '(e2, l) := match client p with Some c => client_Close c l | None => (Ok tt, l) end in
  (match e1 with Err e => Err e | Ok _ => e2 end, MkProxy None None (config p), l).

Definition Close : Proxy → lib → result unit * Proxy * lib := closeInternal.

(** The mechanism is ignored when its name is not known. *)
Definition sasl_settings (cfg : Config) (creds : gmap string string) : option SASL :=
  if String.eqb (SASLMechanism cfg) "" then None
  else
    let m := ToLower (SASLMechanism cfg) in
    let '(mech, scram) :=
      if String.eqb m "plain" then (Some SASLTypePlaintext, None)
      else if String.eqb m "scram-sha-256" then (Some SASLTypeSCRAMSHA256, Some "SHA-256")
      else if String.eqb m "scram-sha-512" then (Some SASLTypeSCRAMSHA512, Some "SHA-512")
      else (None, None) in
    Some (MkSASL (cred creds "sasl_username") (cred creds "sasl_password") mech scram).

(** The configuration once its JSON is read; an error of Marshal leaves nothing to
    read, which is an error too. *)
Definition parse_kafka (conf : gmap string any) : result Config :=
  match marshal_any_map conf with
  | None => Err (wrapf "parsing kafka config: " json_error)
  | Some j =>
      let '(cfg, ok) := dec_struct Config_field zero_config j in
      _ ← fail_if (negb ok) (wrapf "parsing kafka config: " json_error);
      _ ← fail_if (String.eqb (Brokers cfg) "") (errorf "missing brokers configuration");
      Ok cfg
  end.

Definition Configure (p : Proxy) (conf : gmap string any) (creds : gmap string string) (l : lib)
  : result unit * Proxy * lib :=
  let '(_, p, l) := closeInternal p l in
  match parse_kafka conf with
  | Err e => (Err e, p, l)
  | Ok cfg =>
      let p := MkProxy (client p) (admin p) cfg in
      let brokers := map TrimSpace (Split (Brokers cfg) ",") in
      match NewClient brokers (MkSaramaConfig (TLSEnabled cfg) (sasl_settings cfg creds)) l with
      | (Err e, l) => (Err (wrapf "kafka client connect failed: " e), p, l)
      | (Ok c, l) =>
          match NewClusterAdminFromClient c l with
          | (Err e, l) =>
              let '(_, l) := client_Close c l in
              (Err (wrapf "kafka admin client failed: " e), p, l)
          | (Ok a, l) => (Ok tt, MkProxy (Some c) (Some a) cfg, l)
          end
      end
  end.

Definition HealthCheck (p : Proxy) (l : lib) : result unit :=
  match client p with
  | None => Err (errorf "kafka not configured")
  | Some c => fail_if (bool_decide (client_Brokers l c = [])) (errorf "no brokers available")
  end.

(** ** Answers *)

Definition jnum (z : Z) : json := JNum (Itoa z).
(** A nil slice is null. *)
Definition jlist {A} (f : A → json) (l : list A) : json :=
  match l with [] => JNull | _ => JArr (map f l) end.
Definition jslice (l : option (list Z)) : json :=
  match l with None => JNull | Some l => JArr (map jnum l) end.

Definition respond (j : json) : ActionResponse := MkResponse 200 "" "" "" (json_print j) None.

(** *** Consumer lag *)

Record partitionLag := MkPartitionLag {
  pl_Partition : Z;
  pl_CurrentOffset : Z;
  pl_LogEndOffset : Z;
  pl_Lag : Z;
}.
Record topicLag := MkTopicLag {
  tl_Topic : string;
  tl_Partitions : list partitionLag;
  tl_TotalLag : Z;
}.

(** One partition: skipped without a committed offset or an end of the log. *)
Definition add_partition (l : lib) (c : client_ref) (tl : topicLag) (x : Z * Z) : topicLag :=
  let '(partition, offset) := x in
  if offset =? -1 then tl
  else
    match GetOffset l c (tl_Topic tl) partition true with
    | Err _ => tl
    | Ok logEnd =>
        let lag := wrap64 (logEnd - offset) in
        let lag := if lag <? 0 then 0 else lag in
        MkTopicLag (tl_Topic tl)
          (tl_Partitions tl ++ [MkPartitionLag partition offset logEnd lag])
          (wrap64 (tl_TotalLag tl + lag))
    end.

Definition topic_lag (l : lib) (c : client_ref) (n : nat) (x : string * gmap Z Z) : topicLag :=
  foldl (add_partition l c) (MkTopicLag x.1 [] 0) (visit (S n) (map_to_list x.2)).

Definition consumer_lag (l : lib) (c : client_ref) (blocks : gmap string (gmap Z Z)) : list topicLag :=
  imap (topic_lag l c) (visit 0 (map_to_list blocks)).

Definition marshal_partition_lag (x : partitionLag) : json :=
  JObj [("partition", jnum (pl_Partition x)); ("current_offset", jnum (pl_CurrentOffset x));
        ("log_end_offset", jnum (pl_LogEndOffset x)); ("lag", jnum (pl_Lag x))].
Definition marshal_topic_lag (x : topicLag) : json :=
  JObj [("topic", JStr (tl_Topic x)); ("partitions", jlist marshal_partition_lag (tl_Partitions x));
        ("total_lag", jnum (tl_TotalLag x))].

Definition handleConsumerLag (l : lib) (c : client_ref) (a : admin_ref) (req : ActionRequest)
  : result ActionResponse :=
  let group := as_string (req_Params req !! "group") in
  _ ← fail_if (String.eqb group "") (errorf "missing group parameter");
  offsets ← wrap_err "listing consumer group offsets: " (ListConsumerGroupOffsets l a group);
  Ok (respond (JObj [("group", JStr group);
                     ("topics", jlist marshal_topic_lag (consumer_lag l c offsets))])).

(** *** Groups *)

Definition handleConsumerGroups (l : lib) (a : admin_ref) : result ActionResponse :=
  groups ← wrap_err "listing consumer groups: " (ListConsumerGroups l a);
  let infos := visit 0 (map_to_list groups) in
  Ok (respond (JObj [("count", jnum (Z.of_nat (length infos)));
                     ("groups", JArr (map (λ '(name, proto),
                        JObj [("name", JStr name); ("protocol", JStr proto)]) infos))])).

Definition marshal_member (m : GroupMember) : json :=
  JObj [("client_host", JStr (gm_ClientHost m)); ("client_id", JStr (gm_ClientId m));
        ("topics", jlist JStr (default [] (gm_Topics m)))].

Definition handleConsumerGroupDescribe (l : lib) (a : admin_ref) (req : ActionRequest)
  : result ActionResponse :=
  let group := as_string (req_Params req !! "group") in
  _ ← fail_if (String.eqb group "") (errorf "missing group parameter");
  descriptions ← wrap_err "describing consumer group: " (DescribeConsumerGroups l a group);
  match descriptions with
  | [] => Err (errorf ("consumer group " +:+ Quote group +:+ " not found"))
  | desc :: _ =>
      let members := map (λ '(_, m), marshal_member m) (visit 0 (map_to_list (gd_Members desc))) in
      Ok (respond (JObj [("group", JStr (gd_GroupId desc));
                         ("member_count", jnum (Z.of_nat (length members)));
                         ("members", JArr members);
                         ("protocol", JStr (gd_ProtocolType desc));
                         ("state", JStr (gd_State desc))]))
  end.

(** *** Topics *)

Definition handleTopics (l : lib) (a : admin_ref) : result ActionResponse :=
  topics ← wrap_err "listing topics: " (ListTopics l a);
  let infos := visit 0 (map_to_list topics) in
  Ok (respond (JObj [("count", jnum (Z.of_nat (length infos)));
                     ("topics", JArr (map (λ '(name, d),
                        JObj [("name", JStr name); ("partitions", jnum (td_NumPartitions d));
                              ("replication_factor", jnum (td_ReplicationFactor d))]) infos))])).

Definition marshal_partition (pm : PartitionMetadata) : json :=
  JObj [("id", jnum (pm_ID pm)); ("isr", jslice (pm_Isr pm)); ("leader", jnum (pm_Leader pm));
        ("offline_replicas", jslice (pm_OfflineReplicas pm)); ("replicas", jslice (pm_Replicas pm))].

Definition handleTopicDescribe (l : lib) (a : admin_ref) (req : ActionRequest) : result ActionResponse :=
  let topic := as_string (req_Params req !! "topic") in
  _ ← fail_if (String.eqb topic "") (errorf "missing topic parameter");
  metadata ← wrap_err "describing topic: " (DescribeTopics l a topic);
  match metadata with
  | [] => Err (errorf ("topic " +:+ Quote topic +:+ " not found"))
  | tm :: _ =>
      Ok (respond (JObj [("is_internal", JBool (tm_IsInternal tm));
                         ("partition_count", jnum (Z.of_nat (length (tm_Partitions tm))));
                         ("partitions", JArr (map marshal_partition (tm_Partitions tm)));
                         ("topic", JStr (tm_Name tm))]))
  end.

(** One partition of a topic; skipped when an offset is not known. *)
Definition partition_offset (l : lib) (c : client_ref) (topic : string) (part : Z) : option json :=
  match GetOffset l c topic part false, GetOffset l c topic part true with
  | Ok earliest, Ok latest =>
      Some (JObj [("partition", jnum part); ("earliest", jnum earliest); ("latest", jnum latest);
                  ("messages", jnum (wrap64 (latest - earliest)))])
  | _, _ => None
  end.

Definition handleTopicOffsets (l : lib) (c : client_ref) (req : ActionRequest) : result ActionResponse :=
  let topic := as_string (req_Params req !! "topic") in
  _ ← fail_if (String.eqb topic "") (errorf "missing topic parameter");
  partitions ← wrap_err "getting partitions: " (Partitions l c topic);
  Ok (respond (JObj [("partitions", JArr (omap (partition_offset l c topic) partitions));
                     ("topic", JStr topic)])).

(** *** Brokers *)

Definition handleBrokers (l : lib) (c : client_ref) : result ActionResponse :=
  let brokers := client_Brokers l c in
  let controllerID := default (-1) (Controller l c).1 in
  Ok (respond (JObj [("brokers", JArr (map (λ b,
                        JObj [("addr", JStr (b_Addr b)); ("id", jnum (b_ID b));
                              ("is_controller", JBool (b_ID b =? controllerID))]) brokers));
                     ("controller_id", jnum controllerID);
                     ("count", jnum (Z.of_nat (length brokers)))])).

(** ** Requests *)

Definition HandleRequest (p : Proxy) (l : lib) (req : ActionRequest) : result ActionResponse :=
  match client p, admin p with
  | Some c, Some a =>
      let action := req_Action req in
      if String.eqb action "kafka_consumer_lag" then handleConsumerLag l c a req
      else if String.eqb action "kafka_consumer_groups" then handleConsumerGroups l a
      else if String.eqb action "kafka_consumer_group_describe" then handleConsumerGroupDescribe l a req
      else if String.eqb action "kafka_topics" then handleTopics l a
      else if String.eqb action "kafka_topic_describe" then handleTopicDescribe l a req
      else if String.eqb action "kafka_brokers" then handleBrokers l c
      else if String.eqb action "kafka_topic_offsets" then handleTopicOffsets l c req
      else Err (errorf ("unknown kafka action: " +:+ action))
  | _, _ => Err (errorf "kafka not configured")
  end.

Definition CollectMetadata (p : Proxy) (l : lib) : result (gmap string any) :=
  match client p with
  | None => Err (errorf "kafka not configured")
  | Some c =>
      let meta : gmap string any :=
        <["brokers" := AStr (Brokers (config p))]>
          (<["broker_count" := AInt (Z.of_nat (length (client_Brokers l c)))]> ∅) in
      Ok (match Controller l c with
          | (Some id, None) => <["controller_id" := AInt id]> meta
          | _ => meta
          end)
  end.
End kafka.
