(* ===== verification/KafkaFacts.v ===== *)
(** * Kafka: lag is what is left to read; a removal that has to be asked for twice *)

From S2P Require Import Prelude GoStrings GoJson GoAny Registry Kafka.
From Stdlib Require Import SpecFloat.
#[local] Open Scope Z_scope.

(** ** Lag *)

Section lag.
Context `{Sarama, MapOrder}.

Definition offset_range (z : Z) : Prop := 0 <= z <= maxInt64.

(** What a partition with a committed offset contributes. *)
Definition lag_of (l : lib) (c : client_ref) (topic : string) (x : Z * Z) : option partitionLag :=
  if x.2 =? -1 then None
  else match GetOffset l c topic x.1 true with
       | Ok logEnd => Some (MkPartitionLag x.1 x.2 logEnd (Z.max 0 (logEnd - x.2)))
       | Err _ => None
       end.

Definition lag_sum (l : list partitionLag) : Z := foldr (λ x s, pl_Lag x + s) 0 l.

Lemma lag_sum_perm l k : l ≡ₚ k → lag_sum l = lag_sum k.
Proof. unfold lag_sum. induction 1; cbn [foldr]; lia. Qed.

Lemma lag_of_nonneg l c topic x y : lag_of l c topic x = Some y → 0 <= pl_Lag y.
Proof. unfold lag_of. repeat case_match; naive_solver lia. Qed.

Lemma lag_sum_nonneg l c topic xs : 0 <= lag_sum (omap (lag_of l c topic) xs).
Proof.
  unfold lag_sum in *. induction xs as [|x xs IH]; [done|]. cbn [omap list_omap].
  destruct (lag_of l c topic x) as [y|] eqn:E; [|done]. apply lag_of_nonneg in E. cbn [foldr]. lia.
Qed.

(** Offsets as the brokers give them. *)
Definition known_offset (l : lib) (c : client_ref) (topic : string) (x : Z * Z) : Prop :=
  (x.2 = -1 ∨ offset_range x.2) ∧ ∀ z, GetOffset l c topic x.1 true = Ok z → offset_range z.
Definition known_offsets (l : lib) (c : client_ref) (topic : string) (xs : list (Z * Z)) : Prop :=
  Forall (known_offset l c topic) xs.

Lemma add_partition_lag l c tl x :
  known_offset l c (tl_Topic tl) x →
  add_partition l c tl x =
  match lag_of l c (tl_Topic tl) x with
  | Some y => MkTopicLag (tl_Topic tl) (tl_Partitions tl ++ [y]) (wrap64 (tl_TotalLag tl + pl_Lag y))
  | None => tl
  end.
Proof.
  destruct x as [part off]. intros [Hoff Hend]. unfold add_partition, lag_of. cbn [fst snd] in *.
  destruct (Z.eqb_spec off (-1)) as [-> |Hne]; [done|]. destruct Hoff as [|Hoff]; [done|].
  destruct (GetOffset l c (tl_Topic tl) part true) as [z|] eqn:Ez; [|done].
  specialize (Hend z eq_refl). unfold offset_range in *. cbn [pl_Lag].
  rewrite (wrap64_id (z - off)) by (unfold in_int64, minInt64, maxInt64 in *; lia).
  assert ((if z - off <? 0 then 0 else z - off) = Z.max 0 (z - off)) as ->; [|done].
  destruct (Z.ltb_spec (z - off) 0); lia.
Qed.

Lemma add_partitions l c tl xs :
  known_offsets l c (tl_Topic tl) xs → 0 <= tl_TotalLag tl →
  tl_TotalLag tl + lag_sum (omap (lag_of l c (tl_Topic tl)) xs) <= maxInt64 →
  foldl (add_partition l c) tl xs =
  MkTopicLag (tl_Topic tl) (tl_Partitions tl ++ omap (lag_of l c (tl_Topic tl)) xs)
    (tl_TotalLag tl + lag_sum (omap (lag_of l c (tl_Topic tl)) xs)).
Proof.
  intros Hk. revert tl Hk. induction xs as [|x xs IH]; intros tl Hk Hz Hm.
  - cbn. rewrite List.app_nil_r, Z.add_0_r. by destruct tl.
  - apply Forall_cons in Hk as [Hx Hk]. cbn [foldl omap list_omap] in *.
    rewrite add_partition_lag by done.
    destruct (lag_of l c (tl_Topic tl) x) as [y|] eqn:E; [|by apply IH].
    apply lag_of_nonneg in E. pose proof (lag_sum_nonneg l c (tl_Topic tl) xs) as Hn.
    unfold lag_sum in *. cbn [foldr] in *.
    rewrite wrap64_id by (unfold in_int64, minInt64 in *; lia).
    rewrite IH; cbn [tl_Topic tl_Partitions tl_TotalLag]; [|done|lia|lia].
    f_equal; [by rewrite <-List.app_assoc|lia].
Qed.

(** The lag report has each topic of the group once, and for it each partition
    that has a committed offset and a known end exactly once, with the number of
    messages left to read (none when the offset is past the end) and their total. *)
Theorem kafka_lag_exact l c blocks :
  (∀ topic parts, blocks !! topic = Some parts →
     known_offsets l c topic (map_to_list parts) ∧
     lag_sum (omap (lag_of l c topic) (map_to_list parts)) <= maxInt64) →
  tl_Topic <$> consumer_lag l c blocks ≡ₚ (map_to_list blocks).*1 ∧
  ∀ tl, tl ∈ consumer_lag l c blocks →
    ∃ parts, blocks !! tl_Topic tl = Some parts ∧
      tl_Partitions tl ≡ₚ omap (lag_of l c (tl_Topic tl)) (map_to_list parts) ∧
      tl_TotalLag tl = lag_sum (tl_Partitions tl).
Proof.
  intros Hb.
  assert (∀ n topic parts, blocks !! topic = Some parts →
    let xs := visit (S n) (map_to_list parts) in
    topic_lag l c n (topic, parts) =
      MkTopicLag topic (omap (lag_of l c topic) xs) (lag_sum (omap (lag_of l c topic) xs))) as Ht.
  { intros n topic parts Hp. cbv zeta. destruct (Hb _ _ Hp) as [Hk Hs].
    pose proof (visit_perm (S n) _ (map_to_list parts)) as Hx.
    unfold topic_lag. rewrite add_partitions; cbn [tl_Topic tl_Partitions tl_TotalLag fst snd]; [done|..|lia|].
    - unfold known_offsets. by rewrite Hx.
    - rewrite (lag_sum_perm _ (omap (lag_of l c topic) (map_to_list parts))); [lia|by rewrite Hx]. }
  assert (visit 0 (map_to_list blocks) ≡ₚ map_to_list blocks) as Hv by apply visit_perm.
  split.
  - assert (tl_Topic <$> consumer_lag l c blocks = (visit 0 (map_to_list blocks)).*1) as ->; [|by rewrite Hv].
    apply list_eq. intros i. unfold consumer_lag. rewrite !list_lookup_fmap, list_lookup_imap.
    destruct (visit 0 (map_to_list blocks) !! i) as [[topic parts]|] eqn:Hi; [|done]. cbn.
    rewrite Ht; [done|]. apply elem_of_map_to_list. rewrite <-Hv. by eapply list_elem_of_lookup_2.
  - intros tl [i Hi]%list_elem_of_lookup. unfold consumer_lag in Hi.
    rewrite list_lookup_imap in Hi. apply fmap_Some in Hi as ([topic parts] & Hi & ->).
    assert (blocks !! topic = Some parts) as Hp.
    { apply elem_of_map_to_list. rewrite <-Hv. by eapply list_elem_of_lookup_2. }
    rewrite (Ht _ _ _ Hp). cbn. exists parts. split_and!; [done| |done]. by rewrite visit_perm.
Qed.
End lag.

(** ** Removal *)

(** What sarama documents: an admin client made from a client closes that client too
    when it is closed, and closing a closed client is an error. *)
Class SaramaDocs `{Sarama} := {
  admin_client : admin_ref → client_ref;
  client_Closed : client_ref → lib → Prop;
  admin_of_client : ∀ c l a l', NewClusterAdminFromClient c l = (Ok a, l') → admin_client a = c;
  admin_Close_closes : ∀ a l, client_Closed (admin_client a) (admin_Close a l).2;
  client_Close_closed : ∀ c l, client_Closed c l → ∃ e, (client_Close c l).1 = Err e;
}.

Section removal.
Context `{SaramaDocs, MapOrder}.

(** The registry with the Kafka proxies it refers to. *)
Record system := MkSystem {
  sys_registry : Registry;
  sys_proxies : gmap proxyref Proxy;
  sys_lib : lib;
}.

Definition close_in (s : system) (n : proxyref) : system :=
  match sys_proxies s !! n with
  | Some p =>
      let '(_, p, l) := Close p (sys_lib s) in MkSystem (sys_registry s) (<[n := p]> (sys_proxies s)) l
  | None => s
  end.

(** [Remove] of the registry, with the proxies it closes. *)
Definition remove_datasource (s : system) (id : string) : result unit * system :=
  let close n := match sys_proxies s !! n with Some p => (Close p (sys_lib s)).1.1 | None => Ok tt end in
  let '(r, reg, closed) := Remove close (sys_registry s) id in
  (r, foldl close_in (MkSystem reg (sys_proxies s) (sys_lib s)) closed).

(** A configured proxy holds an admin client of its own client. *)
Lemma Configure_holds p0 conf creds l0 p l1 :
  Configure p0 conf creds l0 = (Ok tt, p, l1) →
  ∃ c a, client p = Some c ∧ admin p = Some a ∧ admin_client a = c.
Proof.
  unfold Configure. destruct (closeInternal p0 l0) as [[r q] l]. destruct (parse_kafka conf) as [cfg|]; [|done].
  destruct (NewClient _ _ l) as [[c|] l2]; [|done].
  destruct (NewClusterAdminFromClient c l2) as [[a|] l3] eqn:Ea; [|by destruct (client_Close c l3)].
  intros [= <- <-]. exists c, a. split_and!; [done..|]. by eapply admin_of_client.
Qed.

Lemma Close_configured p c a l :
  client p = Some c → admin p = Some a → admin_client a = c →
  ∃ e l', Close p l = (Err e, MkProxy None None (config p), l').
Proof.
  intros Hc Ha <-. unfold Close, closeInternal. rewrite Hc, Ha.
  pose proof (admin_Close_closes a l) as Hcl. destruct (admin_Close a l) as [r1 l1]. cbn [snd] in Hcl.
  apply client_Close_closed in Hcl as [e He]. destruct (client_Close (admin_client a) l1) as [r2 l2].
  cbn [fst] in He. subst r2. destruct r1; eauto.
Qed.

(** A Kafka datasource has to be removed twice. Closing the proxy closes the admin
    client, which closes the client under it, and then the client again, which is an
    error; so the first removal fails and leaves the datasource registered with a
    proxy that answers no request, and the next one succeeds. *)
Theorem kafka_removed_twice s id n p0 conf creds l0 p l1 :
  Configure p0 conf creds l0 = (Ok tt, p, l1) →
  proxies (sys_registry s) !! id = Some n → sys_proxies s !! n = Some p →
  let '(r1, s1) := remove_datasource s id in
  let '(r2, s2) := remove_datasource s1 id in
  (∃ e, r1 = Err e) ∧ sys_registry s1 = sys_registry s ∧
  (∃ p', sys_proxies s1 !! n = Some p' ∧ ∀ req l, HandleRequest p' l req = Err (errorf "kafka not configured")) ∧
  r2 = Ok tt ∧ proxies (sys_registry s2) !! id = None.
Proof.
  intros (c & a & Hc & Ha & Hac)%Configure_holds Hn Hp.
  destruct (Close_configured p c a (sys_lib s) Hc Ha Hac) as (e & l' & He).
  assert (remove_datasource s id = (Err (wrapf ("closing proxy " +:+ id +:+ ": ") e),
    MkSystem (sys_registry s) (<[n := MkProxy None None (config p)]> (sys_proxies s)) l')) as ->.
  { unfold remove_datasource, Remove. rewrite Hn, Hp, He. cbn [fst foldl]. unfold close_in.
    cbn [sys_proxies sys_lib sys_registry]. by rewrite Hp, He. }
  unfold remove_datasource, Remove. cbn [sys_proxies sys_lib sys_registry].
  rewrite Hn, lookup_insert_eq. cbn [Close closeInternal admin client fst foldl].
  split_and!; [by eexists|done|by eexists|done|].
  unfold close_in. cbn [sys_proxies sys_lib sys_registry]. rewrite lookup_insert_eq. cbn.
  by rewrite lookup_delete_eq.
Qed.
End removal.

(** ** A cluster with one consumer group *)

Definition demo_blocks : gmap string (gmap Z Z) :=
  <["orders" := <[0 := 5]> (<[1 := -1]> (<[2 := 12]> ∅))]> ∅.
Definition demo_offset (part : Z) (newest : bool) : result Z :=
  if part =? 2 then Ok 10 else Ok (if newest then 8 else 0).

(** The state is the list of closed clients. *)
#[local] Instance demo_sarama : Sarama := {
  lib := list nat;
  NewClient _ _ l := (Ok 1%nat, l);
  NewClusterAdminFromClient c l := (Ok c, l);
  admin_Close a l := (Ok tt, a :: l);
  client_Close c l := if bool_decide (c ∈ l) then (Err (errorf "kafka: tried to use a client that was closed"), l)
                      else (Ok tt, c :: l);
  ListConsumerGroupOffsets _ _ _ := Ok demo_blocks;
  GetOffset _ _ _ part newest := demo_offset part newest;
  Partitions _ _ _ := Ok [0; 1; 2];
  ListConsumerGroups _ _ := Ok ∅;
  DescribeConsumerGroups _ _ _ := Ok [];
  ListTopics _ _ := Ok ∅;
  DescribeTopics _ _ _ := Ok [];
  client_Brokers _ _ := [MkBroker 1 "b1:9092"];
  Controller _ _ := (Some 1, None);
}.

#[local, program] Instance demo_docs : SaramaDocs := {
  admin_client a := a;
  client_Closed (c : client_ref) (l : list nat) := c ∈ l;
}.
Next Obligation. intros c l a l' H. by injection H. Qed.
Next Obligation. intros a l. simpl. left. Qed.
Next Obligation. intros c l H. simpl. rewrite bool_decide_true by done. by eexists. Qed.

#[local, program] Instance demo_order : MapOrder := { visit _ _ l := l }.
Next Obligation. done. Qed.

Definition demo_conf : gmap string any := {["brokers" := AStr "b1:9092, b2:9092"]}.
Definition demo_proxy : Proxy := MkProxy (Some 1%nat) (Some 1%nat) (MkConfig "b1:9092, b2:9092" "" false).
Definition demo_system : system :=
  MkSystem (Register NewRegistry "kafka-1" (MkEntry "kafka-1" "kafka" "kafka-proxy" "k" "local" "") 7%nat).1
    {[7%nat := demo_proxy]} [].

Lemma kafka_removed_twice_witness :
  (∃ e, (remove_datasource demo_system "kafka-1").1 = Err e).
Proof.
  refine (proj1 (kafka_removed_twice demo_system "kafka-1" 7%nat New demo_conf ∅ [] demo_proxy [] _ _ _));
    vm_compute; reflexivity.
Defined.

Lemma kafka_lag_exact_witness :
  ∀ tl, tl ∈ consumer_lag [] 1%nat demo_blocks → tl_TotalLag tl = lag_sum (tl_Partitions tl).
Proof.
  intros tl Htl. refine (match proj2 (kafka_lag_exact [] 1%nat demo_blocks _) tl Htl with
    | ex_intro _ _ (conj _ (conj _ E)) => E end).
  intros topic parts. unfold demo_blocks. rewrite lookup_insert_Some, lookup_empty.
  intros [[<- <-]|[_ ?]]; [|done]. split; [|vm_compute; congruence].
  apply Forall_forall. intros [part off] Hin. apply elem_of_map_to_list in Hin. split.
  - revert Hin. rewrite !lookup_insert_Some, lookup_empty. unfold offset_range, maxInt64. cbn [snd].
    intros [[_ <-]|[_ [[_ <-]|[_ [[_ <-]|[_ ?]]]]]]; [right; lia|by left|right; lia|done].
  - intros z. cbn. unfold demo_offset, offset_range, maxInt64. destruct (part =? 2); intros [= <-]; lia.
Defined.

Example demo_lag :
  consumer_lag [] 1%nat demo_blocks =
  [MkTopicLag "orders" [MkPartitionLag 2 12 10 0; MkPartitionLag 0 5 8 3] 3].
Proof. vm_compute. reflexivity. Qed.
