(* ===== verification/Scram.v ===== *)
(** * pkg/proxy/kafka/scram.go: the SCRAM client given to the Kafka library

    The adapter picks the hash of the mechanism and passes a conversation on; the SCRAM
    library itself is the class [ScramLib]. *)

From S2P Require Import Prelude GoStrings Kafka.

Inductive hash_fn := sha256_New | sha512_New.

Class ScramLib := {
  conversation : Type;
  (* a client of a user, with a password and an authorisation, begins a conversation *)
  NewConversation : hash_fn → string → string → string → result conversation;
  conv_Step : conversation → string → result string * conversation;
  conv_Done : conversation → bool;
}.

Section scram.
Context `{ScramLib}.

Record scramClient := MkScram { scram_mechanism : string; conv : option conversation }.

Definition hashGen (mechanism : string) : hash_fn :=
  if String.eqb mechanism "SHA-512" then sha512_New else sha256_New.

Definition scram_Begin (s : scramClient) (user password authz : string) : result unit * scramClient :=
  match NewConversation (hashGen (scram_mechanism s)) user password authz with
  | Err e => (Err e, s)
  | Ok c => (Ok tt, MkScram (scram_mechanism s) (Some c))
  end.

(** Both use the conversation that [Begin] has made. *)
Definition scram_Step (s : scramClient) (challenge : string) : outcome (result string * scramClient) :=
  match conv s with
  | None => Panic
  | Some c => let '(r, c) := conv_Step c challenge in Return (r, MkScram (scram_mechanism s) (Some c))
  end.
Definition scram_Done (s : scramClient) : outcome bool :=
  match conv s with None => Panic | Some c => Return (conv_Done c) end.

(** The hash that a SCRAM mechanism of the Kafka protocol names. *)
Definition mechanism_hash (m : mechanism) : option hash_fn :=
  match m with
  | SASLTypePlaintext => None
  | SASLTypeSCRAMSHA256 => Some sha256_New
  | SASLTypeSCRAMSHA512 => Some sha512_New
  end.

(** An exchange: one step for each challenge of the server. *)
Fixpoint scram_run (s : scramClient) (challenges : list string) : outcome (list (result string) * scramClient) :=
  match challenges with
  | [] => Return ([], s)
  | ch :: rest =>
      '(r, s) ← scram_Step s ch;
      '(rs, s) ← scram_run s rest;
      Return (r :: rs, s)
  end.

Lemma scram_run_begun s challenges :
  is_Some (conv s) →
  ∃ rs s', scram_run s challenges = Return (rs, s') ∧ is_Some (conv s') ∧ length rs = length challenges.
Proof.
  revert s. induction challenges as [|ch rest IH]; intros s [c Hc]; [by exists [], s; rewrite Hc|].
  cbn. unfold scram_Step. rewrite Hc. destruct (conv_Step c ch) as [r c']. cbn.
  destruct (IH (MkScram (scram_mechanism s) (Some c'))) as (rs & s' & -> & Hs & Hl); [by eexists|].
  exists (r :: rs), s'. cbn. by rewrite Hl.
Qed.

(** The client that a configuration installs computes with the hash of the mechanism it
    announces, and there is one exactly for the SCRAM mechanisms. *)
Theorem scram_hash_agrees cfg creds sasl :
  sasl_settings cfg creds = Some sasl →
  hashGen <$> sasl_Scram sasl = (sasl_Mechanism sasl ≫= mechanism_hash).
Proof.
  unfold sasl_settings. destruct (String.eqb (SASLMechanism cfg) ""); [done|].
  repeat (match goal with |- context [if String.eqb ?x ?y then _ else _] => destruct (String.eqb x y) end);
    by intros [= <-].
Qed.

(** A conversation that has begun answers every challenge and never panics, whatever the
    server sends; one that has not begun panics. *)
Theorem scram_begun_answers m user password authz s challenges :
  scram_Begin (MkScram m None) user password authz = (Ok tt, s) →
  ∃ rs s' b, scram_run s challenges = Return (rs, s') ∧ length rs = length challenges
    ∧ scram_Done s' = Return b.
Proof.
  unfold scram_Begin. destruct (NewConversation _ _ _ _) as [c|e]; [|done]. intros [= <-].
  destruct (scram_run_begun (MkScram m (Some c)) challenges) as (rs & s' & Hr & [c' Hc] & Hl); [by eexists|].
  exists rs, s', (conv_Done c'). unfold scram_Done. by rewrite Hc.
Qed.
End scram.
