(* ===== verification/Accounting.v ===== *)
(** * Clients that a proxy holds one at a time

    What the database and the MongoDB proxy promise about the connections they open:
    an operation that opens or closes some says so in its events, and in each
    operation the clients held before and opened are those closed and held after.
    From that follows, for every sequence of operations, that no client is lost or
    closed twice. *)

From S2P Require Import Prelude.

Class ClientHolder (St E : Type) := {
  moves : St → list E → St → Prop;          (* one operation, with its events *)
  holds : St → option nat;
  opens : E → option nat;
  closes : E → option nat;
  moves_balanced : ∀ s ev s', moves s ev s' →
    option_list (holds s) ++ omap opens ev ≡ₚ omap closes ev ++ option_list (holds s');
}.

Section accounting.
Context `{ClientHolder St E}.

(** A state with the events so far; a new client is a new object. *)
Inductive run_step : St * list E → St * list E → Prop :=
  | run_moves s tr ev s' :
      moves s ev s' → NoDup (omap opens ev) → (∀ c, c ∈ omap opens ev → c ∉ omap opens tr) →
      run_step (s, tr) (s', tr ++ ev).

Definition balanced (x : St * list E) : Prop :=
  NoDup (omap opens x.2) ∧ omap opens x.2 ≡ₚ omap closes x.2 ++ option_list (holds x.1).

Lemma balanced_step x y : run_step x y → balanced x → balanced y.
Proof.
  intros [s tr ev s' Hm Hn Hf] [Hu Hp]. simpl in *. split; simpl; rewrite !omap_app.
  - apply NoDup_app. split_and!; [done| |done]. intros c Hc Hc'. by apply (Hf c).
  - apply moves_balanced in Hm. rewrite Hp, <-!List.app_assoc. by apply Permutation_app_head.
Qed.

Lemma runs_balanced s0 s tr : holds s0 = None → rtc run_step (s0, []) (s, tr) → balanced (s, tr).
Proof.
  intros H0 Hr. apply (rtc_invariant run_step balanced _ _ balanced_step Hr).
  split; simpl; [constructor|by rewrite H0].
Qed.

Lemma runs_closed s0 s tr :
  holds s0 = None → rtc run_step (s0, []) (s, tr) → holds s = None →
  omap opens tr ≡ₚ omap closes tr.
Proof.
  intros H0 Hr Hs. destruct (runs_balanced _ _ _ H0 Hr) as [_ Hp]. simpl in Hp. rewrite Hs in Hp.
  by rewrite List.app_nil_r in Hp.
Qed.
End accounting.
