(* ===== verification/Mongo.v ===== *)
(** * pkg/proxy/mongodb: queries and diagnostics of a MongoDB server

    One client, replaced by configuration and disconnected at the end. The driver is a
    parameter: what it answers during an operation is an argument ([env]), and an
    operation returns the clients it connected and disconnected and what it sent. *)

From S2P Require Import Prelude GoStrings GoJson GoAny GoTime Registry.
From Stdlib Require Import SpecFloat.
#[local] Open Scope Z_scope.

(** ** State *)

Record Config := MkConfig {
  Host : string;
  Port : Z;
  Database : string;
  ReplicaSet : string;
  AuthSource : string;
  TLSEnabled : bool;
}.

Definition zero_config : Config := MkConfig "" 0 "" "" "" false.

Definition Config_field (c : Config) (k : string) (v : json) : Config * bool :=
  let 'MkConfig h p d r a t := c in
  if key_is "host" k then let '(x, ok) := dec_string h v in (MkConfig x p d r a t, ok)
  else if key_is "port" k then let '(x, ok) := dec_int p v in (MkConfig h x d r a t, ok)
  else if key_is "database" k then let '(x, ok) := dec_string d v in (MkConfig h p x r a t, ok)
  else if key_is "replica_set" k then let '(x, ok) := dec_string r v in (MkConfig h p d x a t, ok)
  else if key_is "auth_source" k then let '(x, ok) := dec_string a v in (MkConfig h p d r x t, ok)
  else if key_is "tls_enabled" k then let '(x, ok) := dec_bool t v in (MkConfig h p d r a x, ok)
  else (c, true).

(** A client, by identity. *)
Definition client_ref := nat.

Record Proxy := MkProxy { client : option client_ref; config : Config }.

Definition New : Proxy := MkProxy None zero_config.

(** ** Documents *)

(** A bson.D, whose members are in order; a value that is not a map is left as it is. *)
Inductive bson :=
  | BVal (v : any)
  | BDoc (d : list (string * bson)).

Section documents.
Context `{MapOrder}.

(** The loops over maps are numbered by the path to the map. *)
Fixpoint to_bson (path : list nat) (v : any) : bson :=
  match v with
  | AMap kvs =>
      BDoc (visit (encode_nat path)
              ((fix members (i : nat) (kvs : list (string * any)) : list (string * bson) :=
                  match kvs with
                  | [] => []
                  | (k, x) :: kvs => (k, to_bson (i :: path) x) :: members (S i) kvs
                  end) 0%nat kvs))
  | v => BVal v
  end.

Definition mapToBsonD (path : list nat) (kvs : list (string * any)) : bson := to_bson path (AMap kvs).
End documents.

(** ** The driver *)

(** A document the server returned, as json.Marshal writes it; [None] when it cannot. *)
Definition document := option json.

(** What is sent; commands are one pair. *)
Inductive op :=
  | Ping
  | Find (db coll : string) (filter : bson) (limit : Z) (sort : option bson)
  | Aggregate (db coll : string) (pipeline : list bson)
  | RunCommand (db : string) (key : string) (value : any)
  | ListDatabases
  | ListCollectionNames (db : string).

Inductive event :=
  | Opened (c : client_ref) (uri : string)
  | Closed (c : client_ref)
  | Sent (c : client_ref) (x : op).

(** Slices may be nil ([None]). *)
Record env := MkEnv {
  e_new : client_ref;                                   (* the client Connect makes *)
  e_connect : string → option error;
  e_ping : client_ref → result unit;
  e_disconnect : client_ref → result unit;
  e_cursor : op → result (result (option (list document)));  (* the call; reading the cursor *)
  e_run : op → result document;
  e_databases : result (document * Z);
  e_collections : string → result (option (list string));
  e_version : result (option any);
  e_elapsed : Z;
}.

(** ** Configuration *)

Definition buildURI (cfg : Config) (creds : gmap string string) : string :=
  let username := cred creds "username" in
  let userInfo := if String.eqb username "" then "" else username +:+ ":" +:+ cred creds "password" +:+ "@" in
  "mongodb://" +:+ userInfo +:+ Host cfg +:+ ":" +:+ Itoa (Port cfg) +:+ "/" +:+ Database cfg
  +:+ "?authSource=" +:+ AuthSource cfg
  +:+ (if String.eqb (ReplicaSet cfg) "" then "" else "&replicaSet=" +:+ ReplicaSet cfg)
  +:+ (if TLSEnabled cfg then "&tls=true" else "").

(** An error of Marshal leaves nothing to read, which is an error too. *)
Definition parse_mongo (conf : gmap string any) : result Config :=
  match marshal_any_map conf with
  | None => Err (wrapf "parsing mongo config: " json_error)
  | Some j =>
      let '(c, ok) := dec_struct Config_field zero_config j in
      _ ← fail_if (negb ok) (wrapf "parsing mongo config: " json_error);
      Ok (MkConfig (Host c) (if Port c =? 0 then 27017 else Port c) (Database c) (ReplicaSet c)
            (if String.eqb (AuthSource c) "" then "admin" else AuthSource c) (TLSEnabled c))
  end.

Definition disconnect (p : Proxy) : Proxy * list event :=
  (MkProxy None (config p), match client p with Some c => [Closed c] | None => [] end).

Definition Configure (e : env) (p : Proxy) (conf : gmap string any) (creds : gmap string string)
  : result unit * Proxy * list event :=
  let '(p, ev) := disconnect p in
  match parse_mongo conf with
  | Err err => (Err err, p, ev)
  | Ok cfg =>
      let p := MkProxy None cfg in
      let uri := buildURI cfg creds in
      match e_connect e uri with
      | Some err => (Err (wrapf "connecting to mongodb: " err), p, ev)
      | None =>
          let c := e_new e in
          let ev := ev ++ [Opened c uri; Sent c Ping] in
          match e_ping e c with
          | Err err => (Err (wrapf "mongodb ping failed: " err), p, ev ++ [Closed c])
          | Ok _ => (Ok tt, MkProxy (Some c) cfg, ev)
          end
      end
  end.

Definition HealthCheck (e : env) (p : Proxy) : result unit * list event :=
  match client p with
  | None => (Err (errorf "mongodb not configured"), [])
  | Some c => (e_ping e c, [Sent c Ping])
  end.

Definition Close (e : env) (p : Proxy) : result unit * Proxy * list event :=
  match client p with
  | Some c => (e_disconnect e c, MkProxy None (config p), [Closed c])
  | None => (Ok tt, p, [])
  end.

(** ** Actions *)

Section actions.
Context `{MapOrder}.

Definition getDatabase (p : Proxy) (req : ActionRequest) : string :=
  let db := as_string (req_Params req !! "database") in
  if String.eqb db "" then Database (config p) else db.

(** The error of Marshal is ignored: the data is then empty. *)
Definition jsonResponse (j : option json) : ActionResponse :=
  MkResponse 200 "" "" "" (match j with Some j => json_print j | None => "" end) None.

(** All documents, or [None] when one cannot be written. *)
Fixpoint marshal_documents (l : list document) : option (list json) :=
  match l with
  | [] => Some []
  | d :: l => j ← d; js ← marshal_documents l; Some (j :: js)
  end.

Definition marshal_results (e : env) (results : option (list document)) : option json :=
  docs ← match results with None => Some JNull | Some l => JArr <$> marshal_documents l end;
  Some (JObj [("count", JNum (Itoa (Z.of_nat (length (default [] results)))));
              ("documents", docs);
              ("duration_ms", JNum (Itoa (e_elapsed e)))]).

(** A map among the parameters, as a document. *)
Definition doc_param (n : nat) (v : option any) : option bson :=
  match v with Some (AMap kvs) => Some (mapToBsonD [n] kvs) | _ => None end.

Definition find_limit (params : gmap string any) : Z :=
  match as_float (params !! "max_rows") with
  | Some v => if float_pos v then float_to_int v else 1000
  | None => 1000
  end.

Definition cursor_response (e : env) (c : client_ref) (x : op) (failed reading : string)
  : result ActionResponse * list event :=
  (cursor ← wrap_err failed (e_cursor e x);
   results ← wrap_err reading cursor;
   Ok (jsonResponse (marshal_results e results)), [Sent c x]).

Definition handleQuery (e : env) (p : Proxy) (c : client_ref) (req : ActionRequest)
  : result ActionResponse * list event :=
  let params := req_Params req in
  let collection := as_string (params !! "collection") in
  if String.eqb collection "" then (Err (errorf "missing collection parameter"), [])
  else
    cursor_response e c
      (Find (getDatabase p req) collection (default (BDoc []) (doc_param 0 (params !! "filter")))
         (find_limit params) (doc_param 1 (params !! "sort")))
      "mongo find failed: " "reading cursor: ".

(** The stages that are maps become documents. *)
Definition pipeline_stages (l : list any) : list bson := imap (λ i stage, to_bson [i; 2%nat] stage) l.

Definition handleAggregate (e : env) (p : Proxy) (c : client_ref) (req : ActionRequest)
  : result ActionResponse * list event :=
  let params := req_Params req in
  let collection := as_string (params !! "collection") in
  if String.eqb collection "" then (Err (errorf "missing collection parameter"), [])
  else
    match params !! "pipeline" with
    | Some (AList ((_ :: _) as stages)) =>
        cursor_response e c (Aggregate (getDatabase p req) collection (pipeline_stages stages))
          "mongo aggregate failed: " "reading aggregate cursor: "
    | _ => (Err (errorf "missing or empty pipeline parameter"), [])
    end.

Definition run_command (e : env) (c : client_ref) (db key : string) (value : any) (failed : string)
  : result ActionResponse * list event :=
  let x := RunCommand db key value in
  (result ← wrap_err failed (e_run e x); Ok (jsonResponse result), [Sent c x]).

Definition handleServerStatus (e : env) (c : client_ref) :=
  run_command e c "admin" "serverStatus" (AInt 1) "serverStatus failed: ".
Definition handleReplStatus (e : env) (c : client_ref) :=
  run_command e c "admin" "replSetGetStatus" (AInt 1) "replSetGetStatus failed: ".
Definition handleCurrentOps (e : env) (c : client_ref) :=
  run_command e c "admin" "currentOp" (AInt 1) "currentOp failed: ".
Definition handleDBStats (e : env) (p : Proxy) (c : client_ref) (req : ActionRequest) :=
  run_command e c (getDatabase p req) "dbStats" (AInt 1) "dbStats failed: ".

Definition handleCollectionStats (e : env) (p : Proxy) (c : client_ref) (req : ActionRequest)
  : result ActionResponse * list event :=
  let collection := as_string (req_Params req !! "collection") in
  if String.eqb collection "" then (Err (errorf "missing collection parameter"), [])
  else run_command e c (getDatabase p req) "collStats" (AStr collection) "collStats failed: ".

Definition handleListDatabases (e : env) (c : client_ref) : result ActionResponse * list event :=
  ('(databases, total) ← wrap_err "listDatabases failed: " (e_databases e);
   Ok (jsonResponse (dbs ← databases; Some (JObj [("databases", dbs); ("total_size", JNum (Itoa total))]))),
   [Sent c ListDatabases]).

Definition handleListCollections (e : env) (p : Proxy) (c : client_ref) (req : ActionRequest)
  : result ActionResponse * list event :=
  let db := getDatabase p req in
  (collections ← wrap_err "listCollections failed: " (e_collections e db);
   Ok (jsonResponse (Some (JObj [
         ("collections", match collections with None => JNull | Some l => JArr (map JStr l) end);
         ("count", JNum (Itoa (Z.of_nat (length (default [] collections)))));
         ("database", JStr db)]))),
   [Sent c (ListCollectionNames db)]).

Definition HandleRequest (e : env) (p : Proxy) (req : ActionRequest)
  : result ActionResponse * list event :=
  match client p with
  | None => (Err (errorf "mongodb not configured"), [])
  | Some c =>
      let action := req_Action req in
      if String.eqb action "mongo_query" then handleQuery e p c req
      else if String.eqb action "mongo_aggregate" then handleAggregate e p c req
      else if String.eqb action "mongo_server_status" then handleServerStatus e c
      else if String.eqb action "mongo_repl_status" then handleReplStatus e c
      else if String.eqb action "mongo_collection_stats" then handleCollectionStats e p c req
      else if String.eqb action "mongo_current_ops" then handleCurrentOps e c
      else if String.eqb action "mongo_db_stats" then handleDBStats e p c req
      else if String.eqb action "mongo_list_databases" then handleListDatabases e c
      else if String.eqb action "mongo_list_collections" then handleListCollections e p c req
      else (Err (errorf ("unknown mongo action: " +:+ action)), [])
  end.
End actions.

(** [e_version] is the member "version" of buildInfo. *)
Definition CollectMetadata (e : env) (p : Proxy) : result (gmap string any) * list event :=
  match client p with
  | None => (Err (errorf "mongodb not configured"), [])
  | Some c =>
      let cfg := config p in
      let meta : gmap string any := <["host" := AStr (Host cfg)]> (<["port" := AInt (Port cfg)]> ∅) in
      let meta := if String.eqb (ReplicaSet cfg) "" then meta
                  else <["replica_set" := AStr (ReplicaSet cfg)]> meta in
      (Ok (match e_version e with Ok (Some (AStr v)) => <["version" := AStr v]> meta | _ => meta end),
       [Sent c (RunCommand "admin" "buildInfo" (AInt 1))])
  end.
