(* ===== verification/MongoFacts.v ===== *)
(** * MongoDB: clients are accounted for, documents keep their members but not their order *)

From S2P Require Import Prelude GoStrings GoJson GoAny GoTime Registry Accounting Mongo.
From Stdlib Require Import SpecFloat.
#[local] Open Scope Z_scope.

(** ** Clients *)

Inductive mongo_moves `{MapOrder} : Proxy → list event → Proxy → Prop :=
  | mongo_configure e p conf creds r p' ev : Configure e p conf creds = (r, p', ev) → mongo_moves p ev p'
  | mongo_request e p req r ev : HandleRequest e p req = (r, ev) → mongo_moves p ev p
  | mongo_health e p r ev : HealthCheck e p = (r, ev) → mongo_moves p ev p
  | mongo_metadata e p r ev : CollectMetadata e p = (r, ev) → mongo_moves p ev p
  | mongo_close e p r p' ev : Close e p = (r, p', ev) → mongo_moves p ev p'.

Definition mongo_opens (x : event) : option nat := match x with Opened c _ => Some c | _ => None end.
Definition mongo_closes (x : event) : option nat := match x with Closed c => Some c | _ => None end.

(** A request sends at most one operation, to the client the proxy holds. *)
Lemma HandleRequest_one `{MapOrder} e p req r ev :
  HandleRequest e p req = (r, ev) → ev = [] ∨ ∃ c x, client p = Some c ∧ ev = [Sent c x].
Proof.
  unfold HandleRequest. destruct (client p) as [c|]; [|intros [= _ <-]; by left].
  unfold handleQuery, handleAggregate, handleCollectionStats, handleServerStatus, handleReplStatus,
    handleCurrentOps, handleDBStats, handleListDatabases, handleListCollections, cursor_response, run_command.
  cbv zeta. intros Hr.
  repeat match type of Hr with (if ?b then _ else _) = _ => destruct b end;
    try (destruct (req_Params req !! "pipeline") as [[]|]); try destruct l;
    injection Hr as _ <-; eauto.
Qed.

#[global, program] Instance mongo_holder `{MapOrder} : ClientHolder Proxy event := {
  moves := mongo_moves; holds := client; opens := mongo_opens; closes := mongo_closes;
}.
Next Obligation.
  intros ? p ev p' [e q conf creds r q' ev' Hc|e q req r ev' Hr|e q r ev' Hh|e q r ev' Hm|e q r q' ev' Hc].
  - unfold Configure, disconnect in Hc. destruct (parse_mongo conf) as [cfg|];
      [destruct (e_connect e _); [|destruct (e_ping e _)]|]; injection Hc as _ <- <-;
      destruct (client q); reflexivity.
  - apply HandleRequest_one in Hr as [-> |(c & x & _ & ->)]; simpl; by rewrite List.app_nil_r.
  - unfold HealthCheck in Hh. destruct (client q); injection Hh as _ <-; reflexivity.
  - unfold CollectMetadata in Hm. destruct (client q); injection Hm as _ <-; reflexivity.
  - unfold Close in Hc. destruct (client q) eqn:E; injection Hc as _ <- <-; simpl; by rewrite ?E.
Qed.

(** Over any sequence of configurations, requests, checks and shutdowns, each
    MongoDB client ever connected is disconnected exactly once or the one the proxy
    holds; a proxy that holds none has left none open. *)
Theorem mongo_clients_accounted `{MapOrder} p tr :
  rtc run_step (New, []) (p, tr) →
  NoDup (omap opens tr) ∧ omap opens tr ≡ₚ omap closes tr ++ option_list (client p) ∧
  (client p = None → omap opens tr ≡ₚ omap closes tr).
Proof.
  intros Hr. assert (holds New = None) as H0 by done. destruct (runs_balanced New p tr H0 Hr) as [Hn Hp].
  split_and!; [done..|]. by apply (runs_closed New p tr H0 Hr).
Qed.

(** ** Documents *)

(** The members of a document are those of the map, in some order, at every level. *)
Inductive same_members : any → bson → Prop :=
  | same_value v : (∀ kvs, v ≠ AMap kvs) → same_members v (BVal v)
  | same_map kvs d d' :
      Forall2 (λ x y, x.1 = y.1 ∧ same_members x.2 y.2) kvs d → d' ≡ₚ d →
      same_members (AMap kvs) (BDoc d').

Lemma to_bson_members `{MapOrder} : ∀ v path, same_members v (to_bson path v).
Proof.
  fix IH 1. intros [| | | | | | |kvs] path; try (by constructor).
  cbn [to_bson]. econstructor; [|apply visit_perm]. generalize 0%nat.
  induction kvs as [|[k x] kvs IHk]; intros i; constructor; [split; [done|apply IH]|apply IHk].
Qed.

Definition map_order (f : ∀ {A}, list A → list A) (Hf : ∀ A (l : list A), f l ≡ₚ l) : MapOrder :=
  Build_MapOrder (λ _, @f) (λ _, Hf).
Definition forward : MapOrder := map_order (λ A l, l) (λ A l, Permutation_refl l).
Definition backward : MapOrder := map_order (λ A l, rev l) (λ A l, Permutation_sym (Permutation_rev l)).

(** A filter and a sort reach the server with exactly the members they were given,
    but a sort by two keys may reach it with either key first, whichever the caller
    put first: which one is decided by the order in which the agent visits a map. *)
Theorem mongo_sort_order_lost e p c req coll k1 v1 k2 v2 :
  client p = Some c → req_Action req = "mongo_query" →
  req_Params req !! "collection" = Some (AStr coll) → coll ≠ "" →
  req_Params req !! "sort" = Some (AMap [(k1, AFloat v1); (k2, AFloat v2)]) →
  (∀ `{MapOrder} db coll filter limit sort,
     (HandleRequest e p req).2 = [Sent c (Find db coll filter limit (Some sort))] →
     same_members (AMap [(k1, AFloat v1); (k2, AFloat v2)]) sort) ∧
  ∃ x y, (@HandleRequest forward e p req).2 = [Sent c x] ∧ (@HandleRequest backward e p req).2 = [Sent c y] ∧
    (∃ db f l, x = Find db coll f l (Some (BDoc [(k1, BVal (AFloat v1)); (k2, BVal (AFloat v2))]))) ∧
    (∃ db f l, y = Find db coll f l (Some (BDoc [(k2, BVal (AFloat v2)); (k1, BVal (AFloat v1))]))).
Proof.
  intros Hc Ha Hcoll Hne Hs. apply String.eqb_neq in Hne.
  assert (∀ `{MapOrder}, ∃ db f l, (HandleRequest e p req).2 =
    [Sent c (Find db coll f l (Some (mapToBsonD [1%nat] [(k1, AFloat v1); (k2, AFloat v2)])))]) as Hr.
  { intros. unfold HandleRequest. rewrite Hc, Ha. cbn [String.eqb].
    change (String.eqb "mongo_query" "mongo_query") with true. cbv iota.
    unfold handleQuery. rewrite Hcoll, Hs. cbn [as_string doc_param]. rewrite Hne.
    unfold cursor_response. eauto. }
  split.
  - intros H db coll' f l sort E. destruct (Hr H) as (db' & f' & l' & E'). rewrite E' in E.
    injection E as _ _ _ _ <-. apply to_bson_members.
  - destruct (Hr forward) as (db & f & l & E), (Hr backward) as (db' & f' & l' & E').
    do 2 eexists. split; [exact E|]. split; [exact E'|]. split; do 3 eexists; reflexivity.
Qed.

(** ** A server that answers *)

Definition demo_env (n : client_ref) (ping : result unit) : env :=
  MkEnv n (λ _, None) (λ _, ping) (λ _, Ok tt) (λ _, Ok (Ok (Some []))) (λ _, Ok None)
    (Ok (None, 0)) (λ _, Ok None) (Ok None) 3.
Definition demo_conf : gmap string any := <["host" := AStr "db1"]> (<["database" := AStr "app"]> ∅).
Definition demo_uri : string := "mongodb://db1:27017/app?authSource=admin".
Definition demo_proxy : Proxy := MkProxy (Some 1%nat) (MkConfig "db1" 27017 "app" "" "admin" false).
Definition demo_trace : list event :=
  [Opened 1%nat demo_uri; Sent 1%nat Ping; Closed 1%nat; Opened 2%nat demo_uri; Sent 2%nat Ping; Closed 2%nat].

(** The second configuration fails: the first client is gone and so is the second. *)
Lemma mongo_clients_accounted_witness : [1%nat; 2%nat] ≡ₚ [1%nat; 2%nat].
Proof.
  refine (proj2 (proj2 (@mongo_clients_accounted forward
           (MkProxy None (config demo_proxy)) demo_trace _)) eq_refl).
  eapply rtc_l.
  { apply (run_moves (H := @mongo_holder forward) New [] [Opened 1%nat demo_uri; Sent 1%nat Ping] demo_proxy).
    - apply (mongo_configure (demo_env 1%nat (Ok tt)) New demo_conf ∅ (Ok tt)). vm_compute. reflexivity.
    - apply NoDup_singleton.
    - intros c _ Hin. by apply not_elem_of_nil in Hin. }
  eapply rtc_l; [|apply rtc_refl].
  apply (run_moves (H := @mongo_holder forward) demo_proxy [Opened 1%nat demo_uri; Sent 1%nat Ping]
           [Closed 1%nat; Opened 2%nat demo_uri; Sent 2%nat Ping; Closed 2%nat]).
  - apply (mongo_configure (demo_env 2%nat (Err (errorf "down"))) demo_proxy demo_conf ∅
             (Err (wrapf "mongodb ping failed: " (errorf "down")))). vm_compute. reflexivity.
  - apply NoDup_singleton.
  - intros c Hc Hin. apply list_elem_of_singleton in Hc, Hin. simplify_eq.
Defined.

(** The numbers 1 and -1. *)
Definition ascending : spec_float := S754_finite false 4503599627370496 (-52).
Definition descending : spec_float := S754_finite true 4503599627370496 (-52).

Definition demo_sort : ActionRequest :=
  MkRequest "r" "d" "mongo_query"
    (<["collection" := AStr "orders"]> (<["sort" := AMap [("day", AFloat ascending); ("total", AFloat descending)]]> ∅)) "" "" ∅ "".

Lemma mongo_sort_order_lost_witness :
  ∃ y, (@HandleRequest backward (demo_env 1%nat (Ok tt)) demo_proxy demo_sort).2 = [Sent 1%nat y] ∧
    ∃ db f l, y = Find db "orders" f l (Some (BDoc [("total", BVal (AFloat descending)); ("day", BVal (AFloat ascending))])).
Proof.
  destruct (mongo_sort_order_lost (demo_env 1%nat (Ok tt)) demo_proxy 1%nat demo_sort "orders"
    "day" ascending "total" descending eq_refl eq_refl eq_refl) as [_ (x & y & _ & Hy & _ & H)]; [discriminate|reflexivity|].
  exists y. by split.
Defined.

(** A fraction of a row as the limit is no limit at all. *)
Example find_limit_zero : find_limit {["max_rows" := AFloat (S754_finite false 4503599627370496 (-53))]} = 0.
Proof. vm_compute. reflexivity. Qed.
