(* ===== verification/DbPools.v ===== *)
(** * SQL datasources: connection pools are accounted for *)

From S2P Require Import Prelude GoStrings GoJson GoAny GoTime Registry Accounting Db.
From Stdlib Require Import SpecFloat.
#[local] Open Scope Z_scope.

Inductive db_moves : Proxy → list event → Proxy → Prop :=
  | db_configure e p conf creds r p' ev : Configure e p conf creds = (r, p', ev) → db_moves p ev p'
  | db_request e p req r ev : HandleRequest e p req = Return (r, ev) → db_moves p ev p
  | db_close e p r p' ev : Close e p = (r, p', ev) → db_moves p ev p'.

Definition db_opens (x : event) : option nat := match x with Opened c _ _ _ _ _ => Some c | _ => None end.
Definition db_closes (x : event) : option nat := match x with Closed c => Some c | _ => None end.

(** What a request does to the database opens and closes nothing. *)
Definition statement (x : event) : Prop := match x with Queried _ _ _ _ | Executed _ _ _ => True | _ => False end.

Lemma statements_neutral ev : Forall statement ev → omap db_opens ev = [] ∧ omap db_closes ev = [].
Proof. induction 1 as [|[] ev ? _ [IH1 IH2]]; done. Qed.

Lemma handleQuery_statements e c req r ev : handleQuery e c req = Return (r, ev) → Forall statement ev.
Proof.
  unfold handleQuery. cbv zeta. destruct (String.eqb _ ""); [intros [= _ <-]; constructor|].
  destruct (sanitizeQuery _); [|done]. cbn [mbind outcome_bind]. intros Hr.
  apply (f_equal (λ x, match x with Return (_, ev) => ev | Panic => [] end)) in Hr. cbn in Hr.
  subst ev. by repeat constructor.
Qed.

Lemma db_request_statements e p req r ev : HandleRequest e p req = Return (r, ev) → Forall statement ev.
Proof.
  unfold HandleRequest. destruct (pool p) as [c|]; [|intros [= _ <-]; constructor].
  destruct (String.eqb _ "db_query"); [apply handleQuery_statements|].
  destruct (String.eqb _ "db_execute").
  { unfold handleExecute. destruct (readOnly p); [intros [= _ <-]; constructor|]. cbv zeta.
    destruct (String.eqb _ ""); intros Hr; injection Hr as _ <-; by repeat constructor. }
  destruct (String.eqb _ "db_metadata"); [|intros [= _ <-]; constructor].
  unfold handleMetadata. destruct (metadata_query p _) as [[q args]|]; [|intros [= _ <-]; constructor].
  apply handleQuery_statements.
Qed.

#[global, program] Instance db_holder : ClientHolder Proxy event := {
  moves := db_moves; holds := pool; opens := db_opens; closes := db_closes;
}.
Next Obligation.
  intros p ev p' [e q conf creds r q' ev' Hc|e q req r ev' Hr|e q r q' ev' Hc].
  - unfold Configure, close_pool in Hc.
    destruct (match marshal_any_map conf with None => _ | Some j => _ end) as [cfg []];
      [destruct (buildDSN _) as [[dsn driver]|]; [destruct (e_open e _ _); [destruct (safeProbe e _ _)|]|]|];
      injection Hc as _ <- <-; destruct (pool q); reflexivity.
  - apply db_request_statements, statements_neutral in Hr as [-> ->]. simpl. by rewrite List.app_nil_r.
  - unfold Close in Hc. destruct (pool q) eqn:E; injection Hc as _ <- <-; simpl; by rewrite ?E.
Qed.

(** Over any sequence of configurations, requests and shutdowns, each connection
    pool ever opened is closed exactly once or the one the proxy holds; a proxy that
    holds none has left none open. *)
Theorem db_pools_accounted dbType p tr :
  rtc run_step (New dbType, []) (p, tr) →
  NoDup (omap opens tr) ∧ omap opens tr ≡ₚ omap closes tr ++ option_list (pool p) ∧
  (pool p = None → omap opens tr ≡ₚ omap closes tr).
Proof.
  intros Hr. assert (holds (New dbType) = None) as H0 by done.
  destruct (runs_balanced _ p tr H0 Hr) as [Hn Hp]. split_and!; [done..|]. by apply (runs_closed _ p tr H0 Hr).
Qed.

(** *** A pool that is replaced, and a shutdown *)

Definition demo_db (n : pool_ref) : env :=
  MkEnv (λ _ _, Ok n) (λ _, Ok tt) (λ _ _, Answered (Ok tt)) (λ _ _ _ _, Err (errorf "none"))
    (λ _ _, Err (errorf "none")) (λ _ _ _, Ok 0) 1.
Definition demo_db_conf : gmap string any := <["host" := AStr "db1"]> (<["database" := AStr "app"]> ∅).
Definition demo_db_proxy : Proxy := (Configure (demo_db 1%nat) (New "mysql") demo_db_conf ∅).1.2.
Definition demo_db_open : list event := (Configure (demo_db 1%nat) (New "mysql") demo_db_conf ∅).2.

Lemma db_pools_accounted_witness : omap opens (demo_db_open ++ [Closed 1%nat]) ≡ₚ [1%nat].
Proof.
  refine (proj2 (proj2 (db_pools_accounted "mysql" (set_pool demo_db_proxy None)
            (demo_db_open ++ [Closed 1%nat]) _)) eq_refl).
  eapply rtc_l.
  { apply (run_moves (New "mysql") [] demo_db_open demo_db_proxy).
    - apply (db_configure (demo_db 1%nat) (New "mysql") demo_db_conf ∅ (Ok tt)). vm_compute. reflexivity.
    - apply NoDup_singleton.
    - intros c _ Hin. by apply not_elem_of_nil in Hin. }
  eapply rtc_l; [|apply rtc_refl].
  apply (run_moves demo_db_proxy demo_db_open [Closed 1%nat]).
  - apply (db_close (demo_db 1%nat) demo_db_proxy (Ok tt)). vm_compute. reflexivity.
  - constructor.
  - intros c Hin. by apply not_elem_of_nil in Hin.
Defined.
