(* ===== verification/Flags.v ===== *)
(** * Go's flag package, as the agent's commands use it

    Flag sets of strings, integers, booleans and durations under [ExitOnError], with
    the number syntaxes of strconv and time that their values are read with. *)

From S2P Require Import Prelude GoStrings GoJson GoJsonFacts GoTime.
From Stdlib Require Import SpecFloat.
#[local] Open Scope Z_scope.

(** ** strconv.ParseInt with base 0 *)

Definition underscore : Z := 95.

Definition digit_of (c : ascii) : option Z :=
  let l := code (lower_char c) in
  if is_digit c then Some (digit_val c)
  else if in_range 97 122 l then Some (l - 97 + 10) else None.

(** The digits in a base, underscores skipped; and whether there were any. *)
Fixpoint base_digits (base acc : Z) (under : bool) (s : string) : option (Z * bool) :=
  match s with
  | "" => Some (acc, under)
  | String c s =>
      if code c =? underscore then base_digits base acc true s
      else match digit_of c with
           | Some d => if d <? base then base_digits base (acc * base + d) under s else None
           | None => None
           end
  end.

(** The base a number's prefix names, and what follows it. *)
Definition base_prefix (s : string) : Z * string :=
  match s with
  | String c rest =>
      if code c =? 48 then
        match rest with
        | String d (String _ _ as digits) =>
            let l := code (lower_char d) in
            if l =? 98 then (2, digits)
            else if l =? 111 then (8, digits)
            else if l =? 120 then (16, digits)
            else (8, rest)
        | _ => (8, rest)
        end
      else (10, s)
  | "" => (10, "")
  end.

(** [underscoreOK] on what follows the sign: [last] is true after a digit or a base
    prefix, [under] after an underscore. *)
Fixpoint underscores_ok (hex last under : bool) (s : string) : bool :=
  match s with
  | "" => negb under
  | String c s =>
      if is_digit c || (hex && in_range 97 102 (code (lower_char c)))
      then underscores_ok hex true false s
      else if code c =? underscore then last && underscores_ok hex false true s
      else negb under && underscores_ok hex false false s
  end.

Definition underscoreOK (s : string) : bool :=
  match s with
  | String c (String d rest) =>
      let l := code (lower_char d) in
      if (code c =? 48) && ((l =? 98) || (l =? 111) || (l =? 120))
      then underscores_ok (l =? 120) true false rest
      else underscores_ok false false false s
  | _ => underscores_ok false false false s
  end.

Definition parse_sign (s : string) : bool * string :=
  match s with
  | String c r => if code c =? 45 then (true, r) else if code c =? 43 then (false, r) else (false, s)
  | "" => (false, "")
  end.

Definition ParseInt0 (s : string) : option Z :=
  let '(neg, s) := parse_sign s in
  if String.eqb s "" then None
  else
    let '(base, digits) := base_prefix s in
    match base_digits base 0 false digits with
    | None => None
    | Some (v, under) =>
        if under && negb (underscoreOK s) then None
        else
          let z := if (neg : bool) then - v else v in
          if bool_decide (in_int64 z) then Some z else None
    end.

(** ** strconv.ParseBool *)

Definition ParseBool (s : string) : option bool :=
  if bool_decide (s ∈ ["1"; "t"; "T"; "TRUE"; "true"; "True"]) then Some true
  else if bool_decide (s ∈ ["0"; "f"; "F"; "FALSE"; "false"; "False"]) then Some false
  else None.

(** ** time.ParseDuration *)

Definition bound63 : Z := 2 ^ 63.

Definition unit_of (u : string) : option Z :=
  if String.eqb u "ns" then Some 1
  else if bool_decide (u ∈ ["us"; bytes [194; 181] +:+ "s"; bytes [206; 188] +:+ "s"]) then Some 1000
  else if String.eqb u "ms" then Some Millisecond
  else if String.eqb u "s" then Some Second
  else if String.eqb u "m" then Some Minute
  else if String.eqb u "h" then Some (60 * Minute)
  else None.

(** Digits at the front; [None] is an overflow. *)
Fixpoint leadingInt (x : Z) (s : string) : option (Z * string) :=
  match s with
  | String c r =>
      if is_digit c then
        if bound63 / 10 <? x then None
        else let y := x * 10 + digit_val c in
             if bound63 <? y then None else leadingInt y r
      else Some (x, s)
  | "" => Some (x, "")
  end.

(** Digits of a fraction and their scale; digits past the precision are dropped. *)
Fixpoint leadingFraction (x scale : Z) (overflow : bool) (s : string) : Z * Z * string :=
  match s with
  | String c r =>
      if is_digit c then
        if overflow then leadingFraction x scale true r
        else if (bound63 - 1) / 10 <? x then leadingFraction x scale true r
        else let y := x * 10 + digit_val c in
             if bound63 <? y then leadingFraction x scale true r
             else leadingFraction y (scale * 10) false r
      else (x, scale, s)
  | "" => (x, scale, "")
  end.

Definition float_of (z : Z) : spec_float := binary_normalize 53 1024 z 0 false.

(** [float64(f) * (float64(unit) / scale)], truncated. *)
Definition fraction_of (f unit scale : Z) : Z :=
  float_trunc (SFmul 53 1024 (float_of f) (SFdiv 53 1024 (float_of unit) (float_of scale))).

Definition unit_char (c : ascii) : bool := negb ((code c =? 46) || is_digit c).

(** One number with its unit. *)
Definition duration_part (s : string) : option (Z * string) :=
  match s with
  | "" => None
  | String c _ =>
      if unit_char c then None
      else
        match leadingInt 0 s with
        | None => None
        | Some (v, s1) =>
            let pre := negb (String.length s1 =? String.length s)%nat in
            let '(f, scale, s2, post) :=
              match s1 with
              | String d r =>
                  if code d =? 46 then
                    let '(f, scale, r') := leadingFraction 0 1 false r in
                    (f, scale, r', negb (String.length r' =? String.length r)%nat)
                  else (0, 1, s1, false)
              | "" => (0, 1, s1, false)
              end in
            let '(u, rest) := span unit_char s2 in
            if (negb pre && negb post) || String.eqb u "" then None
            else
              match unit_of u with
              | None => None
              | Some unit =>
                  if bound63 / unit <? v then None
                  else
                    let v := v * unit in
                    let v := if 0 <? f then v + fraction_of f unit scale else v in
                    if bound63 <? v then None else Some (v, rest)
              end
        end
  end.

(** [fuel] bounds the number of parts, each of which takes at least one byte. *)
Fixpoint duration_parts (fuel : nat) (d : Z) (s : string) : option Z :=
  match s, fuel with
  | "", _ => Some d
  | _, O => None
  | _, S fuel =>
      match duration_part s with
      | None => None
      | Some (v, rest) => if bound63 <? d + v then None else duration_parts fuel (d + v) rest
      end
  end.

Definition ParseDuration (s : string) : option Z :=
  let '(neg, s) := parse_sign s in
  if String.eqb s "0" then Some 0
  else if String.eqb s "" then None
  else
    match duration_parts (String.length s) 0 s with
    | None => None
    | Some d => if (neg : bool) then Some (- d)
                else if maxInt64 <? d then None else Some d
    end.

(** *** The fuel is enough *)

Lemma leadingInt_length x s v r : leadingInt x s = Some (v, r) → (String.length r ≤ String.length s)%nat.
Proof.
  revert x. induction s as [|c s IH]; intros x; simpl; [by intros [= _ <-]|].
  destruct (is_digit c); [|by intros [= _ <-]]. destruct (_ <? x); [done|].
  destruct (_ <? _); [done|]. intros Hl%IH. lia.
Qed.

Lemma leadingFraction_length x scale o s :
  (String.length (leadingFraction x scale o s).2 ≤ String.length s)%nat.
Proof.
  revert x scale o. induction s as [|c s IH]; intros x scale o; simpl; [done|].
  destruct (is_digit c); [|done].
  destruct o; [|destruct (_ <? x); [|destruct (_ <? _)]]; (etrans; [apply IH|lia]).
Qed.

Lemma duration_part_length s v r : duration_part s = Some (v, r) → (String.length r < String.length s)%nat.
Proof.
  destruct s as [|c s]; [done|]. unfold duration_part. destruct (unit_char c); [done|].
  destruct (leadingInt 0 (String c s)) as [[w s1]|] eqn:El; [|done]. apply leadingInt_length in El.
  set (part := match s1 with "" => _ | String _ _ => _ end).
  assert (String.length part.1.2 ≤ String.length s1)%nat as Hp.
  { unfold part. destruct s1 as [|d q]; [done|]. destruct (code d =? 46); [|done].
    pose proof (leadingFraction_length 0 1 false q) as Hf.
    destruct (leadingFraction 0 1 false q) as [[f sc] q']. simpl in *. lia. }
  destruct part as [[[f scale] s2] post]. cbn [fst snd] in Hp.
  destruct (span_spec unit_char s2) as [Hs _]. destruct (span unit_char s2) as [u rest]. cbn [fst snd] in Hs.
  destruct (String.eqb_spec u "") as [|Hu]; [by rewrite orb_true_r|]. rewrite orb_false_r.
  destruct (_ && _); [done|]. destruct (unit_of u); [|done]. destruct (_ <? w); [done|].
  destruct (bound63 <? _); [done|]. intros [= _ <-]. subst s2. rewrite length_app_str in Hp.
  destruct u; [done|]. simpl in *. lia.
Qed.

Lemma duration_parts_fuel n m d s :
  (String.length s ≤ n)%nat → (String.length s ≤ m)%nat → duration_parts n d s = duration_parts m d s.
Proof.
  revert m d s. induction n as [|n IH]; intros [|m] d [|c s] Hn Hm; try done; try (simpl in *; lia).
  cbn [duration_parts]. destruct (duration_part (String c s)) as [[v r]|] eqn:E; [|done].
  apply duration_part_length in E. destruct (bound63 <? d + v); [done|]. simpl in *. apply IH; lia.
Qed.

(** ** Flag sets *)

Inductive flag_value :=
  | FString (s : string)
  | FInt (z : Z)
  | FBool (b : bool)
  | FDuration (d : Z).

(** Set a flag from its text; [None] is an invalid value. *)
Definition set_value (old : flag_value) (s : string) : option flag_value :=
  match old with
  | FString _ => Some (FString s)
  | FInt _ => FInt <$> ParseInt0 s
  | FBool _ => FBool <$> ParseBool s
  | FDuration _ => FDuration <$> ParseDuration s
  end.

(** The flags by name with their values so far. *)
Definition FlagSet := gmap string flag_value.

(** How parsing ends: with the arguments that are left, or by leaving the program. *)
Inductive flag_end := Parsed (fs : FlagSet) (rest : list string) | FlagExit (code : Z).

(** Dashes and name of an argument; [None] when it is not a flag and ends the flags. *)
Definition flag_name (a : string) : option string :=
  match a with
  | String c (String d rest) =>
      if code c =? 45 then Some (if code d =? 45 then rest else String d rest) else None
  | _ => None
  end.

(** The name and the value of a flag written with an equals sign, which is never the
    first byte of a name. *)
Definition split_value (name : string) : string * option string :=
  match cut name "=" with Some (n, v) => (n, Some v) | None => (name, None) end.

Definition unknown_flag (name : string) : flag_end :=
  FlagExit (if bool_decide (name ∈ ["help"; "h"]) then 0 else 2).

Fixpoint parse_flags (fs : FlagSet) (args : list string) : flag_end :=
  match args with
  | [] => Parsed fs []
  | a :: args' =>
      if String.eqb a "--" then Parsed fs args'
      else
        match flag_name a with
        | None => Parsed fs args
        | Some name =>
            if String.eqb name "" || HasPrefix name "-" || HasPrefix name "=" then FlagExit 2
            else
              let '(name, value) := split_value name in
              match fs !! name with
              | None => unknown_flag name
              | Some old =>
                  let set v k := match set_value old v with
                                 | Some x => k (<[name := x]> fs)
                                 | None => FlagExit 2
                                 end in
                  match old, value with
                  | FBool _, None => parse_flags (<[name := FBool true]> fs) args'
                  | _, Some v => set v (λ fs, parse_flags fs args')
                  | _, None =>
                      match args' with
                      | [] => FlagExit 2
                      | v :: args'' => set v (λ fs, parse_flags fs args'')
                      end
                  end
              end
        end
  end.

Definition str_flag (fs : FlagSet) (name : string) : string :=
  match fs !! name with Some (FString s) => s | _ => "" end.
Definition int_flag (fs : FlagSet) (name : string) : Z :=
  match fs !! name with Some (FInt z) => z | _ => 0 end.
Definition bool_flag (fs : FlagSet) (name : string) : bool :=
  match fs !! name with Some (FBool b) => b | _ => false end.
Definition duration_flag (fs : FlagSet) (name : string) : Z :=
  match fs !! name with Some (FDuration d) => d | _ => 0 end.

(** *** Samples *)

Example durations :
  map ParseDuration ["15m"; "1.5h"; "-2s300ms"; "0"; "1d"; "5"; ".5s"; "9223372036854775808ns"]
  = [Some (15 * Minute); Some (90 * Minute); Some (-2300 * Millisecond); Some 0; None; None;
     Some (500 * Millisecond); None].
Proof. vm_compute. reflexivity. Qed.

Example integers :
  map ParseInt0 ["22"; "-7"; "0x1F"; "0b101"; "017"; "1_000"; "1__0"; "9223372036854775808"; ""; "0"]
  = [Some 22; Some (-7); Some 31; Some 5; Some 15; Some 1000; None; None; None; Some 0].
Proof. vm_compute. reflexivity. Qed.
