(* ===== verification/Commands.v ===== *)
(** * src/cmd/standalone.go and src/cmd/pack.go: the agent's commands

    Each command as a function of its arguments: what it does to files and the network,
    what it prints, and how it ends. The operating system, the YAML library and the
    network are parameters. *)

From S2P Require Import Prelude GoStrings GoJson GoAny GoBase64 GoTime Registry Ssh Signing Pack Sweep Inventory Ldap Discovery Http ServiceMap Flags.
From Stdlib Require Import SpecFloat.
#[local] Open Scope Z_scope.

(** What the operating system answers. *)
Record os_env := MkOs {
  os_ReadFile : string → result string;
  os_Getenv : string → string;
  os_WriteFile : string → string → result unit;
  os_MkdirTemp : result string;
  os_GenerateKey : result string;             (* ed25519.GenerateKey: the private key *)
  os_now : Z;
}.

(** [version] of a pack, read without its other fields. *)
Class YamlHead := { yaml_head_version : string → result Z }.

Inductive event :=
  | Wrote (path content : string)
  | RemovedAll (dir : string)
  | Net (e : net_event)
  | Fetched (r : request)
  | Emitted (v : any)                          (* a JSON document on stdout *)
  | Stdout (s : string)
  | Stderr (s : string).

(** How a command ends: it leaves the program, or returns. *)
Inductive ending := Exit (code : Z) | Ended (r : result unit).

Definition command : Type := ending * list event.

Definition fails (e : error) : command := (Ended (Err e), []).

(** Parse the flags, then go on with their values. *)
Definition with_flags (defaults : list (string * flag_value)) (args : list string)
    (body : FlagSet → command) : command :=
  match parse_flags (list_to_map defaults) args with
  | FlagExit code => (Exit code, [])
  | Parsed fs _ => body fs
  end.

(** Go on after a fallible step. *)
Definition try {A} (m : result A) (k : A → command) : command :=
  match m with Ok a => k a | Err e => fails e end.

(** ** Argument lists *)

Definition splitList (s : string) : list string :=
  list_omap _ _ (λ part, let p := TrimSpace part in if String.eqb p "" then None else Some p) (Split s ",").

Definition toAnySlice (ss : list string) : any := AList (map AStr ss).

(** [fmt.Sscanf(p, "%d", &n)] of text that does not start with a space: what follows the
    number is not looked at. *)
Definition sscanf_d (s : string) : option Z :=
  let '(neg, s) := parse_sign s in
  let '(ds, _) := span is_digit s in
  if String.eqb ds "" then None
  else
    v ← digits_val 0 ds;
    let z := if (neg : bool) then - v else v in
    if bool_decide (in_int64 z) then Some z else None.

Definition parsePorts (s : string) : result (list any) :=
  out ← mapM (λ p, match sscanf_d p with
                   | Some n => if (n <? 1) || (65535 <? n) then Err (errorf ("invalid port " +:+ Quote p))
                               else Ok (AFloat (float_of n))
                   | None => Err (errorf ("invalid port " +:+ Quote p))
                   end) (splitList s);
  _ ← fail_if (bool_decide (out = [])) (errorf "no ports given");
  Ok out.

(** ** SSH credentials from flags *)

Definition ssh_creds (o : os_env) (user keyFile passwordEnv : string) : result (gmap string string) :=
  let creds : gmap string string := {["username" := user]} in
  creds ← (if String.eqb keyFile "" then Ok creds
           else key ← wrap_err "reading --key: " (os_ReadFile o keyFile);
                Ok (<["private_key" := key]> creds));
  if String.eqb passwordEnv "" then Ok creds
  else
    let pw := os_Getenv o passwordEnv in
    _ ← fail_if (String.eqb pw "") (errorf ("environment variable " +:+ passwordEnv +:+ " is empty"));
    Ok (<["password" := pw]> creds).

(** ** Discovery actions *)

Section discovery.
Context `{SshLib, Ed25519, KeyFormats, Yaml, YamlHead}.

(** The result is decoded and printed. *)
Definition print_result (r : option json) : command :=
  match r ≫= to_any with
  | Some v => (Ended (Ok tt), [Emitted v])
  | None => fails (wrapf "parsing result: " json_error)
  end.

Definition after (ev : list event) (c : command) : command := (c.1, ev ++ c.2).

Definition runAction (w : Discovery.world) (cfg : gmap string any) (creds : gmap string string)
    (action : string) (params : gmap string any) : command :=
  match Discovery.Configure Discovery.New cfg creds with
  | (Err e, _) => fails e
  | (Ok _, p) =>
      let '(r, _, ev) :=
        Discovery.HandleRequest w p (MkRequest "" "" action params "" "" ∅ "") in
      after (map Net ev)
        (try r (λ resp,
          if negb (resp_StatusCode resp =? 200)
          then fails (errorf (action +:+ " failed: " +:+ resp_Data resp))
          else print_result (resp_Result resp)))
  end.

Definition sweep_flags : list (string * flag_value) :=
  [("cidr", FString ""); ("ports", FString "22"); ("rate-pps", FInt 100); ("timeout-ms", FInt 1000);
   ("exclude", FString ""); ("user", FString "nudgebee-ro"); ("key", FString "");
   ("password-env", FString ""); ("ssh-port", FInt 22); ("v", FBool false)].

Definition sweep_params (cidr : string) (ports : list any) (ratePPS timeoutMs : Z) (exclude : string)
  : gmap string any :=
  let params : gmap string any :=
    <["cidrs" := AList [AStr cidr]]> (<["ports" := AList ports]>
      (<["rate_pps" := AFloat (float_of ratePPS)]>
        {["timeout_ms" := AFloat (float_of timeoutMs)]})) in
  if String.eqb exclude "" then params
  else <["exclusions" := toAnySlice (splitList exclude)]> params.

Definition cmdSweep (o : os_env) (w : Discovery.world) (args : list string) : command :=
  with_flags sweep_flags args (λ fs,
    let cidr := str_flag fs "cidr" in
    let keyFile := str_flag fs "key" in
    let passwordEnv := str_flag fs "password-env" in
    try (_ ← fail_if (String.eqb cidr "") (errorf "--cidr is required");
         _ ← fail_if (negb (String.eqb keyFile "") && negb (String.eqb passwordEnv ""))
               (errorf "--key and --password-env are mutually exclusive");
         ports ← parsePorts (str_flag fs "ports");
         creds ← (if negb (String.eqb keyFile "") || negb (String.eqb passwordEnv "")
                  then ssh_creds o (str_flag fs "user") keyFile passwordEnv else Ok ∅);
         Ok (ports, creds))
      (λ '(ports, creds),
        runAction w
          (<["allowed_cidrs" := AList [AStr cidr]]>
            (<["max_rate_pps" := AFloat (float_of (int_flag fs "rate-pps"))]>
              {["port" := AFloat (float_of (int_flag fs "ssh-port"))]}))
          creds "discovery_sweep"
          (sweep_params cidr ports (int_flag fs "rate-pps") (int_flag fs "timeout-ms")
             (str_flag fs "exclude")))).

(** ** Staging a pack *)

(** The directory, the version and the file with its content. *)
Definition stagePack (o : os_env) (path : string) : result (string * Z * (string * string)) :=
  raw ← wrap_err "reading --pack: " (os_ReadFile o path);
  version ← wrap_err "pack is not valid YAML: " (yaml_head_version raw);
  _ ← fail_if (version <=? 0) (errorf "pack does not declare a positive version");
  dir ← os_MkdirTemp o;
  let dest := dir +:+ "/linux-inventory-v" +:+ Itoa version +:+ ".yaml" in
  _ ← os_WriteFile o dest raw;
  Ok (dir, version, (dest, raw)).

(** The disk after the pack was staged. *)
Definition staged (w : Discovery.world) (dir : string) (version : Z) (raw : string) : Discovery.world := {|
  d_lookup := d_lookup w;
  d_readFile d f := if String.eqb d dir && String.eqb f (pack_file version) then Ok raw else d_readFile w d f;
  d_checked := d_checked w;
  d_sweep := d_sweep w;
  d_identity := d_identity w;
  d_hosts := d_hosts w;
  d_ldap := d_ldap w;
  d_elapsed := d_elapsed w;
|}.

Definition inventory_flags : list (string * flag_value) :=
  [("cidr", FString ""); ("targets", FString ""); ("user", FString "nudgebee-ro"); ("key", FString "");
   ("password-env", FString ""); ("pack", FString ""); ("pack-key", FString ""); ("port", FInt 22);
   ("concurrency", FInt 25); ("known-hosts", FString ""); ("v", FBool false)].

Definition inventory_config (cidr packKey packDir : string) (port concurrency : Z) (knownHosts : string)
  : gmap string any :=
  let cfg : gmap string any :=
    <["allowed_cidrs" := AList [AStr cidr]]> (<["pack_public_key" := AStr packKey]>
      (<["pack_dir" := AStr packDir]> (<["port" := AFloat (float_of port)]>
        {["concurrency" := AFloat (float_of concurrency)]}))) in
  if String.eqb knownHosts "" then cfg else <["known_hosts_file" := AStr knownHosts]> cfg.

Definition cmdInventory (o : os_env) (w : Discovery.world) (args : list string) : command :=
  with_flags inventory_flags args (λ fs,
    let cidr := str_flag fs "cidr" in
    let targets := str_flag fs "targets" in
    let packFile := str_flag fs "pack" in
    let packKey := str_flag fs "pack-key" in
    let keyFile := str_flag fs "key" in
    let passwordEnv := str_flag fs "password-env" in
    try (_ ← fail_if (String.eqb cidr "") (errorf "--cidr is required: it bounds which hosts may be contacted");
         _ ← fail_if (String.eqb targets "") (errorf "--targets is required");
         _ ← fail_if (String.eqb packFile "") (errorf "--pack is required");
         _ ← fail_if (String.eqb packKey "")
               (errorf "--pack-key is required: a pack that cannot be verified is not run");
         _ ← fail_if (String.eqb keyFile "" && String.eqb passwordEnv "")
               (errorf "one of --key or --password-env is required");
         stagePack o packFile)
      (λ '(packDir, packVersion, (dest, raw)),
        let body :=
          try (ssh_creds o (str_flag fs "user") keyFile passwordEnv) (λ creds,
            runAction (staged w packDir packVersion raw)
              (inventory_config cidr packKey packDir (int_flag fs "port") (int_flag fs "concurrency")
                 (str_flag fs "known-hosts"))
              creds "discovery_inventory"
              (<["targets" := toAnySlice (splitList targets)]>
                {["content_pack_version" := AFloat (float_of packVersion)]})) in
        (body.1, [Wrote dest raw] ++ body.2 ++ [RemovedAll packDir]))).
End discovery.

(** ** The service map *)

Definition servicemap_flags : list (string * flag_value) :=
  [("url", FString ""); ("window", FDuration (15 * Minute)); ("user", FString "");
   ("password-env", FString ""); ("bearer-env", FString ""); ("insecure", FBool false); ("v", FBool false)].

(** Authentication: what it adds to the settings, and the credentials. *)
Definition servicemap_auth (o : os_env) (user passwordEnv bearerEnv : string) (cfg : gmap string any)
  : result (gmap string any * gmap string string) :=
  let env name := let v := os_Getenv o name in
    _ ← fail_if (String.eqb v "") (errorf ("environment variable " +:+ name +:+ " is empty")); Ok v in
  if negb (String.eqb bearerEnv "") then
    token ← env bearerEnv;
    Ok (<["auth_type" := AStr "bearer"]> cfg, {["bearer_token" := token]})
  else if negb (String.eqb passwordEnv "") then
    pw ← env passwordEnv;
    Ok (<["auth_type" := AStr "basic"]> cfg, <["username" := user]> {["password" := pw]})
  else Ok (cfg, ∅).

(** The window ends now. *)
Definition cmdServiceMap `{TlsLib, MapOrder} (o : os_env) (nets : nat → network) (args : list string)
  : command :=
  with_flags servicemap_flags args (λ fs,
    let storeURL := str_flag fs "url" in
    let user := str_flag fs "user" in
    let passwordEnv := str_flag fs "password-env" in
    let bearerEnv := str_flag fs "bearer-env" in
    try (_ ← fail_if (String.eqb storeURL "") (errorf "--url is required");
         _ ← fail_if (negb (String.eqb passwordEnv "") && negb (String.eqb bearerEnv ""))
               (errorf "--password-env and --bearer-env are mutually exclusive");
         _ ← fail_if (negb (String.eqb user "") && String.eqb passwordEnv "")
               (errorf "--user requires --password-env");
         servicemap_auth o user passwordEnv bearerEnv
           (<["base_url" := AStr storeURL]> {["tls_skip_verify" := ABool (bool_flag fs "insecure")]}))
      (λ '(cfg, creds),
        match Http.Configure (Http.New 0) 1 cfg creds with
        | (Err e, _, _) => fails e
        | (Ok _, p, _) =>
            let fin := os_now o in
            let start := fin + dur_neg (duration_flag fs "window") in
            let '(r, sent) :=
              ServiceMap.HandleRequest nets p fin
                (MkRequest "" "" ActionVMServiceMap
                   (<["start" := AStr (format_rfc3339_wide start)]>
                     {["end" := AStr (format_rfc3339_wide fin)]}) "" "" ∅ "") in
            after (map Fetched sent) (try r (λ resp, print_result (resp_Result resp)))
        end)).

(** ** Pack commands *)

Fixpoint splitPositional (args : list string) : list string * list string :=
  match args with
  | [] => ([], [])
  | a :: args' =>
      if String.eqb a "--" then (args', [])
      else if HasPrefix a "-" && negb (String.eqb a "-") then
        match args' with
        | v :: args'' =>
            if negb (Contains a "=") && negb (HasPrefix v "-")
            then let '(pos, flags) := splitPositional args'' in (pos, a :: v :: flags)
            else let '(pos, flags) := splitPositional args' in (pos, a :: flags)
        | [] => ([], [a])
        end
      else let '(pos, flags) := splitPositional args' in (a :: pos, flags)
  end.

Section pack.
Context `{Ed25519, Yaml}.

Definition cmdPackKeygen (o : os_env) (args : list string) : command :=
  with_flags [] args (λ _,
    try (os_GenerateKey o) (λ priv,
      (Ended (Ok tt),
       [Stderr ("public key  (set as pack_public_key): " +:+ EncodeToString (ed_public priv) +:+ newline);
        Stderr ("private key (keep secret, printed on stdout):" +:+ newline);
        Stdout (EncodeToString priv +:+ newline)]))).

(** The key material: the environment is preferred to the command line. *)
Definition key_material (o : os_env) (keyB64 keyEnv : string) : result string :=
  material ← (if String.eqb keyEnv "" then Ok keyB64
              else let m := os_Getenv o keyEnv in
                   _ ← fail_if (String.eqb m "") (errorf ("environment variable " +:+ keyEnv +:+ " is empty"));
                   Ok m);
  _ ← fail_if (String.eqb material "") (errorf "one of --key or --key-env is required");
  Ok material.

Definition decode_key (what material : string) (size : nat) : result string :=
  match DecodeString material with
  | None => Err (wrapf (what +:+ " key is not valid base64: ") base64_error)
  | Some k =>
      _ ← fail_if (negb (String.length k =? size)%nat)
            (errorf (what +:+ " key is " +:+ Itoa (Z.of_nat (String.length k)) +:+ " bytes, expected "
                     +:+ Itoa (Z.of_nat size)));
      Ok k
  end.

Definition sign_flags : list (string * flag_value) :=
  [("key", FString ""); ("key-env", FString ""); ("out", FString "")].

Definition cmdPackSign_args (o : os_env) (args : list string) : command :=
  let '(positional, flags) := splitPositional args in
  with_flags sign_flags flags (λ fs,
    match positional with
    | [path] =>
        try (material ← key_material o (str_flag fs "key") (str_flag fs "key-env");
             priv ← decode_key "private" material PrivateKeySize;
             raw ← wrap_err "reading pack: " (os_ReadFile o path);
             let signed := cmdPackSign priv raw in
             let dest := if String.eqb (str_flag fs "out") "" then path else str_flag fs "out" in
             _ ← os_WriteFile o dest signed;
             Ok (priv, signed, dest))
          (λ '(priv, signed, dest),
            (Ended (Ok tt),
             [Wrote dest signed;
              Stderr ("signed " +:+ dest +:+ newline +:+ "pack_public_key: "
                      +:+ EncodeToString (ed_public priv) +:+ newline)]))
    | _ => fails (errorf "usage: pack sign <file> --key <base64 private key>")
    end).

Definition cmdPackVerify (o : os_env) (args : list string) : command :=
  let '(positional, flags) := splitPositional args in
  with_flags [("key", FString "")] flags (λ fs,
    let pubB64 := str_flag fs "key" in
    match positional, String.eqb pubB64 "" with
    | [path], false =>
        try (pub ← decode_key "public" pubB64 PublicKeySize;
             raw ← os_ReadFile o path;
             ParseAndVerify raw pub)
          (λ pack,
            (Ended (Ok tt),
             [Stderr ("ok: version " +:+ Itoa (Version pack) +:+ ", kind " +:+ Kind pack +:+ ", "
                      +:+ Itoa (Z.of_nat (length (Collectors pack))) +:+ " collectors" +:+ newline)]))
    | _, _ => fails (errorf "usage: pack verify <file> --key <base64 public key>")
    end).

Definition cmdPack (o : os_env) (args : list string) : command :=
  match args with
  | [] => fails (errorf "usage: pack keygen | pack sign <file> --key <base64 private key>")
  | a :: args =>
      if String.eqb a "keygen" then cmdPackKeygen o args
      else if String.eqb a "sign" then cmdPackSign_args o args
      else if String.eqb a "verify" then cmdPackVerify o args
      else fails (errorf ("unknown pack subcommand " +:+ Quote a))
  end.
End pack.

(** ** Dispatch *)

(** An error is printed and ends the program with status 1. *)
Definition exitOn (c : command) : command :=
  match c with
  | (Ended (Err e), ev) => (Exit 1, ev ++ [Stderr ("error: " +:+ err_msg e +:+ newline)])
  | _ => c
  end.

(** [None]: not a subcommand, the agent goes on. *)
Definition runStandalone `{SshLib, Ed25519, KeyFormats, Yaml, YamlHead, TlsLib, MapOrder} (o : os_env)
    (w : Discovery.world) (nets : nat → network) (usage : string) (args : list string) : option command :=
  match args with
  | [] => None
  | a :: args =>
      if String.eqb a "sweep" then Some (exitOn (cmdSweep o w args))
      else if String.eqb a "inventory" then Some (exitOn (cmdInventory o w args))
      else if String.eqb a "servicemap" then Some (exitOn (cmdServiceMap o nets args))
      else if String.eqb a "pack" then Some (exitOn (cmdPack o args))
      else if String.eqb a "help" then Some (Ended (Ok tt), [Stdout usage])
      else None
  end.
