(* ===== verification/CommandsFacts.v ===== *)
(** * What the commands do

    Standalone runs stay within what their arguments ask for; arguments may come in
    any order. *)

From S2P Require Import Prelude GoStrings GoJson GoAny GoDecode GoTime NetIP NetPrefix Registry Ssh Signing Pack Sweep SweepFacts Inventory Discovery DiscoveryFacts DiscoveryWitness PackFacts SigningTheorems Http ServiceMap Flags Commands.
#[local] Open Scope Z_scope.

(** ** Events of a command *)

Lemma try_events {A} (m : result A) k e : e ∈ (try m k).2 → ∃ a, m = Ok a ∧ e ∈ (k a).2.
Proof. destruct m as [a|]; simpl; [by exists a|]. by intros ?%not_elem_of_nil. Qed.

Lemma with_flags_events defaults args body e :
  e ∈ (with_flags defaults args body).2 →
  ∃ fs rest, parse_flags (list_to_map defaults) args = Parsed fs rest ∧ e ∈ (body fs).2.
Proof.
  unfold with_flags. destruct (parse_flags _ args) as [fs rest|code]; [by eauto|].
  by intros ?%not_elem_of_nil.
Qed.

Lemma print_result_net r e : Net e ∉ (print_result r).2.
Proof.
  unfold print_result. destruct (_ ≫= to_any); simpl; [|apply not_elem_of_nil].
  by intros ?%list_elem_of_singleton.
Qed.

Lemma exitOn_net c e : Net e ∈ (exitOn c).2 → Net e ∈ c.2.
Proof.
  destruct c as [[code|[u|er]] ev]; simpl; try done. intros [?|H]%elem_of_app; [done|].
  by apply list_elem_of_singleton in H.
Qed.

Section runs.
Context `{SshLib, Ed25519, KeyFormats, Yaml, YamlHead}.

Lemma runAction_net w cfg creds action params e :
  Net e ∈ (runAction w cfg creds action params).2 →
  ∃ p, Discovery.Configure Discovery.New cfg creds = (Ok tt, p)
    ∧ e ∈ (Discovery.HandleRequest w p (MkRequest "" "" action params "" "" ∅ "")).2.
Proof.
  unfold runAction. destruct (Discovery.Configure Discovery.New cfg creds) as [[[]|er] p];
    [|by intros ?%not_elem_of_nil].
  destruct (Discovery.HandleRequest w p _) as [[r q] ev] eqn:E. intros Hin. exists p. split; [done|].
  rewrite E. cbn [after snd] in *. apply elem_of_app in Hin as [Hin|Hin].
  - by apply list_elem_of_fmap in Hin as (e' & [= ->] & ?).
  - exfalso. apply try_events in Hin as (resp & _ & Hin). case_match; [by apply not_elem_of_nil in Hin|].
    by apply print_result_net in Hin.
Qed.

(** ** Sweeps *)

(** An address of the network asked for that is not excluded. *)
Definition sweep_admits (fs : FlagSet) (host : string) : Prop :=
  ∃ net excl x, ParsePrefix (str_flag fs "cidr") = Some net
    ∧ Forall2 (λ s e, parsePrefixOrAddr s = Ok e) (splitList (str_flag fs "exclude")) excl
    ∧ 0 ≤ x < 2 ^ 32 ∧ in_net (Masked net) x ∧ Forall (λ e, ¬ in_net e x) excl ∧ host = v4_String x.

Lemma strings_of_map l : strings_of (map AStr l) = Some l.
Proof. induction l as [|s l IH]; simpl; [done|]. by rewrite IH. Qed.

Lemma sweep_params_cidrs cidr ports rate timeout exclude :
  stringSliceParam (sweep_params cidr ports rate timeout exclude) "cidrs" = Ok [cidr].
Proof.
  unfold stringSliceParam, sweep_params.
  destruct (String.eqb exclude ""); [|rewrite lookup_insert_ne by done]; by rewrite lookup_insert_eq.
Qed.

Lemma sweep_params_exclusions cidr ports rate timeout exclude :
  let params := sweep_params cidr ports rate timeout exclude in
  (if param_given params "exclusions" then stringSliceParam params "exclusions" else Ok [])
  = Ok (splitList exclude).
Proof.
  unfold stringSliceParam, sweep_params, param_given.
  destruct (String.eqb_spec exclude "") as [-> |Hne].
  - by rewrite !lookup_insert_ne, lookup_singleton_ne by done.
  - rewrite lookup_insert_eq. cbn. by rewrite strings_of_map.
Qed.

Lemma parse_sweep_args cidr ports rate timeout exclude maxRate sc :
  parseSweepParams (sweep_params cidr ports rate timeout exclude) maxRate = Ok sc →
  ∃ net, ParsePrefix cidr = Some net ∧ cidrs sc = [Masked net]
    ∧ Forall2 (λ s e, parsePrefixOrAddr s = Ok e) (splitList exclude) (exclusions sc).
Proof.
  set (params := sweep_params cidr ports rate timeout exclude).
  pose proof (sweep_params_exclusions cidr ports rate timeout exclude) as Hex. cbv zeta in Hex. fold params in Hex.
  pose proof (sweep_params_cidrs cidr ports rate timeout exclude) as Hci. fold params in Hci.
  unfold parseSweepParams. rewrite Hci. clear Hci.
  intros Hp. cbn in Hp. destruct (ParsePrefix cidr) as [net|]; [|done]. cbn in Hp.
  apply bind_Ok in Hp as (excl & Hexcl & Hp). apply bind_Ok in Hp as (ps & _ & [= <-]).
  exists net. split_and!; [done|done|]. cbn [exclusions]. destruct (param_given params "exclusions").
  - rewrite Hex in Hexcl. cbn in Hexcl. apply mapM_Ok in Hexcl.
    eapply Forall2_impl; [exact Hexcl|]. intros s e Hse. by apply wrap_err_Ok in Hse.
  - injection Hex as <-. injection Hexcl as <-. constructor.
Qed.

Lemma cmdSweep_net o w args e host :
  honest (d_sweep w) → Net e ∈ (cmdSweep o w args).2 → host ∈ contacted e →
  ∃ fs rest, parse_flags (list_to_map sweep_flags) args = Parsed fs rest ∧ sweep_admits fs host.
Proof.
  intros Hh (fs & rest & Hp & Hin)%with_flags_events Hhost. exists fs, rest. split; [done|].
  apply try_events in Hin as ([ports creds] & _ & Hin). apply runAction_net in Hin as (p & _ & Hin).
  unfold Discovery.HandleRequest in Hin. cbn [req_Action] in Hin.
  change (String.eqb "discovery_sweep" "discovery_inventory") with false in Hin.
  change (String.eqb "discovery_sweep" "discovery_sweep") with true in Hin. cbv iota in Hin.
  destruct (handleSweep w p _) as [r ev] eqn:Es. cbn [snd] in Hin.
  destruct (handleSweep_contacts _ _ _ _ _ _ _ Hh Es Hin Hhost) as (sc & addrs & k & Esc & Hex & Ha & _).
  destruct (parseSweepParams_bounds _ _ _ Esc) as (Hwf & _).
  apply parse_sweep_args in Esc as (net & Hnet & Hc & Hexc).
  destruct (expand_all_spec _ _ _ _ _ _ Hwf Hex) as (Hw4 & -> & _ & _). cbn [app] in Ha.
  rewrite Hc in Ha, Hw4. cbn [map concat] in Ha. rewrite List.app_nil_r in Ha.
  apply Forall_cons in Hw4 as [Hw4 _].
  apply elem_of_kept in Ha as (x & Hx & Hnetx & _ & Hexx & ->); [|done].
  exists net, (exclusions sc), x. done.
Qed.

(** ** Inventories *)

(** A host of the list asked for that the scope asked for admits. *)
Definition inventory_admits (lookup : string → result (list string)) (fs : FlagSet) (host : string) : Prop :=
  host ∈ splitList (str_flag fs "targets")
  ∧ isTargetAllowed lookup (parseAllowedCIDRs Discovery.New [str_flag fs "cidr"]) host = true.

Definition config_keys : list string :=
  ["allowed_cidrs"; "pack_public_key"; "pack_dir"; "port"; "concurrency"; "known_hosts_file"].

Lemma AllowedCIDRs_frame c k j :
  key_is "allowed_cidrs" k = false →
  Discovery.AllowedCIDRs (Discovery.Config_field c k j).1 = Discovery.AllowedCIDRs c.
Proof.
  intros Hk. destruct c. unfold Discovery.Config_field. rewrite Hk.
  repeat match goal with |- context [if key_is ?a ?b then _ else _] => destruct (key_is a b) end;
    repeat case_match; reflexivity.
Qed.

Lemma inventory_config_scope cidr packKey packDir port conc kh j c ok :
  marshal_any_map (inventory_config cidr packKey packDir port conc kh) = Some j →
  dec_struct Discovery.Config_field Discovery.zero_config j = (c, ok) →
  Discovery.AllowedCIDRs c = [cidr].
Proof.
  intros Hj Hd. eapply (decode_lands _ _ _ _ _ _ Discovery.AllowedCIDRs "allowed_cidrs"); [done|done|].
  apply (lands_key _ config_keys); [|vm_compute; reflexivity|apply AllowedCIDRs_frame|].
  - intros k v. unfold inventory_config, config_keys.
    destruct (String.eqb kh ""); rewrite ?lookup_insert_Some, ?lookup_singleton_Some; set_solver.
  - unfold inventory_config. destruct (String.eqb kh "");
      [|rewrite lookup_insert_ne by done]; rewrite lookup_insert_eq;
      (eexists; split; [reflexivity|]); intros []; unfold Discovery.Config_field; eval_keys; reflexivity.
Qed.

(** The scope a proxy is configured with. *)
Lemma Configure_scope conf creds p :
  Discovery.Configure Discovery.New conf creds = (Ok tt, p) →
  ∃ j c, marshal_any_map conf = Some j
    ∧ dec_struct Discovery.Config_field Discovery.zero_config j = (c, true)
    ∧ allowedNets p = allowedNets (parseAllowedCIDRs Discovery.New (Discovery.AllowedCIDRs c))
    ∧ allowedHosts p = allowedHosts (parseAllowedCIDRs Discovery.New (Discovery.AllowedCIDRs c)).
Proof.
  unfold Discovery.Configure. destruct (marshal_any_map conf) as [j|]; [|done].
  destruct (dec_struct _ _ j) as [c []] eqn:Ed; [|done]. cbn [negb].
  destruct (ssh_settings _ creds) as [s|]; [|done]. intros Hp. exists j, c. split; [done|]. split; [done|].
  destruct (String.eqb _ ""); [by injection Hp as <-|].
  destruct (ParsePublicKey _); [by injection Hp as <-|done].
Qed.

(** The hosts an inventory runs on are targets of the request. *)
Lemma handleInventory_targets w p req e host :
  e ∈ (handleInventory w p req).2 → host ∈ contacted e →
  ∃ targets p', stringSliceParam (req_Params req) "targets" = Ok targets
    ∧ allowedNets p' = allowedNets p ∧ allowedHosts p' = allowedHosts p
    ∧ host ∈ (partitionTargetsByScope (d_lookup w) (d_checked w) p' targets).1.
Proof.
  unfold handleInventory. destruct (stringSliceParam _ _) as [targets|er]; cbn [wrap_err];
    [|by intros ?%not_elem_of_nil]. intros Hin Hhost. destruct targets as [|t l]; [by apply not_elem_of_nil in Hin|].
  destruct (_ <? _); [by apply not_elem_of_nil in Hin|].
  destruct (resolvePack_same w p (req_Params req)) as (_ & En & Eh & _).
  destruct (resolvePack w p (req_Params req)) as [[pack|er] q]; [|by apply not_elem_of_nil in Hin].
  destruct (sshConfig q); [|by apply not_elem_of_nil in Hin].
  exists (t :: l), q. split; [done|]. split; [done|]. split; [done|].
  destruct (partitionTargetsByScope _ _ q _) as [al rej]. cbn [fst snd] in *.
  apply list_elem_of_fmap in Hin as (r & -> & Hr). simpl in Hhost. apply list_elem_of_singleton in Hhost as ->.
  apply (list_elem_of_fmap_2 (λ r, Host r.1)) in Hr. change (_ <$> ?l) with (map (λ r, Host r.1) l) in Hr.
  by rewrite (proj1 (runInventory_hosts _ _ _ _)) in Hr.
Qed.

Lemma partition_subset lookup checked p targets t :
  t ∈ (partitionTargetsByScope lookup checked p targets).1 → t ∈ targets.
Proof.
  unfold partitionTargetsByScope. cbn [fst]. intros ([t' v] & -> & Hin)%list_elem_of_fmap.
  apply list_elem_of_In, List.filter_In in Hin as [Hin _].
  apply list_elem_of_In, elem_of_lookup_imap in Hin as (i & t & [= -> ->] & Ht).
  by eapply list_elem_of_lookup_2.
Qed.

Lemma cmdInventory_net o w args e host :
  Net e ∈ (cmdInventory o w args).2 → host ∈ contacted e →
  ∃ fs rest, parse_flags (list_to_map inventory_flags) args = Parsed fs rest
    ∧ inventory_admits (d_lookup w) fs host.
Proof.
  intros (fs & rest & Hp & Hin)%with_flags_events Hhost. exists fs, rest. split; [done|].
  apply try_events in Hin as ([[dir version] [dest raw]] & _ & Hin). cbn [snd] in Hin.
  rewrite !elem_of_app, !list_elem_of_singleton in Hin. destruct Hin as [?|[Hin|?]]; [done| |done].
  apply try_events in Hin as (creds & _ & Hin). apply runAction_net in Hin as (p & Hc & Hin).
  apply Configure_scope in Hc as (j & c & Hj & Hd & En & Eh).
  apply (inventory_config_scope _ _ _ _ _ _ _ _ _ Hj) in Hd. rewrite Hd in En, Eh.
  unfold Discovery.HandleRequest in Hin. cbn [req_Action] in Hin.
  change (String.eqb "discovery_inventory" "discovery_inventory") with true in Hin. cbv iota in Hin.
  destruct (handleInventory_targets _ _ _ _ _ Hin Hhost) as (targets & q & Ht & En' & Eh' & Hpart).
  unfold stringSliceParam in Ht. cbn [req_Params] in Ht. rewrite lookup_insert_eq in Ht. cbn [toAnySlice] in Ht.
  rewrite strings_of_map in Ht. injection Ht as <-. split; [by eapply partition_subset|].
  apply partition_allowed in Hpart. unfold isTargetAllowed in *. by rewrite <- En, <- Eh, <- En', <- Eh'.
Qed.
End runs.

(** The other commands do nothing on the hosts of a scope. *)
Lemma cmdServiceMap_net `{TlsLib, MapOrder} o nets args e : Net e ∉ (cmdServiceMap o nets args).2.
Proof.
  intros (fs & rest & _ & Hin)%with_flags_events. apply try_events in Hin as ([cfg creds] & _ & Hin).
  destruct (Http.Configure _ _ _ _) as [[[u|er] p] ids]; [|by apply not_elem_of_nil in Hin].
  cbv zeta in Hin. destruct (ServiceMap.HandleRequest _ _ _ _) as [r sent]. cbn [after snd] in Hin.
  apply elem_of_app in Hin as [Hin|Hin]; [by apply list_elem_of_fmap in Hin as (? & ? & _)|].
  apply try_events in Hin as (resp & _ & Hin). by apply print_result_net in Hin.
Qed.

Lemma cmdPack_net `{Ed25519, Yaml} o args e : Net e ∉ (cmdPack o args).2.
Proof.
  unfold cmdPack. destruct args as [|a args]; [apply not_elem_of_nil|].
  destruct (String.eqb a "keygen").
  { intros (fs & rest & _ & Hin)%with_flags_events. apply try_events in Hin as (k & _ & Hin).
    cbn [snd] in Hin. set_solver. }
  destruct (String.eqb a "sign").
  { unfold cmdPackSign_args. destruct (splitPositional args) as [pos flags].
    intros (fs & rest & _ & Hin)%with_flags_events.
    destruct pos as [|path []]; [by apply not_elem_of_nil in Hin| |by apply not_elem_of_nil in Hin].
    apply try_events in Hin as ([[priv signed] dest] & _ & Hin). cbn [snd] in Hin. set_solver. }
  destruct (String.eqb a "verify"); [|apply not_elem_of_nil].
  unfold cmdPackVerify. destruct (splitPositional args) as [pos flags].
  intros (fs & rest & _ & Hin)%with_flags_events.
  destruct pos as [|path []]; [by apply not_elem_of_nil in Hin| |by apply not_elem_of_nil in Hin].
  destruct (String.eqb _ ""); [by apply not_elem_of_nil in Hin|].
  apply try_events in Hin as (pk & _ & Hin). cbn [snd] in Hin. set_solver.
Qed.

(** C18. A standalone run stays within its arguments. Whatever the network, the resolver
    and the disk answer, every host a `sweep` probes or logs into is an address of
    --cidr that --exclude does not cover, and every host an `inventory` runs commands
    on is one of --targets that --cidr admits. *)
Theorem standalone_in_scope `{SshLib, Ed25519, KeyFormats, Yaml, YamlHead, TlsLib, MapOrder}
    o w nets usage cmd args c e host :
  honest (d_sweep w) → runStandalone o w nets usage (cmd :: args) = Some c →
  Net e ∈ c.2 → host ∈ contacted e →
  (cmd = "sweep" ∧ ∃ fs rest, parse_flags (list_to_map sweep_flags) args = Parsed fs rest
     ∧ sweep_admits fs host)
  ∨ (cmd = "inventory" ∧ ∃ fs rest, parse_flags (list_to_map inventory_flags) args = Parsed fs rest
     ∧ inventory_admits (d_lookup w) fs host).
Proof.
  intros Hh Hr Hin Hhost. unfold runStandalone in Hr.
  destruct (String.eqb_spec cmd "sweep") as [-> |_].
  { injection Hr as <-. apply exitOn_net in Hin. left. split; [done|]. by eapply cmdSweep_net. }
  destruct (String.eqb_spec cmd "inventory") as [-> |_].
  { injection Hr as <-. apply exitOn_net in Hin. right. split; [done|]. by eapply cmdInventory_net. }
  exfalso. destruct (String.eqb cmd "servicemap").
  { injection Hr as <-. apply exitOn_net in Hin. by apply cmdServiceMap_net in Hin. }
  destruct (String.eqb cmd "pack").
  { injection Hr as <-. apply exitOn_net in Hin. by apply cmdPack_net in Hin. }
  destruct (String.eqb cmd "help"); [|done]. injection Hr as <-. by apply list_elem_of_singleton in Hin.
Qed.

#[local] Existing Instance toy.
#[local] Existing Instance demo_yaml.
#[local] Existing Instance demo_ssh_lib.
#[local] Existing Instance demo_formats.
#[local] Instance no_head : YamlHead := {| yaml_head_version _ := Err (errorf "yaml") |}.
#[local] Instance no_tls : TlsLib := {|
  AppendCertsFromPEM _ := false; X509KeyPair _ _ := Err (errorf "tls") |}.
#[local, program] Instance plain_order : MapOrder := {| visit _ _ l := l |}.
Next Obligation. done. Qed.

Definition demo_os : os_env :=
  MkOs (λ _, Err (errorf "no such file")) (λ _, "") (λ _ _, Ok tt) (Err (errorf "tmp")) (Err (errorf "rand")) 0.

Definition demo_sweep_args : list string :=
  ["--cidr"; "10.0.0.8/30"; "-ports=22"; "--exclude"; "10.0.0.10"; "-v"].

Definition no_network : nat → network := λ _ _ _, inr (MkClientError (errorf "down") false []).

Definition demo_sweep_run : option command :=
  runStandalone demo_os demo_world no_network "" ("sweep" :: demo_sweep_args).

Lemma standalone_in_scope_witness :
  ∃ c fs rest, demo_sweep_run = Some c ∧ Net (Probed "10.0.0.9" 22) ∈ c.2
    ∧ parse_flags (list_to_map sweep_flags) demo_sweep_args = Parsed fs rest
    ∧ sweep_admits fs "10.0.0.9".
Proof.
  destruct demo_sweep_run as [c|] eqn:E; [|by vm_compute in E].
  assert (Net (Probed "10.0.0.9" 22) ∈ c.2) as Hin.
  { replace c with (default (Exit 9, []) demo_sweep_run) by (by rewrite E). vm_compute. left. }
  exists c. destruct (standalone_in_scope demo_os demo_world no_network "" "sweep" demo_sweep_args c
                        (Probed "10.0.0.9" 22) "10.0.0.9" demo_honest E Hin ltac:(left))
    as [(_ & fs & rest & Hp & Ha)|[? _]]; [|done].
  exists fs, rest. exact (conj eq_refl (conj Hin (conj Hp Ha))).
Defined.

(** ** Ports *)

(** A range of ports, or a number with anything behind it, is taken for its first number. *)
Example parsePorts_range :
  parsePorts "80-90, 443" = Ok [AFloat (float_of 80); AFloat (float_of 443)].
Proof. vm_compute. reflexivity. Qed.

Lemma parsePorts_valid s l :
  parsePorts s = Ok l → l ≠ [] ∧ Forall (λ v, ∃ n, v = AFloat (float_of n) ∧ 1 ≤ n ≤ 65535) l.
Proof.
  unfold parsePorts. intros (out & Hm & Hr)%bind_Ok. apply bind_Ok in Hr as (u & Hu & [= <-]).
  apply fail_if_Ok, bool_decide_eq_false in Hu. split; [done|]. apply mapM_Ok in Hm. clear Hu.
  induction Hm as [|p v ps vs Hp _ IH]; constructor; [|done].
  destruct (sscanf_d p) as [n|]; [|done]. destruct (Z.ltb_spec n 1), (Z.ltb_spec 65535 n); try done.
  injection Hp as <-. exists n. split; [done|lia].
Qed.

(** ** Arguments in any order *)

(** An argument list as its author meant it. *)
Inductive arg :=
  | Positional (p : string)
  | FlagValue (f v : string)                   (* --key X *)
  | FlagEquals (f : string).                   (* --key=X *)

Definition arg_text (a : arg) : list string :=
  match a with Positional p => [p] | FlagValue f v => [f; v] | FlagEquals f => [f] end.
Definition arg_positional (a : arg) : list string :=
  match a with Positional p => [p] | _ => [] end.
Definition arg_flags (a : arg) : list string :=
  match a with Positional _ => [] | FlagValue f v => [f; v] | FlagEquals f => [f] end.

Definition dashed (s : string) : bool := HasPrefix s "-" && negb (String.eqb s "-") && negb (String.eqb s "--").

Definition arg_ok (a : arg) : bool :=
  match a with
  | Positional p => negb (HasPrefix p "-") || String.eqb p "-"
  | FlagValue f v => dashed f && negb (Contains f "=") && negb (HasPrefix v "-")
  | FlagEquals f => dashed f && Contains f "="
  end.

(** Flags and files may come in any order: whatever the interleaving of positional
    arguments with flags written `--name value` or `--name=value`, [splitPositional]
    returns exactly the positional arguments and exactly the flags with their values,
    each in the order given; after `--` everything is positional. *)
Theorem splitPositional_any_order (l : list arg) (rest : list string) :
  forallb arg_ok l = true →
  splitPositional (flat_map arg_text l) = (flat_map arg_positional l, flat_map arg_flags l)
  ∧ splitPositional (flat_map arg_text l ++ "--" :: rest)
    = (flat_map arg_positional l ++ rest, flat_map arg_flags l).
Proof.
  intros Hl. assert (∀ tail pos, splitPositional tail = (pos, []) →
    splitPositional (flat_map arg_text l ++ tail) = (flat_map arg_positional l ++ pos, flat_map arg_flags l)) as Ht.
  2: { split; [|by apply Ht]. specialize (Ht [] [] eq_refl). by rewrite !List.app_nil_r in Ht. }
  intros tail pos Htail. induction l as [|a l IH]; [done|].
  apply andb_true_iff in Hl as [Ha Hl]. specialize (IH Hl). cbn [flat_map].
  destruct a as [p|f v|f]; cbn [arg_text arg_positional arg_flags app] in *; cbn [arg_ok] in Ha.
  - cbn [splitPositional]. destruct (String.eqb_spec p "--") as [-> |_]; [by vm_compute in Ha|].
    assert (HasPrefix p "-" && negb (String.eqb p "-") = false) as ->.
    { apply orb_true_iff in Ha as [Ha|Ha]; [apply negb_true_iff in Ha; by rewrite Ha|].
      rewrite Ha. apply andb_false_r. }
    by rewrite IH.
  - apply andb_true_iff in Ha as [[[[Hp Hd]%andb_true_iff Hdd]%andb_true_iff Hc]%andb_true_iff Hv].
    cbn [splitPositional]. apply negb_true_iff in Hdd. by rewrite Hdd, Hp, Hd, Hc, Hv, IH.
  - apply andb_true_iff in Ha as [[[Hp Hd]%andb_true_iff Hdd]%andb_true_iff Hc].
    cbn [splitPositional]. apply negb_true_iff in Hdd. rewrite Hdd, Hp, Hd. cbn [andb]. rewrite Hc.
    cbn [negb andb]. destruct (flat_map arg_text l ++ tail) as [|v args] eqn:E.
    + cbn in IH. injection IH as <- <-. done.
    + by rewrite IH.
Qed.

Definition demo_args : list arg :=
  [FlagValue "--key" "abc"; Positional "pack.yaml"; FlagEquals "--out=signed.yaml"; Positional "-"].

Lemma splitPositional_any_order_witness :
  splitPositional ["--key"; "abc"; "pack.yaml"; "--out=signed.yaml"; "-"]
  = (["pack.yaml"; "-"], ["--key"; "abc"; "--out=signed.yaml"]).
Proof. exact (proj1 (splitPositional_any_order demo_args [] eq_refl)). Defined.

(** A value that is a bare dash is not kept with its flag: `--out -` ends with a usage
    error of the flag package. *)
Example out_dash :
  splitPositional ["pack.yaml"; "--out"; "-"] = (["pack.yaml"; "-"], ["--out"])
  ∧ parse_flags (list_to_map sign_flags) ["--out"] = FlagExit 2.
Proof. split; vm_compute; reflexivity. Qed.
