(* ===== verification/App.v ===== *)
(** * src/pkg/config/config.go and src/cmd/app.go: datasources from the agent's own file

    The configuration file names datasources; each becomes a proxy under an ID that
    starts with "local:". The viper library, the file system and the proxies are
    parameters. *)

From S2P Require Import Prelude GoStrings GoJson GoAny GoTime Signing Registry Ssh Secrets Providers SshAccess Handler Client.
#[local] Open Scope Z_scope.

(** ** Configuration *)

Record DiscoveryLDAP := MkDiscoveryLDAP {
  dl_Host : string;
  dl_Port : Z;
  dl_TLS : bool;
  dl_StartTLS : bool;
  dl_SkipVer : bool;
  dl_BaseDN : string;
  dl_TimeoutS : Z;
  dl_PageSize : Z;                      (* uint32 *)
  dl_MaxResults : Z;
}.

Record DiscoveryDatasource := MkDiscoveryDatasource {
  dd_PackPublicKey : string;
  dd_PackDir : string;
  dd_KnownHostsFile : string;
  dd_SSHAccess : bool;
  dd_Port : Z;
  dd_Concurrency : Z;
  dd_HostTimeoutS : Z;
  dd_CommandTimeS : Z;
  dd_DialTimeoutS : Z;
  dd_MaxOutputBytes : Z;
  dd_MaxRatePPS : Z;
  dd_LDAP : option DiscoveryLDAP;
}.

Record LocalDatasource := MkLocal {
  ld_Type : string;
  ld_Name : string;
  ld_URL : string;
  ld_Host : string;
  ld_Port : Z;
  ld_Database : string;
  ld_Brokers : string;
  ld_SSLMode : string;
  ld_TLSEnabled : bool;
  ld_ServiceName : string;
  ld_Encryption : string;
  ld_DataIntegrity : string;
  ld_CredentialSource : string;
  ld_CredentialRef : string;
  ld_Credentials : gmap string string;
  ld_TLSSkipVerify : bool;
  ld_FollowRedirects : bool;
  ld_MaxResponseBytes : Z;
  ld_AllowedHosts : list string;
  ld_Discovery : option DiscoveryDatasource;
  ld_Transport : string;
  ld_Command : string;
  ld_Args : string;
  ld_Env : gmap string string;
  ld_WorkingDir : string;
}.

Record AgentConfig := MkAgentConfig {
  ac_RelayURL : string;
  ac_AccessKey : string;
  ac_AccessSecret : string;
  ac_DataDir : string;
  ac_Datasources : list LocalDatasource;
  ac_HealthCheckIntervalMin : Z;
  ac_SigningPublicKey : string;
  ac_AWSRegion : string;
  ac_GCPProjectID : string;
  ac_GCPCredentialsFile : string;
  ac_AzureVaultURL : string;
  ac_AzureTenantID : string;
  ac_AzureClientID : string;
}.

(** What viper is told; the file is a path, or a name to look for in directories. *)
Record viper_setup := MkViper {
  v_defaults : list (string * any);
  v_envPrefix : string;
  v_envKeyReplacer : string * string;
  v_bound : list string;
  v_file : string + (string * string * list string);
}.

(** How reading the file ends: an error, and whether it says that there is none. *)
Class Viper := {
  ReadInConfig : viper_setup → option (error * bool);
  viper_Unmarshal : viper_setup → result AgentConfig;
}.

Definition DefaultDataDir : string := "/var/lib/nudgebee".
Definition DefaultConfigDir : string := "/etc/nudgebee".

Definition viper_of (configPath : string) : viper_setup :=
  MkViper
    [("relay_url", AStr "wss://relay.nudgebee.com/register"); ("data_dir", AStr DefaultDataDir);
     ("health_check_interval_min", AInt 10)]
    "NB" (".", "_")
    ["access_key"; "access_secret"; "relay_url"; "data_dir"; "health_check_interval_min";
     "signing_public_key"; "aws.region"; "gcp.project_id"; "gcp.credentials_file";
     "azure.vault_url"; "azure.tenant_id"; "azure.client_id"]
    (if String.eqb configPath "" then inr ("forager", "yaml", [DefaultConfigDir; "."]) else inl configPath).

Definition Load `{Viper} (configPath : string) : result AgentConfig :=
  let v := viper_of configPath in
  _ ← match ReadInConfig v with
      | Some (e, false) => Err (wrapf "reading config: " e)
      | _ => Ok tt
      end;
  cfg ← wrap_err "unmarshaling config: " (viper_Unmarshal v);
  _ ← fail_if (String.eqb (ac_AccessKey cfg) "")
        (errorf "access_key is required (set NB_ACCESS_KEY or access_key in config)");
  _ ← fail_if (String.eqb (ac_AccessSecret cfg) "")
        (errorf "access_secret is required (set NB_ACCESS_SECRET or access_secret in config)");
  Ok cfg.

(** ** The configuration of a proxy *)

Definition setIfNotEmpty (key value : string) (m : gmap string any) : gmap string any :=
  if String.eqb value "" then m else <[key := AStr value]> m.
Definition setIfPositive (key : string) (value : Z) (m : gmap string any) : gmap string any :=
  if 0 <? value then <[key := AInt value]> m else m.
Definition setIfTrue (key : string) (value : bool) (m : gmap string any) : gmap string any :=
  if value then <[key := ABool true]> m else m.

Definition ldap_config (d : DiscoveryLDAP) : gmap string any :=
  setIfTrue "insecure_skip_verify" (dl_SkipVer d)
    (setIfTrue "start_tls" (dl_StartTLS d)
      (setIfTrue "tls" (dl_TLS d)
        (setIfPositive "page_size" (dl_PageSize d)
          (setIfNotEmpty "base_dn" (dl_BaseDN d)
            (setIfPositive "max_results" (dl_MaxResults d)
              (setIfPositive "timeout_seconds" (dl_TimeoutS d)
                (setIfPositive "port" (dl_Port d) {["host" := AStr (dl_Host d)]}))))))).

Definition applyDiscoveryConfig (d : option DiscoveryDatasource) (cfg : gmap string any)
  : gmap string any :=
  match d with
  | None => cfg
  | Some d =>
      let cfg :=
        setIfPositive "max_rate_pps" (dd_MaxRatePPS d)
          (setIfPositive "max_output_bytes" (dd_MaxOutputBytes d)
            (setIfPositive "dial_timeout_seconds" (dd_DialTimeoutS d)
              (setIfPositive "command_timeout_seconds" (dd_CommandTimeS d)
                (setIfPositive "host_timeout_seconds" (dd_HostTimeoutS d)
                  (setIfPositive "concurrency" (dd_Concurrency d)
                    (setIfPositive "port" (dd_Port d)
                      (setIfTrue "ssh_access" (dd_SSHAccess d)
                        (setIfNotEmpty "known_hosts_file" (dd_KnownHostsFile d)
                          (setIfNotEmpty "pack_dir" (dd_PackDir d)
                            (setIfNotEmpty "pack_public_key" (dd_PackPublicKey d) cfg)))))))))) in
      match dd_LDAP d with
      | Some l => if String.eqb (dl_Host l) "" then cfg else <["ldap" := any_map (ldap_config l)]> cfg
      | None => cfg
      end
  end.

(** The settings every type may have. *)
Definition base_config (ds : LocalDatasource) : gmap string any :=
  setIfNotEmpty "data_integrity" (ld_DataIntegrity ds)
    (setIfNotEmpty "encryption" (ld_Encryption ds)
      (setIfNotEmpty "service_name" (ld_ServiceName ds)
        (setIfTrue "tls_enabled" (ld_TLSEnabled ds)
          (setIfNotEmpty "ssl_mode" (ld_SSLMode ds)
            (setIfNotEmpty "database" (ld_Database ds)
              ((if ld_Port ds =? 0 then id else <["port" := AInt (ld_Port ds)]>)
                (setIfNotEmpty "host" (ld_Host ds)
                  (setIfNotEmpty "base_url" (ld_URL ds) ∅)))))))).

(** auth_type is read from the credentials. *)
Definition with_auth_type (ds : LocalDatasource) (cfg : gmap string any) : gmap string any :=
  match ld_Credentials ds !! "auth_type" with Some v => <["auth_type" := AStr v]> cfg | None => cfg end.

Definition set_hosts (key : string) (l : list string) (cfg : gmap string any) : gmap string any :=
  match l with [] => cfg | _ => <[key := AStrs l]> cfg end.

(** The type's name, its proxy and the configuration; [None] is an unsupported type. *)
Definition local_proxy (ds : LocalDatasource) : option (string * proxy_kind * gmap string any) :=
  let cfg := base_config ds in
  let t := ld_Type ds in
  if bool_decide (t ∈ ["postgresql"; "mysql"; "mssql"; "clickhouse"; "oracle"])
  then Some ("db-proxy", DbProxy t, cfg)
  else if String.eqb t "http" || String.eqb t "prometheus" then
    Some ("http-proxy", HttpProxy,
      setIfPositive "max_response_bytes" (ld_MaxResponseBytes ds)
        (setIfTrue "follow_redirects" (ld_FollowRedirects ds)
          (setIfTrue "tls_skip_verify" (ld_TLSSkipVerify ds)
            (<["datasource_type" := AStr t]> (with_auth_type ds cfg)))))
  else if String.eqb t "ssh" then
    Some ("ssh-proxy", SshProxy, set_hosts "allowed_hosts" (ld_AllowedHosts ds) cfg)
  else if String.eqb t "discovery" then
    Some ("discovery-proxy", DiscoveryProxy,
      applyDiscoveryConfig (ld_Discovery ds) (set_hosts "allowed_cidrs" (ld_AllowedHosts ds) cfg))
  else if String.eqb t "mongodb" then Some ("mongo-proxy", MongoProxy, cfg)
  else if String.eqb t "redis" then Some ("redis-proxy", RedisProxy, cfg)
  else if String.eqb t "kafka" then
    Some ("kafka-proxy", KafkaProxy, setIfNotEmpty "brokers" (ld_Brokers ds) cfg)
  else if String.eqb t "mcp" then
    Some ("mcp-proxy", McpProxy,
      with_auth_type ds
        ((if bool_decide (ld_Env ds = ∅) then id else <["env" := any_map (AStr <$> ld_Env ds)]>)
          (setIfNotEmpty "working_dir" (ld_WorkingDir ds)
            (setIfNotEmpty "args" (ld_Args ds)
              (setIfNotEmpty "command" (ld_Command ds)
                (setIfNotEmpty "transport" (ld_Transport ds)
                  (setIfNotEmpty "url" (ld_URL ds) cfg)))))))
  else None.

(** ** Credentials in files *)

Section files.
Context `{MapOrder}.
Variable ReadFile : string → result string.

Definition file_suffix : string := "_file".

(** One file; [out] is the map being built. *)
Definition resolve_file (out : gmap string string) (fileKey : string) : result (gmap string string) :=
  let target := TrimSuffix fileKey file_suffix in
  _ ← fail_if (negb (String.eqb (cred out target) ""))
        (errorf ("both " +:+ target +:+ " and " +:+ fileKey +:+ " are set; provide one"));
  data ← wrap_err ("reading " +:+ fileKey +:+ ": ") (ReadFile (cred out fileKey));
  _ ← fail_if (String.eqb (TrimSpace data) "")
        (errorf (fileKey +:+ " is empty: " +:+ cred out fileKey));
  Ok (delete fileKey (<[target := TrimRight data (bytes [13; 10])]> out)).

(** The keys in the order in which the map is visited. *)
Definition to_resolve (creds : gmap string string) : list string :=
  List.filter (λ k, HasSuffix k file_suffix && negb (String.eqb (cred creds k) ""))
    (visit 0 (map_to_list creds)).*1.

Fixpoint resolve_files (out : gmap string string) (keys : list string) : result (gmap string string) :=
  match keys with
  | [] => Ok out
  | k :: keys => out ← resolve_file out k; resolve_files out keys
  end.

Definition resolveKeyFiles (creds : gmap string string) : result (gmap string string) :=
  resolve_files creds (to_resolve creds).
End files.

(** ** Registration *)

(** What the rest of the system does while the agent starts. *)
Record start_env := MkStartEnv {
  se_ReadFile : string → result string;
  se_configure : proxy_kind → gmap string any → gmap string string → result proxyref;
  se_sibling : string → proxyref;              (* the SSH proxy created for an ID *)
  se_getSecret : string → string → result (gmap string string);
  se_now : Z;
  se_fetched : Z;
}.

Section app.
Context `{MapOrder, SshLib}.

Definition local_creds (w : start_env) (m : Manager) (ds : LocalDatasource) (credSource : string)
  : result (gmap string string) * Manager :=
  if negb (String.eqb credSource "local") && negb (String.eqb credSource "cloud_push")
  then Resolve (se_getSecret w) m (se_now w) (se_fetched w) credSource (ld_CredentialRef ds)
  else (Ok (ld_Credentials ds), m).

Definition configureDatasource (w : start_env) (signingEnabled : bool) (st : Registry * Manager)
    (ds : LocalDatasource) : Registry * Manager :=
  let '(reg, m) := st in
  match local_proxy ds with
  | None => (reg, m)
  | Some (proxyType, kind, cfg) =>
      let credSource := if String.eqb (ld_CredentialSource ds) "" then "local" else ld_CredentialSource ds in
      let '(creds, m) := local_creds w m ds credSource in
      match (creds ← creds; resolveKeyFiles (se_ReadFile w) creds) with
      | Err _ => (reg, m)
      | Ok creds =>
          match se_configure w kind cfg creds with
          | Err _ => (reg, m)
          | Ok p =>
              let entry := MkEntry ("local:" +:+ ld_Name ds) (ld_Type ds) proxyType (ld_Name ds) credSource "" in
              let reg := (Register reg (ent_ID entry) entry p).1 in
              if String.eqb proxyType "discovery-proxy" && SSHAccessEnabled cfg then
                match SSHAccessSibling entry cfg creds signingEnabled with
                | Err _ => (reg, m)
                | Ok (sibling, _) =>
                    ((Register reg (ent_ID sibling) sibling (se_sibling w (ent_ID entry))).1, m)
                end
              else (reg, m)
          end
      end
  end.

(** The registry and the secrets manager as [newApp] leaves them. *)
Definition start_registry (w : start_env) (signingEnabled : bool) (m : Manager) (l : list LocalDatasource)
  : Registry * Manager :=
  foldl (configureDatasource w signingEnabled) (NewRegistry, m) l.
End app.

(** ** The application *)

(** What [NewClient] keeps for the connection. *)
Record relay_settings := MkRelay {
  rs_relayURL : string;
  rs_accessKey : string;
  rs_accessSecret : string;
  rs_healthPeriod : Z;
}.

Definition NewClient (relayURL accessKey accessSecret : string) (healthCheckIntervalMin : Z) : relay_settings :=
  MkRelay relayURL accessKey accessSecret (health_period healthCheckIntervalMin).

Definition newApp `{Viper, AesGcm, Ed25519, KeyFormats, MapOrder, SshLib} (w : start_env) (d : disk)
    (configPath : string) : result (Handler * relay_settings) :=
  cfg ← Load configPath;
  credStore ← NewCloudPushStore (ac_AccessSecret cfg) d;
  let secretsMgr :=
    NewManager [provider_of (NewAWSSM (ac_AWSRegion cfg));
                provider_of (NewGCPSM (ac_GCPProjectID cfg) (ac_GCPCredentialsFile cfg));
                provider_of (NewAzureKV (ac_AzureVaultURL cfg) (ac_AzureTenantID cfg) (ac_AzureClientID cfg))] in
  verifier ← wrap_err "signing verifier: " (NewVerifier (ac_SigningPublicKey cfg));
  let '(registry, secretsMgr) := start_registry w (Enabled (Some verifier)) secretsMgr (ac_Datasources cfg) in
  Ok (MkHandler registry credStore d secretsMgr (Some verifier),
      NewClient (ac_RelayURL cfg) (ac_AccessKey cfg) (ac_AccessSecret cfg) (ac_HealthCheckIntervalMin cfg)).

(** What the inventory reporter lists. *)
Definition inventory_items `{MapOrder} (reg : Registry) : list DatasourceInventoryItem :=
  map (λ '(id, e), MkItem id (ent_Type e) (ent_ProxyType e) (ent_Name e)) (visit 1 (map_to_list (configs reg))).
