(* ===== verification/AppFacts.v ===== *)
(** * What the configuration file makes of its datasources

    The settings a discovery datasource's proxy decodes, the credentials read from
    files, and the datasources that are registered. *)

From S2P Require Import Prelude GoStrings GoJson GoAny GoBase64 GoDecode GoTime Signing SigningTheorems Registry Ssh Secrets Providers SshAccess Ldap Discovery DiscoveryWitness Handler HandlerFacts Client App.
#[local] Open Scope Z_scope.

(** ** Settings *)

Lemma lookup_setIfNotEmpty key v m k :
  setIfNotEmpty key v m !! k = if String.eqb key k && negb (String.eqb v "") then Some (AStr v) else m !! k.
Proof.
  unfold setIfNotEmpty. destruct (String.eqb v "") eqn:E; [by rewrite andb_false_r|]. rewrite andb_true_r.
  destruct (String.eqb_spec key k) as [-> |]; [by rewrite lookup_insert_eq|by rewrite lookup_insert_ne].
Qed.

Lemma lookup_setIfPositive key v m k :
  setIfPositive key v m !! k = if String.eqb key k && (0 <? v) then Some (AInt v) else m !! k.
Proof.
  unfold setIfPositive. destruct (0 <? v) eqn:E; [|by rewrite andb_false_r]. rewrite andb_true_r.
  destruct (String.eqb_spec key k) as [-> |]; [by rewrite lookup_insert_eq|by rewrite lookup_insert_ne].
Qed.

Lemma lookup_setIfTrue key v m k :
  setIfTrue key v m !! k = if String.eqb key k && v then Some (ABool true) else m !! k.
Proof.
  unfold setIfTrue. destruct v; [|by rewrite andb_false_r]. rewrite andb_true_r.
  destruct (String.eqb_spec key k) as [-> |]; [by rewrite lookup_insert_eq|by rewrite lookup_insert_ne].
Qed.

Lemma lookup_set_hosts key l m k :
  set_hosts key l m !! k =
  if String.eqb key k && negb (bool_decide (l = [])) then Some (AStrs l) else m !! k.
Proof.
  destruct l as [|h l]; simpl; [by rewrite andb_false_r|]. rewrite andb_true_r.
  destruct (String.eqb_spec key k) as [-> |]; [by rewrite lookup_insert_eq|by rewrite lookup_insert_ne].
Qed.

Lemma lookup_insert_eqb (key : string) (v : any) (m : gmap string any) k :
  (<[key := v]> m) !! k = if String.eqb key k then Some v else m !! k.
Proof.
  destruct (String.eqb_spec key k) as [-> |]; [by rewrite lookup_insert_eq|by rewrite lookup_insert_ne].
Qed.

Lemma lookup_singleton_eqb (key : string) (v : any) k :
  ({[key := v]} : gmap string any) !! k = if String.eqb key k then Some v else None.
Proof.
  destruct (String.eqb_spec key k) as [-> |]; [by rewrite lookup_singleton_eq|by rewrite lookup_singleton_ne].
Qed.

Lemma lookup_port key z (m : gmap string any) k :
  ((if z =? 0 then id else <[key := AInt z]>) m) !! k
  = if String.eqb key k && negb (z =? 0) then Some (AInt z) else m !! k.
Proof. destruct (z =? 0); [by rewrite andb_false_r|]. rewrite andb_true_r. apply lookup_insert_eqb. Qed.

(** Compare literal keys. *)
Ltac eval_eqb :=
  repeat match goal with
  | |- context [String.eqb ?a ?b] =>
      let r := eval vm_compute in (String.eqb a b) in
      first [constr_eq r true | constr_eq r false]; change (String.eqb a b) with r
  end; cbn [andb negb]; cbv iota.

Ltac eval_lookup :=
  repeat (rewrite ?lookup_setIfNotEmpty, ?lookup_setIfPositive, ?lookup_setIfTrue, ?lookup_set_hosts,
            ?lookup_port, ?lookup_singleton_eqb, ?lookup_empty;
          eval_eqb).

(** *** Every value has its field's type *)

Section typed.
Context {A : Type} (field : A → string → json → A * bool) (keys : list string).

Definition typed (m : gmap string any) : Prop := map_Forall (λ k v, k ∈ keys ∧ fits field k v) m.

Lemma typed_insert k v m : k ∈ keys → fits field k v → typed m → typed (<[k := v]> m).
Proof. intros. by apply map_Forall_insert_2. Qed.

Lemma typed_setIfNotEmpty k v m :
  k ∈ keys → (∀ s, fits field k (AStr s)) → typed m → typed (setIfNotEmpty k v m).
Proof. intros. unfold setIfNotEmpty. destruct (String.eqb v ""); [done|]. by apply typed_insert. Qed.

Lemma typed_setIfPositive k v m :
  k ∈ keys → fits field k (AInt v) → typed m → typed (setIfPositive k v m).
Proof. intros. unfold setIfPositive. destruct (0 <? v); [|done]. by apply typed_insert. Qed.

Lemma typed_setIfTrue k v m :
  k ∈ keys → fits field k (ABool true) → typed m → typed (setIfTrue k v m).
Proof. intros. unfold setIfTrue. destruct v; [|done]. by apply typed_insert. Qed.

Lemma typed_set_hosts k l m :
  k ∈ keys → fits field k (AStrs l) → typed m → typed (set_hosts k l m).
Proof. intros. destruct l; [done|]. by apply typed_insert. Qed.
End typed.

Definition ldap_keys : list string :=
  ["host"; "port"; "timeout_seconds"; "max_results"; "base_dn"; "page_size"; "tls"; "start_tls";
   "insecure_skip_verify"].

Definition discovery_keys : list string :=
  ["base_url"; "host"; "port"; "database"; "ssl_mode"; "tls_enabled"; "service_name"; "encryption";
   "data_integrity"; "allowed_cidrs"; "pack_public_key"; "pack_dir"; "known_hosts_file"; "ssh_access";
   "concurrency"; "host_timeout_seconds"; "command_timeout_seconds"; "dial_timeout_seconds";
   "max_output_bytes"; "max_rate_pps"; "ldap"].

(** The integers of a datasource are Go's: 64 bits, and 32 for the page size. *)
Definition machine_ldap (l : DiscoveryLDAP) : Prop :=
  in_int64 (dl_Port l) ∧ in_int64 (dl_TimeoutS l) ∧ in_int64 (dl_MaxResults l)
  ∧ 0 ≤ dl_PageSize l ≤ 4294967295.

Definition machine_discovery (d : DiscoveryDatasource) : Prop :=
  in_int64 (dd_Port d) ∧ in_int64 (dd_Concurrency d) ∧ in_int64 (dd_HostTimeoutS d)
  ∧ in_int64 (dd_CommandTimeS d) ∧ in_int64 (dd_DialTimeoutS d) ∧ in_int64 (dd_MaxOutputBytes d)
  ∧ in_int64 (dd_MaxRatePPS d) ∧ match dd_LDAP d with Some l => machine_ldap l | None => True end.

Lemma dec_int_Itoa old z : in_int64 z → dec_int old (JNum (Itoa z)) = (z, true).
Proof. intros. simpl. by rewrite int_literal_Itoa. Qed.

Lemma dec_uint32_Itoa old z : 0 ≤ z ≤ 4294967295 → dec_uint32 old (JNum (Itoa z)) = (z, true).
Proof.
  intros Hz. unfold dec_uint32. rewrite dec_int_Itoa by (unfold in_int64, minInt64, maxInt64; lia).
  unfold in_range. by rewrite (proj2 (Z.leb_le 0 z)), (proj2 (Z.leb_le z _)) by lia.
Qed.

Lemma dec_string_list_strs old l : dec_string_list old (JArr (map JStr l)) = (l, true).
Proof.
  unfold dec_string_list. rewrite map_map. simpl. rewrite map_id. f_equal.
  induction l; simpl; auto.
Qed.

Create HintDb decode.
#[export] Hint Rewrite dec_int_Itoa dec_uint32_Itoa using (assumption || lia) : decode.
#[export] Hint Rewrite dec_string_list_strs : decode.

(** A literal key with a value of its field's type. *)
Ltac solve_fits :=
  lazymatch goal with
  | |- _ ∈ _ => apply list_elem_of_In; unfold ldap_keys, discovery_keys; repeat (first [left; reflexivity | right])
  | |- ∀ _, _ => intros; solve_fits
  | |- fits ldapConfig_field _ _ =>
      eexists; split; [reflexivity|]; intros [];
      unfold ldapConfig_field; eval_keys; autorewrite with decode; reflexivity
  | |- fits Config_field _ _ =>
      eexists; split; [reflexivity|]; intros [];
      unfold Config_field; eval_keys; autorewrite with decode; reflexivity
  end.

Ltac solve_typed :=
  repeat first [apply typed_setIfNotEmpty | apply typed_setIfPositive | apply typed_setIfTrue
               | apply typed_set_hosts]; try solve_fits.

Lemma ldap_typed l : machine_ldap l → typed ldapConfig_field ldap_keys (ldap_config l).
Proof.
  intros (? & ? & ? & ?). unfold ldap_config. solve_typed.
  apply map_Forall_singleton. split; solve_fits.
Qed.

Lemma typed_keys {A} (field : A → string → json → A * bool) keys m k v :
  typed field keys m → m !! k = Some v → k ∈ keys.
Proof. intros Hm Hk. by apply Hm in Hk as [? _]. Qed.

Lemma typed_fits {A} (field : A → string → json → A * bool) keys m :
  typed field keys m → ∀ k v, m !! k = Some v → fits field k v.
Proof. intros Hm k v Hk. by apply Hm in Hk as [_ ?]. Qed.

(** One field of the decoded structure: what the map holds under its key. *)
Ltac solve_frame :=
  intros [] ? ? ?; unfold Config_field, ldapConfig_field;
  repeat match goal with
  | H : key_is ?a ?b = false |- context [key_is ?a ?b] => rewrite H
  | |- context [if key_is ?a ?b then _ else _] => destruct (key_is a b)
  end; repeat case_match; reflexivity.

Ltac solve_field keys :=
  eapply (lands_key _ keys); [intros ? ?; eapply typed_keys; eassumption|vm_compute; reflexivity|solve_frame|].

Ltac solve_value :=
  eval_lookup;
  repeat match goal with
  | |- context [String.eqb ?s ""] => destruct (String.eqb_spec s ""); cbn [andb negb]; cbv iota
  | |- context [0 <? ?z] => destruct (Z.ltb_spec 0 z); cbn [andb negb]; cbv iota
  | |- context [?z =? 0] => destruct (Z.eqb_spec z 0); cbn [andb negb]; cbv iota
  | |- context [bool_decide (?l = [])] => destruct (bool_decide_reflect (l = [])); cbn [andb negb]; cbv iota
  | |- context [if ?b then Some _ else _] => destruct b
  end;
  first [symmetry; assumption | reflexivity | cbn; lia
        | eexists; split; [reflexivity|]; intros [] ?;
          unfold Config_field, ldapConfig_field; eval_keys; autorewrite with decode; simpl; lia || reflexivity].

(** The directory settings a proxy reads from a datasource's block. *)
Definition ldap_settings (l : DiscoveryLDAP) : ldapConfig :=
  MkLdapConfig (dl_Host l) (Z.max 0 (dl_Port l)) (dl_TLS l) (dl_StartTLS l) (dl_SkipVer l) (dl_BaseDN l)
    (Z.max 0 (dl_TimeoutS l)) (dl_PageSize l) "" "" (Z.max 0 (dl_MaxResults l)).

Lemma ldap_decodes l :
  machine_ldap l →
  ∃ j, marshal_any_map (ldap_config l) = Some j
    ∧ dec_struct ldapConfig_field zero_ldap j = (ldap_settings l, true).
Proof.
  intros Hl. pose proof (ldap_typed l Hl) as Ht.
  destruct (decode_fits _ (ldap_config l) zero_ldap (typed_fits _ _ _ Ht)) as (j & a & Hj & Hd & Hv).
  exists j. split; [done|]. rewrite Hd. f_equal. destruct Hl as (? & ? & ? & ?).
  assert (LdapHost a = dl_Host l) by (apply (Hv _ _ "host"); solve_field ldap_keys; unfold ldap_config; solve_value).
  assert (LdapPort a = Z.max 0 (dl_Port l)) by (apply (Hv _ _ "port"); solve_field ldap_keys; unfold ldap_config; solve_value).
  assert (TLS a = dl_TLS l) by (apply (Hv _ _ "tls"); solve_field ldap_keys; unfold ldap_config; solve_value).
  assert (StartTLS a = dl_StartTLS l) by (apply (Hv _ _ "start_tls"); solve_field ldap_keys; unfold ldap_config; solve_value).
  assert (SkipVer a = dl_SkipVer l) by (apply (Hv _ _ "insecure_skip_verify"); solve_field ldap_keys; unfold ldap_config; solve_value).
  assert (BaseDN a = dl_BaseDN l) by (apply (Hv _ _ "base_dn"); solve_field ldap_keys; unfold ldap_config; solve_value).
  assert (TimeoutS a = Z.max 0 (dl_TimeoutS l)) by (apply (Hv _ _ "timeout_seconds"); solve_field ldap_keys; unfold ldap_config; solve_value).
  assert (PageSize a = dl_PageSize l) by (apply (Hv _ _ "page_size"); solve_field ldap_keys; unfold ldap_config; solve_value).
  assert (MaxResult a = Z.max 0 (dl_MaxResults l)) by (apply (Hv _ _ "max_results"); solve_field ldap_keys; unfold ldap_config; solve_value).
  assert (BindDN a = "") by (apply (Hv _ _ "bind_dn"); solve_field ldap_keys; unfold ldap_config; solve_value).
  assert (BindPass a = "") by (apply (Hv _ _ "bind_password"); solve_field ldap_keys; unfold ldap_config; solve_value).
  destruct a. unfold ldap_settings. simpl in *. congruence.
Qed.

(** The settings a discovery proxy reads from a datasource's block. *)
Definition discovery_settings (ds : LocalDatasource) (d : DiscoveryDatasource) : Discovery.Config :=
  Discovery.MkConfig
    (if 0 <? dd_Port d then dd_Port d else ld_Port ds)
    (Z.max 0 (dd_Concurrency d)) (Z.max 0 (dd_HostTimeoutS d)) (Z.max 0 (dd_CommandTimeS d))
    (Z.max 0 (dd_DialTimeoutS d)) (Z.max 0 (dd_MaxOutputBytes d))
    (ld_AllowedHosts ds) (dd_PackPublicKey d) (dd_PackDir d) (Z.max 0 (dd_MaxRatePPS d))
    match dd_LDAP d with
    | Some l => if String.eqb (dl_Host l) "" then zero_ldap else ldap_settings l
    | None => zero_ldap
    end
    (dd_KnownHostsFile d).

(** The configuration [configureDatasource] builds for the type. *)
Definition discovery_config (ds : LocalDatasource) : gmap string any :=
  applyDiscoveryConfig (ld_Discovery ds) (set_hosts "allowed_cidrs" (ld_AllowedHosts ds) (base_config ds)).

Lemma typed_ldap_member d cfg :
  match dd_LDAP d with Some l => machine_ldap l | None => True end →
  typed Discovery.Config_field discovery_keys cfg →
  typed Discovery.Config_field discovery_keys
    match dd_LDAP d with
    | Some l => if String.eqb (dl_Host l) "" then cfg else <["ldap" := any_map (ldap_config l)]> cfg
    | None => cfg
    end.
Proof.
  destruct (dd_LDAP d) as [l|]; [|done]. intros Hl Hc. destruct (String.eqb (dl_Host l) ""); [done|].
  apply typed_insert; [solve_fits| |done].
  destruct (ldap_decodes l Hl) as (j & Hj & _). exists j. split; [done|]. intros a.
  destruct (decode_fits _ (ldap_config l) (Discovery.LDAP a) (typed_fits _ _ _ (ldap_typed l Hl)))
    as (j' & x & Hj' & Hd & _). rewrite Hj in Hj'. injection Hj' as <-.
  destruct a. unfold Discovery.Config_field. eval_keys. cbn in Hd. by rewrite Hd.
Qed.

Lemma discovery_typed ds d :
  ld_Discovery ds = Some d → in_int64 (ld_Port ds) → machine_discovery d →
  typed Discovery.Config_field discovery_keys (discovery_config ds).
Proof.
  intros Hd Hp (? & ? & ? & ? & ? & ? & ? & Hl). unfold discovery_config, applyDiscoveryConfig. rewrite Hd.
  apply typed_ldap_member; [done|]. unfold base_config. solve_typed.
  destruct (ld_Port ds =? 0); [|apply typed_insert; try solve_fits]; solve_typed; apply map_Forall_empty.
Qed.

Lemma lookup_ldap_member d (cfg : gmap string any) k :
  match dd_LDAP d with
  | Some l => if String.eqb (dl_Host l) "" then cfg else <["ldap" := any_map (ldap_config l)]> cfg
  | None => cfg
  end !! k =
  if String.eqb "ldap" k && match dd_LDAP d with Some l => negb (String.eqb (dl_Host l) "") | None => false end
  then match dd_LDAP d with Some l => Some (any_map (ldap_config l)) | None => None end
  else cfg !! k.
Proof.
  destruct (dd_LDAP d) as [l|]; [|by rewrite andb_false_r].
  destruct (String.eqb (dl_Host l) ""); [by rewrite andb_false_r|]. rewrite andb_true_r.
  apply lookup_insert_eqb.
Qed.

(** One field of the discovery settings. *)
Ltac solve_setting k Hv Hd :=
  apply (Hv _ _ k); solve_field discovery_keys;
  unfold discovery_config, applyDiscoveryConfig, base_config; rewrite Hd, lookup_ldap_member; solve_value.

Lemma discovery_ldap ds d a :
  ld_Discovery ds = Some d → typed Discovery.Config_field discovery_keys (discovery_config ds) →
  match dd_LDAP d with Some l => machine_ldap l | None => True end →
  (∀ (B : Type) (π : Discovery.Config → B) k0 x,
     lands Discovery.Config_field (discovery_config ds) Discovery.zero_config π k0 x → π a = x) →
  Discovery.LDAP a = Discovery.LDAP (discovery_settings ds d).
Proof.
  intros Hd Hty Hl Hv. apply (Hv _ _ "ldap"). solve_field discovery_keys.
  unfold discovery_config, applyDiscoveryConfig, base_config. rewrite Hd, lookup_ldap_member.
  unfold discovery_settings. cbn [Discovery.LDAP]. destruct (dd_LDAP d) as [l|]; eval_lookup; [|done].
  destruct (String.eqb (dl_Host l) ""); cbn [negb]; cbv iota; [done|].
  destruct (ldap_decodes l Hl) as (j & Hj & Hdec). exists j. split; [done|].
  intros []. cbn. intros ->. unfold Discovery.Config_field. eval_keys. by rewrite Hdec.
Qed.

Lemma discovery_decodes ds d :
  ld_Discovery ds = Some d → in_int64 (ld_Port ds) → machine_discovery d →
  ∃ j, marshal_any_map (discovery_config ds) = Some j
    ∧ dec_struct Discovery.Config_field Discovery.zero_config j = (discovery_settings ds d, true).
Proof.
  intros Hd Hp Hm. pose proof (discovery_typed ds d Hd Hp Hm) as Hty.
  destruct (decode_fits _ _ Discovery.zero_config (typed_fits _ _ _ Hty)) as (j & a & Hj & Hdec & Hv).
  exists j. split; [done|]. rewrite Hdec. f_equal. destruct Hm as (? & ? & ? & ? & ? & ? & ? & Hl).
  pose proof (discovery_ldap ds d a Hd Hty Hl Hv).
  assert (Discovery.Port a = if 0 <? dd_Port d then dd_Port d else ld_Port ds) by solve_setting "port" Hv Hd.
  assert (Discovery.Concurrency a = Z.max 0 (dd_Concurrency d)) by solve_setting "concurrency" Hv Hd.
  assert (Discovery.HostTimeoutS a = Z.max 0 (dd_HostTimeoutS d)) by solve_setting "host_timeout_seconds" Hv Hd.
  assert (Discovery.CommandTimeS a = Z.max 0 (dd_CommandTimeS d)) by solve_setting "command_timeout_seconds" Hv Hd.
  assert (Discovery.DialTimeoutS a = Z.max 0 (dd_DialTimeoutS d)) by solve_setting "dial_timeout_seconds" Hv Hd.
  assert (Discovery.MaxOutputBytes a = Z.max 0 (dd_MaxOutputBytes d)) by solve_setting "max_output_bytes" Hv Hd.
  assert (Discovery.AllowedCIDRs a = ld_AllowedHosts ds) by solve_setting "allowed_cidrs" Hv Hd.
  assert (Discovery.PackPublicKey a = dd_PackPublicKey d) by solve_setting "pack_public_key" Hv Hd.
  assert (Discovery.PackDir a = dd_PackDir d) by solve_setting "pack_dir" Hv Hd.
  assert (Discovery.MaxRatePPS a = Z.max 0 (dd_MaxRatePPS d)) by solve_setting "max_rate_pps" Hv Hd.
  assert (Discovery.KnownHostsFilePath a = dd_KnownHostsFile d) by solve_setting "known_hosts_file" Hv Hd.
  destruct a. unfold discovery_settings. simpl in *. congruence.
Qed.

(** C21. A discovery block of the configuration file is well typed for the proxy: the
    settings [configureDatasource] derives from it always decode without a type error,
    and into exactly the scope, pack key, known-hosts file, limits and directory of the
    block; what the block leaves at zero is left for the proxy's defaults. *)
Theorem local_discovery_typed ds d :
  ld_Type ds = "discovery" → ld_Discovery ds = Some d →
  in_int64 (ld_Port ds) → machine_discovery d →
  ∃ cfg j, local_proxy ds = Some ("discovery-proxy", DiscoveryProxy, cfg)
    ∧ marshal_any_map cfg = Some j
    ∧ dec_struct Discovery.Config_field Discovery.zero_config j = (discovery_settings ds d, true).
Proof.
  intros Ht Hd Hp Hm. destruct (discovery_decodes ds d Hd Hp Hm) as (j & Hj & Hdec).
  exists (discovery_config ds), j. split; [|done]. unfold local_proxy. by rewrite Ht.
Qed.

Definition demo_block : DiscoveryDatasource :=
  MkDiscoveryDatasource "key" "" "/etc/known_hosts" true 2222 0 0 (-5) 0 0 100
    (Some (MkDiscoveryLDAP "dc1" 636 true false false "" 0 500 0)).

Definition demo_local : LocalDatasource :=
  MkLocal "discovery" "lan" "" "" 0 "" "" "" false "" "" "" "" "" ∅ false false 0
    ["10.0.0.0/8"] (Some demo_block) "" "" "" ∅ "".

Lemma local_discovery_typed_witness :
  ∃ cfg j, local_proxy demo_local = Some ("discovery-proxy", DiscoveryProxy, cfg)
    ∧ marshal_any_map cfg = Some j
    ∧ dec_struct Discovery.Config_field Discovery.zero_config j
      = (Discovery.MkConfig 2222 0 0 0 0 0 ["10.0.0.0/8"] "key" "" 100
           (MkLdapConfig "dc1" 636 true false false "" 0 500 "" "" 0) "/etc/known_hosts", true).
Proof.
  apply (local_discovery_typed demo_local demo_block); try reflexivity.
  - unfold in_int64, minInt64, maxInt64. cbn. lia.
  - unfold machine_discovery, machine_ldap, in_int64, minInt64, maxInt64. cbn. lia.
Defined.

(** ** Credentials in files *)

Lemma HasSuffix_split k p : HasSuffix k p = true → k = TrimSuffix k p +:+ p.
Proof.
  unfold HasSuffix, TrimSuffix. destruct (cut_last k p) as [[a b]|] eqn:E; [|done].
  apply cut_last_Some in E. destruct b; [|done]. intros _. by rewrite app_nil_r in E.
Qed.

Lemma app_inj_l (s t u : string) : s +:+ u = t +:+ u → s = t.
Proof.
  revert t. induction s as [|c s IH]; intros [|d t] Heq.
  - done.
  - apply (f_equal String.length) in Heq. rewrite !length_app_str in Heq. simpl in Heq. lia.
  - apply (f_equal String.length) in Heq. rewrite !length_app_str in Heq. simpl in Heq. lia.
  - rewrite !app_cons in Heq. injection Heq as -> Heq. f_equal. by apply IH.
Qed.

Section key_files.
Context `{MapOrder} (ReadFile : string → result string) (creds : gmap string string).

(** An entry that names a file. *)
Definition names_file (k : string) : bool :=
  HasSuffix k file_suffix && negb (String.eqb (cred creds k) "").

(** What the file of an entry gives: unreadable and blank files give nothing. *)
Definition file_credential (k : string) : option string :=
  match ReadFile (cred creds k) with
  | Ok data => if String.eqb (TrimSpace data) "" then None else Some (TrimRight data (bytes [13; 10]))
  | Err _ => None
  end.

(** The reference result after the entries in [ks] have been read. *)
Definition after_files (ks : list string) (k : string) : option string :=
  if bool_decide (k ∈ ks) then None
  else if bool_decide ((k +:+ file_suffix) ∈ ks) then file_credential (k +:+ file_suffix)
  else creds !! k.

(** No entry that names a file has its credential set as well. *)
Definition apart : Prop := ∀ k, names_file k = true → cred creds (TrimSuffix k file_suffix) = "".

Lemma resolve_file_step out ks k :
  apart → Forall (λ k, names_file k = true) ks → names_file k = true → k ∉ ks →
  (∀ i, out !! i = after_files ks i) →
  match resolve_file ReadFile out k with
  | Ok out' => is_Some (file_credential k) ∧ ∀ i, out' !! i = after_files (ks ++ [k]) i
  | Err _ => file_credential k = None
  end.
Proof.
  intros Hap Hks Hk Hnot Hout. set (t := TrimSuffix k file_suffix).
  pose proof (Hk) as [Hsuf Hne]%andb_true_iff. apply negb_true_iff, String.eqb_neq in Hne.
  assert (k = t +:+ file_suffix) as Ek by by apply HasSuffix_split.
  assert (∀ i, cred creds i = "" → i ∉ ks) as Hempty.
  { intros i Hi Hin. rewrite Forall_forall in Hks. specialize (Hks _ Hin).
    apply andb_true_iff in Hks as [_ Hi']. rewrite Hi in Hi'. done. }
  assert (cred creds t = "") as Ht by (by apply Hap).
  assert (cred out t = "") as Hot.
  { unfold cred in *. rewrite Hout. unfold after_files. rewrite bool_decide_eq_false_2 by by apply Hempty.
    rewrite bool_decide_eq_false_2 by by rewrite <- Ek. done. }
  assert (cred out k = cred creds k) as Hok.
  { unfold cred. rewrite Hout. unfold after_files. rewrite bool_decide_eq_false_2 by done.
    rewrite bool_decide_eq_false_2; [done|]. intros Hin. apply Hne.
    rewrite Forall_forall in Hks. specialize (Hap _ (Hks _ Hin)).
    rewrite <- (app_inj_l _ _ _ (HasSuffix_split _ file_suffix (proj1 (proj1 (andb_true_iff _ _) (Hks _ Hin))))) in Hap.
    done. }
  unfold resolve_file. fold t. rewrite Hot, Hok. cbn [String.eqb negb fail_if].
  unfold file_credential. simpl. destruct (ReadFile (cred creds k)) as [data|e] eqn:Er; [|done]. simpl.
  destruct (String.eqb (TrimSpace data) "") eqn:Eb; [done|]. simpl. split; [by eexists|].
  intros i. destruct (decide (i = k)) as [-> |Hik].
  { rewrite lookup_delete_eq. unfold after_files. rewrite bool_decide_eq_true_2 by set_solver. done. }
  rewrite lookup_delete_ne by done. destruct (decide (i = t)) as [-> |Hit].
  - rewrite lookup_insert_eq. unfold after_files, file_credential. rewrite <- Ek.
    rewrite bool_decide_eq_false_2, bool_decide_eq_true_2 by set_solver.
    by rewrite Er, Eb.
  - rewrite lookup_insert_ne, Hout by done. unfold after_files.
    assert (i +:+ file_suffix ≠ k) by (rewrite Ek; by intros ?%app_inj_l).
    rewrite (bool_decide_ext (i ∈ ks ++ [k]) (i ∈ ks)) by set_solver.
    by rewrite (bool_decide_ext (i +:+ file_suffix ∈ ks ++ [k]) (i +:+ file_suffix ∈ ks)) by set_solver.
Qed.

Lemma resolve_files_spec keys out ks :
  apart → Forall (λ k, names_file k = true) (ks ++ keys) → NoDup (ks ++ keys) →
  (∀ i, out !! i = after_files ks i) →
  match resolve_files ReadFile out keys with
  | Ok out' => Forall (λ k, is_Some (file_credential k)) keys ∧ ∀ i, out' !! i = after_files (ks ++ keys) i
  | Err _ => Exists (λ k, file_credential k = None) keys
  end.
Proof.
  intros Hap. revert out ks. induction keys as [|k keys IH]; intros out ks Hall Hnd Hout.
  { simpl. by rewrite List.app_nil_r. }
  pose proof (resolve_file_step out ks k Hap) as Hstep.
  rewrite Forall_app, Forall_cons in Hall. destruct Hall as (Hks & Hk & Hkeys).
  assert (k ∉ ks) as Hnot by (apply NoDup_app in Hnd; set_solver).
  specialize (Hstep Hks Hk Hnot Hout). simpl.
  destruct (resolve_file ReadFile out k) as [out'|e]; simpl; [|by left].
  destruct Hstep as [Hs Hout'].
  specialize (IH out' (ks ++ [k])). rewrite <- List.app_assoc in IH. simpl in IH.
  specialize (IH ltac:(by rewrite Forall_app, Forall_cons) Hnd Hout').
  destruct (resolve_files ReadFile out' keys); [|by right].
  destruct IH as [? ?]. split; [by constructor|done].
Qed.

Lemma elem_of_to_resolve k : k ∈ to_resolve creds ↔ names_file k = true.
Proof.
  unfold to_resolve, names_file. rewrite list_elem_of_In, List.filter_In, <- list_elem_of_In.
  rewrite visit_perm. split; [by intros [_ ?]|]. intros Hk. split; [|done].
  apply andb_true_iff in Hk as [_ Hk]. unfold cred in Hk.
  destruct (creds !! k) as [v|] eqn:E; [|done]. apply list_elem_of_fmap.
  exists (k, v). by rewrite elem_of_map_to_list.
Qed.

Lemma to_resolve_decide k : bool_decide (k ∈ to_resolve creds) = names_file k.
Proof.
  destruct (names_file k) eqn:E.
  - by apply bool_decide_eq_true_2, elem_of_to_resolve.
  - apply bool_decide_eq_false_2. rewrite elem_of_to_resolve. congruence.
Qed.

(** A credential that is set inline stays set until its file entry is reached. *)
Lemma resolve_files_inline keys out k :
  k ∈ keys → Forall (λ k, names_file k = true) keys →
  cred out (TrimSuffix k file_suffix) ≠ "" → TrimSuffix k file_suffix ∉ keys →
  ∃ e, resolve_files ReadFile out keys = Err e.
Proof.
  revert out. induction keys as [|k' keys IH]; intros out Hin Hall Hset Hnot; [set_solver|].
  apply Forall_cons in Hall as [Hk' Hall]. simpl.
  destruct (resolve_file ReadFile out k') as [out'|e] eqn:E; [|by eexists]. simpl.
  unfold resolve_file in E. apply bind_Ok in E as (u & Hu & E). apply fail_if_Ok in Hu.
  apply negb_false_iff, String.eqb_eq in Hu.
  apply bind_Ok in E as (data & _ & E). apply bind_Ok in E as (u' & _ & E). injection E as <-.
  assert (k ≠ k') as Hne by (intros ->; done).
  apply IH; [set_solver|done| |set_solver].
  unfold cred in *. rewrite lookup_delete_ne by set_solver. rewrite lookup_insert_ne; [done|].
  intros Heq. rewrite Heq in Hu. done.
Qed.

Lemma to_resolve_NoDup : NoDup (to_resolve creds).
Proof.
  unfold to_resolve. apply NoDup_ListNoDup, List.NoDup_filter, NoDup_ListNoDup.
  rewrite visit_perm. apply NoDup_fst_map_to_list.
Qed.
End key_files.

(** C20. The `*_file` credentials are read exactly: if no credential is also set inline,
    then in whatever order the map is visited the result has each credential from its
    file with only trailing line breaks removed, has no file entry left, and is otherwise
    unchanged; the only errors are files that cannot be read or are blank. A credential
    that is set both inline and by file is an error in every order. *)
Theorem resolveKeyFiles_exact `{MapOrder} ReadFile creds :
  (apart creds →
   match resolveKeyFiles ReadFile creds with
   | Ok out =>
       (∀ k, names_file creds k = true → is_Some (file_credential ReadFile creds k))
       ∧ ∀ k, out !! k =
           if names_file creds k then None
           else if names_file creds (k +:+ "_file") then file_credential ReadFile creds (k +:+ "_file")
           else creds !! k
   | Err _ => ∃ k, names_file creds k = true ∧ file_credential ReadFile creds k = None
   end)
  ∧ ∀ k, names_file creds k = true →
      cred creds (TrimSuffix k "_file") ≠ "" → names_file creds (TrimSuffix k "_file") = false →
      ∃ e, resolveKeyFiles ReadFile creds = Err e.
Proof.
  assert (Forall (λ k, names_file creds k = true) (to_resolve creds)) as Hall.
  { apply Forall_forall. intros k. by rewrite elem_of_to_resolve. }
  split.
  - intros Hap. unfold resolveKeyFiles.
    pose proof (resolve_files_spec ReadFile creds (to_resolve creds) creds [] Hap Hall (to_resolve_NoDup creds)) as Hs.
    specialize (Hs ltac:(intros; unfold after_files; by rewrite !bool_decide_eq_false_2 by set_solver)).
    destruct (resolve_files _ _ _) as [out|e].
    + destruct Hs as [Hs Hout]. rewrite Forall_forall in Hs. split.
      { intros k Hk. by apply Hs, elem_of_to_resolve. }
      intros k. rewrite Hout. unfold after_files. simpl.
      by rewrite !to_resolve_decide.
    + apply Exists_exists in Hs as (k & Hk & Hn). exists k. by rewrite <- elem_of_to_resolve.
  - intros k Hk Hset Hnot. apply (resolve_files_inline ReadFile creds _ _ k); try done.
    + by apply elem_of_to_resolve.
    + intros Hin%elem_of_to_resolve. unfold file_suffix in Hin. congruence.
Qed.

Definition demo_files (path : string) : result string :=
  if String.eqb path "/run/key" then Ok ("secret " +:+ bytes [13; 10]) else Err (errorf "no such file").

Definition demo_creds : gmap string string :=
  <["username" := "ops"]> (<["password_file" := "/run/key"]> ∅).

#[local, program] Instance in_key_order : MapOrder := {| visit _ _ l := l |}.
Next Obligation. done. Qed.
#[local, program] Instance reversed : MapOrder := {| visit _ _ l := rev l |}.
Next Obligation. intros. symmetry. apply Permutation_rev. Qed.

Example demo_resolved :
  resolveKeyFiles (H := in_key_order) demo_files demo_creds = Ok (<["username" := "ops"]> (<["password" := "secret "]> ∅)).
Proof. vm_compute. reflexivity. Qed.

Lemma demo_names k : names_file demo_creds k = true → k = "password_file".
Proof.
  unfold names_file, cred, demo_creds. intros [Hs Hne]%andb_true_iff.
  destruct (decide (k = "username")) as [-> |]; [by vm_compute in Hs|].
  rewrite lookup_insert_ne in Hne by done. destruct (decide (k = "password_file")); [done|].
  by rewrite lookup_insert_ne, lookup_empty in Hne by done.
Qed.

Lemma resolveKeyFiles_exact_witness :
  apart demo_creds
  ∧ match resolveKeyFiles (H := reversed) demo_files demo_creds with
    | Ok out => out !! "password" = Some "secret " ∧ out !! "password_file" = None
    | Err _ => False
    end.
Proof.
  assert (apart demo_creds) as Hap by (intros k ->%demo_names; by vm_compute).
  split; [done|]. pose proof (proj1 (resolveKeyFiles_exact (H := reversed) demo_files demo_creds) Hap) as Hr.
  destruct (resolveKeyFiles _ _) as [out|e].
  - destruct Hr as [_ Hr]. rewrite !Hr. by vm_compute.
  - destruct Hr as (k & ->%demo_names & Hk). by vm_compute in Hk.
Defined.

(** With a file entry whose credential is itself a file entry, the order decides
    between a result and an error. *)
Definition nested_creds : gmap string string :=
  <["token_file" := "/run/key"]> (<["token_file_file" := "/run/key"]> ∅).

Example nested_files_order :
  is_ok (resolveKeyFiles (H := in_key_order) demo_files nested_creds)
  ≠ is_ok (resolveKeyFiles (H := reversed) demo_files nested_creds).
Proof. vm_compute. discriminate. Qed.

(** ** Registration *)

Section registration.
Context `{MapOrder, SshLib} (w : start_env) (signingEnabled : bool).

(** The block of a datasource whose SSH sibling may come up. *)
Definition shell_allowed (ds : LocalDatasource) : Prop :=
  signingEnabled = true ∧ ld_Type ds = "discovery" ∧ (∃ h, h ∈ ld_AllowedHosts ds ∧ h ≠ "")
  ∧ ∃ d, ld_Discovery ds = Some d ∧ dd_SSHAccess d = true ∧ dd_KnownHostsFile d ≠ "".

(** What one datasource may register. *)
Definition registers (ds : LocalDatasource) (id : string) (e : DatasourceEntry) : Prop :=
  ent_ID e = id
  ∧ ((id = "local:" +:+ ld_Name ds ∧ ent_Type e = ld_Type ds)
     ∨ (id = "local:" +:+ ld_Name ds +:+ ":ssh" ∧ ent_ProxyType e = "ssh-proxy" ∧ shell_allowed ds)).

Lemma discovery_lookups ds d :
  ld_Discovery ds = Some d →
  SSHAccessEnabled (discovery_config ds) = dd_SSHAccess d
  ∧ as_string (discovery_config ds !! "known_hosts_file") = dd_KnownHostsFile d
  ∧ stringSlice (discovery_config ds !! "allowed_cidrs")
    = List.filter (λ s, negb (String.eqb s "")) (ld_AllowedHosts ds).
Proof.
  intros Hd. unfold SSHAccessEnabled, discovery_config, applyDiscoveryConfig, base_config.
  rewrite Hd, !lookup_ldap_member. split_and!.
  - eval_lookup. by destruct (dd_SSHAccess d).
  - eval_lookup. by destruct (String.eqb_spec (dd_KnownHostsFile d) "").
  - eval_lookup. by destruct (ld_AllowedHosts ds).
Qed.

Lemma local_proxy_discovery ds pt kind cfg :
  local_proxy ds = Some (pt, kind, cfg) → pt = "discovery-proxy" →
  ld_Type ds = "discovery" ∧ cfg = discovery_config ds.
Proof.
  unfold local_proxy. intros E ->. revert E.
  repeat match goal with
  | |- context [if bool_decide ?P then _ else _] => destruct (bool_decide P); [by intros [=]|]
  | |- context [if ?a || ?b then _ else _] => destruct (a || b); [by intros [=]|]
  end.
  destruct (String.eqb_spec (ld_Type ds) "ssh"); [by intros [=]|].
  destruct (String.eqb_spec (ld_Type ds) "discovery"); [by intros [= <-]|].
  repeat match goal with
  | |- context [if String.eqb ?a ?b then _ else _] => destruct (String.eqb a b); [by intros [=]|]
  end. done.
Qed.

Lemma sibling_registers ds pt kind cfg d creds sib p :
  local_proxy ds = Some (pt, kind, cfg) → pt = "discovery-proxy" → SSHAccessEnabled cfg = true →
  ent_ID d = "local:" +:+ ld_Name ds →
  SSHAccessSibling d cfg creds signingEnabled = Ok (sib, p) → registers ds (ent_ID sib) sib.
Proof.
  intros Hlp Hpt Hen Hid Hsib. destruct (local_proxy_discovery _ _ _ _ Hlp Hpt) as [Ht ->].
  pose proof (sibling_id _ _ _ _ _ _ Hsib) as Hsid. split; [done|]. right.
  rewrite Hsid, Hid. split; [by rewrite !app_assoc|]. unfold SSHAccessSibling in Hsib.
  apply bind_Ok in Hsib as (out & (Hsg & Hkh & Hcs & _)%SSHAccessConfig_Ok & Hsib).
  destruct (Ssh.Configure _ _ _ _ _) as [[r q] ev]. apply bind_Ok in Hsib as (u & _ & Hsib).
  injection Hsib as <- _. split; [done|]. split; [done|]. split; [done|].
  destruct (ld_Discovery ds) as [b|] eqn:Hd.
  - destruct (discovery_lookups _ _ Hd) as (Hs & Hk & Hc). rewrite Hk in Hkh. rewrite Hc in Hcs.
    split; [|exists b; split_and!; congruence].
    destruct (List.filter _ _) as [|h l] eqn:Ef; [done|]. exists h.
    assert (h ∈ List.filter (λ s, negb (String.eqb s "")) (ld_AllowedHosts ds)) as Hin by (rewrite Ef; left).
    rewrite list_elem_of_In, List.filter_In, <- list_elem_of_In in Hin. destruct Hin as [? Hne].
    split; [done|]. by apply negb_true_iff, String.eqb_neq in Hne.
  - exfalso. revert Hen. unfold SSHAccessEnabled, discovery_config, applyDiscoveryConfig, base_config.
    rewrite Hd. by eval_lookup.
Qed.

(** Every registered datasource comes from one of the list. *)
Definition from_list (l : list LocalDatasource) (reg : Registry) : Prop :=
  ∀ id e, configs reg !! id = Some e → ∃ ds, ds ∈ l ∧ registers ds id e.

Lemma from_list_register l reg ds id e p :
  from_list l reg → ds ∈ l → registers ds id e → from_list l (Register reg id e p).1.
Proof.
  intros Hl Hds Hr i e'. simpl. destruct (decide (i = id)) as [-> |].
  - rewrite lookup_insert_eq. intros [= <-]. by exists ds.
  - rewrite lookup_insert_ne by done. apply Hl.
Qed.

Lemma from_list_step l st ds :
  from_list l st.1 → ds ∈ l → from_list l (configureDatasource w signingEnabled st ds).1.
Proof.
  destruct st as [reg m]. intros Hl Hds. unfold configureDatasource.
  destruct (local_proxy ds) as [[[pt kind] cfg]|] eqn:Elp; [|done].
  destruct (local_creds w m ds _) as [creds m'].
  destruct (creds ← creds; _) as [creds'|]; [|done].
  destruct (se_configure w kind cfg creds') as [p|]; [|done].
  set (entry := MkEntry _ _ _ _ _ _).
  assert (from_list l (Register reg (ent_ID entry) entry p).1) as Hl'.
  { eapply from_list_register; [done..|]. split; [done|]. by left. }
  destruct (String.eqb_spec pt "discovery-proxy") as [Hpt|]; [|done].
  destruct (SSHAccessEnabled cfg) eqn:Een; [|done]. cbn [andb].
  destruct (SSHAccessSibling entry cfg creds' signingEnabled) as [[sib sp]|] eqn:Es; [|done].
  eapply from_list_register; [done..|]. exact (sibling_registers ds pt kind cfg entry creds' sib sp Elp Hpt Een eq_refl Es).
Qed.
End registration.

Lemma start_from_list `{MapOrder, SshLib} w signingEnabled m l :
  from_list signingEnabled l (start_registry w signingEnabled m l).1.
Proof.
  unfold start_registry.
  assert (∀ k st, (∀ ds, ds ∈ k → ds ∈ l) → from_list signingEnabled l st.1 →
            from_list signingEnabled l (foldl (configureDatasource w signingEnabled) st k).1) as Hk.
  { induction k as [|ds k IH]; intros st Hin Hst; [done|]. simpl. apply IH; [set_solver|].
    apply from_list_step; set_solver. }
  by apply (Hk l (NewRegistry, m)).
Qed.

(** C19. What an agent starts with: both keys of its identity are set; every datasource
    of its registry is a listed one under "local:" and its name, or the SSH sibling of a
    listed discovery datasource; and such a sibling is there only if the agent verifies
    signatures and the block asks for it, names a known-hosts file and has a non-empty
    scope. *)
Theorem newApp_registrations `{Viper, AesGcm, Ed25519, KeyFormats, MapOrder, SshLib} w d path h client :
  newApp w d path = Ok (h, client) →
  ∃ cfg, Load path = Ok cfg ∧ ac_AccessKey cfg ≠ "" ∧ ac_AccessSecret cfg ≠ ""
    ∧ (Enabled (h_verifier h) = true ↔ ac_SigningPublicKey cfg ≠ "")
    ∧ ∀ id entry, configs (h_registry h) !! id = Some entry →
        ∃ ds, ds ∈ ac_Datasources cfg ∧ registers (Enabled (h_verifier h)) ds id entry.
Proof.
  unfold newApp. intros (cfg & Hl & Hn)%bind_Ok. exists cfg. split; [done|].
  apply bind_Ok in Hn as (store & _ & Hn). apply bind_Ok in Hn as (v & Hv%wrap_err_Ok & Hn).
  pose proof (start_from_list w (Enabled (Some v))
    (NewManager [provider_of (NewAWSSM (ac_AWSRegion cfg));
                 provider_of (NewGCPSM (ac_GCPProjectID cfg) (ac_GCPCredentialsFile cfg));
                 provider_of (NewAzureKV (ac_AzureVaultURL cfg) (ac_AzureTenantID cfg) (ac_AzureClientID cfg))])
    (ac_Datasources cfg)) as Hs.
  destruct (start_registry _ _ _ _) as [reg mgr]. injection Hn as <- <-. cbn [h_verifier h_registry].
  unfold Load in Hl. apply bind_Ok in Hl as (u & _ & Hl). apply bind_Ok in Hl as (c & _ & Hl).
  apply bind_Ok in Hl as (u1 & Hk%fail_if_Ok%String.eqb_neq & Hl).
  apply bind_Ok in Hl as (u2 & Hsec%fail_if_Ok%String.eqb_neq & [= ->]).
  split_and!; [done|done| |exact Hs]. unfold NewVerifier in Hv. cbn [Enabled].
  destruct (String.eqb_spec (ac_SigningPublicKey cfg) "") as [E|E].
  - injection Hv as <-. split; [discriminate|done].
  - apply bind_Ok in Hv as (k & _ & [= <-]). done.
Qed.

Definition demo_env : start_env :=
  MkStartEnv demo_files (λ _ _ _, Ok 0%nat) (λ _, 1%nat) (λ _ _, Err (errorf "no provider")) 0 0.

Definition demo_shell : LocalDatasource :=
  MkLocal "discovery" "lan" "" "" 0 "" "" "" false "" "" "" "" "" demo_creds false false 0
    ["10.0.0.0/8"] (Some demo_block) "" "" "" ∅ "".

#[local] Instance accepting_ssh : SshLib := {|
  knownhosts_New _ := Ok tt; ParseAuthorizedKey k := Ok k; ParsePrivateKey k := Ok k;
  ParsePrivateKeyWithPassphrase k _ := Ok k |}.

#[local] Instance demo_viper : Viper := {|
  ReadInConfig _ := None;
  viper_Unmarshal _ :=
    Ok (MkAgentConfig "wss://relay" "key" "secret" "/data" [demo_shell] 10
          (EncodeToString (pad_to 32 "k")) "" "" "" "" "" "") |}.

#[local] Existing Instance toy.
#[local] Existing Instance demo_formats.
#[local] Instance no_aes : AesGcm := {| gcm_Seal _ _ s := s; gcm_Open _ _ s := Some s; sha256_Sum s := s |}.
#[local] Existing Instance in_key_order.

Definition demo_app : result (Handler * relay_settings) := newApp demo_env None "/etc/forager.yaml".

Lemma demo_shell_entry :
  is_Some match demo_app with Ok (h, _) => configs (h_registry h) !! "local:lan:ssh" | Err _ => None end.
Proof. vm_compute. by eexists. Qed.

Lemma newApp_registrations_witness :
  ∃ h client entry, demo_app = Ok (h, client)
    ∧ configs (h_registry h) !! "local:lan:ssh" = Some entry
    ∧ Enabled (h_verifier h) = true
    ∧ ∃ ds, ds ∈ [demo_shell] ∧ registers true ds "local:lan:ssh" entry.
Proof.
  destruct demo_app as [[h client]|e] eqn:E; [|by vm_compute in E].
  destruct (newApp_registrations demo_env None "/etc/forager.yaml" h client E)
    as (cfg & Hl & _ & _ & Hen & Hreg).
  injection Hl as <-. assert (Enabled (h_verifier h) = true) as Hon by (apply Hen; discriminate).
  assert (is_Some (configs (h_registry h) !! "local:lan:ssh")) as [entry He].
  { pose proof demo_shell_entry as Hd. by rewrite E in Hd. }
  exists h, client, entry. rewrite Hon in Hreg. exact (conj eq_refl (conj He (conj Hon (Hreg _ _ He)))).
Defined.
