(* ===== verification/Main.v ===== *)
(** * src/cmd/main.go and src/cmd/service_unix.go: from the command line to an agent

    What the program does with its arguments: a subcommand, the version, or the agent,
    which runs until its context ends and then closes its datasources. *)

From S2P Require Import Prelude GoStrings GoJson GoTime Signing Registry Ssh Secrets Handler Pack Discovery Http ServiceMap Client Flags Commands App.
#[local] Open Scope Z_scope.

(** How the program ends. *)
Inductive program_end :=
  | ByCommand (c : command)
  | PrintedVersion (s : string)
  | Exited (code : Z) (closed : list proxyref)
  | Stopped (closed : list proxyref).

(** pkg/version. *)
Definition version_String (v : version_info) : string :=
  v_Version v +:+ " (commit " +:+ v_Commit v +:+ ", built " +:+ v_BuildTime v +:+ ")".

(** What the client's run does to the handler, and the error it returns: [None] stands
    for a nil error, and whether an error is [context.Canceled]. *)
Record agent_run := MkAgentRun {
  ran : Handler → Handler;
  run_error : option (error * bool);
}.

(** [app.run]: the registry is closed when the client returns. *)
Definition app_run (r : agent_run) (h : Handler) : option (error * bool) * (Registry * list proxyref) :=
  (run_error r, CloseAll (h_registry (ran r h))).

Section main.
Context `{Viper, AesGcm, MapOrder, SshLib, Ed25519, KeyFormats, Yaml, YamlHead, TlsLib}.

Definition runService (s : start_env) (d : disk) (r : agent_run) (configPath : string) : program_end :=
  match newApp s d configPath with
  | Err _ => Exited 1 []
  | Ok (h, _) =>
      let '(err, (_, closed)) := app_run r h in
      match err with
      | Some (_, false) => Exited 1 closed
      | _ => Stopped closed
      end
  end.

Definition main_flags : list (string * flag_value) := [("config", FString ""); ("version", FBool false)].

Definition main (o : os_env) (w : Discovery.world) (nets : nat → network) (usage : string)
    (v : version_info) (s : start_env) (d : disk) (r : agent_run) (args : list string) : program_end :=
  match runStandalone o w nets usage args with
  | Some c => ByCommand c
  | None =>
      match parse_flags (list_to_map main_flags) args with
      | FlagExit code => Exited code []
      | Parsed fs _ =>
          if bool_flag fs "version" then PrintedVersion ("nudgebee-forager " +:+ version_String v)
          else runService s d r (str_flag fs "config")
      end
  end.

(** However the agent's run ends, every proxy registered by then is closed, once per
    registration. *)
Lemma runService_closes s d r path h client :
  newApp s d path = Ok (h, client) →
  ∃ closed, (runService s d r path = Stopped closed ∨ runService s d r path = Exited 1 closed)
    ∧ closed ≡ₚ (map_to_list (proxies (h_registry (ran r h)))).*2.
Proof.
  intros Hn. unfold runService, app_run. rewrite Hn. cbn [CloseAll].
  eexists. split; [|reflexivity]. destruct (run_error r) as [[e []]|]; auto.
Qed.

(** Words that are no subcommand start the agent, as before there were any. *)
Lemma main_agent o w nets usage v s d r path :
  main o w nets usage v s d r ["--config"; path] = runService s d r path
  ∧ main o w nets usage v s d r [] = runService s d r "".
Proof. split; reflexivity. Qed.
End main.
