(* ===== verification/Service.v ===== *)
(** * src/cmd/service_windows.go: the agent as a Windows service

    The handler of the service control manager: the states it reports, the requests it
    answers, and how it ends. *)

From S2P Require Import Prelude GoStrings GoJson GoTime Signing Registry Ssh Secrets Handler Pack Discovery Http ServiceMap Client Flags Commands App Main.
#[local] Open Scope Z_scope.

(** golang.org/x/sys/windows/svc. *)
Inductive svc_state := StartPending | SvcRunning | StopPending.
Inductive svc_accept := AcceptStop | AcceptShutdown.
Record Status := MkStatus { State : svc_state; Accepts : list svc_accept }.
Inductive svc_cmd := Stop | Shutdown | Interrogate | OtherCmd (code : Z).

#[global] Instance svc_state_eq_dec : EqDecision svc_state.
Proof. solve_decision. Defined.

(** What the loop receives: a request with the status the manager knows, or the end of
    the agent's run, with its error and whether that is [context.Canceled]. *)
Inductive svc_event :=
  | Change (cmd : svc_cmd) (current : Status)
  | AppEnded (err : option (error * bool)).

(** How [Execute] returns, and whether the agent's run has returned by then. *)
Record svc_result := MkSvcResult { svc_specific : bool; exit_code : Z; app_ended : bool; took : Z }.

Definition stopTimeout : Z := 30 * Second.

(** The request to stop: the agent is cancelled and waited for; [ends_after] is how long
    its run takes to return, [None] if it does not. *)
Definition stop_service (ends_after : option Z) : svc_result :=
  match ends_after with
  | Some t => if t <=? stopTimeout then MkSvcResult false 0 true t else MkSvcResult false 0 false stopTimeout
  | None => MkSvcResult false 0 false stopTimeout
  end.

(** The loop, over what it receives in order, with the statuses it sends; it is still
    running if the events end first. *)
Fixpoint service_loop (ends_after : option Z) (events : list svc_event) : list Status * option svc_result :=
  match events with
  | [] => ([], None)
  | Change (Stop | Shutdown) _ :: _ => ([MkStatus StopPending []], Some (stop_service ends_after))
  | Change Interrogate current :: rest =>
      let '(sent, r) := service_loop ends_after rest in (current :: sent, r)
  | Change (OtherCmd _) _ :: rest => service_loop ends_after rest
  | AppEnded (Some (_, false)) :: _ => ([], Some (MkSvcResult true 1 true 0))
  | AppEnded _ :: _ => ([], Some (MkSvcResult false 0 true 0))
  end.

Definition Execute {A} (app : result A) (ends_after : option Z) (events : list svc_event)
  : list Status * option svc_result :=
  match app with
  | Err _ => ([MkStatus StartPending []], Some (MkSvcResult true 1 false 0))
  | Ok _ =>
      let '(sent, r) := service_loop ends_after events in
      (MkStatus StartPending [] :: MkStatus SvcRunning [AcceptStop; AcceptShutdown] :: sent, r)
  end.

(** How the manager runs the program: whether it is a service can be told, the error of
    [svc.Run], the requests, and how long the agent takes to stop. *)
Record svc_env := MkSvcEnv {
  IsWindowsService : result bool;
  svc_Run : option error;
  svc_events : list svc_event;
  svc_ends_after : option Z;
}.

Section service.
Context `{Viper, AesGcm, MapOrder, SshLib, Ed25519, KeyFormats, Yaml, YamlHead, TlsLib}.

(** What a service has closed when [Execute] returns: the proxies, if the run has. *)
Definition service_closed (s : start_env) (d : disk) (r : agent_run) (configPath : string) (x : svc_result)
  : list proxyref :=
  match newApp s d configPath with
  | Ok (h, _) => if app_ended x then (app_run r h).2.2 else []
  | Err _ => []
  end.

(** [None]: the service runs on. *)
Definition runService_windows (e : svc_env) (s : start_env) (d : disk) (r : agent_run) (configPath : string)
  : option (program_end) :=
  match IsWindowsService e with
  | Err _ => Some (Exited 1 [])
  | Ok true =>
      match svc_Run e with
      | Some _ => Some (Exited 1 [])
      | None =>
          match (Execute (newApp s d configPath) (svc_ends_after e) (svc_events e)).2 with
          | Some x => Some (Stopped (service_closed s d r configPath x))
          | None => None
          end
      end
  | Ok false => Some (runService s d r configPath)
  end.
End service.

(** ** How a service ends *)

(** Events after which the loop goes on, and what it sends for them. *)
Definition passes (e : svc_event) : bool :=
  match e with Change Interrogate _ | Change (OtherCmd _) _ => true | _ => false end.
Definition interrogated (l : list svc_event) : list Status :=
  omap (λ e, match e with Change Interrogate current => Some current | _ => None end) l.

(** The events that end the loop. *)
Definition run_failed (e : svc_event) : bool :=
  match e with AppEnded (Some (_, false)) => true | _ => false end.
Definition asks_stop (e : svc_event) : bool :=
  match e with Change (Stop | Shutdown) _ => true | _ => false end.

Lemma service_loop_passes ends l : forallb passes l = true → service_loop ends l = (interrogated l, None).
Proof.
  induction l as [|[[| | |] cur|err] l IH]; cbn; try done; intros H; rewrite (IH H); done.
Qed.

Lemma service_loop_app ends l l' :
  forallb passes l = true →
  service_loop ends (l ++ l') = (interrogated l ++ (service_loop ends l').1, (service_loop ends l').2).
Proof.
  induction l as [|[[| | |] cur|err] l IH]; cbn; try done; intros H; rewrite ?(IH H); try done.
  by destruct (service_loop ends l').
Qed.

Lemma stop_service_ends ends :
  svc_specific (stop_service ends) = false ∧ exit_code (stop_service ends) = 0
  ∧ took (stop_service ends) <= stopTimeout
  ∧ (app_ended (stop_service ends) = true ↔ ∃ t, ends = Some t ∧ t <= stopTimeout).
Proof.
  unfold stop_service. destruct ends as [t|]; [destruct (Z.leb_spec t stopTimeout)|]; cbn; split_and!; try done; try lia;
    naive_solver lia.
Qed.

Lemma passes_split l :
  forallb passes l = true ∨ ∃ pre e post, l = pre ++ e :: post ∧ forallb passes pre = true ∧ passes e = false.
Proof.
  induction l as [|e l [IH|(pre & e' & post & -> & Hp & He)]]; [by left|..]; cbn; destruct (passes e) eqn:E; auto.
  - right. by exists [], e, l.
  - right. exists (e :: pre), e', post. cbn. by rewrite E.
  - right. by exists [], e, (pre ++ e' :: post).
Qed.

(** A service that has started reports so, answers interrogations with the status the
    manager knows, runs on until it is asked to stop or the agent ends, and then returns:
    a stop is announced and takes thirty seconds at most, and its exit code is 0 also if
    the agent did not end in that time; the exit code is 1 exactly if the agent's run
    ended by itself with an error other than its cancellation. *)
Theorem service_ends {A} (app : A) ends events :
  ∃ sent,
    (Execute (Ok app) ends events).1
      = MkStatus StartPending [] :: MkStatus SvcRunning [AcceptStop; AcceptShutdown] :: sent
    ∧ ((forallb passes events = true ∧ sent = interrogated events ∧ (Execute (Ok app) ends events).2 = None)
       ∨ ∃ pre e post r,
           events = pre ++ e :: post ∧ forallb passes pre = true ∧ passes e = false
           ∧ sent = interrogated pre ++ (if asks_stop e then [MkStatus StopPending []] else [])
           ∧ (Execute (Ok app) ends events).2 = Some r
           ∧ took r <= stopTimeout
           ∧ exit_code r = (if run_failed e then 1 else 0)
           ∧ (app_ended r = true ↔ asks_stop e = true → ∃ t, ends = Some t ∧ t <= stopTimeout)).
Proof.
  unfold Execute. destruct (service_loop ends events) as [sent res] eqn:E. exists sent. split; [done|].
  destruct (passes_split events) as [Hp|(pre & e & post & -> & Hp & He)].
  - left. rewrite service_loop_passes in E by done. by injection E as <- <-.
  - right. rewrite service_loop_app in E by done. injection E as <- <-.
    destruct (stop_service_ends ends) as (Hs & Hc & Ht & Ha).
    destruct e as [[| | |] cur|[[err []]|]]; try done; cbn; eexists pre, _, post, _; cbn;
      (split_and!; [done..|done|done| | |]); try done; rewrite ?Ha; naive_solver.
Qed.
